(* ===== verification/_CoqProject ===== *)
-Q . S2P
Prelude.v
GoTypes.v
Headers.v
Dispatch.v
Sessions.v
Buffers.v
Drain.v
Socket.v
Connection.v
ProtoV1.v
Handler.v
Reader.v
Cocainetest.v
Worker.v
App.v
System.v
Progress.v
Stacks.v
Channel.v
Service.v
Client.v
ClientProgress.v
Resolver.v
Locking.v
HTTP.v
GoStrings.v
Proxy.v
Tokens.v
Defaults.v
Startup.v
Programs.v
Bridge.v
Loggers.v
BridgeMain.v
Tracing.v
V11Message.v
V11Worker.v
V11Startup.v
V11Service.v
V11Locking.v
V11Locator.v
V11Logger.v
V11HTTP.v
System11.v
HTTPBody.v
HTTPApp.v
