(* ===== verification/Prelude.v ===== *)
(** * A verification library for the Go Cocaine framework

    The repository is a framework for applications of the Cocaine platform, in
    two versions: [src/cocaine12] (protocol v1 and services v0.12) and
    [src/cocaine] (v0.11). An application is a worker: it connects to the
    runtime, is invoked with sessions, reads the chunks of each session from a
    request and answers on a response. It may be a client of services: it
    resolves one by name, calls its methods, each call opening a session, and
    gets the results. Both sides run over an asynchronous socket: a connection
    with a goroutine per direction and an unbounded buffer on each side.

    ** Files

    - Prelude.v (this file): outcomes of calls that may panic, runs of labelled
      transition functions, the tactics and generic lemmas the others share.
    - GoTypes.v: machine integers, byte slices, dynamic values, errors and
      [Message] (cocaine12/protocol.go).
    - Headers.v: the tracing headers of cocaine12/protocol.go ([getTrace],
      [getTraceData], [traceInfoToHeaders]).
    - Dispatch.v: method tables and message trees (cocaine12/dispatch.go,
      apilocator.go).
    - Sessions.v: the session tables of cocaine12/sessions.go (Module [V12]) and
      cocaine/sessionkeeper.go (Module [V11]), instances of the class
      [SessionTable].
    - Buffers.v: the queueing goroutines, instances of the class [BufferLoop]:
      [asyncBuff.loop] of cocaine12/asocket.go ([AsyncBuff]), [loop] of
      cocaine12/handler.go ([HandlerLoop]), and of v0.11 [asyncBuff.loop] and the
      two [getServiceChanPair] ([StopLoop]), [newRequest] and [newResponse]
      ([QuitLoop]).
    - Drain.v: the callers of [Stop] and [Drain] of cocaine12/asocket.go beside
      [AsyncBuff].
    - Socket.v: [asyncRWSocket] of cocaine12/asocket.go over two [AsyncBuff], and
      the two sockets of cocaine/asocket.go over [StopLoop], instances of the class
      [SocketKind].
    - Connection.v: such a socket as its user has it, for System.v and Client.v.
    - ProtoV1.v: the messages and the dispatcher of cocaine12/wprotov1.go and
      worker_protocol.go; the interface [protocolHandler] is a class.
    - Handler.v: requests, responses and the trap around a handler
      (cocaine12/handler.go, [trapRecoverAndClose] of workerng.go) and
      [EventHandlers] (worker_handlers.go, [Run] of worker.go).
    - Reader.v: [RequestReader] of cocaine12/utils.go.
    - Cocainetest.v: the request and the response for tests of cocaine12/cocainetest.
    - Worker.v: [WorkerNG] of cocaine12/workerng.go with its loop and its
      environment; it is an instance of [protocolHandler] and uses [HandlerLoop]
      for its requests. Module [StopRace] is [Stop] run by two goroutines.
    - App.v: an application: the worker with the goroutines that run its handlers
      ([onInvoke] of workerng.go, [Read] and [Send]); what a session is answered.
    - System.v: a process: App.v over the socket of Socket.v, from the messages that
      the connection delivers to those it carries.
    - Progress.v: what such a process can always do without the network.
    - Stacks.v: the dump of the stacks (cocaine12/stack.go, [printAllStacks]) and the
      worker with the signal that asks for it.
    - Channel.v: [rx] and [tx] of cocaine12/channel.go with concurrent getters
      and pushers, and [serviceRes] of service.go.
    - Service.v: [Service] of cocaine12/service.go, with the connection loops of
      [serviceCreateIO] and of [NewLocator] (locator.go), over the session table
      and the channels.
    - Client.v: a service over its connections, with the goroutines that read them.
    - ClientProgress.v: such a client can always go on until nothing is left to do.
    - Resolver.v: the locator of cocaine12/locator.go as a [Service], [serviceResolve]
      and [NewService].
    - HTTP.v: the adapter of [net/http] handlers, its [ResponseWriter] and the
      conversion of headers (cocaine12/httphandler.go, httpresponse.go); an
      adapted handler is a handler program of Handler.v.
    - V11Message.v: the messages of v0.11 and [streamUnpacker] (cocaine/message.go).
    - V11Worker.v: the worker of v0.11 (cocaine/worker.go), with its handlers,
      over [streamUnpacker] and [QuitLoop].
    - V11Startup.v: the start of such a worker from its command line, and its setters,
      over the parse of Defaults.v.
    - V11Service.v: the service of v0.11 (cocaine/service.go, [getMethodNumber] of
      locator.go), over [streamUnpacker], the table [V11] and [StopLoop].
    - Locking.v: the mutexes of service.go, channel.go and clogger.go as threads
      of instructions.
    - V11Locking.v: the mutexes of cocaine/service.go and sessionkeeper.go, with
      goroutines that reconnect, call, detach and close.
    - GoStrings.v: slices of strings and bytes as Go takes them, with their panics.
    - Proxy.v: the HTTP gateway of cocaine12/proxy/proxy.go, composed with the
      handlers of HTTP.v.
    - Tokens.v: the registry of token managers (cocaine12/token.go) and the manager
      of tickets with its goroutine (auth/tvm/tvm.go).
    - Defaults.v: cocaine12/defaults.go over the [flag] package of the language.
    - Startup.v: [NewWorkerNG] of workerng.go, over Defaults.v, Tokens.v and Worker.v.
    - Programs.v: the adapter [Worker] of worker.go and the application of
      example/echo.go, over Startup.v and App.v.
    - Bridge.v: cocaine12/bridge/bridge.go, over HTTP.v, Proxy.v and Defaults.v.
    - BridgeMain.v: the process of the bridge (cmd/bridge_main.go), from its arguments
      and environment to its end, over Bridge.v, Startup.v and Loggers.v.
    - Loggers.v: the class of loggers, entries, severities and the two loggers of
      cocaine12 (clogger.go, fallbacklogger.go, logger.go, entry.go, severity.go).
    - Tracing.v: contexts and spans (cocaine12/trace.go) and their use by [call] and
      [onInvoke].
    - V11Locator.v: the resolution of a name and the start of a service of v0.11
      (cocaine/locator.go, service.go).
    - V11Logger.v: the logger of v0.11 (cocaine/logger.go) over the write-only socket.
    - V11HTTP.v: the adapter of HTTP handlers of v0.11 (cocaine/httpreq.go,
      response_writer.go), with the reference semantics of a handler that both
      versions implement.
    - System11.v: a process of v0.11, the worker of V11Worker.v over the socket of
      Socket.v, from the bytes that arrive to those that are sent.
    - HTTPBody.v: the bodies of requests, plain or read through gzip, in both versions
      ([gzipReader] of httphandler.go, [decompressBody] of cocaine/httpreq.go).
    - HTTPApp.v: handlers that parse multipart forms, the maps of handlers of
      httphandler.go, and the application that [Run] makes of such a map, over
      Startup.v, Programs.v and App.v.

    ** How the code is represented

    A Go value that may be nil is an [option], a struct is a record with the
    source's field names, an interface with several implementations or clients is
    a class. A call that can panic returns an [outcome]. A goroutine is a
    transition function whose labels are its communications ([select] cases,
    channel operations, ticks); the scheduler, the network, the timers and the
    choice among ready cases of a [select] are the sequence of labels, so a
    theorem about all label sequences holds for every interleaving. Operations
    that the code runs under a lock are one step where that lock is respected by
    all (the session table), and are split where the split matters: [Get] and
    [push] in Channel.v, the order of sessions in Locking.v, [Stop] in
    [StopRace]. The order in which [range] visits a map is an argument, constrained
    to be a permutation of the map. [uint64] and [int64] are [Z] with their
    wrap-around; where a theorem needs a counter not to wrap, the number of steps
    is bounded by 2^64. Code outside the repository's own packages is a parameter:
    the msgpack codec ([convertPayload]), the dialer ([dial]), the text of foreign
    errors ([text]).

    ** What the theorems show

    - Buffers and socket: each loop is a FIFO queue ([buffer_refines_fifo]), ends
      once its input is closed ([buffer_terminates]), and is not cut short by a
      [Stop] after a [Drain], nor do calls of them alone panic or hang
      ([stop_and_drain]); the socket keeps both directions in order and shuts
      down once ([socket_order], [socket_shutdown]).
    - Protocol and handlers: the dispatcher does what its specification
      [calls_of] says for every handler ([dispatcher_refines_spec]), no session
      is invoked twice; an invocation answers with chunks and exactly one end
      whatever its handler does ([invocation_stream], [trap_closes]); requests and
      readers give back what was sent; a test with the doubles of cocainetest shows
      what a worker sends ([cocainetest_faithful]).
    - HTTP: a handler that returns makes one head, a body that fits it and a
      choke ([http_response_shape]); panics are hidden ([http_panic_hidden]);
      headers survive both conversions ([headers_roundtrip]); the replies to
      requests that cannot be read; both versions send what the reference run of the
      handler says ([http_versions_agree]) and read the same bodies
      ([request_bodies]). An application of HTTP handlers answers every session with
      what its handler puts out and leaves no file of a form ([http_application]).
    - Gateway and bridge: the routes of the gateway ([route_equivalence]); its client
      gets the response that the handler of a worker made ([gateway_serves]), and
      through the bridge the one that the application made ([bridge_serves]); the
      life of a bridge ([bridge_life]), the arguments of its application
      ([bridge_arguments]), and its main program from the command line
      ([bridge_starts]) to the end of the process ([bridge_process_ends]).
    - Start-up: the command line that the runtime writes is read back
      ([runtime_command_line]); the worker it makes ([worker_starts]) and every
      failure ([worker_startup_errors]); tokens and tickets ([tvm_tickets]).
    - Services started by name: [service_starts], and for v0.11 [service11_resolves],
      where the answer may be cut anywhere.
    - Logs and traces: the loggers emit the same texts ([loggers_agree]), ask for
      their verbosity once ([verbosity_cached]); what becomes of the messages of a
      v0.11 logger ([logger11_run]); a trace goes from the context of a client to
      that of the handler ([trace_propagates]) and its ids stay in bounds
      ([spans_bounded]).
    - Worker: every run delivers to each handler the stream of its session
      ([worker_refines_streams], against the specification [spec_msg]), and the
      connection carries for each session what its handler answers to that stream
      when it runs alone, however the handlers interleave ([app_serves]); a session
      is never stuck ([app_answers]); over its socket, from what is decoded to what is
      on the wire, a process does the same ([system_serves]) and is never stuck
      ([system_answers]); the example answers every session
      ([echo_serves]); when the
      worker panics, stops, is disowned, and what it writes; a signal for the stacks
      is always handled and changes nothing ([stack_signals]).
    - Version 0.11: messages survive any fragmentation ([feed_any_chunking]) and
      [Feed] always returns ([feed_terminates]); which messages panic
      ([unpack_panics]); the worker delivers the streams ([worker11_streams]) and
      forwards the replies in order ([worker11_replies]); when it crashes
      ([worker11_crashes]); over its socket a process does the same with the bytes of
      the network ([system11_serves]), and what becomes of it when the connection ends
      ([lost_connection11]); its start ([worker11_starts]) and its settings
      ([worker11_settings]); the service gives the calls their results
      ([service11_delivers]), when it panics ([service11_panics]), and how a late
      loop disturbs a new connection ([late_loop_disconnects]); what its locks ensure
      and when a reconnection waits for itself ([service11_reconnects]).
    - Tables and headers: fresh ids ([session_ids_unique]), method lookup in any
      map order, the tracing round trip ([trace_headers_roundtrip]).
    - Channels: order and absence of loss with any number of getters
      ([channel_fifo]), progress of a single client, conformance to the trees
      ([get_follows_tree], [tx_follows_tree]), and where conformance is not enough
      ([push_ahead_of_get_panics]).
    - Service: the loop demultiplexes by session in every run
      ([service_demultiplexes]), what a call, a reconnection and a loss of the
      connection do; over its sockets a client gets what arrives ([client_delivers]) and
      can always go on until nothing is left to do ([client_drains]), and
      what two loops on one of them do to its order ([late_loops_reorder]); sessions reach the wire in order ([new_sessions_ordered])
      except for the logger's; the recursive read lock.

    The only fuel besides the length of a label sequence is that of [Feed_loop],
    one more than the bytes of its buffer, which [feed_terminates] shows to be
    enough, and that of [ReadAll], one more than the bytes of the body, which
    [request_bodies] shows to be enough; the fifty turns of [dumpStack] are more than
    an [int] can double, as [stack_signals] shows. [buffer_terminates] gives the
    bound of the loops; the other loops of the code are structural recursions
    over the list they range over.

    ** Not modelled

    Dialing and the codec, which are code outside of the repository; the parse of a
    multipart body and the names of temporary files, which are parameters; decompression itself, which is a class with the
    laws its package documents; the child process of the bridge, which is the
    environment; and the main program of the gateway, which only starts it. The outcome of the
    resolution that a [Reconnect] or a [Call] makes is an argument of them:
    Resolver.v says what it can be. *)
From stdpp Require Export prelude strings gmap list pretty.
From Stdlib Require Import ZArith Lia Relations.

#[global] Set Default Proof Using "Type".

(** ** Definitions *)

(** The outcome of a Go call that can panic: [Ok a] is an ordinary return
    (errors included in [a]), [Panic] a run-time panic (nil dereference,
    index out of range, close of a closed channel, ...). *)
Inductive outcome (A : Type) : Type :=
| Ok (a : A)
| Panic.
Arguments Ok {A} a.
Arguments Panic {A}.

Definition outcome_bind {A B} (m : outcome A) (k : A -> outcome B) : outcome B :=
  match m with
  | Ok a => k a
  | Panic => Panic
  end.

Declare Scope go_scope.
Delimit Scope go_scope with go.
Notation "'let*' x ':=' m 'in' k" := (outcome_bind m (fun x => k))
  (at level 10, x name, m at level 100, k at level 200) : go_scope.
Notation "'let*' ' p ':=' m 'in' k" := (outcome_bind m (fun x => match x with p => k end))
  (at level 10, p pattern, m at level 100, k at level 200) : go_scope.

(** A nil-able reference or pointer is an [option]; as a list of its content. *)
Definition opt_list {A} (o : option A) : list A :=
  match o with
  | Some a => [a]
  | None => []
  end.

(** Runs of a labelled transition function. *)
Section Runs.
Context {S E : Type} (step : S -> E -> option S).

Fixpoint run (s : S) (es : list E) : option S :=
  match es with
  | [] => Some s
  | e :: es' =>
    match step s e with
    | Some s' => run s' es'
    | None => None
    end
  end.

(** States reached from [s0] by a finite sequence of enabled labels. *)
Definition reachable (s0 s : S) : Prop := exists es, run s0 es = Some s.

(** A state in which no label is enabled. *)
Definition stuck (s : S) : Prop := forall e, step s e = None.
End Runs.

(** ** Automation *)

Create HintDb s2p discriminated.

(** Case analysis on every [match] of the goal and the hypotheses, then the
    usual clean-up. *)
Ltac go_cases :=
  repeat (first
    [ progress simplify_eq/=
    | case_match
    | case_decide
    | case_bool_decide ]).

Ltac go_solve := go_cases; try done; try lia; eauto with s2p.

(** Case analysis on the matches of a step equation [H : f s e = Some s']. *)
Ltac step_inv H :=
  repeat (first
    [ progress simplify_eq/=
    | match type of H with
      | context [match ?x with _ => _ end] => destruct x eqn:?
      end ]).

(** ** Generic lemmas *)

Lemma outcome_bind_ok {A B} (m : outcome A) (k : A -> outcome B) b :
  outcome_bind m k = Ok b <-> exists a, m = Ok a /\ k a = Ok b.
Proof. destruct m; simpl; naive_solver. Qed.

Lemma opt_list_Some {A} (a : A) : opt_list (Some a) = [a].
Proof. done. Qed.

Lemma run_app {S E} (step : S -> E -> option S) s es1 es2 :
  run step s (es1 ++ es2) =
    match run step s es1 with
    | Some s' => run step s' es2
    | None => None
    end.
Proof.
  revert s. induction es1 as [|e es1 IH]; intros s; simpl; [done|].
  destruct (step s e); [apply IH | done].
Qed.

Lemma run_snoc {S E} (step : S -> E -> option S) s es e s' :
  run step s (es ++ [e]) = Some s' <->
  exists s1, run step s es = Some s1 /\ step s1 e = Some s'.
Proof.
  rewrite run_app. destruct (run step s es) as [s1|]; simpl.
  - destruct (step s1 e) eqn:?; naive_solver.
  - naive_solver.
Qed.

(** Rule induction for invariants of reachable states. *)
Lemma run_invariant {S E} (step : S -> E -> option S) (Inv : S -> Prop) :
  (forall s e s', Inv s -> step s e = Some s' -> Inv s') ->
  forall es s s', Inv s -> run step s es = Some s' -> Inv s'.
Proof.
  intros Hstep es. induction es as [|e es IH]; intros s s' Hs Hrun; simpl in Hrun.
  - by simplify_eq.
  - destruct (step s e) as [s1|] eqn:He; [|done]. eauto.
Qed.

(** A function of the state that every step changes by appending to it a
    function of the label. *)
Lemma run_accumulates {S E A} (step : S -> E -> option S)
    (view : S -> list A) (add : E -> list A) :
  (forall s e s', step s e = Some s' -> view s' = view s ++ add e) ->
  forall es s s', run step s es = Some s' -> view s' = view s ++ concat (map add es).
Proof.
  intros Hstep es. induction es as [|e es IH]; intros s s' Hrun; simpl in *.
  - simplify_eq. by rewrite app_nil_r.
  - destruct (step s e) as [s1|] eqn:He; [|done].
    rewrite (IH _ _ Hrun), (Hstep _ _ _ He). by rewrite (assoc_L (++)).
Qed.

(** Runs are no longer than a measure that every step decreases. *)
Lemma run_bounded {S E} (step : S -> E -> option S) (mu : S -> nat) (Inv : S -> Prop) :
  (forall s e s', Inv s -> step s e = Some s' -> Inv s' /\ (mu s' < mu s)%nat) ->
  forall es s s', Inv s -> run step s es = Some s' -> (length es + mu s' <= mu s)%nat.
Proof.
  intros Hstep es. induction es as [|e es IH]; intros s s' Hs Hrun; simpl in *.
  - simplify_eq. lia.
  - destruct (step s e) as [s1|] eqn:He; [|done].
    destruct (Hstep _ _ _ Hs He) as [Hs1 Hlt].
    specialize (IH _ _ Hs1 Hrun). lia.
Qed.


(** The permutations of a list of three elements. *)
Lemma Permutation_3_inv {A} (l : list A) (a b c : A) :
  l ≡ₚ [a; b; c] ->
  l = [a; b; c] \/ l = [a; c; b] \/ l = [b; a; c] \/
  l = [b; c; a] \/ l = [c; a; b] \/ l = [c; b; a].
Proof.
  intros Hp.
  assert (Ha : a ∈ l) by (rewrite Hp; set_solver).
  apply list_elem_of_split in Ha as (l1 & l2 & ->).
  assert (Hq : l1 ++ l2 ≡ₚ [b; c]).
  { apply (Permutation_cons_inv (a := a)). rewrite <- Hp. by rewrite Permutation_middle. }
  pose proof (Permutation_length_2_inv (symmetry Hq)) as [He|He].
  all: destruct l1 as [|x [|y [|? ?]]]; simpl in He; simplify_eq/=; naive_solver.
Qed.
