(* ===== verification/GoTypes.v ===== *)
(** * Data shared by the components: machine integers, dynamic values
    ([interface{}]), errors and the [Message] of cocaine12/protocol.go. *)
From S2P Require Import Prelude.
From Stdlib Require Import Strings.Byte ZArith Lia.

(** ** Machine integers

    A Go [uint64] is a [Z] in [0, 2^64); a conversion or an arithmetic
    operation wraps. *)
Definition two64 : Z := (2 ^ 64)%Z.
Definition wrap64 (z : Z) : Z := (z mod two64)%Z.
Definition is_u64 (z : Z) : Prop := (0 <= z < two64)%Z.

(** Two's complement [int64] (and [int] on the supported platforms). *)
Definition wrap_int64 (z : Z) : Z :=
  let u := wrap64 z in if decide (u < 2 ^ 63)%Z then u else (u - two64)%Z.

(** ** Byte slices

    A [[]byte] that may be nil: [None] is the nil slice. *)
Definition gobytes : Type := option (list byte).
Definition bytes_of (b : gobytes) : list byte := default [] b.

#[export] Instance byte_eq_dec : EqDecision byte := Byte.byte_eq_dec.

(** [string(b)] and [[]byte(s)] *)
Definition string_of_bytes (b : gobytes) : string := String.string_of_list_byte (bytes_of b).
Definition bytes_of_string (s : string) : gobytes := Some (String.list_byte_of_string s).

(** ** Dynamic values: the types an [interface{}] of the program can hold *)
Inductive intkind : Type :=
| Kuint | Kuint8 | Kuint16 | Kuint32 | Kuint64
| Kint | Kint8 | Kint16 | Kint32 | Kint64.

Inductive value : Type :=
| VNil
| VBool (b : bool)
| VInt (k : intkind) (z : Z)
| VBytes (b : gobytes)
| VString (s : string)
| VList (l : list value)             (* []interface{} *)
| VIntPair (a b : Z)                 (* [2]int *)
| VOther (type_name : string).       (* any other dynamic type *)

(** ** Errors

    One constructor per error value or error type the code creates or tests;
    [Errorf] is [fmt.Errorf] kept as its format and its arguments, [ExtErr] an
    error made by code outside the model (the codec, the dialer). *)
Inductive error : Type :=
| ErrInvalidHeaderLength
| ErrInvalidHeaderType
| ErrInvalidTraceType
| ErrInvalidTraceNumber
| ErrInvalidTraceValueType
| ErrNotAllTracesPresent
| EOF
| ErrUnexpectedEOF
| ErrClosedPipe
| EINVAL
| ErrStreamIsClosed
| ErrBadPayload
| ErrDisowned
| ErrNoCocaineEndpoint
| ErrConnectionLost
| ErrZeroEndpoints
| ErrRequest (Message : string) (Category Code : Z)
| ServiceError (Code : Z) (Message : string)
| MultiConnectionError (l : list (string * Z * error))
| CtxErr (reason : string)
| Errorf (format : string) (args : list value)
| ExtErr (text : string).

(** ** Messages (cocaine12/protocol.go) *)

(** [CommonMessageInfo] *)
Record CommonMessageInfo : Type := mkInfo {
  Session : Z;
  MsgType : Z
}.

Record Message : Type := mkMessage {
  Info : CommonMessageInfo;
  Payload : list value;
  Headers : list value   (* CocaineHeaders *)
}.

(** The arguments of [Message.String]: "message %v %v payload %v". *)
Definition msg_value (m : Message) : value :=
  VList [VInt Kuint64 (MsgType (Info m)); VInt Kuint64 (Session (Info m)); VList (Payload m)].

Definition msg_session (m : Message) : Z := Session (Info m).
Definition msg_type (m : Message) : Z := MsgType (Info m).

(** ** Timers *)

(** A [time.Timer]: running, and whether its channel holds a tick. [Reset] and
    [Stop] do not take a tick already in the channel. *)
Record timer : Type := mkTimer {
  armed : bool;
  fired : bool
}.

Definition timer_Reset (t : timer) : timer := mkTimer true (fired t).
Definition timer_Stop (t : timer) : timer := mkTimer false (fired t).
Definition timer_fire (t : timer) : timer := mkTimer false true.
Definition timer_receive (t : timer) : timer := mkTimer (armed t) false.

(** ** Lemmas *)

Lemma two64_pos : (0 < two64)%Z.
Proof. done. Qed.

Lemma wrap64_u64 z : is_u64 (wrap64 z).
Proof. unfold is_u64, wrap64. apply Z.mod_pos_bound, two64_pos. Qed.

Lemma wrap64_small z : is_u64 z -> wrap64 z = z.
Proof. apply Z.mod_small. Qed.

Lemma wrap64_idemp z : wrap64 (wrap64 z) = wrap64 z.
Proof. apply wrap64_small, wrap64_u64. Qed.

Lemma bytes_of_Some l : bytes_of (Some l) = l.
Proof. done. Qed.

Lemma bytes_of_string_of s : string_of_bytes (bytes_of_string s) = s.
Proof. apply String.string_of_list_byte_of_string. Qed.

Lemma string_of_bytes_of b : bytes_of (bytes_of_string (string_of_bytes b)) = bytes_of b.
Proof. apply String.list_byte_of_string_of_list_byte. Qed.

(** Bounds of concrete or linearly constrained [uint64] values. *)
Ltac solve_u64 := cbn; unfold is_u64, two64 in *; lia.

#[export] Hint Resolve wrap64_u64 two64_pos : s2p.
