(* ===== verification/Headers.v ===== *)
(** * cocaine12/protocol.go: trace headers

    Decoding of the tracing headers of a message ([getTrace],
    [CocaineHeaders.getTraceData]) and their encoding
    ([traceInfoToHeaders]), over dynamic values. *)
From S2P Require Import Prelude GoTypes.
From Stdlib Require Import Strings.Byte ZArith Lia.

(** ** Definitions *)

Definition traceId : Z := 80.
Definition spanId : Z := 81.
Definition parentId : Z := 82.

Definition traceIdName : gobytes := bytes_of_string "trace_id".
Definition spanIdName : gobytes := bytes_of_string "span_id".
Definition parentIdName : gobytes := bytes_of_string "parent_id".

(** The keys of [traceValueMap]. *)
Definition traceValueMap : list Z := [traceId; spanId; parentId].

(** [bytes.Equal]: a nil argument is an empty slice. *)
Definition bytes_Equal (a b : gobytes) : bool := bool_decide (bytes_of a = bytes_of b).

Definition decodeRawTraceName (name : gobytes) : Z * option error :=
  if bytes_Equal name traceIdName then (traceId, None)
  else if bytes_Equal name spanIdName then (spanId, None)
  else if bytes_Equal name parentIdName then (parentId, None)
  else (0%Z, Some ErrInvalidTraceType).

(** The integer types both type switches of [getTrace] list; the conversion
    [uint64(t)] wraps a negative number. *)
Definition switch_kind (k : intkind) : bool :=
  match k with
  | Kuint | Kuint32 | Kuint64 | Kint | Kint32 | Kint64 => true
  | _ => false
  end.

(** The switch on [t[1]]. *)
Definition getTraceNum (v : value) : Z * option error :=
  match v with
  | VInt k z => if switch_kind k then (wrap64 z, None) else (0%Z, Some ErrInvalidTraceType)
  | VBytes name => decodeRawTraceName name
  | _ => (0%Z, Some ErrInvalidTraceType)
  end.

(** The switch on [t[2]]. *)
Definition getTraceVal (v : value) : gobytes * option error :=
  match v with
  | VBytes val => (val, None)
  | VString val => (bytes_of_string val, None)
  | _ => (None, Some ErrInvalidTraceValueType)
  end.

Definition getTrace (header : value) : Z * gobytes * option error :=
  match header with
  | VInt k t => if switch_kind k then (wrap64 t, None, None)
                else (0%Z, None, Some ErrInvalidHeaderType)
  | VList [_; t1; t2] =>
    match getTraceNum t1 with
    | (_, Some err) => (0%Z, None, Some err)
    | (traceNum, None) =>
      if decide (traceNum ∈ traceValueMap) then
        match getTraceVal t2 with
        | (_, Some err) => (0%Z, None, Some err)
        | (traceVal, None) => (traceNum, traceVal, None)
        end
      else (0%Z, None, Some ErrInvalidTraceNumber)
    end
  | VList _ => (0%Z, None, Some ErrInvalidHeaderLength)
  | _ => (0%Z, None, Some ErrInvalidHeaderType)
  end.

(** Little-endian fixed-size integers ([encoding/binary]). *)
Definition byte_of_Z (z : Z) : byte := default x00 (Byte.of_N (Z.to_N (z mod 256))).
Definition Z_of_byte (b : byte) : Z := Z.of_N (Byte.to_N b).

Fixpoint le_encode (n : nat) (z : Z) : list byte :=
  match n with
  | O => []
  | S n => byte_of_Z z :: le_encode n (z / 256)
  end.

Fixpoint le_decode (bs : list byte) : Z :=
  match bs with
  | [] => 0
  | b :: bs => Z_of_byte b + 256 * le_decode bs
  end.

(** [binary.Read] of a [uint64] from a reader over [b]: [io.ReadFull] of 8
    bytes; the target is left at 0 when it fails. *)
Definition decodeTracingId (b : gobytes) : Z * option error :=
  let data := bytes_of b in
  if decide (length data = 0) then (0%Z, Some EOF)
  else if decide (length data < 8) then (0%Z, Some ErrUnexpectedEOF)
  else (le_decode (take 8 data), None).

(** [TraceInfo] of cocaine12/trace.go; [logger] names the attached logger. *)
Record TraceInfo : Type := mkTraceInfo {
  Trace : Z;
  Span : Z;
  Parent : Z;
  logger : option nat
}.

Definition set_Trace (x : Z) (t : TraceInfo) := mkTraceInfo x (Span t) (Parent t) (logger t).
Definition set_Span (x : Z) (t : TraceInfo) := mkTraceInfo (Trace t) x (Parent t) (logger t).
Definition set_Parent (x : Z) (t : TraceInfo) := mkTraceInfo (Trace t) (Span t) x (logger t).

Definition zeroTraceInfo : TraceInfo := mkTraceInfo 0 0 0 None.

(** The loop of [getTraceData]; [i] counts the headers taken so far and the
    result is the pair of named returns. *)
Fixpoint getTraceData_loop (h : list value) (i : nat) (traceInfo : TraceInfo)
    : TraceInfo * option error :=
  match h with
  | [] => (traceInfo, Some ErrNotAllTracesPresent)
  | header :: rest =>
    let next traceInfo :=
      if decide (S i = 3) then (traceInfo, None)
      else getTraceData_loop rest (S i) traceInfo in
    match getTrace header with
    | (_, _, Some _) => getTraceData_loop rest i traceInfo
    | (number, buffer, None) =>
      if decide (number = traceId) then
        match decodeTracingId buffer with
        | (x, Some err) => (set_Trace x traceInfo, Some err)
        | (x, None) => next (set_Trace x traceInfo)
        end
      else if decide (number = spanId) then
        match decodeTracingId buffer with
        | (x, Some err) => (set_Span x traceInfo, Some err)
        | (x, None) => next (set_Span x traceInfo)
        end
      else if decide (number = parentId) then
        match buffer with
        | None => next (set_Parent 0 traceInfo)
        | Some _ =>
          match decodeTracingId buffer with
          | (x, Some err) => (set_Parent x traceInfo, Some err)
          | (x, None) => next (set_Parent x traceInfo)
          end
        end
      else getTraceData_loop rest i traceInfo
    end
  end.

Definition getTraceData (h : list value) : TraceInfo * option error :=
  getTraceData_loop h 0 zeroTraceInfo.

(** [[]interface{}{false, num, buff.Bytes()[offset:]}] *)
Definition trace_header (num : Z) (buff : list byte) (offset : nat) : value :=
  VList [VBool false; VInt Kint num; VBytes (Some (drop offset buff))].

(** [traceInfoToHeaders]: the three fields are appended to one buffer and each
    header takes the slice from the current offset. [binary.Write] of a
    [uint64] to a [bytes.Buffer] does not fail, so the error is nil. *)
Definition traceInfoToHeaders (info : TraceInfo) : list value * option error :=
  let offset := 0 in
  let buff := le_encode 8 (Trace info) in
  let h1 := trace_header traceId buff offset in
  let offset := length buff in
  let buff := buff ++ le_encode 8 (Span info) in
  let h2 := trace_header spanId buff offset in
  let offset := length buff in
  let buff := buff ++ le_encode 8 (Parent info) in
  let h3 := trace_header parentId buff offset in
  ([h1; h2; h3], None).

(** The header a [getTraceData] iteration consumes: a well-formed header
    carrying one of the three tracing numbers. *)
Definition taken (header : value) : option (Z * gobytes) :=
  match getTrace header with
  | (number, buffer, None) =>
    if decide (number ∈ traceValueMap) then Some (number, buffer) else None
  | _ => None
  end.

(** What a consumed header stores, and the error that stops the loop. *)
Definition decode_header (nb : Z * gobytes) : Z * option error :=
  match nb with
  | (number, None) => if decide (number = parentId) then (0%Z, None) else decodeTracingId None
  | (_, buffer) => decodeTracingId buffer
  end.

Definition store_header (number x : Z) (t : TraceInfo) : TraceInfo :=
  if decide (number = traceId) then set_Trace x t
  else if decide (number = spanId) then set_Span x t
  else set_Parent x t.

(** The reference decoder: the first [k] consumed headers, in order. *)
Fixpoint decode_first (k : nat) (hs : list (Z * gobytes)) (t : TraceInfo)
    : TraceInfo * option error :=
  match k, hs with
  | O, _ => (t, None)
  | S _, [] => (t, Some ErrNotAllTracesPresent)
  | S k, nb :: hs =>
    match decode_header nb with
    | (x, Some err) => (store_header nb.1 x t, Some err)
    | (x, None) => decode_first k hs (store_header nb.1 x t)
    end
  end.

(** ** Little-endian codec *)

Lemma Z_of_byte_of_Z z : Z_of_byte (byte_of_Z z) = (z mod 256)%Z.
Proof.
  unfold Z_of_byte, byte_of_Z.
  assert (Hr : (0 <= z mod 256 < 256)%Z) by (apply Z.mod_pos_bound; lia).
  destruct (Byte.of_N (Z.to_N (z mod 256))) as [b|] eqn:Hb; simpl.
  - apply Byte.to_of_N in Hb. rewrite Hb. lia.
  - apply Byte.of_N_None_iff in Hb. lia.
Qed.

Lemma Z_of_byte_bound b : (0 <= Z_of_byte b < 256)%Z.
Proof. unfold Z_of_byte. pose proof (Byte.to_N_bounded b). lia. Qed.

Lemma byte_of_Z_of_byte b z : byte_of_Z (Z_of_byte b + 256 * z) = b.
Proof.
  unfold byte_of_Z. pose proof (Z_of_byte_bound b) as Hb.
  rewrite (Z.mul_comm 256), Z_mod_plus_full, Z.mod_small by lia.
  unfold Z_of_byte. rewrite N2Z.id, Byte.of_to_N. done.
Qed.

Lemma length_le_encode n z : length (le_encode n z) = n.
Proof. revert z. induction n as [|n IH]; intros z; simpl; [done|by rewrite IH]. Qed.

Lemma le_decode_encode n z : le_decode (le_encode n z) = (z mod 256 ^ Z.of_nat n)%Z.
Proof.
  revert z. induction n as [|n IH]; intros z.
  - simpl. by rewrite Z.mod_1_r.
  - cbn [le_encode le_decode]. rewrite IH, Z_of_byte_of_Z.
    rewrite Nat2Z.inj_succ, Z.pow_succ_r by lia.
    rewrite Z.rem_mul_r by lia. lia.
Qed.

Lemma le_encode_decode bs : le_encode (length bs) (le_decode bs) = bs.
Proof.
  induction bs as [|b bs IH]; [done|]. cbn [length le_encode le_decode].
  rewrite byte_of_Z_of_byte. pose proof (Z_of_byte_bound b).
  rewrite (Z.mul_comm 256), Z.div_add, Z.div_small by lia.
  by rewrite Z.add_0_l, IH.
Qed.

Lemma decodeTracingId_encode z :
  is_u64 z -> decodeTracingId (Some (le_encode 8 z)) = (z, None).
Proof.
  intros Hz. unfold decodeTracingId. rewrite bytes_of_Some, length_le_encode.
  rewrite !decide_False by lia.
  rewrite firstn_all2 by (rewrite length_le_encode; lia).
  rewrite le_decode_encode. by rewrite Z.mod_small.
Qed.

(** ** The loop against the reference decoder *)

Lemma elem_of_traceValueMap n :
  n ∈ traceValueMap <-> n = traceId \/ n = spanId \/ n = parentId.
Proof. unfold traceValueMap. set_solver. Qed.

(** One step of the loop on a header that is not skipped. *)
Lemma getTraceData_loop_taken header nb h i t :
  taken header = Some nb ->
  getTraceData_loop (header :: h) i t =
    match decode_header nb with
    | (x, Some err) => (store_header nb.1 x t, Some err)
    | (x, None) =>
      let t' := store_header nb.1 x t in
      if decide (S i = 3) then (t', None) else getTraceData_loop h (S i) t'
    end.
Proof.
  unfold taken. cbn [getTraceData_loop].
  destruct (getTrace header) as [[number buffer] [err|]]; [done|].
  case_decide as Hin; [|done]. intros [= <-]. cbn [fst decode_header].
  apply elem_of_traceValueMap in Hin as [-> | [-> | ->]];
    unfold store_header; rewrite ?decide_True, ?decide_False by done;
    destruct buffer; try done; by destruct (decodeTracingId _) as [? [?|]].
Qed.

Lemma getTraceData_loop_skip header h i t :
  taken header = None -> getTraceData_loop (header :: h) i t = getTraceData_loop h i t.
Proof.
  unfold taken. cbn [getTraceData_loop].
  destruct (getTrace header) as [[number buffer] [err|]]; [done|].
  case_decide as Hin; [done|]. rewrite elem_of_traceValueMap in Hin. intros _.
  by rewrite !decide_False by tauto.
Qed.

Lemma getTraceData_loop_decode h i t :
  (i < 3)%nat -> getTraceData_loop h i t = decode_first (3 - i) (omap taken h) t.
Proof.
  revert i t. induction h as [|header h IH]; intros i t Hi.
  { by destruct (3 - i)%nat eqn:?; [lia|]. }
  cbn [omap list_omap]. destruct (taken header) as [nb|] eqn:Ht.
  - rewrite (getTraceData_loop_taken _ _ _ _ _ Ht).
    replace (3 - i)%nat with (S (2 - i)) by lia. cbn [decode_first].
    destruct (decode_header nb) as [x [err|]]; [done|]. cbn zeta.
    case_decide as H3; [by replace (2 - i)%nat with 0%nat by lia|].
    by rewrite IH by lia.
  - rewrite getTraceData_loop_skip by done. by apply IH.
Qed.

Lemma getTraceData_decode h : getTraceData h = decode_first 3 (omap taken h) zeroTraceInfo.
Proof. apply (getTraceData_loop_decode h 0). lia. Qed.

Lemma traceInfoToHeaders_taken info :
  omap taken (traceInfoToHeaders info).1 =
    [(traceId, Some (le_encode 8 (Trace info)));
     (spanId, Some (le_encode 8 (Span info)));
     (parentId, Some (le_encode 8 (Parent info)))].
Proof.
  unfold traceInfoToHeaders, trace_header. cbv zeta. cbn [fst].
  rewrite !drop_app_length, drop_0. done.
Qed.

(** The headers a message carries determine the same tracing triple in any
    order and whatever other headers surround them. *)
Lemma decode_first_permutation info hs :
  is_u64 (Trace info) -> is_u64 (Span info) -> is_u64 (Parent info) ->
  hs ≡ₚ omap taken (traceInfoToHeaders info).1 ->
  decode_first 3 hs zeroTraceInfo =
    (mkTraceInfo (Trace info) (Span info) (Parent info) None, None).
Proof.
  intros Ht Hs Hp. rewrite traceInfoToHeaders_taken.
  intros [-> | [-> | [-> | [-> | [-> | ->]]]]]%Permutation_3_inv;
    cbn [decode_first decode_header]; rewrite !decodeTracingId_encode by done;
    done.
Qed.

Lemma decode_first_None k hs t :
  (decode_first k hs t).2 = None <->
  (k <= length hs)%nat /\ Forall (fun nb => (decode_header nb).2 = None) (take k hs).
Proof.
  revert hs t. induction k as [|k IH]; intros hs t; simpl.
  { split; [split; [lia|constructor]|done]. }
  destruct hs as [|nb hs]; simpl; [split; [done|lia]|].
  rewrite Forall_cons. destruct (decode_header nb) as [x [err|]]; simpl.
  - naive_solver.
  - rewrite IH. intuition lia.
Qed.

(** ** Properties *)

(** The headers [traceInfoToHeaders] packs are decoded by
    [getTraceData] to the same trace, span and parent ids, with no error, in
    any order and surrounded by any headers that are not tracing headers. *)
Theorem trace_headers_roundtrip (info : TraceInfo) (h : list value)
    (Ht : is_u64 (Trace info)) (Hs : is_u64 (Span info)) (Hp : is_u64 (Parent info))
    (Hh : omap taken h ≡ₚ omap taken (traceInfoToHeaders info).1) :
  (traceInfoToHeaders info).2 = None /\
  getTraceData h = (mkTraceInfo (Trace info) (Span info) (Parent info) None, None).
Proof.
  split; [done|]. rewrite getTraceData_decode. by apply decode_first_permutation.
Qed.

Lemma trace_headers_roundtrip_witness :
  getTraceData ([VInt Kint 7] ++ reverse (traceInfoToHeaders (mkTraceInfo 100 200 300 None)).1)
    = (mkTraceInfo 100 200 300 None, None).
Proof.
  apply (trace_headers_roundtrip (mkTraceInfo 100 200 300 None)); [solve_u64..|].
  apply Permutation_sym, (Permutation_rev [_; _; _]).
Defined.

(** [getTraceData] succeeds exactly when the message holds at
    least three tracing headers and the first three of them decode; no other
    header matters. It does not test that the three are of different kinds. *)
Theorem getTraceData_succeeds (h : list value) :
  (getTraceData h).2 = None <->
  (3 <= length (omap taken h))%nat /\
  Forall (fun nb => (decode_header nb).2 = None) (take 3 (omap taken h)).
Proof. rewrite getTraceData_decode. apply decode_first_None. Qed.

(** Although [ErrNotAllTracesPresent] is documented as "not all
    trace values present", three copies of a trace id are accepted, and the
    span and the parent ids then read as 0. *)
Theorem getTraceData_accepts_repeated (x : Z) :
  let header := VList [VBool false; VInt Kint traceId; VBytes (Some (le_encode 8 x))] in
  getTraceData [header; header; header] = (mkTraceInfo (wrap64 x) 0 0 None, None).
Proof.
  intros header. rewrite getTraceData_decode.
  assert (Hx : decode_header (traceId, Some (le_encode 8 x)) = (wrap64 x, None)).
  { cbn [decode_header]. unfold decodeTracingId. rewrite bytes_of_Some, length_le_encode.
    rewrite !decide_False by lia. rewrite firstn_all2 by (rewrite length_le_encode; lia).
    by rewrite le_decode_encode. }
  assert (Ht : taken header = Some (traceId, Some (le_encode 8 x))) by done.
  cbn [omap list_omap]. rewrite !Ht. cbn [decode_first]. by rewrite !Hx.
Qed.
