(* ===== verification/Dispatch.v ===== *)
(** * cocaine12/dispatch.go and cocaine12/apilocator.go

    The dispatch trees a service publishes: which methods it has, and for
    each method the tree of message types that may follow it, downstream (sent
    by the client) and upstream (sent by the service).

    A Go map is a [gmap]; the order in which [range] visits it is not
    specified by the language, so the operations that iterate take the visited
    entries as an argument, which is any permutation of the map's entries. *)
From S2P Require Import Prelude GoTypes.
From Stdlib Require Import ZArith Lia.

(** ** Definitions *)

Inductive dispatchType : Type :=
| recursiveDispatch
| emptyDispatch
| otherDispatch.

#[export] Instance dispatchType_eq_dec : EqDecision dispatchType.
Proof. solve_decision. Defined.

(** [streamDescription] is a map of pointers to [StreamDescriptionItem], whose
    [Description] is again a pointer. [None] is the nil pointer. *)
Inductive streamDescription : Type :=
| SD (tree : gmap Z (option StreamDescriptionItem))
with StreamDescriptionItem : Type :=
| SDItem (Name : string) (Description : option streamDescription).

Definition sd_tree (s : streamDescription) : gmap Z (option StreamDescriptionItem) :=
  match s with SD tree => tree end.
Definition item_name (i : StreamDescriptionItem) : string :=
  match i with SDItem name _ => name end.
Definition item_description (i : StreamDescriptionItem) : option streamDescription :=
  match i with SDItem _ d => d end.

(** [(s *streamDescription) Type()] *)
Definition Type_ (s : option streamDescription) : dispatchType :=
  match s with
  | None => recursiveDispatch
  | Some s => if decide (size (sd_tree s) = 0) then emptyDispatch else otherDispatch
  end.

(** [treeMap[method]] of a map of pointers: nil for a missing key. *)
Definition tree_lookup (s : streamDescription) (method : Z) : option StreamDescriptionItem :=
  mjoin (sd_tree s !! method).

Definition noMethodError (name : string) : error :=
  Errorf "no `%s` method" [VString name].

(** [(s *streamDescription) MethodByName(name)]: the loop over the entries in
    the visited order; a nil entry is dereferenced by [v.Name]. *)
Fixpoint stream_scan (name : string) (order : list (Z * option StreamDescriptionItem))
    : outcome (Z * option error) :=
  match order with
  | [] => Ok (0%Z, Some (noMethodError name))
  | (i, v) :: order =>
    match v with
    | None => Panic
    | Some v => if decide (item_name v = name) then Ok (i, None) else stream_scan name order
    end
  end.

(** A nil receiver panics at [range *s]. *)
Definition streamMethodByName (s : option streamDescription)
    (order : list (Z * option StreamDescriptionItem)) (name : string)
    : outcome (Z * option error) :=
  match s with
  | None => Panic
  | Some _ => stream_scan name order
  end.

Record dispatchItem : Type := mkDispatchItem {
  di_Name : string;
  Downstream : option streamDescription;
  Upstream : option streamDescription
}.

(** [dispatchMap] holds its items by value; a missing key reads as the zero item. *)
Definition zeroDispatchItem : dispatchItem := mkDispatchItem "" None None.
Definition dispatch_lookup (d : gmap Z dispatchItem) (i : Z) : dispatchItem :=
  default zeroDispatchItem (d !! i).

Definition Methods (order : list (Z * dispatchItem)) : list string :=
  map (fun kv => di_Name kv.2) order.

(** [(d *dispatchMap) MethodByName(name)] *)
Fixpoint MethodByName (order : list (Z * dispatchItem)) (name : string) : Z * option error :=
  match order with
  | [] => (0%Z, Some (noMethodError name))
  | (i, v) :: order =>
    if decide (di_Name v = name) then (i, None) else MethodByName order name
  end.

(** *** apilocator.go *)
Definition emptyDescription : option streamDescription := Some (SD ∅).
Definition recursiveDescription : option streamDescription := None.

Definition valueOrError : option streamDescription :=
  Some (SD {[ 0%Z := Some (SDItem "value" emptyDescription);
              1%Z := Some (SDItem "error" emptyDescription) ]}).

Definition newLocatorServiceInfo_API : gmap Z dispatchItem :=
  {[ 0%Z := mkDispatchItem "resolve" emptyDescription valueOrError;
     1%Z := mkDispatchItem "connect" emptyDescription
       (Some (SD {[ 0%Z := Some (SDItem "write" recursiveDescription);
                    1%Z := Some (SDItem "error" emptyDescription);
                    2%Z := Some (SDItem "close" emptyDescription) ]}));
     2%Z := mkDispatchItem "refresh" emptyDescription valueOrError;
     3%Z := mkDispatchItem "cluster" emptyDescription valueOrError ]}.

(** A tree all of whose entries are present (no nil item pointer), at every depth. *)
Inductive sd_wf : streamDescription -> Prop :=
| sd_wf_intro tree :
    (forall k v, tree !! k = Some v ->
       exists i, v = Some i /\ forall d, item_description i = Some d -> sd_wf d) ->
    sd_wf (SD tree).

Definition description_wf (d : option streamDescription) : Prop :=
  forall s, d = Some s -> sd_wf s.

(** Names identify the entries of a map. *)
Definition unique_names {A} (name_of : A -> string) (m : gmap Z A) : Prop :=
  forall i j a b, m !! i = Some a -> m !! j = Some b -> name_of a = name_of b -> i = j.

(** ** Lemmas *)

Lemma elem_of_range {A} (order : list (Z * A)) (m : gmap Z A) i a :
  order ≡ₚ map_to_list m -> (i, a) ∈ order <-> m !! i = Some a.
Proof. intros Hp. by rewrite Hp, elem_of_map_to_list. Qed.

Lemma MethodByName_result order name :
  match MethodByName order name with
  | (n, None) => exists item, (n, item) ∈ order /\ di_Name item = name
  | (n, Some err) => n = 0%Z /\ err = noMethodError name /\
      forall i item, (i, item) ∈ order -> di_Name item <> name
  end.
Proof.
  induction order as [|[i v] order IH]; simpl.
  { split_and!; set_solver. }
  case_decide as Hv; [exists v; set_solver|].
  destruct (MethodByName order name) as [n [err|]]; set_solver.
Qed.

Lemma stream_scan_result order name :
  match stream_scan name order with
  | Ok (n, None) => exists item, (n, Some item) ∈ order /\ item_name item = name
  | Ok (n, Some err) => n = 0%Z /\ err = noMethodError name /\
      forall i item, (i, Some item) ∈ order -> item_name item <> name
  | Panic => exists i, (i, None) ∈ order
  end.
Proof.
  induction order as [|[i [v|]] order IH]; simpl.
  - split_and!; set_solver.
  - case_decide as Hv; [exists v; set_solver|].
    destruct (stream_scan name order) as [[n [err|]]|]; set_solver.
  - exists i. set_solver.
Qed.

Lemma sd_wf_lookup s k v :
  sd_wf s -> sd_tree s !! k = Some v ->
  exists i, v = Some i /\ description_wf (item_description i).
Proof. intros [tree Htree] Hk. destruct (Htree k v Hk) as (i & -> & Hi). by exists i. Qed.

Lemma sd_wf_order s order i :
  sd_wf s -> order ≡ₚ map_to_list (sd_tree s) -> (i, None) ∉ order.
Proof.
  intros Hwf Hp Hin. rewrite (elem_of_range _ _ _ _ Hp) in Hin.
  destruct (sd_wf_lookup _ _ _ Hwf Hin) as (? & ? & _). done.
Qed.

Lemma tree_lookup_Some s k i : tree_lookup s k = Some i <-> sd_tree s !! k = Some (Some i).
Proof. unfold tree_lookup. destruct (sd_tree s !! k) as [[?|]|]; simpl; naive_solver. Qed.

Lemma description_wf_empty : description_wf emptyDescription.
Proof. intros s [= <-]. constructor. intros k v Hk. by rewrite lookup_empty in Hk. Qed.

Lemma description_wf_recursive : description_wf recursiveDescription.
Proof. done. Qed.

Lemma description_wf_tree tree :
  map_Forall (fun _ v => exists i, v = Some i /\ description_wf (item_description i)) tree ->
  description_wf (Some (SD tree)).
Proof. intros Ht s [= <-]. constructor. intros k v Hk. by apply (Ht k v). Qed.

#[export] Hint Resolve description_wf_empty description_wf_recursive : s2p.

(** Well-formedness of a literal tree. *)
Ltac solve_tree :=
  apply description_wf_tree;
  repeat (apply map_Forall_insert_2; [by eexists; split; [done | simpl; eauto with s2p]|]);
  apply map_Forall_empty.

Lemma valueOrError_wf : description_wf valueOrError.
Proof. solve_tree. Qed.
#[export] Hint Resolve valueOrError_wf : s2p.

(** ** Properties *)

(** Whatever order the runtime visits the map in, a method
    number [MethodByName] returns is a key of the map bound to an item of that
    name, and the error is returned exactly when no item has the name; when the
    names are distinct every order gives the same answer. *)
Theorem MethodByName_spec (d : gmap Z dispatchItem) (name : string)
    (order : list (Z * dispatchItem)) (Horder : order ≡ₚ map_to_list d) :
  match MethodByName order name with
  | (n, None) => exists item, d !! n = Some item /\ di_Name item = name
  | (n, Some err) => n = 0%Z /\ err = noMethodError name /\
      forall i item, d !! i = Some item -> di_Name item <> name
  end /\
  (unique_names di_Name d ->
   forall order', order' ≡ₚ map_to_list d ->
     MethodByName order' name = MethodByName order name).
Proof.
  assert (Hres : forall o, o ≡ₚ map_to_list d ->
    match MethodByName o name with
    | (n, None) => exists item, d !! n = Some item /\ di_Name item = name
    | (n, Some err) => n = 0%Z /\ err = noMethodError name /\
        forall i item, d !! i = Some item -> di_Name item <> name
    end).
  { intros o Ho. pose proof (MethodByName_result o name) as Hr.
    pose proof (fun i a => elem_of_range o d i a Ho) as Hin.
    destruct (MethodByName o name) as [n [err|]]; setoid_rewrite Hin in Hr; exact Hr. }
  split; [by apply Hres|]. intros Huniq order' Horder'.
  pose proof (Hres _ Horder) as H1. pose proof (Hres _ Horder') as H2.
  destruct (MethodByName order name) as [n [err|]],
    (MethodByName order' name) as [n' [err'|]].
  - by destruct H1 as (-> & -> & _), H2 as (-> & -> & _).
  - destruct H1 as (_ & _ & H1), H2 as (item & Hi & Hn). by destruct (H1 _ _ Hi).
  - destruct H2 as (_ & _ & H2), H1 as (item & Hi & Hn). by destruct (H2 _ _ Hi).
  - destruct H1 as (a & Ha & Hna), H2 as (b & Hb & Hnb).
    by rewrite (Huniq _ _ _ _ Ha Hb) by congruence.
Qed.

Lemma MethodByName_spec_witness :
  MethodByName (reverse (map_to_list newLocatorServiceInfo_API)) "refresh" = (2%Z, None) /\
  exists item, newLocatorServiceInfo_API !! 2%Z = Some item /\ di_Name item = "refresh".
Proof.
  split; [vm_compute; reflexivity|].
  pose proof (proj1 (MethodByName_spec newLocatorServiceInfo_API "refresh"
    (reverse (map_to_list newLocatorServiceInfo_API)) (reverse_Permutation _))) as H.
  vm_compute in H. exact H.
Defined.

(** On a tree without nil entries [streamDescription.MethodByName]
    does not panic, and finds a number exactly when some entry has the name;
    the number then leads back, by [treeMap\[method\]], to that entry. *)
Theorem streamMethodByName_spec (s : streamDescription) (name : string)
    (order : list (Z * option StreamDescriptionItem))
    (Hwf : sd_wf s) (Horder : order ≡ₚ map_to_list (sd_tree s)) :
  match streamMethodByName (Some s) order name with
  | Ok (n, None) => exists item, tree_lookup s n = Some item /\ item_name item = name
  | Ok (n, Some err) => n = 0%Z /\ err = noMethodError name /\
      forall i item, tree_lookup s i = Some item -> item_name item <> name
  | Panic => False
  end.
Proof.
  unfold streamMethodByName. pose proof (stream_scan_result order name) as Hr.
  pose proof (fun i a => elem_of_range order (sd_tree s) i a Horder) as Hin.
  destruct (stream_scan name order) as [[n [err|]]|];
    [setoid_rewrite tree_lookup_Some; setoid_rewrite <- Hin; exact Hr..|].
  - destruct Hr as [i Hi]. by apply (sd_wf_order s order i).
Qed.

Lemma streamMethodByName_spec_witness :
  exists item, tree_lookup (SD {[ 0%Z := Some (SDItem "value" emptyDescription) ]}) 0%Z = Some item
    /\ item_name item = "value".
Proof.
  assert (Hwf : sd_wf (SD {[ 0%Z := Some (SDItem "value" emptyDescription) ]})).
  { cut (description_wf (Some (SD {[ 0%Z := Some (SDItem "value" emptyDescription) ]})));
      [intros H; by apply H | solve_tree]. }
  pose proof (streamMethodByName_spec _ "value" _ Hwf (Permutation_refl _)) as H.
  vm_compute in H. exact H.
Defined.
