(* ===== verification/Sessions.v ===== *)
(** * cocaine12/sessions.go and cocaine/sessionkeeper.go

    The table of open channels, keyed by a session id taken from a counter.
    [SessionTable] is the interface the services rely on; it is implemented by
    [sessions] (v0.12, [uint64] ids, counter from 1) and [keeperStruct]
    (v0.11, [int64] ids, counter from 0). Every operation runs under the
    table's mutex, so it is one atomic step. *)
From S2P Require Import Prelude GoTypes.
From Stdlib Require Import ZArith Lia.

(** ** The interface *)

(** What an operation does to the table, [n] being the next id. *)
Inductive table_effect (C : Type) : Type :=
| Reserve                (* take an id, bind nothing *)
| Bind (ch : C)          (* take an id and bind it *)
| Unbind (id : Z).       (* remove a binding *)
Arguments Reserve {C}.
Arguments Bind {C} ch.
Arguments Unbind {C} id.

Definition effect_id {C} (e : table_effect C) (counter : Z) : option Z :=
  match e with
  | Reserve | Bind _ => Some (counter + 1)%Z
  | Unbind _ => None
  end.

Definition effect_links {C} (e : table_effect C) (counter : Z) (l : gmap Z C) : gmap Z C :=
  match e with
  | Reserve => l
  | Bind ch => <[(counter + 1)%Z := ch]> l
  | Unbind id => delete id l
  end.

Class SessionTable (C St Op : Type) := {
  st_counter : St -> Z;
  st_links : St -> gmap Z C;
  st_exec : Op -> St -> St * option Z;
  st_effect : Op -> table_effect C;
  (** the largest id of the counter's type *)
  st_limit : Z;
  st_exec_spec : forall op s,
    (0 <= st_counter s < st_limit)%Z ->
    (st_exec op s).2 = effect_id (st_effect op) (st_counter s) /\
    st_counter (st_exec op s).1 =
      default (st_counter s) (effect_id (st_effect op) (st_counter s)) /\
    st_links (st_exec op s).1 = effect_links (st_effect op) (st_counter s) (st_links s)
}.

(** ** cocaine12/sessions.go *)
Module V12.
Section Sessions.
Context {Channel : Type}.

Record sessions : Type := mkSessions {
  links : gmap Z Channel;
  counter : Z               (* uint64 *)
}.

Definition newSessions : sessions := mkSessions ∅ 1.

Definition Next (s : sessions) : sessions * Z :=
  let i := wrap64 (counter s + 1) in
  (mkSessions (links s) i, i).

Definition Attach (session : Channel) (s : sessions) : sessions * Z :=
  let counter := wrap64 (counter s + 1) in
  (mkSessions (<[counter := session]> (links s)) counter, counter).

Definition Detach (id : Z) (s : sessions) : sessions :=
  mkSessions (delete id (links s)) (counter s).

Definition Get (id : Z) (s : sessions) : option Channel := links s !! id.

(** [Keys]: the keys in the order the map is visited. *)
Definition Keys (order : list (Z * Channel)) : list Z := order.*1.

Inductive sessions_op : Type :=
| OpNext
| OpAttach (session : Channel)
| OpDetach (id : Z).

Definition exec (op : sessions_op) (s : sessions) : sessions * option Z :=
  match op with
  | OpNext => let (s', i) := Next s in (s', Some i)
  | OpAttach ch => let (s', i) := Attach ch s in (s', Some i)
  | OpDetach id => (Detach id s, None)
  end.

Definition effect (op : sessions_op) : table_effect Channel :=
  match op with
  | OpNext => Reserve
  | OpAttach ch => Bind ch
  | OpDetach id => Unbind id
  end.
End Sessions.
Arguments sessions : clear implicits.
Arguments sessions_op : clear implicits.
End V12.

(** ** cocaine/sessionkeeper.go *)
Module V11.
Section Keeper.
Context {Channel : Type}.

Record keeperStruct : Type := mkKeeper {
  links : gmap Z Channel;
  counter : Z               (* int64 *)
}.

Definition newKeeperStruct : keeperStruct := mkKeeper ∅ 0.

Definition Attach (out : Channel) (keeper : keeperStruct) : keeperStruct * Z :=
  let counter := wrap_int64 (counter keeper + 1) in
  (mkKeeper (<[counter := out]> (links keeper)) counter, counter).

Definition Detach (id : Z) (keeper : keeperStruct) : keeperStruct :=
  mkKeeper (delete id (links keeper)) (counter keeper).

Definition Get (id : Z) (keeper : keeperStruct) : option Channel := links keeper !! id.

Definition Keys (order : list (Z * Channel)) : list Z := order.*1.

Inductive keeper_op : Type :=
| OpAttach (out : Channel)
| OpDetach (id : Z).

Definition exec (op : keeper_op) (k : keeperStruct) : keeperStruct * option Z :=
  match op with
  | OpAttach ch => let (k', i) := Attach ch k in (k', Some i)
  | OpDetach id => (Detach id k, None)
  end.

Definition effect (op : keeper_op) : table_effect Channel :=
  match op with
  | OpAttach ch => Bind ch
  | OpDetach id => Unbind id
  end.
End Keeper.
Arguments keeperStruct : clear implicits.
Arguments keeper_op : clear implicits.
End V11.

(** ** The implementations satisfy the interface *)

#[export] Instance sessions_table (C : Type) :
  SessionTable C (V12.sessions C) (V12.sessions_op C).
Proof.
  refine {| st_counter := V12.counter; st_links := V12.links; st_exec := V12.exec;
            st_effect := V12.effect; st_limit := (two64 - 1)%Z |}.
  intros op s Hs. assert (Hu : wrap64 (V12.counter s + 1) = (V12.counter s + 1)%Z).
  { apply wrap64_small. unfold is_u64. lia. }
  destruct op; cbn; rewrite ?Hu; done.
Defined.

Lemma wrap_int64_small z : (0 <= z < 2 ^ 63)%Z -> wrap_int64 z = z.
Proof.
  intros Hz. unfold wrap_int64. cbv zeta.
  rewrite wrap64_small by (unfold is_u64, two64; lia). by rewrite decide_True by lia.
Qed.

#[export] Instance keeper_table (C : Type) :
  SessionTable C (V11.keeperStruct C) (V11.keeper_op C).
Proof.
  refine {| st_counter := V11.counter; st_links := V11.links; st_exec := V11.exec;
            st_effect := V11.effect; st_limit := (2 ^ 63 - 1)%Z |}.
  intros op s Hs. assert (Hu : wrap_int64 (V11.counter s + 1) = (V11.counter s + 1)%Z).
  { apply wrap_int64_small. lia. }
  destruct op; cbn; rewrite ?Hu; done.
Defined.

(** ** Clients of the interface *)
Section Client.
Context {C St Op : Type} `{SessionTable C St Op}.

(** A sequence of operations: the final table and the ids handed out. *)
Fixpoint exec_all (ops : list Op) (s : St) : St * list Z :=
  match ops with
  | [] => (s, [])
  | op :: ops =>
    let (s1, id) := st_exec op s in
    let (s2, ids) := exec_all ops s1 in
    (s2, opt_list id ++ ids)
  end.

(** Every bound id was handed out: none is above the counter. *)
Definition table_inv (s : St) : Prop :=
  (0 <= st_counter s)%Z /\
  forall id, is_Some (st_links s !! id) -> (id <= st_counter s)%Z.

Definition room (n : nat) (s : St) : Prop := (st_counter s + Z.of_nat n <= st_limit)%Z.

Lemma st_exec_inv op s n :
  table_inv s -> room (S n) s ->
  table_inv (st_exec op s).1 /\ room n (st_exec op s).1.
Proof.
  unfold room. intros [H0 Hinv] Hroom.
  destruct (st_exec_spec op s) as (_ & Hc & Hl); [lia|].
  unfold table_inv. rewrite Hc, Hl. destruct (st_effect op) as [|ch|id]; simpl.
  - split_and!; [lia| |lia]. intros i Hi. specialize (Hinv i Hi). lia.
  - split_and!; [lia| |lia]. intros i Hi.
    destruct (decide (i = st_counter s + 1)%Z) as [->|Hne]; [lia|].
    rewrite lookup_insert_ne in Hi by done. specialize (Hinv i Hi). lia.
  - split_and!; [lia| |lia]. intros i Hi. apply Hinv.
    destruct (decide (i = id)) as [->|Hne].
    + rewrite lookup_delete_eq in Hi. by destruct Hi.
    + by rewrite lookup_delete_ne in Hi.
Qed.

(** The ids of a sequence of operations are consecutive. *)
Lemma exec_all_ids ops s :
  table_inv s -> room (length ops) s ->
  table_inv (exec_all ops s).1 /\
  (exec_all ops s).2 =
    (fun i => st_counter s + 1 + Z.of_nat i)%Z <$> seq 0 (length (exec_all ops s).2).
Proof.
  revert s. induction ops as [|op ops IH]; intros s Hinv Hroom; simpl in *; [done|].
  destruct (st_exec_inv op s _ Hinv Hroom) as [Hinv1 Hroom1].
  destruct (st_exec_spec op s) as (Hid & Hc & _); [unfold room in Hroom; destruct Hinv; lia|].
  destruct (st_exec op s) as [s1 id]; simpl in *.
  destruct (IH s1 Hinv1 Hroom1) as [Hfin Hids].
  destruct (exec_all ops s1) as [s2 ids]; simpl in *. split; [done|].
  rewrite Hids, Hc. subst id.
  destruct (st_effect op) as [|ch|id]; simpl; rewrite ?length_fmap, ?length_seq; try done.
  all: f_equal; [lia|]; rewrite <- fmap_S_seq, <- list_fmap_compose;
    apply list_fmap_ext; intros; simpl; lia.
Qed.

(** A fresh id is bound to nothing. *)
Lemma st_exec_fresh op s :
  table_inv s -> room 1 s -> forall id, (st_exec op s).2 = Some id -> st_links s !! id = None.
Proof.
  unfold room. intros [H0 Hinv] Hroom id Hid.
  destruct (st_exec_spec op s) as (Hid' & _ & _); [lia|]. rewrite Hid' in Hid.
  destruct (st_links s !! id) eqn:Hl; [|done].
  specialize (Hinv id ltac:(eauto)).
  destruct (st_effect op); simplify_eq/=; lia.
Qed.

(** Operations that do not unbind [id] keep its binding. *)
Lemma exec_all_keeps ops s id ch :
  table_inv s -> room (length ops) s -> st_links s !! id = Some ch ->
  Forall (fun op => st_effect op <> Unbind id) ops ->
  st_links (exec_all ops s).1 !! id = Some ch.
Proof.
  revert s. induction ops as [|op ops IH]; intros s Hinv Hroom Hl Hops; simpl in *; [done|].
  apply Forall_cons in Hops as [Hop Hops].
  destruct (st_exec_inv op s _ Hinv Hroom) as [Hinv1 Hroom1].
  destruct (st_exec_spec op s) as (_ & _ & Hl1); [unfold room in Hroom; destruct Hinv; lia|].
  assert (Hkeep : st_links (st_exec op s).1 !! id = Some ch).
  { rewrite Hl1. destruct (st_effect op) as [|c|i]; simpl; [done| |].
    - rewrite lookup_insert_ne; [done|]. destruct Hinv as [_ Hinv].
      specialize (Hinv id ltac:(eauto)). lia.
    - rewrite lookup_delete_ne by congruence. done. }
  destruct (st_exec op s) as [s1 i] eqn:He; simpl in *.
  specialize (IH s1 Hinv1 Hroom1 Hkeep Hops). by destruct (exec_all ops s1).
Qed.
End Client.

(** ** Properties *)

(** Over any table implementing the interface, the ids a
    sequence of operations hands out are consecutive from the counter on (so
    no two channels share one), as long as the counter's type has room for
    them, and no id above the counter is ever bound. *)
Theorem session_ids_unique {C St Op : Type} `{SessionTable C St Op} (ops : list Op) (s : St)
    (Hinv : table_inv s) (Hroom : room (length ops) s) :
  table_inv (exec_all ops s).1 /\
  (exec_all ops s).2 =
    (fun i => st_counter s + 1 + Z.of_nat i)%Z <$> seq 0 (length (exec_all ops s).2) /\
  NoDup (exec_all ops s).2.
Proof.
  destruct (exec_all_ids ops s Hinv Hroom) as [Hfin Hids].
  split_and!; [done..|]. rewrite Hids. apply NoDup_fmap_2; [intros i j; lia|apply NoDup_seq].
Qed.

Lemma session_ids_unique_witness :
  (exec_all [V12.OpAttach "a"; V12.OpNext; V12.OpDetach 2%Z; V12.OpAttach "b"]
     (V12.newSessions (Channel := string))).2 = [2; 3; 4]%Z /\
  NoDup (exec_all [V11.OpAttach "a"; V11.OpAttach "b"]
     (V11.newKeeperStruct (Channel := string))).2.
Proof.
  split.
  - assert (Hinv : table_inv (V12.newSessions (Channel := string))).
    { split; [cbn; lia|]. intros i [c Hc]. cbn in Hc. by rewrite lookup_empty in Hc. }
    assert (Hroom : room 4 (V12.newSessions (Channel := string))) by (cbv; congruence).
    exact (proj1 (proj2 (session_ids_unique
      [V12.OpAttach "a"; V12.OpNext; V12.OpDetach 2%Z; V12.OpAttach "b"] _ Hinv Hroom))).
  - assert (Hinv : table_inv (V11.newKeeperStruct (Channel := string))).
    { split; [cbn; lia|]. intros i [c Hc]. cbn in Hc. by rewrite lookup_empty in Hc. }
    assert (Hroom : room 2 (V11.newKeeperStruct (Channel := string))) by (cbv; congruence).
    exact (proj2 (proj2 (session_ids_unique
      [V11.OpAttach "a"; V11.OpAttach "b"] _ Hinv Hroom))).
Defined.

(** A channel attached to the v0.12 table is found under the
    id returned, an id that was free before, until that id is detached,
    whatever other operations run in between; after [Detach] it is gone. *)
Theorem sessions_attach_get {C : Type} (ch : C) (ops : list (V12.sessions_op C))
    (s : V12.sessions C) (Hinv : table_inv s) (Hroom : room (S (length ops)) s)
    (Hops : Forall (fun op => op <> V12.OpDetach (V12.Attach ch s).2) ops) :
  let id := (V12.Attach ch s).2 in
  let s' := (exec_all ops (V12.Attach ch s).1).1 in
  V12.Get id s = None /\ V12.Get id s' = Some ch /\ V12.Get id (V12.Detach id s') = None.
Proof.
  intros id s'.
  pose proof (st_exec_fresh (V12.OpAttach ch) s Hinv ltac:(unfold room in *; simpl in *; lia)
    id eq_refl) as Hfresh.
  destruct (st_exec_inv (V12.OpAttach ch) s _ Hinv Hroom) as [Hinv1 Hroom1].
  split_and!; [exact Hfresh| |apply lookup_delete_eq].
  apply (exec_all_keeps ops (V12.Attach ch s).1 id ch Hinv1 Hroom1).
  - apply lookup_insert_eq.
  - eapply Forall_impl; [exact Hops|]. intros op Hop Heff.
    by destruct op; simplify_eq/=.
Qed.

Lemma sessions_attach_get_witness :
  V12.Get 2%Z (exec_all [V12.OpAttach "b"; V12.OpDetach 3%Z]
    (V12.Attach "a" (V12.newSessions (Channel := string))).1).1 = Some "a".
Proof.
  refine (proj1 (proj2 (sessions_attach_get "a" [V12.OpAttach "b"; V12.OpDetach 3%Z]
    (V12.newSessions (Channel := string)) _ _ _))).
  - split; [cbn; lia|]. intros i [c Hc]. cbn in Hc. by rewrite lookup_empty in Hc.
  - cbv. congruence.
  - by repeat constructor.
Defined.
