(* ===== verification/Buffers.v ===== *)
(** * The unbounded buffer goroutines

    Six goroutines of the framework put an unbounded queue between two
    channels with the same [select] loop: [asyncBuff.loop] (cocaine12 and
    cocaine), [loop] of cocaine12/handler.go, the two [getServiceChanPair] of
    cocaine/service.go, and the loops of [newRequest] and [newResponse] of
    cocaine/worker.go.

    A loop is a transition function over its local variables. One transition
    is one iteration: the case [select] takes, chosen by the environment among
    the enabled ones (a nil channel enables nothing), then the test at the top
    of the next iteration. [FIFO] is the abstract specification,
    [BufferLoop] the interface every loop implements: a simulation to [FIFO]
    and the laws of draining. *)
From S2P Require Import Prelude.
From Stdlib Require Import Lia.

(** ** The abstract specification: a FIFO queue *)
Section FIFO.
Context {M : Type}.

Inductive fifo_event : Type :=
| Enq (m : M)
| Deq (m : M).

Inductive fifo_step : list M -> option fifo_event -> list M -> Prop :=
| fifo_enq q m : fifo_step q (Some (Enq m)) (q ++ [m])
| fifo_deq q m : fifo_step (m :: q) (Some (Deq m)) q
| fifo_tau q : fifo_step q None q.

Inductive fifo_trace : list M -> list fifo_event -> list M -> Prop :=
| fifo_trace_nil q : fifo_trace q [] q
| fifo_trace_cons q l q1 tr q2 :
    fifo_step q l q1 -> fifo_trace q1 tr q2 -> fifo_trace q (opt_list l ++ tr) q2.

Definition enqueued (tr : list fifo_event) : list M :=
  omap (fun e => match e with Enq m => Some m | Deq _ => None end) tr.
Definition dequeued (tr : list fifo_event) : list M :=
  omap (fun e => match e with Enq _ => None | Deq m => Some m end) tr.

Lemma enqueued_app tr1 tr2 : enqueued (tr1 ++ tr2) = enqueued tr1 ++ enqueued tr2.
Proof. apply omap_app. Qed.
Lemma dequeued_app tr1 tr2 : dequeued (tr1 ++ tr2) = dequeued tr1 ++ dequeued tr2.
Proof. apply omap_app. Qed.

Lemma fifo_step_contents q l q' :
  fifo_step q l q' -> q ++ enqueued (opt_list l) = dequeued (opt_list l) ++ q'.
Proof. destruct 1; simpl; by rewrite ?app_nil_r. Qed.

(** What came in is what went out followed by what is still queued. *)
Lemma fifo_trace_contents q tr q' :
  fifo_trace q tr q' -> q ++ enqueued tr = dequeued tr ++ q'.
Proof.
  induction 1 as [q|q l q1 tr q2 Hs _ IH]; [by rewrite app_nil_r|].
  rewrite enqueued_app, dequeued_app, (assoc_L (++)), (fifo_step_contents _ _ _ Hs).
  by rewrite <- (assoc_L (++)), IH, (assoc_L (++)).
Qed.
End FIFO.
Arguments fifo_event : clear implicits.

(** ** The interface of a buffer loop *)
Class BufferLoop (M St Ev : Type) := {
  buf_init : St;
  buf_step : St -> Ev -> option St;
  (** the [pending] slice, also the one a returned loop abandons *)
  buf_pending : St -> list M;
  buf_label : St -> Ev -> option (fifo_event M);
  buf_returned : St -> bool;
  (** no more input is expected *)
  buf_closed : St -> bool;
  (** the event that sends the first pending message to the receiver *)
  buf_send : Ev;
  (** events that make the loop return whatever is pending *)
  buf_aborts : Ev -> bool;
  (** events the sender side causes: a message or the end of the input *)
  buf_external : Ev -> bool;
  (** bound on the events left once the input is closed *)
  buf_measure : St -> nat;
  (** relation between the local variables at the [select] *)
  buf_inv : St -> Prop;

  buf_init_pending : buf_pending buf_init = [];
  buf_init_running : buf_returned buf_init = false;
  buf_init_inv : buf_inv buf_init;
  buf_step_inv : forall s e s', buf_inv s -> buf_step s e = Some s' -> buf_inv s';
  buf_simulates : forall s e s',
    buf_step s e = Some s' -> fifo_step (buf_pending s) (buf_label s e) (buf_pending s');
  buf_returned_stuck : forall s e, buf_returned s = true -> buf_step s e = None;
  (** without an abort the loop returns only when it is closed and empty *)
  buf_graceful : forall s e s',
    buf_step s e = Some s' -> buf_aborts e = false -> buf_returned s' = true ->
    buf_pending s' = [];
  buf_closed_decreases : forall s e s',
    buf_closed s = true -> buf_external e = false -> buf_step s e = Some s' ->
    buf_closed s' = true /\ buf_measure s' < buf_measure s;
  (** a closed running loop has something to send, and may send it *)
  buf_progress : forall s,
    buf_inv s -> buf_closed s = true -> buf_returned s = false ->
    exists m s', buf_pending s <> [] /\ buf_label s buf_send = Some (Deq m) /\
      buf_step s buf_send = Some s';
  buf_send_internal : buf_external buf_send = false;
  buf_send_graceful : buf_aborts buf_send = false
}.

(** The events of a run, as the environment sees them. *)
Section Interface.
Context {M St Ev : Type} `{BufferLoop M St Ev}.

Fixpoint buf_trace (s : St) (es : list Ev) : list (fifo_event M) :=
  match es with
  | [] => []
  | e :: es =>
    match buf_step s e with
    | Some s' => opt_list (buf_label s e) ++ buf_trace s' es
    | None => []
    end
  end.

Lemma buf_run_refines es s s' :
  run buf_step s es = Some s' -> fifo_trace (buf_pending s) (buf_trace s es) (buf_pending s').
Proof.
  revert s. induction es as [|e es IH]; intros s Hrun; simpl in *.
  - simplify_eq. constructor.
  - destruct (buf_step s e) as [s1|] eqn:He; [|done].
    eapply fifo_trace_cons; [by apply buf_simulates|by apply IH].
Qed.

Lemma buf_run_returned es s s' :
  run buf_step s es = Some s' -> buf_returned s = false -> buf_returned s' = true ->
  Forall (fun e => buf_aborts e = false) es -> buf_pending s' = [].
Proof.
  intros Hrun Hs Hs' Hab. destruct es as [|e es _] using rev_ind; simpl in *; [congruence|].
  apply run_snoc in Hrun as (s1 & Hrun & He).
  apply Forall_app in Hab as [_ Hab]. apply list.Forall_cons in Hab as [Hab _].
  exact (buf_graceful s1 e s' He Hab Hs').
Qed.

Lemma buf_run_bounded es s s' :
  buf_closed s = true -> Forall (fun e => buf_external e = false) es ->
  run buf_step s es = Some s' -> length es + buf_measure s' <= buf_measure s.
Proof.
  revert s. induction es as [|e es IH]; intros s Hc Hex Hrun; simpl in *.
  - simplify_eq. lia.
  - apply Forall_cons in Hex as [He Hex].
    destruct (buf_step s e) as [s1|] eqn:Hs; [|done].
    destruct (buf_closed_decreases s e s1 Hc He Hs) as [Hc1 Hlt].
    specialize (IH s1 Hc1 Hex Hrun). lia.
Qed.

(** A ready receiver empties a closed loop: some number of sends makes it
    return with nothing pending. *)
Lemma buf_drains s :
  buf_inv s -> buf_closed s = true -> buf_returned s = false ->
  exists n s', run buf_step s (replicate n buf_send) = Some s' /\
    buf_returned s' = true /\ buf_pending s' = [] /\ n <= buf_measure s /\
    dequeued (buf_trace s (replicate n buf_send)) = buf_pending s.
Proof.
  intros Hi Hc Hr. remember (buf_measure s) as k eqn:Hk.
  revert s Hi Hc Hr Hk. induction (lt_wf k) as [k _ IH]; intros s Hi Hc Hr ->.
  destruct (buf_progress s Hi Hc Hr) as (m & s1 & Hne & Hl & Hs).
  destruct (buf_closed_decreases s _ s1 Hc buf_send_internal Hs) as [Hc1 Hlt].
  pose proof (fifo_step_contents _ _ _ (buf_simulates _ _ _ Hs)) as Hq.
  rewrite Hl in Hq. simpl in Hq. rewrite app_nil_r in Hq.
  destruct (buf_returned s1) eqn:Hr1.
  - pose proof (buf_graceful s buf_send s1 Hs buf_send_graceful Hr1) as Hp1.
    exists 1, s1. simpl. rewrite Hs, Hl, Hq, Hp1. split_and!; [done..|lia|done].
  - destruct (IH (buf_measure s1) Hlt s1 (buf_step_inv _ _ _ Hi Hs) Hc1 Hr1 eq_refl)
      as (n & s' & Hrun & Hr' & Hp & Hn & Hd).
    exists (S n), s'. simpl. rewrite Hs, Hl, Hq, dequeued_app, Hd.
    split_and!; [done..|lia|done].
Qed.

Lemma buf_run_inv es s s' : run buf_step s es = Some s' -> buf_inv s -> buf_inv s'.
Proof. intros Hrun Hs. by apply (run_invariant buf_step buf_inv buf_step_inv es s). Qed.
End Interface.

(** One transition of a loop by cases on the event and the test [top]. *)
Tactic Notation "loop_case" reference(top) ident(e) ident(He) :=
  destruct e; step_inv He; unfold top; simpl in *; go_cases; naive_solver lia.

(** ** cocaine12/asocket.go: [asyncBuff.loop] *)
Module AsyncBuff.
Section Loop.
Context {M : Type}.

(** The local variables. [input] and [stopped] are channels that the loop
    sets to nil to disable their case: [true] is the channel, [false] nil. *)
Record vars : Type := mkVars {
  pending : list M;
  input : bool;
  stopped : bool;
  quitAfterTimeout : bool;   (* a timer has been received *)
  finished : bool
}.

Inductive state : Type :=
| Selecting (v : vars)
| Returned (pending : list M).

(** The cases of the [select]. *)
Inductive event : Type :=
| Incoming (m : M)     (* incoming, open := <-input; open *)
| InputClosed          (* incoming, open := <-input; !open *)
| Out                  (* out <- candidate *)
| StopTimer            (* timeoutChan, open := <-stopped; open *)
| StopClosed           (* timeoutChan, open := <-stopped; !open *)
| Timeout.             (* <-quitAfterTimeout *)

(** The test at the top of an iteration. *)
Definition top (v : vars) : state :=
  match pending v with
  | [] => if finished v then Returned [] else Selecting v
  | _ :: _ => Selecting v
  end.

Definition loop_init : state := top (mkVars [] true true false false).

Definition step (s : state) (e : event) : option state :=
  match s with
  | Returned _ => None
  | Selecting v =>
    match e with
    | Incoming m =>
      if input v then
        Some (top (mkVars (pending v ++ [m]) (input v) (stopped v) (quitAfterTimeout v) (finished v)))
      else None
    | InputClosed =>
      if input v then
        Some (top (mkVars (pending v) false (stopped v) (quitAfterTimeout v) true))
      else None
    | Out =>
      match pending v with
      | [] => None                       (* out is nil *)
      | _ :: rest =>
        Some (top (mkVars rest (input v) (stopped v) (quitAfterTimeout v) (finished v)))
      end
    | StopTimer =>
      if stopped v then
        Some (top (mkVars (pending v) (input v) false true (finished v)))
      else None
    | StopClosed => if stopped v then Some (Returned (pending v)) else None
    | Timeout => if quitAfterTimeout v then Some (Returned (pending v)) else None
    end
  end.

Definition state_pending (s : state) : list M :=
  match s with Selecting v => pending v | Returned p => p end.
Definition label (s : state) (e : event) : option (fifo_event M) :=
  match e with
  | Incoming m => Some (Enq m)
  | Out => Deq <$> head (state_pending s)
  | _ => None
  end.
Definition returned (s : state) : bool :=
  match s with Selecting _ => false | Returned _ => true end.
Definition closed (s : state) : bool :=
  match s with Selecting v => finished v && negb (input v) | Returned _ => true end.
Definition aborts (e : event) : bool :=
  match e with StopClosed | Timeout => true | _ => false end.
Definition external (e : event) : bool :=
  match e with Incoming _ | InputClosed => true | _ => false end.
Definition measure (s : state) : nat :=
  match s with
  | Selecting v => 1 + length (pending v) + (if stopped v then 1 else 0)
  | Returned _ => 0
  end.

(** The input is nil exactly when the loop is finished, and a running
    finished loop has something pending. *)
Definition inv (s : state) : Prop :=
  match s with
  | Selecting v => input v = negb (finished v) /\ (finished v = true -> pending v <> [])
  | Returned _ => True
  end.

Lemma async_top_pending v : state_pending (top v) = pending v.
Proof. unfold top. by destruct (pending v) eqn:Hp; [destruct (finished v)|]. Qed.

Lemma async_top_returned v :
  returned (top v) = true -> pending v = [].
Proof. unfold top. by destruct (pending v). Qed.
End Loop.
Arguments state : clear implicits.
Arguments event : clear implicits.

#[global] Instance buffer {M} : BufferLoop M (state M) (event M).
Proof.
  refine {| buf_init := loop_init; buf_step := step; buf_pending := state_pending;
    buf_label := label; buf_returned := returned; buf_closed := closed; buf_send := Out;
    buf_aborts := aborts; buf_external := external; buf_measure := measure; buf_inv := inv |}.
  all: try done.
  - intros [v|p] e s' Hi He; [|done]. destruct v; loop_case top e He.
  - intros [v|p] e s' He; [|done].
    destruct v, e; step_inv He; rewrite ?async_top_pending; constructor.
  - by intros [].
  - intros [v|p] e s' He Hab Hr; [|done].
    destruct v, e; step_inv He; rewrite async_top_pending; by apply async_top_returned.
  - intros [v|p] e s' Hc Hex He; [|done]. destruct v; loop_case top e He.
  - intros [[[|m p]]|p] Hi Hc Hr; simpl in *; [|eauto|done].
    destruct Hi as [_ Hi]. apply andb_true_iff in Hc as [Hf _]. by destruct (Hi Hf).
Defined.
End AsyncBuff.

(** ** cocaine12/handler.go: [loop] (the request queue of a handler) *)
Module HandlerLoop.
Section Loop.
Context {M : Type}.

(** [closed] is the [onclose] channel, nil ([false]) once it was read closed. *)
Record vars : Type := mkVars {
  pending : list M;
  closed_chan : bool
}.

Inductive state : Type :=
| Selecting (v : vars)
| Returned (pending : list M).

Inductive event : Type :=
| Incoming (m : M)     (* incoming := <-input *)
| Out                  (* out <- first *)
| Closed.              (* <-closed *)

Definition top (v : vars) : state :=
  match pending v with
  | [] => if closed_chan v then Selecting v else Returned []
  | _ :: _ => Selecting v
  end.

Definition loop_init : state := top (mkVars [] true).

Definition step (s : state) (e : event) : option state :=
  match s with
  | Returned _ => None
  | Selecting v =>
    match e with
    | Incoming m => Some (top (mkVars (pending v ++ [m]) (closed_chan v)))
    | Out =>
      match pending v with
      | [] => None
      | _ :: rest => Some (top (mkVars rest (closed_chan v)))
      end
    | Closed => if closed_chan v then Some (top (mkVars (pending v) false)) else None
    end
  end.

Definition state_pending (s : state) : list M :=
  match s with Selecting v => pending v | Returned p => p end.
Definition label (s : state) (e : event) : option (fifo_event M) :=
  match e with
  | Incoming m => Some (Enq m)
  | Out => Deq <$> head (state_pending s)
  | Closed => None
  end.
Definition returned (s : state) : bool :=
  match s with Selecting _ => false | Returned _ => true end.
Definition closed (s : state) : bool :=
  match s with Selecting v => negb (closed_chan v) | Returned _ => true end.
Definition aborts (e : event) : bool := false.
Definition external (e : event) : bool :=
  match e with Incoming _ | Closed => true | Out => false end.
Definition measure (s : state) : nat :=
  match s with Selecting v => 1 + length (pending v) | Returned _ => 0 end.
Definition inv (s : state) : Prop :=
  match s with
  | Selecting v => closed_chan v = false -> pending v <> []
  | Returned _ => True
  end.

Lemma handler_top_pending v : state_pending (top v) = pending v.
Proof. unfold top. by destruct (pending v) eqn:Hp; [destruct (closed_chan v)|]. Qed.

Lemma handler_top_returned v : returned (top v) = true -> pending v = [].
Proof. unfold top. by destruct (pending v). Qed.
End Loop.
Arguments state : clear implicits.
Arguments event : clear implicits.

#[global] Instance buffer {M} : BufferLoop M (state M) (event M).
Proof.
  refine {| buf_init := loop_init; buf_step := step; buf_pending := state_pending;
    buf_label := label; buf_returned := returned; buf_closed := closed; buf_send := Out;
    buf_aborts := aborts; buf_external := external; buf_measure := measure; buf_inv := inv |}.
  all: try done.
  - intros [v|p] e s' Hi He; [|done]. destruct v; loop_case top e He.
  - intros [v|p] e s' He; [|done].
    destruct v, e; step_inv He; rewrite ?handler_top_pending; constructor.
  - by intros [].
  - intros [v|p] e s' He Hab Hr; [|done].
    destruct v, e; step_inv He; rewrite handler_top_pending; by apply handler_top_returned.
  - intros [v|p] e s' Hc Hex He; [|done]. destruct v; loop_case top e He.
  - intros [[[|m p]]|p] Hi Hc Hr; simpl in *; [|eauto|done].
    apply negb_true_iff in Hc. by destruct (Hi Hc).
Defined.
End HandlerLoop.

(** ** The v0.11 loops that a [stop] channel aborts *)
Module StopLoop.
Section Loop.
Context {M : Type}.

(** [input] is the [in] channel, nil once it was read closed. *)
Record vars : Type := mkVars {
  pending : list M;
  input : bool;
  finished : bool
}.

Inductive state : Type :=
| Selecting (v : vars)
| Returned (pending : list M).

Inductive event : Type :=
| Incoming (m : M)     (* incoming, ok := <-in; ok *)
| InputClosed          (* incoming, ok := <-in; !ok *)
| Out                  (* out <- first *)
| Stop.                (* <-stop *)

Definition top (v : vars) : state :=
  match pending v with
  | [] => if finished v then Returned [] else Selecting v
  | _ :: _ => Selecting v
  end.

Definition loop_init : state := top (mkVars [] true false).

Definition step (s : state) (e : event) : option state :=
  match s with
  | Returned _ => None
  | Selecting v =>
    match e with
    | Incoming m =>
      if input v then Some (top (mkVars (pending v ++ [m]) (input v) (finished v))) else None
    | InputClosed =>
      if input v then Some (top (mkVars (pending v) false true)) else None
    | Out =>
      match pending v with
      | [] => None
      | _ :: rest => Some (top (mkVars rest (input v) (finished v)))
      end
    | Stop => Some (Returned (pending v))
    end
  end.

Definition state_pending (s : state) : list M :=
  match s with Selecting v => pending v | Returned p => p end.
Definition label (s : state) (e : event) : option (fifo_event M) :=
  match e with
  | Incoming m => Some (Enq m)
  | Out => Deq <$> head (state_pending s)
  | _ => None
  end.
Definition returned (s : state) : bool :=
  match s with Selecting _ => false | Returned _ => true end.
Definition closed (s : state) : bool :=
  match s with Selecting v => finished v && negb (input v) | Returned _ => true end.
Definition aborts (e : event) : bool :=
  match e with Stop => true | _ => false end.
Definition external (e : event) : bool :=
  match e with Incoming _ | InputClosed => true | _ => false end.
Definition measure (s : state) : nat :=
  match s with Selecting v => 1 + length (pending v) | Returned _ => 0 end.
Definition inv (s : state) : Prop :=
  match s with
  | Selecting v => input v = negb (finished v) /\ (finished v = true -> pending v <> [])
  | Returned _ => True
  end.

Lemma stop_top_pending v : state_pending (top v) = pending v.
Proof. unfold top. by destruct (pending v) eqn:Hp; [destruct (finished v)|]. Qed.

Lemma stop_top_returned v : returned (top v) = true -> pending v = [].
Proof. unfold top. by destruct (pending v). Qed.
End Loop.
Arguments state : clear implicits.
Arguments event : clear implicits.

#[global] Instance buffer {M} : BufferLoop M (state M) (event M).
Proof.
  refine {| buf_init := loop_init; buf_step := step; buf_pending := state_pending;
    buf_label := label; buf_returned := returned; buf_closed := closed; buf_send := Out;
    buf_aborts := aborts; buf_external := external; buf_measure := measure; buf_inv := inv |}.
  all: try done.
  - intros [v|p] e s' Hi He; [|done]. destruct v; loop_case top e He.
  - intros [v|p] e s' He; [|done].
    destruct v, e; step_inv He; rewrite ?stop_top_pending; constructor.
  - by intros [].
  - intros [v|p] e s' He Hab Hr; [|done].
    destruct v, e; step_inv He; rewrite stop_top_pending; by apply stop_top_returned.
  - intros [v|p] e s' Hc Hex He; [|done]. destruct v; loop_case top e He.
  - intros [[[|m p]]|p] Hi Hc Hr; simpl in *; [|eauto|done].
    destruct Hi as [_ Hi]. apply andb_true_iff in Hc as [Hf _]. by destruct (Hi Hf).
Defined.
End StopLoop.

(** The three loops of this shape: [asyncBuff.loop] of cocaine/asocket.go and
    the two [getServiceChanPair] of cocaine/service.go. *)
Definition v11_asyncBuff_loop {M} := StopLoop.step (M := M).
Definition getServiceChanPair {M} := StopLoop.step (M := M).
Definition Service_getServiceChanPair {M} := StopLoop.step (M := M).

(** ** The v0.11 loops of [newRequest] and [newResponse] *)
Module QuitLoop.
Section Loop.
Context {M : Type}.

Record vars : Type := mkVars {
  pending : list M;
  quit : bool
}.

Inductive state : Type :=
| Selecting (v : vars)
| Returned (pending : list M).

Inductive event : Type :=
| Incoming (m : M)     (* incoming := <-request.from_worker *)
| Out                  (* out <- first *)
| Quit.                (* <-request.quit *)

Definition top (v : vars) : state :=
  match pending v with
  | [] => if quit v then Returned [] else Selecting v
  | _ :: _ => Selecting v
  end.

Definition loop_init : state := top (mkVars [] false).

Definition step (s : state) (e : event) : option state :=
  match s with
  | Returned _ => None
  | Selecting v =>
    match e with
    | Incoming m => Some (top (mkVars (pending v ++ [m]) (quit v)))
    | Out =>
      match pending v with
      | [] => None
      | _ :: rest => Some (top (mkVars rest (quit v)))
      end
    | Quit => Some (top (mkVars (pending v) true))
    end
  end.

Definition state_pending (s : state) : list M :=
  match s with Selecting v => pending v | Returned p => p end.
Definition label (s : state) (e : event) : option (fifo_event M) :=
  match e with
  | Incoming m => Some (Enq m)
  | Out => Deq <$> head (state_pending s)
  | Quit => None
  end.
Definition returned (s : state) : bool :=
  match s with Selecting _ => false | Returned _ => true end.
Definition closed (s : state) : bool :=
  match s with Selecting v => quit v | Returned _ => true end.
Definition aborts (e : event) : bool := false.
Definition external (e : event) : bool :=
  match e with Incoming _ | Quit => true | Out => false end.
Definition measure (s : state) : nat :=
  match s with Selecting v => 1 + length (pending v) | Returned _ => 0 end.
Definition inv (s : state) : Prop :=
  match s with
  | Selecting v => quit v = true -> pending v <> []
  | Returned _ => True
  end.

Lemma quit_top_pending v : state_pending (top v) = pending v.
Proof. unfold top. by destruct (pending v) eqn:Hp; [destruct (quit v)|]. Qed.

Lemma quit_top_returned v : returned (top v) = true -> pending v = [].
Proof. unfold top. by destruct (pending v). Qed.
End Loop.
Arguments state : clear implicits.
Arguments event : clear implicits.

#[global] Instance buffer {M} : BufferLoop M (state M) (event M).
Proof.
  refine {| buf_init := loop_init; buf_step := step; buf_pending := state_pending;
    buf_label := label; buf_returned := returned; buf_closed := closed; buf_send := Out;
    buf_aborts := aborts; buf_external := external; buf_measure := measure; buf_inv := inv |}.
  all: try done.
  - intros [v|p] e s' Hi He; [|done]. destruct v; loop_case top e He.
  - intros [v|p] e s' He; [|done].
    destruct v, e; step_inv He; rewrite ?quit_top_pending; constructor.
  - by intros [].
  - intros [v|p] e s' He Hab Hr; [|done].
    destruct v, e; step_inv He; rewrite quit_top_pending; by apply quit_top_returned.
  - intros [v|p] e s' Hc Hex He; [|done]. destruct v; loop_case top e He.
  - intros [[[|m p]]|p] Hi Hc Hr; simpl in *; [|eauto|done].
    by destruct (Hi Hc).
Defined.
End QuitLoop.

Definition newRequest_loop {M} := QuitLoop.step (M := M).
Definition newResponse_loop {M} := QuitLoop.step (M := M).

(** ** Properties *)

(** C11 (refinement): every run of a buffer loop is a trace of the FIFO queue:
    the messages received from the sender are the messages sent to the
    receiver, in the same order, followed by the pending ones; a loop that
    returned without being aborted (by a stop or a timeout) delivered them all. *)
Theorem buffer_refines_fifo {M St Ev : Type} `{BufferLoop M St Ev} (es : list Ev) (s : St)
    (Hrun : run buf_step buf_init es = Some s) :
  let tr := buf_trace buf_init es in
  fifo_trace [] tr (buf_pending s) /\
  enqueued tr = dequeued tr ++ buf_pending s /\
  (buf_returned s = true -> Forall (fun e => buf_aborts e = false) es ->
   enqueued tr = dequeued tr).
Proof.
  intros tr. pose proof (buf_run_refines _ _ _ Hrun) as Htr. rewrite buf_init_pending in Htr.
  pose proof (fifo_trace_contents _ _ _ Htr) as Hc. simpl in Hc.
  split_and!; [done..|]. intros Hret Hab.
  rewrite (buf_run_returned _ _ _ Hrun buf_init_running Hret Hab) in Hc.
  by rewrite app_nil_r in Hc.
Qed.

Lemma buffer_refines_fifo_witness :
  (let tr := buf_trace (AsyncBuff.loop_init (M := string))
     [AsyncBuff.Incoming "a"; AsyncBuff.Incoming "b"; AsyncBuff.Out;
      AsyncBuff.InputClosed; AsyncBuff.Out] in
   enqueued tr = dequeued tr) /\
  (let tr := buf_trace (HandlerLoop.loop_init (M := string))
     [HandlerLoop.Incoming "a"; HandlerLoop.Closed; HandlerLoop.Out] in
   enqueued tr = dequeued tr).
Proof.
  split.
  - exact (proj2 (proj2 (buffer_refines_fifo (M := string) (St := AsyncBuff.state string)
      [AsyncBuff.Incoming "a"; AsyncBuff.Incoming "b"; AsyncBuff.Out; AsyncBuff.InputClosed;
       AsyncBuff.Out] (AsyncBuff.Returned []) eq_refl)) eq_refl ltac:(by repeat constructor)).
  - exact (proj2 (proj2 (buffer_refines_fifo (M := string) (St := HandlerLoop.state string)
      [HandlerLoop.Incoming "a"; HandlerLoop.Closed; HandlerLoop.Out]
      (HandlerLoop.Returned []) eq_refl)) eq_refl ltac:(by repeat constructor)).
Defined.

(** C23 (termination): once the input of a reachable buffer loop is closed, any
    sequence of internal events is bounded by the loop's measure, and a ready
    receiver gets every pending message after which the loop has returned. *)
Theorem buffer_terminates {M St Ev : Type} `{BufferLoop M St Ev} (es : list Ev) (s : St)
    (Hrun : run buf_step buf_init es = Some s)
    (Hclosed : buf_closed s = true) (Hrunning : buf_returned s = false) :
  (forall es' s', Forall (fun e => buf_external e = false) es' ->
     run buf_step s es' = Some s' -> length es' <= buf_measure s) /\
  exists n s', run buf_step s (replicate n buf_send) = Some s' /\
    buf_returned s' = true /\ n <= buf_measure s /\
    dequeued (buf_trace s (replicate n buf_send)) = buf_pending s.
Proof.
  pose proof (buf_run_inv _ _ _ Hrun buf_init_inv) as Hi. split.
  - intros es' s' Hex Hrun'. pose proof (buf_run_bounded es' s s' Hclosed Hex Hrun'). lia.
  - destruct (buf_drains s Hi Hclosed Hrunning) as (n & s' & ? & ? & ? & ? & ?). by exists n, s'.
Qed.

Lemma buffer_terminates_witness :
  exists n s', run StopLoop.step (StopLoop.Selecting (StopLoop.mkVars ["a"; "b"] false true))
      (replicate n StopLoop.Out) = Some s' /\ StopLoop.returned s' = true.
Proof.
  pose proof (buffer_terminates (M := string)
    [StopLoop.Incoming "a"; StopLoop.Incoming "b"; StopLoop.InputClosed]
    (StopLoop.Selecting (StopLoop.mkVars ["a"; "b"] false true))) as H.
  destruct (H eq_refl eq_refl eq_refl) as [_ (n & s' & Hrun & Hret & _)].
  exists n, s'. split; [exact Hrun | exact Hret].
Defined.

Lemma asyncBuff_top_cases {M} (v : AsyncBuff.vars (M := M)) :
  AsyncBuff.top v = AsyncBuff.Selecting v \/ AsyncBuff.top v = AsyncBuff.Returned [].
Proof. unfold AsyncBuff.top. destruct (AsyncBuff.pending v), (AsyncBuff.finished v); auto. Qed.

Lemma asyncBuff_returned_run {M} p es (s : AsyncBuff.state M) :
  run AsyncBuff.step (AsyncBuff.Returned p) es = Some s -> es = [] /\ s = AsyncBuff.Returned p.
Proof. destruct es; naive_solver. Qed.

(** A loop whose [stopped] channel is nil no longer sees the stop. *)
Lemma asyncBuff_stopped_nil {M} (es : list (AsyncBuff.event M)) v s :
  AsyncBuff.stopped v = false ->
  run AsyncBuff.step (AsyncBuff.top v) es = Some s ->
  AsyncBuff.StopClosed ∉ es /\
  (forall p, s = AsyncBuff.Returned p -> p = [] \/ AsyncBuff.Timeout ∈ es).
Proof.
  revert v. induction es as [|e es IH]; intros v Hst Hrun.
  { injection Hrun as <-. split; [set_solver|].
    destruct (asyncBuff_top_cases v) as [-> | ->]; naive_solver. }
  destruct (asyncBuff_top_cases v) as [Ht|Ht]; rewrite Ht in Hrun; simpl in Hrun; [|done].
  assert (Hcont : forall v' m, AsyncBuff.stopped v' = false ->
    run AsyncBuff.step (AsyncBuff.top v') es = Some s -> m <> AsyncBuff.StopClosed ->
    AsyncBuff.StopClosed ∉ (m :: es) /\
    (forall p, s = AsyncBuff.Returned p -> p = [] \/ AsyncBuff.Timeout ∈ (m :: es))).
  { intros v' m Hv' Hr Hm. destruct (IH v' Hv' Hr) as [Hf Hp].
    split; [set_solver|]. intros p Hs. destruct (Hp p Hs); set_solver. }
  destruct e; rewrite ?Hst in Hrun; try done.
  - destruct (AsyncBuff.input v); [|done]. by eapply Hcont; [..|exact Hrun|].
  - destruct (AsyncBuff.input v); [|done]. by eapply Hcont; [..|exact Hrun|].
  - destruct (AsyncBuff.pending v); [done|]. by eapply Hcont; [..|exact Hrun|].
  - destruct (AsyncBuff.quitAfterTimeout v); [|done].
    apply asyncBuff_returned_run in Hrun as [-> ->]. set_solver.
Qed.

(** Once [Drain] has handed its timer to the loop of [asyncBuff]
    the closing of [stop] (by the [Stop] that ends [Drain], or by a later one)
    is never observed: from then on the loop returns with nothing pending,
    unless the timer fires. *)
Theorem drain_not_interrupted {M : Type} (es1 es2 : list (AsyncBuff.event M))
    (s : AsyncBuff.state M)
    (Hrun : run AsyncBuff.step AsyncBuff.loop_init (es1 ++ AsyncBuff.StopTimer :: es2) = Some s) :
  AsyncBuff.StopClosed ∉ es2 /\
  forall p, s = AsyncBuff.Returned p -> p = [] \/ AsyncBuff.Timeout ∈ es2.
Proof.
  rewrite run_app in Hrun. destruct (run _ _ es1) as [[v|p]|]; simpl in Hrun; [|done..].
  destruct (AsyncBuff.stopped v); [|done].
  by eapply asyncBuff_stopped_nil; [|exact Hrun].
Qed.

Lemma drain_not_interrupted_witness :
  AsyncBuff.StopClosed ∉ [AsyncBuff.Out (M := string); AsyncBuff.Timeout].
Proof.
  exact (proj1 (drain_not_interrupted [AsyncBuff.Incoming "a"; AsyncBuff.Incoming "b"]
    [AsyncBuff.Out; AsyncBuff.Timeout] (AsyncBuff.Returned ["b"]) eq_refl)).
Defined.
