(* ===== verification/Drain.v ===== *)
(** * Stop and Drain of a buffer

    The callers of [Stop] and [Drain] of [asyncBuff] (cocaine12/asocket.go) beside its
    loop, which is [AsyncBuff] of Buffers.v: the channel [stop] that they close or send
    a timer on, the channel [wait] that the loop closes, and the timers. *)
From S2P Require Import Prelude Buffers.
From Stdlib Require Import Lia.

Open Scope stdpp_scope.

(** ** Definitions *)

(** The channel of [time.After]: it delivers one tick. *)
Inductive time_After : Type :=
| Counting
| Ticked
| Received.

(** A call: where it is, the timer of its duration and that of its second. *)
Inductive call_pc : Type :=
| InDrain       (* the select of Drain *)
| InStop        (* before close(bf.stop) *)
| InWait        (* the select of Stop *)
| Finished.     (* returned nil *)

Record buff_caller : Type := mkCaller {
  at_pc : call_pc;
  timeoutChan : time_After;
  second : time_After
}.

Section Drain.
Context {M : Type}.

Record state : Type := mkState {
  loop : AsyncBuff.state M;
  stop_closed : bool;
  quitAfterTimeout : option nat;   (* the call whose timer the loop has *)
  callers : list buff_caller
}.

Definition newAsyncBuf : state := mkState AsyncBuff.loop_init false None [].

Inductive event : Type :=
| CallStop
| CallDrain
(* the loop *)
| InLoop (e : AsyncBuff.event M)     (* with the sender or the receiver *)
| LoopStopped                        (* it sees that [stop] is closed *)
| LoopTimeout                        (* <-quitAfterTimeout *)
(* call [i] *)
| HandOver (i : nat)                 (* bf.stop <- timeoutChan *)
| DrainTimeout (i : nat)             (* <-timeoutChan *)
| CloseStop (i : nat)                (* close(bf.stop) *)
| Waited (i : nat)                   (* <-bf.wait *)
| WaitTimeout (i : nat)              (* <-time.After(time.Second) *)
(* the clock *)
| Fires (i : nat)
| SecondFires (i : nat).

Definition set_loop (s : state) (l : AsyncBuff.state M) : state :=
  mkState l (stop_closed s) (quitAfterTimeout s) (callers s).
Definition set_caller (s : state) (i : nat) (c : buff_caller) : state :=
  mkState (loop s) (stop_closed s) (quitAfterTimeout s) (<[i := c]> (callers s)).

Definition buff_loop_step (s : state) (e : AsyncBuff.event M) : option (outcome state) :=
  Ok ∘ set_loop s <$> AsyncBuff.step (loop s) e.

Definition caller_step (s : state) (e : event) (i : nat) (c : buff_caller) : option (outcome state) :=
  match e, at_pc c with
  | HandOver _, InDrain =>
    if stop_closed s then Some Panic       (* a send on a closed channel *)
    else
      match AsyncBuff.step (loop s) AsyncBuff.StopTimer with
      | Some l =>
        Some (Ok (set_caller (mkState l false (Some i) (callers s)) i
          (mkCaller InStop (timeoutChan c) (second c))))
      | None => None
      end
  | DrainTimeout _, InDrain =>
    match timeoutChan c with
    | Ticked => Some (Ok (set_caller s i (mkCaller InStop Received (second c))))
    | _ => None
    end
  | CloseStop _, InStop =>
    if stop_closed s then Some Panic       (* a close of a closed channel *)
    else
      Some (Ok (set_caller (mkState (loop s) true (quitAfterTimeout s) (callers s)) i
        (mkCaller InWait (timeoutChan c) Counting)))
  | Waited _, InWait =>
    if AsyncBuff.returned (loop s) then
      Some (Ok (set_caller s i (mkCaller Finished (timeoutChan c) (second c))))
    else None
  | WaitTimeout _, InWait =>
    match second c with
    | Ticked => Some (Ok (set_caller s i (mkCaller Finished (timeoutChan c) Received)))
    | _ => None
    end
  | Fires _, _ =>
    match timeoutChan c with
    | Counting => Some (Ok (set_caller s i (mkCaller (at_pc c) Ticked (second c))))
    | _ => None
    end
  | SecondFires _, (InWait | Finished) =>
    match second c with
    | Counting => Some (Ok (set_caller s i (mkCaller (at_pc c) (timeoutChan c) Ticked)))
    | _ => None
    end
  | _, _ => None
  end.

Definition state_step (s : state) (e : event) : option (outcome state) :=
  match e with
  | CallStop => Some (Ok (mkState (loop s) (stop_closed s) (quitAfterTimeout s)
      (callers s ++ [mkCaller InStop Received Counting])))
  | CallDrain => Some (Ok (mkState (loop s) (stop_closed s) (quitAfterTimeout s)
      (callers s ++ [mkCaller InDrain Counting Counting])))
  | InLoop e =>
    match e with
    | AsyncBuff.Incoming _ | AsyncBuff.InputClosed | AsyncBuff.Out => buff_loop_step s e
    | _ => None
    end
  | LoopStopped => if stop_closed s then buff_loop_step s AsyncBuff.StopClosed else None
  | LoopTimeout =>
    match quitAfterTimeout s with
    | None => None
    | Some i =>
      match callers s !! i with
      | Some c =>
        match timeoutChan c with
        | Ticked =>
          buff_loop_step (set_caller s i (mkCaller (at_pc c) Received (second c))) AsyncBuff.Timeout
        | _ => None
        end
      | None => None
      end
    end
  | HandOver i | DrainTimeout i | CloseStop i | Waited i | WaitTimeout i | Fires i | SecondFires i =>
    match callers s !! i with
    | Some c => caller_step s e i c
    | None => None
    end
  end.

Definition buff_step (o : outcome state) (e : event) : option (outcome state) :=
  match o with Ok s => state_step s e | Panic => None end.

(** ** Specification *)

(** What the loop sees of a run. *)
Definition loop_events (es : list event) : list (AsyncBuff.event M) :=
  omap (fun e => match e with
    | InLoop e => Some e
    | HandOver _ => Some AsyncBuff.StopTimer
    | LoopStopped => Some AsyncBuff.StopClosed
    | LoopTimeout => Some AsyncBuff.Timeout
    | _ => None
    end) es.

Definition is_call (e : event) : bool := match e with CallStop | CallDrain => true | _ => false end.
Definition calls (es : list event) : nat := length (List.filter is_call es).

(** The call has closed [stop]. *)
Definition past_close (c : buff_caller) : bool :=
  match at_pc c with InWait | Finished => true | _ => false end.

(** ** Lemmas *)

(** One call at most has closed [stop]; a finished one has seen the end of the loop or
    its second. *)
Record inv (es : list event) (s : state) : Prop := {
  i_loop : run AsyncBuff.step AsyncBuff.loop_init (loop_events es) = Some (loop s);
  i_calls : length (callers s) = calls es;
  i_closed : stop_closed s = true <-> exists i c, callers s !! i = Some c /\ past_close c = true;
  i_once : forall i j c d, callers s !! i = Some c -> callers s !! j = Some d ->
    past_close c = true -> past_close d = true -> i = j;
  i_done : forall i c, callers s !! i = Some c -> at_pc c = Finished ->
    AsyncBuff.returned (loop s) = true \/ second c = Received;
  i_handed : AsyncBuff.StopTimer ∈ loop_events es -> quitAfterTimeout s <> None;
  i_timeout : AsyncBuff.Timeout ∈ loop_events es ->
    exists i c, quitAfterTimeout s = Some i /\ callers s !! i = Some c /\ timeoutChan c = Received
}.

Lemma inv_init : inv [] newAsyncBuf.
Proof.
  split; try done; cbn; try (intros H; by apply elem_of_nil in H).
  split; [done|]. by intros (i & c & H & _).
Qed.

Lemma loop_events_snoc es e : loop_events (es ++ [e]) = loop_events es ++ loop_events [e].
Proof. apply omap_app. Qed.

Lemma calls_snoc es e : calls (es ++ [e]) = calls es + (if is_call e then 1 else 0).
Proof. unfold calls. rewrite List.filter_app, length_app. cbn. by destruct (is_call e). Qed.

Lemma set_lookup s i c c' j d :
  callers s !! i = Some c -> callers (set_caller s i c') !! j = Some d ->
  i = j /\ d = c' \/ i <> j /\ callers s !! j = Some d.
Proof.
  intros Hi Hj. cbn in Hj. destruct (decide (i = j)) as [<-|Hn].
  - left. rewrite list_lookup_insert_eq in Hj by (by eapply lookup_lt_Some). by injection Hj.
  - right. by rewrite list_lookup_insert_ne in Hj by done.
Qed.

Lemma set_found s i c c' : callers s !! i = Some c -> callers (set_caller s i c') !! i = Some c'.
Proof. intros Hi. cbn. apply list_lookup_insert_eq. by eapply lookup_lt_Some. Qed.

(** A call that moves without closing [stop]. *)
Lemma inv_set es s i c c' :
  inv es s -> callers s !! i = Some c -> past_close c' = past_close c ->
  (at_pc c' = Finished -> AsyncBuff.returned (loop s) = true \/ second c' = Received) ->
  (timeoutChan c = Received -> timeoutChan c' = Received) ->
  inv es (set_caller s i c').
Proof.
  intros [Hl Hn Hc Ho Hd Hh Ht] Hi Hp Hf Hr. split; try done.
  - cbn. by rewrite length_insert.
  - cbn [stop_closed set_caller]. rewrite Hc. split.
    + intros (j & d & Hj & Hpd). destruct (decide (i = j)) as [<-|Hij].
      * exists i, c'. rewrite (set_found _ _ _ _ Hi), Hp. by simplify_eq.
      * exists j, d. cbn. by rewrite list_lookup_insert_ne.
    + intros (j & d & Hj & Hpd). destruct (set_lookup _ _ _ _ _ _ Hi Hj) as [[<- ->]|[_ Hj']].
      * exists i, c. by rewrite <- Hp.
      * by exists j, d.
  - intros j k d d' Hj Hk Hpd Hpd'.
    destruct (set_lookup _ _ _ _ _ _ Hi Hj) as [[<- ->]|[_ Hj']],
      (set_lookup _ _ _ _ _ _ Hi Hk) as [[<- ->]|[_ Hk']]; rewrite ?Hp in *; try done; by eapply Ho.
  - intros j d Hj Hpd. destruct (set_lookup _ _ _ _ _ _ Hi Hj) as [[<- ->]|[_ Hj']]; [by apply Hf|].
    by eapply Hd.
  - intros Hin. destruct (Ht Hin) as (j & d & Hq & Hj & Hdr). destruct (decide (i = j)) as [<-|Hij].
    + exists i, c'. split; [done|]. split; [by eapply set_found|]. simplify_eq. by apply Hr.
    + exists j, d. cbn. by rewrite list_lookup_insert_ne.
Qed.

(** An event that is neither a call nor one of the loop. *)
Lemma inv_silent es s e : loop_events [e] = [] -> is_call e = false -> inv es s -> inv (es ++ [e]) s.
Proof.
  intros He He' [Hl Hn Hc Ho Hd Hh Ht].
  by split; rewrite ?loop_events_snoc, ?calls_snoc, ?He, ?He', ?app_nil_r, ?Nat.add_0_r.
Qed.

(** A loop that has returned takes no step. *)
Lemma loop_alive (l l' : AsyncBuff.state M) e : AsyncBuff.step l e = Some l' -> AsyncBuff.returned l = false.
Proof. by destruct l. Qed.

Lemma timeout_last es (l : AsyncBuff.state M) :
  run AsyncBuff.step AsyncBuff.loop_init es = Some l -> AsyncBuff.Timeout ∈ es ->
  AsyncBuff.returned l = true.
Proof.
  intros Hrun Hin. apply list_elem_of_split in Hin as (es1 & es2 & ->).
  rewrite run_app in Hrun. destruct (run _ _ es1) as [[v|p]|]; cbn in Hrun; [|done..].
  destruct (AsyncBuff.quitAfterTimeout v); [|done]. by apply asyncBuff_returned_run in Hrun as [_ ->].
Qed.

(** A step of the loop. *)
Lemma inv_loop es s e a l' :
  inv es s -> loop_events [e] = [a] -> is_call e = false -> AsyncBuff.step (loop s) a = Some l' ->
  (a = AsyncBuff.StopTimer -> quitAfterTimeout s <> None) ->
  (a = AsyncBuff.Timeout -> exists i c, quitAfterTimeout s = Some i /\ callers s !! i = Some c /\
     timeoutChan c = Received) ->
  inv (es ++ [e]) (set_loop s l').
Proof.
  intros [Hl Hn Hc Ho Hd Hh Ht] He He' Hs Ha1 Ha2.
  split; rewrite ?loop_events_snoc, ?calls_snoc, ?He, ?He', ?Nat.add_0_r; try done.
  - by rewrite run_app, Hl; cbn; rewrite Hs.
  - intros i c Hi Hf. destruct (Hd i c Hi Hf) as [Hr|Hr]; [|by right].
    by rewrite (loop_alive _ _ _ Hs) in Hr.
  - intros [Hin|Hin%list_elem_of_singleton]%elem_of_app; [by apply Hh|by apply Ha1].
  - intros [Hin|Hin%list_elem_of_singleton]%elem_of_app; [by apply Ht|by apply Ha2].
Qed.

Lemma inv_handed es s i :
  inv es s -> AsyncBuff.returned (loop s) = false ->
  inv es (mkState (loop s) (stop_closed s) (Some i) (callers s)).
Proof.
  intros [Hl Hn Hc Ho Hd Hh Ht] Hr. split; try done.
  intros Hin. by rewrite (timeout_last _ _ Hl Hin) in Hr.
Qed.

Lemma inv_call es s e c :
  inv es s -> loop_events [e] = [] -> is_call e = true -> past_close c = false ->
  inv (es ++ [e]) (mkState (loop s) (stop_closed s) (quitAfterTimeout s) (callers s ++ [c])).
Proof.
  intros [Hl Hn Hc Ho Hd Hh Ht] He He' Hp.
  assert (Hin : forall i d, (callers s ++ [c]) !! i = Some d -> past_close d = true -> callers s !! i = Some d).
  { intros i d Hi Hpd. apply lookup_app_Some in Hi as [Hi|[_ Hi]]; [done|].
    apply list_lookup_singleton_Some in Hi as [_ <-]. congruence. }
  split; rewrite ?loop_events_snoc, ?calls_snoc, ?He, ?He', ?app_nil_r; try done; cbn [callers].
  - rewrite length_app, Hn. done.
  - cbn. rewrite Hc. split; intros (i & d & Hi & Hpd); exists i, d; split; eauto. by apply lookup_app_l_Some.
  - intros i j d d' Hi Hj Hpd Hpd'. eapply Ho; eauto.
  - intros i d Hi Hf. eapply Hd, Hf. apply Hin; [done|]. unfold past_close. by rewrite Hf.
  - intros Hto. destruct (Ht Hto) as (i & d & Hq & Hi & Hr). exists i, d. split_and!; [done|by apply lookup_app_l_Some|done].
Qed.

Lemma inv_close es s i c :
  inv es s -> stop_closed s = false -> callers s !! i = Some c -> at_pc c = InStop ->
  inv es (set_caller (mkState (loop s) true (quitAfterTimeout s) (callers s)) i
    (mkCaller InWait (timeoutChan c) Counting)).
Proof.
  intros [Hl Hn Hc Ho Hd Hh Ht] Hs Hi Hpc.
  assert (Hnone : forall j d, callers s !! j = Some d -> past_close d = true -> False).
  { intros j d Hj Hpd. assert (stop_closed s = true) by (apply Hc; by exists j, d). congruence. }
  set (c' := mkCaller InWait (timeoutChan c) Counting).
  assert (Hlk : forall j d, <[i := c']> (callers s) !! j = Some d -> past_close d = true -> i = j).
  { intros j d Hj Hpd. destruct (set_lookup s _ _ _ _ _ Hi Hj) as [[<- _]|[_ Hj']]; [done|].
    by destruct (Hnone j d). }
  split; try done; cbn [callers set_caller].
  - by rewrite length_insert.
  - split; [|done]. intros _. exists i, c'. by split; [apply (set_found s _ _ _ Hi)|].
  - intros j k d d' Hj Hk Hpd Hpd'. by rewrite <- (Hlk j d), <- (Hlk k d').
  - intros j d Hj Hf. destruct (set_lookup s _ _ _ _ _ Hi Hj) as [[_ ->]|[_ Hj']]; [done|].
    destruct (Hnone j d Hj'). unfold past_close. by rewrite Hf.
  - intros Hto. destruct (Ht Hto) as (j & d & Hq & Hj & Hr). destruct (decide (i = j)) as [<-|Hij].
    + exists i, c'. split_and!; [done|apply (set_found s _ _ _ Hi)|]. cbn. by simplify_eq.
    + exists j, d. by rewrite list_lookup_insert_ne.
Qed.

(** A call that moves by itself. *)
Ltac move_call :=
  apply inv_silent; [done..|]; eapply inv_set; [done|done|unfold past_close; cbn|cbn|cbn; congruence];
  repeat match goal with H : at_pc _ = _ |- _ => rewrite H end; try done.

Lemma inv_step es s e s' : inv es s -> state_step s e = Some (Ok s') -> inv (es ++ [e]) s'.
Proof.
  intros Hinv Hs. pose proof Hinv as [Hl Hn Hc Ho Hd Hh Ht].
  destruct e as [| |a| | |i|i|i|i|i|i|i]; cbn [state_step] in Hs.
  6-12: destruct (callers s !! i) as [c|] eqn:Hi; [|done]; cbn [caller_step] in Hs;
    repeat (case_match; try done); simplify_eq.
  - injection Hs as <-. by apply inv_call.
  - injection Hs as <-. by apply inv_call.
  - destruct a; try done; unfold buff_loop_step in Hs; apply fmap_Some in Hs as (l' & Hs & [= ->]);
      by eapply inv_loop.
  - destruct (stop_closed s); [|done]. apply fmap_Some in Hs as (l' & Hs & [= ->]). by eapply inv_loop.
  - destruct (quitAfterTimeout s) as [i|] eqn:Hq; [|done]. destruct (callers s !! i) as [c|] eqn:Hi; [|done].
    destruct (timeoutChan c) eqn:Hti; try done. apply fmap_Some in Hs as (l' & Hs & [= ->]).
    eapply inv_loop; [|done|done|exact Hs|done|].
    + eapply inv_set; [done|exact Hi|done| |done]. intros Hf. by apply (Hd i c).
    + intros _. exists i, (mkCaller (at_pc c) Received (second c)). split_and!; [done| |done].
      by eapply set_found.
  - match goal with H : AsyncBuff.step _ _ = Some _ |- _ => rename H into Hst end.
    eapply (inv_set _ (mkState _ false (Some i) (callers s))); [|exact Hi| |done|done].
    + pose proof (inv_handed _ _ i Hinv (loop_alive _ _ _ Hst)) as Hinv'.
      match goal with H : stop_closed s = false |- _ => rewrite H in Hinv' end.
      by eapply (inv_loop _ _ (HandOver i) AsyncBuff.StopTimer) in Hinv'.
    + unfold past_close. cbn. match goal with H : at_pc _ = _ |- _ => by rewrite H end.
  - move_call.
  - apply inv_silent; [done..|]. by apply inv_close.
  - move_call. by left.
  - move_call. by right.
  - move_call. by apply (Hd i c).
  - move_call.
  - move_call. intros _.
    match goal with H : at_pc c = Finished |- _ => destruct (Hd _ _ Hi H); [by left|congruence] end.
Qed.

Lemma buff_run es s : run buff_step (Ok newAsyncBuf) es = Some (Ok s) -> inv es s.
Proof.
  revert s. induction es as [|e es IH] using rev_ind; intros s Hrun; [injection Hrun as <-; apply inv_init|].
  apply run_snoc in Hrun as ([s1|] & Hrun & Hs); [|done]. eapply inv_step, Hs. by apply IH.
Qed.

(** A panic needs a call beside the one that closed [stop]. *)
Lemma panic_inv es s e :
  inv es s -> state_step s e = Some Panic -> stop_closed s = true /\ 2 <= calls es.
Proof.
  intros [Hl Hn Hc Ho Hd Hh Ht] Hs.
  assert (Hp : stop_closed s = true /\ exists i c, callers s !! i = Some c /\ past_close c = false).
  { destruct e as [| |a| | |i|i|i|i|i|i|i]; cbn [state_step] in Hs.
    6-12: destruct (callers s !! i) as [c|] eqn:Hi; [|done]; cbn [caller_step] in Hs;
      repeat (case_match; try done); (split; [done|]); exists i, c; (split; [done|]); unfold past_close;
      match goal with H : at_pc _ = _ |- _ => by rewrite H end.
    1-2: done.
    all: unfold buff_loop_step in Hs; repeat (case_match; try done); by apply fmap_Some in Hs as (? & _ & Hs). }
  destruct Hp as [Hcl (i & c & Hi & Hpc)]. split; [done|].
  destruct (proj1 Hc Hcl) as (j & d & Hj & Hpd). rewrite <- Hn.
  assert (i <> j) by (intros ->; congruence). apply lookup_lt_Some in Hi, Hj. lia.
Qed.

(** The timers of a call that waits for them. *)
Record waits (s : state) : Prop := {
  w_drain : forall i c, callers s !! i = Some c -> at_pc c = InDrain ->
    timeoutChan c <> Received /\ quitAfterTimeout s <> Some i;
  w_wait : forall i c, callers s !! i = Some c -> at_pc c = InWait -> second c <> Received;
  w_handed : forall i, quitAfterTimeout s = Some i -> i < length (callers s)
}.

Lemma waits_set s i c c' :
  waits s -> callers s !! i = Some c ->
  (at_pc c' = InDrain -> at_pc c = InDrain /\ timeoutChan c' <> Received) ->
  (at_pc c' = InWait -> second c' <> Received) ->
  waits (set_caller s i c').
Proof.
  intros [Hd Hw Hh] Hi Hd' Hw'. split.
  - intros j d Hj Hpd. destruct (set_lookup _ _ _ _ _ _ Hi Hj) as [[<- ->]|[_ Hj']]; [|by apply (Hd j d)].
    destruct (Hd' Hpd) as [Hpc Ht]. split; [done|]. by apply (Hd i c).
  - intros j d Hj Hpd. destruct (set_lookup _ _ _ _ _ _ Hi Hj) as [[<- ->]|[_ Hj']]; [by apply Hw'|by eapply Hw].
  - cbn. rewrite length_insert. exact Hh.
Qed.

Lemma waits_call s c :
  waits s -> timeoutChan c <> Received \/ at_pc c <> InDrain -> at_pc c <> InWait ->
  waits (mkState (loop s) (stop_closed s) (quitAfterTimeout s) (callers s ++ [c])).
Proof.
  intros [Hd Hw Hh] Hc Hc'. split; cbn.
  - intros i d Hi Hpd. apply lookup_app_Some in Hi as [Hi|[Hge Hi]]; [by apply (Hd i d)|].
    apply list_lookup_singleton_Some in Hi as [_ <-]. destruct Hc; [|done]. split; [done|].
    intros Hq. apply Hh in Hq. lia.
  - intros i d Hi Hpd. apply lookup_app_Some in Hi as [Hi|[Hge Hi]]; [by eapply Hw|].
    by apply list_lookup_singleton_Some in Hi as [_ <-].
  - intros i Hi. rewrite length_app. apply Hh in Hi. lia.
Qed.

Lemma waits_step s e s' : waits s -> state_step s e = Some (Ok s') -> waits s'.
Proof.
  intros Hinv Hs. pose proof Hinv as [Hd Hw Hh].
  destruct e as [| |a| | |i|i|i|i|i|i|i]; cbn [state_step] in Hs.
  6-12: destruct (callers s !! i) as [c|] eqn:Hi; [|done]; cbn [caller_step] in Hs;
    repeat (case_match; try done); simplify_eq.
  - injection Hs as <-. apply waits_call; auto.
  - injection Hs as <-. apply waits_call; cbn; auto.
  - destruct a; try done; apply fmap_Some in Hs as (l' & Hs & [= ->]); by split.
  - destruct (stop_closed s); [|done]. apply fmap_Some in Hs as (l' & Hs & [= ->]). by split.
  - destruct (quitAfterTimeout s) as [i|] eqn:Hq; [|done]. destruct (callers s !! i) as [c|] eqn:Hi; [|done].
    destruct (timeoutChan c); try done. apply fmap_Some in Hs as (l' & Hs & [= ->]).
    assert (Hw' : waits (set_caller s i (mkCaller (at_pc c) Received (second c)))).
    { eapply waits_set; [done|exact Hi| |]; cbn.
      - intros Hpc. by destruct (Hd i c Hi Hpc) as [_ H].
      - by apply (Hw i c). }
    by destruct Hw'; split.
  - split; cbn [quitAfterTimeout callers set_caller].
    + intros j d Hj Hpd. destruct (set_lookup s _ _ _ _ _ Hi Hj) as [[<- ->]|[Hn Hj']]; [done|].
      split; [by apply (Hd j d)|]. congruence.
    + intros j d Hj Hpd. destruct (set_lookup s _ _ _ _ _ Hi Hj) as [[<- ->]|[Hn Hj']]; [done|].
      by apply (Hw j d).
    + intros j [= <-]. rewrite length_insert. by eapply lookup_lt_Some.
  - eapply waits_set; [done|exact Hi|done|done].
  - apply (waits_set (mkState (loop s) true (quitAfterTimeout s) (callers s)) i c); [by split|done..].
  - eapply waits_set; [done|exact Hi|done|done].
  - eapply waits_set; [done|exact Hi|done|done].
  - eapply waits_set; [done|exact Hi|done|]. by apply (Hw i c).
  - eapply waits_set; [done|exact Hi|cbn; congruence|done].
  - eapply waits_set; [done|exact Hi|cbn; congruence|done].
Qed.

Lemma waits_run es s : run buff_step (Ok newAsyncBuf) es = Some (Ok s) -> waits s.
Proof.
  revert s. induction es as [|e es IH] using rev_ind; intros s Hrun.
  - injection Hrun as <-. by split.
  - apply run_snoc in Hrun as ([s1|] & Hrun & Hs); [|done]. eapply waits_step, Hs. by apply IH.
Qed.

(** The steps of a call and of its timers. *)
Definition of_call (i : nat) (e : event) : Prop :=
  e = DrainTimeout i \/ e = CloseStop i \/ e = WaitTimeout i \/ e = Fires i \/ e = SecondFires i.

(** A call that comes to an end by its timers alone. *)
Definition comes_to (s : state) (i : nat) (P : outcome state -> Prop) : Prop :=
  exists es o, run buff_step (Ok s) es = Some o /\ Forall (of_call i) es /\ P o.
Definition finished_as (l : AsyncBuff.state M) (i : nat) (o : outcome state) : Prop :=
  match o with
  | Panic => False
  | Ok s => loop s = l /\ exists c, callers s !! i = Some c /\ at_pc c = Finished
  end.

Lemma comes_step s s' i e P :
  state_step s e = Some (Ok s') -> of_call i e -> comes_to s' i P -> comes_to s i P.
Proof.
  intros Hs He (es & o & Hrun & Hes & Ho). exists (e :: es), o.
  split; [cbn [run buff_step]; by rewrite Hs|]. split; [by constructor|done].
Qed.

Lemma comes_last s i e o (P : outcome state -> Prop) :
  state_step s e = Some o -> of_call i e -> P o -> comes_to s i P.
Proof.
  intros Hs He Ho. exists [e], o. split; [cbn; by rewrite Hs|]. split; [by apply Forall_singleton|done].
Qed.

#[local] Hint Unfold of_call : core.

Lemma ends_wait s i c :
  callers s !! i = Some c -> at_pc c = InWait -> second c <> Received ->
  comes_to s i (finished_as (loop s) i).
Proof.
  intros Hi Hpc Hr.
  assert (Hend : forall s c, callers s !! i = Some c -> at_pc c = InWait -> second c = Ticked ->
    comes_to s i (finished_as (loop s) i)).
  { clear. intros s c Hi Hpc Ht. eapply comes_last with (WaitTimeout i) _; [|by auto 7|].
    - cbn. by rewrite Hi, Hpc, Ht.
    - split; [done|]. eexists. split; [by eapply set_found|done]. }
  destruct (second c) eqn:Hs; [|by eapply Hend|done].
  eapply comes_step with _ (SecondFires i); [cbn; by rewrite Hi, Hpc, Hs|by auto 7|].
  eapply (Hend (set_caller s i _)); [by eapply set_found|done|done].
Qed.

Lemma ends_stop s i c :
  callers s !! i = Some c -> at_pc c = InStop ->
  comes_to s i (if stop_closed s then eq Panic else finished_as (loop s) i).
Proof.
  intros Hi Hpc. destruct (stop_closed s) eqn:Hc.
  - eapply comes_last with (CloseStop i) _; [cbn; by rewrite Hi, Hpc, Hc|by auto 7|done].
  - eapply comes_step with _ (CloseStop i); [cbn; by rewrite Hi, Hpc, Hc|by auto 7|].
    eapply (ends_wait (set_caller (mkState (loop s) true _ _) i _)); [by apply (set_found s _ c)|done..].
Qed.

Lemma ends_drain s i c :
  callers s !! i = Some c -> at_pc c = InDrain -> timeoutChan c <> Received ->
  comes_to s i (if stop_closed s then eq Panic else finished_as (loop s) i).
Proof.
  intros Hi Hpc Hr.
  assert (Hend : forall s c, callers s !! i = Some c -> at_pc c = InDrain -> timeoutChan c = Ticked ->
    comes_to s i (if stop_closed s then eq Panic else finished_as (loop s) i)).
  { clear. intros s c Hi Hpc Ht. eapply comes_step with _ (DrainTimeout i); [|by auto 7|].
    - cbn. by rewrite Hi, Hpc, Ht.
    - eapply (ends_stop (set_caller s i _)); [by eapply set_found|done]. }
  destruct (timeoutChan c) eqn:Ht; [|by eapply Hend|done].
  eapply comes_step with _ (Fires i); [cbn; by rewrite Hi, Ht|by auto 7|].
  eapply (Hend (set_caller s i _)); [by eapply set_found|done|done].
Qed.
End Drain.

(** ** Theorem *)

(** [Stop] and [Drain] called by any goroutines in any run: the loop is that of
    Buffers.v, whatever they do. A panic - a close of, or a send on, a closed channel -
    needs two calls, of which one has closed [stop]; a single call never panics. A call
    that returns has seen the end of the loop or a second pass, and once its timer is
    handed over the loop is cut short only by that timer, also when [Drain] has
    returned. A call that is alone can always return by its timers, whatever the
    loop does; when another one has closed [stop], it panics. *)
Theorem stop_and_drain {M : Type} (es : list (event (M := M))) (o : outcome (state (M := M)))
    (Hrun : run buff_step (Ok newAsyncBuf) es = Some o) :
  match o with
  | Panic => 2 <= calls es
  | Ok s =>
    run AsyncBuff.step AsyncBuff.loop_init (loop_events es) = Some (loop s) /\
    (forall e, state_step s e = Some Panic -> stop_closed s = true /\ 2 <= calls es) /\
    (AsyncBuff.StopTimer ∈ loop_events es ->
       exists i, quitAfterTimeout s = Some i /\
         forall p, loop s = AsyncBuff.Returned p ->
           p = [] \/ exists c, callers s !! i = Some c /\ timeoutChan c = Received) /\
    forall i c, callers s !! i = Some c ->
      (at_pc c = Finished -> AsyncBuff.returned (loop s) = true \/ second c = Received) /\
      if stop_closed s && negb (past_close c) then comes_to s i (eq Panic)
      else comes_to s i (finished_as (loop s) i)
  end.
Proof.
  destruct o as [s|].
  2: { destruct es as [|e es _] using rev_ind; [done|].
    apply run_snoc in Hrun as ([s|] & Hrun & Hs); [|done].
    destruct (panic_inv _ _ _ (buff_run _ _ Hrun) Hs) as [_ Hn]. rewrite calls_snoc. lia. }
  pose proof (buff_run _ _ Hrun) as Hinv. pose proof (waits_run _ _ Hrun) as [Hd Hw _].
  split; [apply Hinv|]. split; [intros e; by apply panic_inv|]. split.
  - intros Hin. pose proof (i_handed _ _ Hinv Hin) as Hq.
    destruct (quitAfterTimeout s) as [i|] eqn:Hi; [|done]. exists i. split; [done|]. intros p Hp.
    apply list_elem_of_split in Hin as (es1 & es2 & Hes).
    pose proof (i_loop _ _ Hinv) as Hl. rewrite Hes in Hl.
    destruct (drain_not_interrupted _ _ _ Hl) as [_ Hnot]. destruct (Hnot p Hp) as [?|Hto]; [by left|right].
    destruct (i_timeout _ _ Hinv) as (j & c & Hj & Hc & Hr); [rewrite Hes, elem_of_app, elem_of_cons; auto|].
    exists c. by simplify_eq.
  - intros i c Hi. split; [by apply (i_done _ _ Hinv i c Hi)|]. unfold past_close. destruct (at_pc c) eqn:Hpc.
    + pose proof (ends_drain s i c Hi Hpc (proj1 (Hd _ _ Hi Hpc))) as He. by destruct (stop_closed s).
    + pose proof (ends_stop s i c Hi Hpc) as He. by destruct (stop_closed s).
    + rewrite andb_false_r. eapply ends_wait; eauto.
    + rewrite andb_false_r. exists [], (Ok s). split; [done|]. split; [done|]. split; [done|]. by exists c.
Qed.

(** ** Witness: a Drain returns a second after it handed its timer over, long before
    the timer, and leaves the messages it was called for to the loop *)
Lemma drain_returns_early :
  match run buff_step (Ok newAsyncBuf)
          [InLoop (AsyncBuff.Incoming "a"); CallDrain; HandOver 0; CloseStop 0; SecondFires 0; WaitTimeout 0] with
  | Some (Ok s) => AsyncBuff.state_pending (loop s) = ["a"] /\ AsyncBuff.returned (loop s) = false /\
      exists c, callers s !! 0 = Some c /\ at_pc c = Finished /\ timeoutChan c = Counting
  | _ => False
  end.
Proof. vm_compute. split; [done|]. split; [done|]. by eexists. Qed.

Lemma stop_and_drain_witness :
  exists es : list (event (M := string)), run buff_step (Ok newAsyncBuf) es = Some Panic /\ 2 <= calls es.
Proof.
  exists [CallStop; CloseStop 0; CallDrain; HandOver 1]. split; [reflexivity|].
  exact (stop_and_drain [CallStop; CloseStop 0; CallDrain; HandOver 1] Panic eq_refl).
Defined.
