(* ===== verification/Socket.v ===== *)
(** * cocaine12/asocket.go and cocaine/asocket.go: the sockets

    [asyncRWSocket] of both versions and the [asyncWSocket] of v0.11. A socket has
    a buffer loop between its callers and the write loop, [upstreamBuf] (in v0.11
    [clientToSock]), and one between the read loop and the receiver of [Read],
    [downstreamBuf] ([socketToClient]). The goroutines are composed as a
    transition system whose events are the communications between them; the
    connection and the codec are the environment, which chooses the messages
    that arrive and where encoding or decoding fails. What the sockets differ in is
    the class [SocketKind], with an instance for each. *)
From S2P Require Import Prelude Buffers.
From Stdlib Require Import Lia.

(** ** The kinds of sockets *)

Class SocketKind (M : Type) := {
  buffer : Type;
  buffer_init : buffer;
  (** the cases of the loop's [select] *)
  buffer_in : M -> buffer -> option buffer;
  buffer_in_closed : buffer -> option buffer;
  buffer_out : buffer -> option buffer;
  buffer_stop : buffer -> option buffer;
  pending : buffer -> list M;
  buffer_returned : buffer -> bool;

  (** a closed socket drops what is sent instead of blocking the sender *)
  drops : bool;
  (** the messages behind a failed write are received and discarded *)
  blackholes : bool;
  (** what is read is delivered: not in a write-only socket *)
  delivers : bool;

  buffer_init_pending : pending buffer_init = [];
  buffer_in_pending : forall m b b', buffer_in m b = Some b' -> pending b' = pending b ++ [m];
  buffer_out_pending : forall b b', buffer_out b = Some b' ->
    exists m, pending b = m :: pending b' /\ buffer_returned b = false;
  buffer_quiet : forall b b', buffer_in_closed b = Some b' \/ buffer_stop b = Some b' ->
    pending b' = pending b
}.

(** cocaine12 *)
#[export, refine] Instance asyncRW_kind (M : Type) : SocketKind M := {
  buffer := AsyncBuff.state M;
  buffer_init := AsyncBuff.loop_init;
  buffer_in m b := AsyncBuff.step b (AsyncBuff.Incoming m);
  buffer_in_closed b := AsyncBuff.step b AsyncBuff.InputClosed;
  buffer_out b := AsyncBuff.step b AsyncBuff.Out;
  buffer_stop b := AsyncBuff.step b AsyncBuff.StopClosed;
  pending := AsyncBuff.state_pending;
  buffer_returned := AsyncBuff.returned;
  drops := true;
  blackholes := true;
  delivers := true
}.
Proof.
  - done.
  - intros m b b' H. pose proof (buf_simulates (BufferLoop := AsyncBuff.buffer) _ _ _ H) as Hf.
    by inversion Hf.
  - intros b b' H. pose proof (buf_simulates (BufferLoop := AsyncBuff.buffer) _ _ _ H) as Hf.
    destruct b as [v|p]; [|done]. cbn in *.
    destruct (AsyncBuff.pending v) as [|m rest]; [done|]. exists m. by inversion Hf.
  - intros b b' [H|H]; pose proof (buf_simulates (BufferLoop := AsyncBuff.buffer) _ _ _ H) as Hf;
      by inversion Hf.
Defined.

(** The buffers of v0.11. *)
Lemma stop_in_pending {M} (m : M) b b' :
  StopLoop.step b (StopLoop.Incoming m) = Some b' ->
  StopLoop.state_pending b' = StopLoop.state_pending b ++ [m].
Proof.
  intros H. pose proof (buf_simulates (BufferLoop := StopLoop.buffer) _ _ _ H) as Hf. by inversion Hf.
Qed.

Lemma stop_out_pending {M} (b b' : StopLoop.state M) :
  StopLoop.step b StopLoop.Out = Some b' ->
  exists m, StopLoop.state_pending b = m :: StopLoop.state_pending b' /\ StopLoop.returned b = false.
Proof.
  intros H. pose proof (buf_simulates (BufferLoop := StopLoop.buffer) _ _ _ H) as Hf.
  destruct b as [v|p]; [|done]. cbn in *.
  destruct (StopLoop.pending v) as [|m rest]; [done|]. exists m. by inversion Hf.
Qed.

Lemma stop_quiet {M} (b b' : StopLoop.state M) :
  StopLoop.step b StopLoop.InputClosed = Some b' \/ StopLoop.step b StopLoop.Stop = Some b' ->
  StopLoop.state_pending b' = StopLoop.state_pending b.
Proof.
  intros [H|H]; pose proof (buf_simulates (BufferLoop := StopLoop.buffer) _ _ _ H) as Hf;
    by inversion Hf.
Qed.

(** cocaine: the socket, and the one that only writes. *)
Definition v11_kind (M : Type) (blackhole deliver : bool) : SocketKind M := {|
  buffer := StopLoop.state M;
  buffer_init := StopLoop.loop_init;
  buffer_in m b := StopLoop.step b (StopLoop.Incoming m);
  buffer_in_closed b := StopLoop.step b StopLoop.InputClosed;
  buffer_out b := StopLoop.step b StopLoop.Out;
  buffer_stop b := StopLoop.step b StopLoop.Stop;
  pending := StopLoop.state_pending;
  buffer_returned := StopLoop.returned;
  drops := false;
  blackholes := blackhole;
  delivers := deliver;
  buffer_init_pending := eq_refl;
  buffer_in_pending := stop_in_pending;
  buffer_out_pending := stop_out_pending;
  buffer_quiet := stop_quiet
|}.

Definition v11_asyncRWSocket (M : Type) : SocketKind M := v11_kind M true true.
Definition asyncWSocket (M : Type) : SocketKind M := v11_kind M false false.

(** ** Definitions *)
Section Socket.
Context {M : Type} `{K : SocketKind M}.

(** [writeloop]: ranging over [upstreamBuf.out], discarding it after a failed
    write, or finished. *)
Inductive writer_state : Type :=
| WriterRunning
| WriterBlackhole
| WriterDone.

(** [readloop]: in [Decode], sending a message to [downstreamBuf.in], or
    finished. *)
Inductive reader_state : Type :=
| ReaderDecoding
| ReaderSending (m : M)
| ReaderDone.

Record asyncRWSocket : Type := mkSock {
  upstream : buffer;
  up_stop : bool;                 (* upstreamBuf.stop is closed *)
  downstream : buffer;
  down_in : bool;                 (* downstreamBuf.in is closed *)
  down_stop : bool;               (* downstreamBuf.stop is closed *)
  closed : bool;                  (* sock.closed is closed *)
  conn_closes : nat;              (* calls of conn.Close *)
  writer : writer_state;
  wire : list M;                  (* messages encoded to the connection *)
  reader : reader_state
}.

Definition newAsyncRW : asyncRWSocket :=
  mkSock buffer_init false buffer_init false false
    false 0 WriterRunning [] ReaderDecoding.

Definition set_upstream u s := mkSock u (up_stop s) (downstream s) (down_in s) (down_stop s)
  (closed s) (conn_closes s) (writer s) (wire s) (reader s).
Definition set_downstream d s := mkSock (upstream s) (up_stop s) d (down_in s) (down_stop s)
  (closed s) (conn_closes s) (writer s) (wire s) (reader s).
Definition set_writer w s := mkSock (upstream s) (up_stop s) (downstream s) (down_in s)
  (down_stop s) (closed s) (conn_closes s) w (wire s) (reader s).
Definition set_wire l s := mkSock (upstream s) (up_stop s) (downstream s) (down_in s)
  (down_stop s) (closed s) (conn_closes s) (writer s) l (reader s).
Definition set_reader r s := mkSock (upstream s) (up_stop s) (downstream s) (down_in s)
  (down_stop s) (closed s) (conn_closes s) (writer s) (wire s) r.
Definition close_down_in s := mkSock (upstream s) (up_stop s) (downstream s) true
  (down_stop s) (closed s) (conn_closes s) (writer s) (wire s) (reader s).

(** [close()]: under the mutex, closes the broadcast channel and the
    connection unless it is already closed. *)
Definition close (s : asyncRWSocket) : asyncRWSocket :=
  if closed s then s
  else mkSock (upstream s) (up_stop s) (downstream s) (down_in s) (down_stop s)
         true (S (conn_closes s)) (writer s) (wire s) (reader s).

(** [asyncBuff.Stop()] of the two buffers: closing a closed channel panics.
    The wait for the loop (one second at most) has no other effect. *)
Definition stop_upstream (s : asyncRWSocket) : outcome asyncRWSocket :=
  if up_stop s then Panic
  else Ok (mkSock (upstream s) true (downstream s) (down_in s) (down_stop s)
             (closed s) (conn_closes s) (writer s) (wire s) (reader s)).
Definition stop_downstream (s : asyncRWSocket) : outcome asyncRWSocket :=
  if down_stop s then Panic
  else Ok (mkSock (upstream s) (up_stop s) (downstream s) (down_in s) true
             (closed s) (conn_closes s) (writer s) (wire s) (reader s)).

(** [Close()]; the write-only socket closes its connection first. *)
Definition Close (s : asyncRWSocket) : outcome asyncRWSocket :=
  if delivers then
    outcome_bind (stop_upstream s) (fun s =>
    outcome_bind (stop_downstream s) (fun s => Ok (close s)))
  else stop_upstream (close s).

(** Events: the communications of the goroutines and the calls of clients. *)
Inductive event : Type :=
| Send (m : M)       (* Send: sock.Write() <- msg *)
| SendDropped (m : M) (* Send: <-sock.IsClosed() *)
| WriteOk            (* writeloop: receive and encode a message *)
| WriteErr           (* writeloop: receive a message, encoding fails *)
| Discard            (* the blackhole goroutine receives a message *)
| WriterEnd          (* upstreamBuf.out is closed *)
| UpStop             (* upstreamBuf's loop sees stop closed *)
| ReadOk (m : M)     (* readloop: a message is decoded *)
| ReadDiscard        (* readloop of a write-only socket *)
| ReadPush           (* readloop: downstreamBuf.in <- message *)
| ReadErr            (* readloop: decoding fails *)
| DownInClosed       (* downstreamBuf's loop sees its input closed *)
| DownStop           (* downstreamBuf's loop sees stop closed *)
| Receive            (* the client receives from Read() *)
| CloseCall.         (* the client calls Close() *)

Definition up (s : asyncRWSocket) (e : buffer -> option buffer) : option asyncRWSocket :=
  (fun u => set_upstream u s) <$> e (upstream s).
Definition down (s : asyncRWSocket) (e : buffer -> option buffer) : option asyncRWSocket :=
  (fun d => set_downstream d s) <$> e (downstream s).

Definition first_pending (b : buffer) : option M :=
  if buffer_returned b then None else head (pending b).

Definition ok_if (c : bool) (s : option asyncRWSocket) : option (outcome asyncRWSocket) :=
  if c then Ok <$> s else None.

Definition writer_running (s : asyncRWSocket) : bool :=
  match writer s with WriterRunning => true | _ => false end.

(** One event from a socket that has not panicked. *)
Definition sock_step (s : asyncRWSocket) (e : event) : option (outcome asyncRWSocket) :=
  match e with
  | Send m => ok_if true (up s (buffer_in m))
  | SendDropped m => ok_if (drops && closed s) (Some s)
  | WriteOk =>
    match first_pending (upstream s) with
    | Some m => ok_if (writer_running s) (set_wire (wire s ++ [m]) <$> up s buffer_out)
    | None => None
    end
  | WriteErr =>
    ok_if (writer_running s)
      ((fun s => set_writer (if blackholes then WriterBlackhole else WriterDone) (close s)) <$>
       up s buffer_out)
  | Discard =>
    match writer s with
    | WriterBlackhole => ok_if true (up s buffer_out)
    | _ => None
    end
  | WriterEnd =>
    match writer s with
    | WriterDone => None
    | _ => if buffer_returned (upstream s) then Some (Ok (set_writer WriterDone s)) else None
    end
  | UpStop => ok_if (up_stop s) (up s buffer_stop)
  | ReadOk m =>
    match reader s with
    | ReaderDecoding => if delivers then Some (Ok (set_reader (ReaderSending m) s)) else None
    | _ => None
    end
  | ReadDiscard =>
    match reader s with
    | ReaderDecoding => if delivers then None else Some (Ok s)
    | _ => None
    end
  | ReadPush =>
    match reader s with
    | ReaderSending m => ok_if true (set_reader ReaderDecoding <$> down s (buffer_in m))
    | _ => None
    end
  | ReadErr =>
    match reader s with
    | ReaderDecoding => Some (Ok (set_reader ReaderDone (close (if delivers then close_down_in s else s))))
    | _ => None
    end
  | DownInClosed => ok_if (down_in s) (down s buffer_in_closed)
  | DownStop => ok_if (down_stop s) (down s buffer_stop)
  | Receive => ok_if true (down s buffer_out)
  | CloseCall => Some (Close s)
  end.

Definition step (o : outcome asyncRWSocket) (e : event) : option (outcome asyncRWSocket) :=
  match o with
  | Ok s => sock_step s e
  | Panic => None
  end.

(** What the events say about the messages: sent into the socket, decoded
    from the connection, received by the client. *)
Definition accepted (es : list event) : list M :=
  omap (fun e => match e with Send m => Some m | _ => None end) es.
Definition decoded (es : list event) : list M :=
  omap (fun e => match e with ReadOk m => Some m | _ => None end) es.

(** The messages [Receive] events deliver along a run from [s]. *)
Fixpoint received (s : outcome asyncRWSocket) (es : list event) : list M :=
  match es with
  | [] => []
  | e :: es =>
    match s, step s e with
    | Ok s0, Some s' =>
      match e with
      | Receive => opt_list (first_pending (downstream s0))
      | _ => []
      end ++ received s' es
    | _, _ => []
    end
  end.

Definition in_hand (s : asyncRWSocket) : list M :=
  match reader s with ReaderSending m => [m] | _ => [] end.
End Socket.
Arguments asyncRWSocket M {K}.
Arguments event : clear implicits.

(** cocaine/asocket.go: [Write()], [Read()], [writeloop], [readloop] and [Close] of
    the two sockets. *)
Definition v11_socket_step {M} := sock_step (K := v11_asyncRWSocket M).
Definition asyncWSocket_step {M} := sock_step (K := asyncWSocket M).

(** ** Lemmas *)
Section Lemmas.
Context {M : Type} `{K : SocketKind M}.
Implicit Types (s : asyncRWSocket M) (e : event M).

Lemma ok_if_inv (c : bool) (o : option (asyncRWSocket M)) (r : outcome (asyncRWSocket M)) :
  ok_if c o = Some r -> c = true /\ exists s, o = Some s /\ r = Ok s.
Proof. destruct c, o; simpl; naive_solver. Qed.

Lemma up_inv s (e : buffer -> option buffer) s' :
  up s e = Some s' -> exists u, e (upstream s) = Some u /\ s' = set_upstream u s.
Proof. unfold up. intros (u & Hu & ->)%fmap_Some. eauto. Qed.

Lemma down_inv s (e : buffer -> option buffer) s' :
  down s e = Some s' -> exists d, e (downstream s) = Some d /\ s' = set_downstream d s.
Proof. unfold down. intros (d & Hd & ->)%fmap_Some. eauto. Qed.

Lemma loop_out (b b' : buffer) :
  buffer_out b = Some b' -> exists m, first_pending b = Some m /\ pending b = m :: pending b'.
Proof.
  intros (m & Hm & Hr)%buffer_out_pending. exists m. unfold first_pending. by rewrite Hr, Hm.
Qed.

Definition up_pending s : list M := pending (upstream s).
Definition down_pending s : list M := pending (downstream s).

(** The write side: what was accepted is on the wire, or still behind it. *)
Definition write_inv (sent : list M) s : Prop :=
  exists rest, sent = wire s ++ rest /\ (writer s = WriterRunning -> rest = up_pending s).

(** The effect of one event on the write side and on the read side. *)
Ltac sock_cases H :=
  unfold sock_step in H;
  repeat match type of H with
    | context [match ?x with _ => _ end] => destruct x eqn:?; try discriminate H
    | Some _ = Some _ => injection H as H; try subst
    end;
  repeat match goal with
    | H : ok_if _ _ = Some _ |- _ => apply ok_if_inv in H as (? & ? & ? & ?); simplify_eq
    | H : _ <$> _ = Some _ |- _ => apply fmap_Some in H as (? & ? & ?); simplify_eq
    | H : up _ _ = Some _ |- _ => apply up_inv in H as (? & ? & ?); simplify_eq
    | H : down _ _ = Some _ |- _ => apply down_inv in H as (? & ? & ?); simplify_eq
    end.

Lemma close_fields s :
  upstream (close s) = upstream s /\ downstream (close s) = downstream s /\
  writer (close s) = writer s /\ wire (close s) = wire s /\ reader (close s) = reader s /\
  up_stop (close s) = up_stop s /\ down_stop (close s) = down_stop s /\
  closed (close s) = true.
Proof. unfold close. destruct (closed s) eqn:Hc; split_and!; done. Qed.

Lemma Close_inv s s' :
  Close s = Ok s' ->
  up_stop s = false /\
  upstream s' = upstream s /\ downstream s' = downstream s /\
  writer s' = writer s /\ wire s' = wire s /\ reader s' = reader s /\
  up_stop s' = true /\ down_stop s' = delivers || down_stop s /\ closed s' = true /\
  conn_closes s' = conn_closes (close s).
Proof.
  unfold Close, stop_upstream, stop_downstream, close.
  destruct delivers, (closed s) eqn:Hc, (up_stop s) eqn:Hu; simpl; rewrite ?Hu; simpl; try done;
    destruct (down_stop s) eqn:Hd; simpl; try done; intros [= <-]; split_and!; done.
Qed.

Lemma write_inv_step sent s e s' :
  write_inv sent s -> sock_step s e = Some (Ok s') ->
  write_inv (sent ++ accepted [e]) s'.
Proof.
  unfold write_inv, up_pending. intros (rest & -> & Hrest) H.
  destruct e; cbn [accepted omap list_omap]; rewrite ?app_nil_r.
  - sock_cases H. exists (rest ++ [m]). split; [by rewrite (assoc_L (++))|].
    intros Hw. simpl in Hw. cbn. erewrite buffer_in_pending by done. by rewrite Hrest.
  - sock_cases H. eauto.
  - sock_cases H. unfold writer_running in *. destruct (writer s) eqn:Hw; try done.
    rewrite Hrest by done. cbn.
    match goal with H : buffer_out _ = _ |- _ => apply loop_out in H as (m' & Hm & ->) end.
    eexists. split; [|done]. rewrite <- (assoc_L (++)). simpl. congruence.
  - sock_cases H; exists rest; cbn;
      match goal with |- context [close ?x] => destruct (close_fields x) as (_&_&_&->&_) end; done.
  - sock_cases H. exists rest. cbn. split; [done|]. congruence.
  - sock_cases H; exists rest; cbn; done.
  - sock_cases H. exists rest. cbn. split; [done|]. intros Hw.
    erewrite buffer_quiet by eauto. auto.
  - sock_cases H; exists rest; done.
  - sock_cases H; exists rest; done.
  - sock_cases H; exists rest; done.
  - sock_cases H; exists rest; cbn;
      match goal with |- context [close ?x] => destruct (close_fields x) as (->&_&->&->&_) end;
      done.
  - sock_cases H. exists rest. done.
  - sock_cases H. exists rest. done.
  - sock_cases H. exists rest. done.
  - injection H as H. apply Close_inv in H as (_&->&_&->&->&_). exists rest. done.
Qed.

(** The read side: what the client receives, then what is queued, then the
    message the read loop holds, are the decoded messages in order. *)
Lemma read_step s e s' :
  sock_step s e = Some (Ok s') ->
  received (Ok s) [e] ++ down_pending s' ++ in_hand s' =
    down_pending s ++ in_hand s ++ decoded [e].
Proof.
  intros H. simpl received. cbn [step]. rewrite H, app_nil_r.
  unfold down_pending, in_hand.
  destruct e; cbn [decoded omap list_omap]; rewrite ?app_nil_r; sock_cases H; cbn -[close];
    try match goal with |- context [close ?x] =>
      destruct (close_fields x) as (_&Hd&_&_&Hr&_); rewrite ?Hd, ?Hr; cbn end;
    repeat match goal with H : reader _ = _ |- _ => rewrite H end;
    rewrite ?app_nil_r; try done.
  - by erewrite buffer_in_pending by done.
  - by match goal with H : buffer_in_closed _ = _ |- _ =>
      rewrite (buffer_quiet _ _ (or_introl H)) end.
  - by match goal with H : buffer_stop _ = _ |- _ =>
      rewrite (buffer_quiet _ _ (or_intror H)) end.
  - match goal with H : buffer_out _ = _ |- _ => apply loop_out in H as (m & -> & ->) end.
    done.
  - by match goal with H : Close _ = _ |- _ => apply Close_inv in H as (_&_&->&_&_&->&_) end.
Qed.

Lemma received_cons (o o' : outcome (asyncRWSocket M)) e es :
  step o e = Some o' -> received o (e :: es) = received o [e] ++ received o' es.
Proof.
  intros H. destruct o; simpl in *; [|done]. rewrite H. by rewrite app_nil_r.
Qed.

Lemma run_panic es s : run step Panic es = Some (Ok s) -> False.
Proof. by destruct es. Qed.

Lemma read_run es s s' :
  run step (Ok s) es = Some (Ok s') ->
  received (Ok s) es ++ down_pending s' ++ in_hand s' =
    down_pending s ++ in_hand s ++ decoded es.
Proof.
  revert s. induction es as [|e es IH]; intros s Hrun.
  { injection Hrun as <-. simpl. by rewrite app_nil_r. }
  cbn [run] in Hrun. destruct (step (Ok s) e) as [[s1|]|] eqn:He; [|by apply run_panic in Hrun|done].
  rewrite (received_cons _ _ _ _ He). specialize (IH s1 Hrun).
  rewrite <- (assoc_L (++)), IH, 2!(assoc_L (++)), <- (assoc_L (++) (received _ _)).
  rewrite (read_step s e s1 He). unfold decoded. cbn [omap list_omap].
  rewrite <- !(assoc_L (++)). by destruct e.
Qed.

(** The shutdown state: the connection is closed once with the broadcast
    channel, and the [stop] channels by the first [Close]. *)
Definition shutdown_inv (called : bool) s : Prop :=
  conn_closes s = (if closed s then 1 else 0) /\
  up_stop s = called /\ down_stop s = called && delivers /\ (called = true -> closed s = true).

Definition is_CloseCall e : bool := match e with CloseCall => true | _ => false end.

Lemma close_closes s : conn_closes s = (if closed s then 1 else 0) -> conn_closes (close s) = 1.
Proof. unfold close. destruct (closed s) eqn:Hc; simpl; lia. Qed.

Lemma shutdown_step called s e s' :
  shutdown_inv called s -> sock_step s e = Some (Ok s') ->
  shutdown_inv (called || is_CloseCall e) s'.
Proof.
  unfold shutdown_inv. intros (Hc & Hu & Hd & Hcl) H.
  destruct e; cbn [is_CloseCall]; rewrite ?orb_false_r, ?orb_true_r;
    sock_cases H; cbn -[close]; try done;
    try match goal with |- context [close ?x] =>
      destruct (close_fields x) as (_&_&_&_&_&->&->&->); by rewrite (close_closes x Hc) end.
  match goal with H : Close _ = _ |- _ =>
    apply Close_inv in H as (Hf&_&_&_&_&_&->&->&->&->) end.
  rewrite Hd, (close_closes s Hc), Hf in *. simplify_eq/=. by rewrite orb_false_r.
Qed.

Lemma shutdown_run es called s s' :
  shutdown_inv called s -> run step (Ok s) es = Some (Ok s') ->
  shutdown_inv (called || existsb is_CloseCall es) s'.
Proof.
  revert called s. induction es as [|e es IH]; intros called s Hi Hrun.
  { injection Hrun as <-. by rewrite orb_false_r. }
  cbn [run] in Hrun. destruct (step (Ok s) e) as [[s1|]|] eqn:He; [|by apply run_panic in Hrun|done].
  cbn [existsb]. rewrite orb_assoc. eapply IH; [|done]. by eapply shutdown_step.
Qed.

Lemma write_run es sent s s' :
  write_inv sent s -> run step (Ok s) es = Some (Ok s') -> write_inv (sent ++ accepted es) s'.
Proof.
  revert sent s. induction es as [|e es IH]; intros sent s Hi Hrun.
  { injection Hrun as <-. by rewrite app_nil_r. }
  cbn [run] in Hrun. destruct (step (Ok s) e) as [[s1|]|] eqn:He; [|by apply run_panic in Hrun|done].
  replace (accepted (e :: es)) with (accepted [e] ++ accepted es) by (by destruct e).
  rewrite (assoc_L (++)). eapply IH; [|done]. by eapply write_inv_step.
Qed.
End Lemmas.

(** ** Properties *)

(** In every run of a socket, of either version or write-only,
    the connection carries a prefix of the accepted messages in the order they were
    sent, the missing ones being exactly those still buffered as long as no write
    failed; and the client receives, in order, exactly the decoded messages that are no longer queued. *)
Theorem socket_order {M : Type} `{K : SocketKind M} (es : list (event M)) (s : asyncRWSocket M)
    (Hrun : run step (Ok newAsyncRW) es = Some (Ok s)) :
  (exists rest, accepted es = wire s ++ rest /\
     (writer s = WriterRunning -> rest = up_pending s)) /\
  decoded es = received (Ok newAsyncRW) es ++ down_pending s ++ in_hand s.
Proof.
  split.
  - apply (write_run es [] newAsyncRW s); [|done]. exists []. split; [done|].
    intros _. symmetry. apply buffer_init_pending.
  - pose proof (read_run es newAsyncRW s Hrun) as ->. unfold down_pending. cbn.
    by rewrite buffer_init_pending.
Qed.

Lemma socket_order_witness :
  let run_of (K : SocketKind string) := run (step (K := K)) (Ok newAsyncRW) in
  (exists s rest,
     let es := [Send "a"; Send "b"; WriteOk; ReadOk "x"; ReadPush; ReadOk "y"; Receive; WriteErr] in
     run_of (asyncRW_kind string) es = Some (Ok s) /\ wire s = ["a"] /\
     accepted es = wire s ++ rest) /\
  (exists s rest,
     let es := [Send "a"; Send "b"; WriteOk; ReadDiscard; WriteErr; Send "c"] in
     run_of (asyncWSocket string) es = Some (Ok s) /\ wire s = ["a"] /\
     accepted es = wire s ++ rest).
Proof.
  intros run_of.
  set (es := [Send "a"; Send "b"; WriteOk; ReadOk "x"; ReadPush; ReadOk "y"; Receive; WriteErr]).
  set (es' := [Send "a"; Send "b"; WriteOk; ReadDiscard; WriteErr; Send "c"]).
  split.
  - destruct (run_of (asyncRW_kind string) es) as [[s|]|] eqn:Hrun; [|vm_compute in Hrun; done..].
    destruct (proj1 (socket_order es s Hrun)) as (rest & Hrest & _).
    exists s, rest. split_and!; [done| |done].
    vm_compute in Hrun. by injection Hrun as <-.
  - destruct (run_of (asyncWSocket string) es') as [[s|]|] eqn:Hrun; [|vm_compute in Hrun; done..].
    destruct (proj1 (socket_order (K := asyncWSocket string) es' s Hrun)) as (rest & Hrest & _).
    exists s, rest. split_and!; [done| |done].
    vm_compute in Hrun. by injection Hrun as <-.
Defined.

(** [close] closes the connection at most once, whichever of the
    two loops or the client calls it, but [Close] is not idempotent: it panics
    exactly when the client has called it before. *)
Theorem socket_shutdown {M : Type} `{K : SocketKind M} (es : list (event M)) (s : asyncRWSocket M)
    (Hrun : run step (Ok newAsyncRW) es = Some (Ok s)) :
  conn_closes s = (if closed s then 1 else 0) /\
  close (close s) = close s /\
  (Close s = Panic <-> existsb is_CloseCall es = true).
Proof.
  assert (Hi : shutdown_inv false newAsyncRW) by done.
  pose proof (shutdown_run es false _ s Hi Hrun) as (Hc & Hu & Hd & _). simpl in Hu, Hd.
  split_and!; [done| |].
  - unfold close at 1. by destruct (close_fields s) as (_&_&_&_&_&_&_&->).
  - destruct (close_fields s) as (_&_&_&_&_&Hup&_).
    unfold Close, stop_upstream, stop_downstream. rewrite Hup, Hu.
    destruct delivers, (existsb _ es) eqn:He; cbn; rewrite ?Hup, ?Hd; simpl; done.
Qed.

Lemma socket_shutdown_witness :
  match run step (Ok (newAsyncRW (M := string))) [ReadErr; CloseCall; UpStop] with
  | Some (Ok s) => Close s = Panic /\ conn_closes s = 1
  | _ => False
  end.
Proof.
  destruct (run step (Ok (newAsyncRW (M := string))) [ReadErr; CloseCall; UpStop])
    as [[s|]|] eqn:Hrun; [|vm_compute in Hrun; discriminate..].
  destruct (socket_shutdown _ s Hrun) as (Hc & _ & Hp).
  split; [by apply Hp|]. vm_compute in Hrun. by injection Hrun as <-.
Defined.
