(* ===== verification/Connection.v ===== *)
(** * A connection as its user has it

    The [asyncRWSocket] of cocaine12/asocket.go (Socket.v) that carries [Message]s:
    what its goroutines do by themselves, and what the calls of its user do to it.
    System.v and Client.v build on it. *)
From S2P Require Import Prelude GoTypes Buffers.
From S2P Require Socket.
From Stdlib Require Import Lia.

Open Scope stdpp_scope.

#[export] Instance K : Socket.SocketKind Message := Socket.asyncRW_kind Message.

Abbreviation sock := (Socket.asyncRWSocket Message).
Abbreviation sock_event := (Socket.event Message).

(** ** Definitions *)

(** The events of a socket that are not calls of its user. *)
Definition is_internal (e : sock_event) : bool :=
  match e with
  | Socket.Send _ | Socket.SendDropped _ | Socket.Receive | Socket.CloseCall => false
  | _ => true
  end.

(** ** Lemmas *)

Lemma received_app (o o' : outcome sock) es1 es2 :
  run Socket.step o es1 = Some o' ->
  Socket.received o (es1 ++ es2) = Socket.received o es1 ++ Socket.received o' es2.
Proof.
  revert o. induction es1 as [|e es1 IH]; intros o Hrun; [by injection Hrun as <-|].
  cbn [run] in Hrun. destruct (Socket.step o e) as [o1|] eqn:He; [|done].
  change ((e :: es1) ++ es2) with (e :: (es1 ++ es2)). rewrite (Socket.received_cons _ _ e (es1 ++ es2) He), (Socket.received_cons _ _ e es1 He).
  by rewrite IH, (assoc_L (++)).
Qed.

(** Only [Close] panics. *)
Lemma sock_panics (s : sock) e : Socket.sock_step s e = Some Panic -> Socket.is_CloseCall e = true.
Proof.
  intros H. destruct e; cbn [Socket.is_CloseCall]; try done; exfalso; cbn [Socket.sock_step] in H;
    unfold Socket.ok_if in H; repeat case_match; simplify_eq;
    try (by apply fmap_Some in H as (? & ? & ?)).
Qed.

Lemma sends_run (s : sock) ms o :
  run Socket.step (Ok s) (map Socket.Send ms) = Some o ->
  exists s', o = Ok s' /\ Socket.received (Ok s) (map Socket.Send ms) = [] /\
    Socket.closed s' = Socket.closed s /\
    Socket.buffer_returned (Socket.downstream s') = Socket.buffer_returned (Socket.downstream s).
Proof.
  revert s. induction ms as [|m ms IH]; intros s Hrun; [injection Hrun as <-; by exists s|].
  cbn [map run] in Hrun. destruct (Socket.step (Ok s) (Socket.Send m)) as [o1|] eqn:Hs; [|done].
  pose proof Hs as Hs'. cbn in Hs. unfold Socket.ok_if in Hs.
  apply fmap_Some in Hs as (s1 & Hup & ->). apply fmap_Some in Hup as (u & _ & ->).
  destruct (IH _ Hrun) as (s' & -> & Hr & Hc & Hd). exists s'. split_and!; [done| |done..].
  cbn [map]. rewrite (Socket.received_cons _ _ _ _ Hs'), Hr, app_nil_r. cbn [Socket.received].
  by rewrite Hs'.
Qed.

Lemma sends_accepted ms : Socket.accepted (M := Message) (map Socket.Send ms) = ms.
Proof. induction ms as [|m ms IH]; [done|]. unfold Socket.accepted in *. cbn. by rewrite IH. Qed.

Lemma sends_close ms : existsb (Socket.is_CloseCall (M := Message)) (map Socket.Send ms) = false.
Proof. by induction ms. Qed.

Lemma accepted_app es1 es2 :
  Socket.accepted (es1 ++ es2) = Socket.accepted (M := Message) es1 ++ Socket.accepted es2.
Proof. unfold Socket.accepted. by rewrite omap_app. Qed.

Lemma decoded_app es1 es2 :
  Socket.decoded (es1 ++ es2) = Socket.decoded (M := Message) es1 ++ Socket.decoded es2.
Proof. unfold Socket.decoded. by rewrite omap_app. Qed.

Lemma receive_run (s : sock) o :
  run Socket.step (Ok s) [Socket.Receive] = Some o ->
  exists s', o = Ok s' /\
    Socket.received (Ok s) [Socket.Receive] = opt_list (Socket.first_pending (Socket.downstream s)) /\
    Socket.closed s' = Socket.closed s /\
    (Socket.buffer_returned (Socket.downstream s) = true ->
       Socket.buffer_returned (Socket.downstream s') = true).
Proof.
  cbn [run]. destruct (Socket.step (Ok s) Socket.Receive) as [o2|] eqn:Hr; [|done].
  intros [= <-]. pose proof Hr as Hr'. cbn in Hr. unfold Socket.ok_if in Hr.
  apply fmap_Some in Hr as (s1 & Hd & ->). apply fmap_Some in Hd as (d & Hd & ->).
  exists (Socket.set_downstream (K := K) d s). split_and!; [done| |done|].
  - cbn [Socket.received]. by rewrite Hr', app_nil_r.
  - cbn in *. by destruct (Socket.downstream s).
Qed.

Lemma close_run ss (s : sock) o :
  run Socket.step (Ok Socket.newAsyncRW) ss = Some (Ok s) ->
  existsb Socket.is_CloseCall ss = false -> run Socket.step (Ok s) [Socket.CloseCall] = Some o ->
  exists s', o = Ok s' /\ Socket.closed s' = true /\ Socket.downstream s' = Socket.downstream s.
Proof.
  intros Hrun Hcl Hc. cbn in Hc. injection Hc as <-.
  destruct (Socket.socket_shutdown ss s Hrun) as (_ & _ & Hp). rewrite Hcl in Hp.
  destruct (Socket.Close s) as [s'|] eqn:Hclose; [|by destruct Hp as [Hp _]; specialize (Hp eq_refl)].
  destruct (Socket.Close_inv _ _ Hclose) as (_&_&Hd&_&_&_&_&_&Hc&_). by exists s'.
Qed.

(** An event of the socket's own goroutines. *)
Lemma internal_step (s : sock) e o :
  is_internal e = true -> Socket.sock_step s e = Some o ->
  exists s', o = Ok s' /\ Socket.accepted [e] = [] /\ Socket.received (Ok s) [e] = [] /\
    Socket.is_CloseCall e = false /\ (Socket.closed s = true -> Socket.closed s' = true) /\
    (Socket.buffer_returned (Socket.downstream s) = true ->
       Socket.buffer_returned (Socket.downstream s') = true).
Proof.
  intros Hi Hs. assert (Hr : Socket.received (Ok s) [e] = []).
  { cbn [Socket.received Socket.step]. rewrite Hs. by destruct o, e. }
  destruct o as [s'|]; [|apply sock_panics in Hs; by destruct e].
  exists s'. split; [done|]. split; [by destruct e|]. split; [done|]. split; [by destruct e|].
  assert (Hclose : forall t : sock, Socket.closed (Socket.close t) = true /\
    Socket.downstream (Socket.close t) = Socket.downstream t).
  { intros t. by destruct (Socket.close_fields t) as (_ & -> & _ & _ & _ & _ & _ & ->). }
  assert (Hret : forall (b b' : AsyncBuff.state Message) ev, AsyncBuff.step b ev = Some b' ->
    AsyncBuff.returned b = true -> AsyncBuff.returned b' = true) by by intros [].
  destruct e; try done; cbn [Socket.sock_step] in Hs; unfold Socket.ok_if in Hs; repeat case_match; try done;
    repeat match goal with
    | H : Ok <$> _ = Some _ |- _ => apply fmap_Some in H as (? & H & [= ->])
    | H : _ <$> _ = Some _ |- _ => apply fmap_Some in H as (? & H & ->)
    | H : Socket.up _ _ = Some _ |- _ => apply Socket.up_inv in H as (? & ? & ->)
    | H : Socket.down _ _ = Some _ |- _ => apply Socket.down_inv in H as (? & ? & ->)
    end; simplify_eq; cbn -[Socket.close]; try done;
    repeat match goal with |- context [Socket.close ?t] =>
      destruct (Hclose t) as [-> ->] end; cbn; try done.
  all: split; [done|]; cbn in *; eapply Hret; eassumption.
Qed.

Lemma internal_run es (s : sock) s' :
  forallb is_internal es = true -> run Socket.step (Ok s) es = Some (Ok s') ->
  Socket.accepted es = [] /\ Socket.received (Ok s) es = [] /\
  existsb Socket.is_CloseCall es = false.
Proof.
  revert s. induction es as [|e es IH]; intros s; [done|]. cbn [forallb run].
  intros [He Hes]%andb_true_iff Hrun. destruct (Socket.step (Ok s) e) as [o|] eqn:Hs; [|done].
  destruct (internal_step _ _ _ He Hs) as (s1 & -> & Ha & Hr & Hc & _).
  destruct (IH s1 Hes Hrun) as (Ha' & Hr' & Hc').
  change (e :: es) with ([e] ++ es). rewrite accepted_app, existsb_app.
  cbn [existsb]. rewrite Hc, Ha, Ha', Hc'. split; [done|]. split; [|done].
  change ([e] ++ es) with (e :: es).
  by rewrite (Socket.received_cons _ _ _ _ Hs), Hr, Hr'.
Qed.

(** ** Lemmas: an open socket *)

(** The loop of a buffer whose input is not closed. *)
Definition buf_open (b : AsyncBuff.state Message) : Prop :=
  exists v, b = AsyncBuff.Selecting v /\ AsyncBuff.input v = true /\ AsyncBuff.finished v = false.

Lemma top_open (v : AsyncBuff.vars (M := Message)) :
  AsyncBuff.input v = true -> AsyncBuff.finished v = false -> buf_open (AsyncBuff.top v).
Proof. intros Hi Hf. unfold AsyncBuff.top. rewrite Hf. exists v. by destruct (AsyncBuff.pending v). Qed.

Lemma open_in m b : buf_open b -> exists b', AsyncBuff.step b (AsyncBuff.Incoming m) = Some b' /\
  buf_open b' /\ AsyncBuff.state_pending b' = AsyncBuff.state_pending b ++ [m].
Proof.
  intros (v & -> & Hi & Hf). cbn. rewrite Hi. eexists. split; [done|]. split; [by apply top_open|].
  by rewrite AsyncBuff.async_top_pending.
Qed.

Lemma open_out m ms b : buf_open b -> AsyncBuff.state_pending b = m :: ms ->
  exists b', AsyncBuff.step b AsyncBuff.Out = Some b' /\ buf_open b' /\ AsyncBuff.state_pending b' = ms.
Proof.
  intros (v & -> & Hi & Hf) Hp. cbn in *. rewrite Hp. eexists. split; [done|].
  split; [by apply top_open|]. by rewrite AsyncBuff.async_top_pending.
Qed.

Lemma open_step b e b' :
  buf_open b -> AsyncBuff.step b e = Some b' ->
  match e with AsyncBuff.Incoming _ | AsyncBuff.Out => True | _ => False end -> buf_open b'.
Proof.
  intros (v & -> & Hi & Hf) Hs He. destruct e; try done; cbn in Hs.
  - rewrite Hi in Hs. injection Hs as <-. by apply top_open.
  - destruct (AsyncBuff.pending v); [done|]. injection Hs as <-. by apply top_open.
Qed.

Lemma open_not_returned b : buf_open b -> AsyncBuff.returned b = false.
Proof. by intros (v & -> & _). Qed.

(** A socket that is not closed: its loops run. *)
Record conn_open (s : sock) : Prop := {
  co_closed : Socket.closed s = false;
  co_up : buf_open (Socket.upstream s);
  co_down : buf_open (Socket.downstream s);
  co_writer : Socket.writer s = Socket.WriterRunning;
  co_reader : Socket.reader s <> Socket.ReaderDone;
  co_stops : Socket.up_stop s = false /\ Socket.down_stop s = false /\ Socket.down_in s = false
}.

Lemma conn_open_new : conn_open Socket.newAsyncRW.
Proof. split; try done; by eexists. Qed.

Lemma close_closed (s : sock) : Socket.closed (Socket.close s) = true.
Proof. by destruct (Socket.close_fields s) as (_&_&_&_&_&_&_&?). Qed.

(** A step that leaves a socket open found it open. *)
Lemma conn_open_step (s : sock) e s' :
  (Socket.closed s = false -> conn_open s) -> Socket.sock_step s e = Some (Ok s') ->
  Socket.closed s' = false -> conn_open s'.
Proof.
  intros Ho Hs Hc.
  destruct e; cbn [Socket.sock_step] in Hs; unfold Socket.ok_if in Hs; repeat case_match; try done;
    repeat match goal with
    | H : Ok <$> _ = Some _ |- _ => apply fmap_Some in H as (? & H & [= ->])
    | H : _ <$> _ = Some _ |- _ => apply fmap_Some in H as (? & H & ->)
    | H : Socket.up _ _ = Some _ |- _ => apply Socket.up_inv in H as (? & ? & ->)
    | H : Socket.down _ _ = Some _ |- _ => apply Socket.down_inv in H as (? & ? & ->)
    end; simplify_eq; cbn -[Socket.close Socket.Close] in *; try (rewrite close_closed in Hc; done).
  all: try match goal with H : Socket.Close _ = Ok _ |- _ =>
    apply Socket.Close_inv in H as (_&_&_&_&_&_&_&_&H&_); by rewrite H in Hc end.
  all: specialize (Ho Hc); destruct Ho as [Hc1 Hup Hdn Hwr Hrd (Hus & Hds & Hdi)]; try congruence.
  all: try match goal with H : AsyncBuff.returned _ = true |- _ => by rewrite (open_not_returned _ Hup) in H end.
  all: split; cbn in *; try done; try congruence.
  all: match goal with H : AsyncBuff.step ?b _ = Some ?b' |- buf_open ?b' => by apply (open_step b _ b') in H end.
Qed.

Lemma conn_open_run es (s : sock) :
  run Socket.step (Ok Socket.newAsyncRW) es = Some (Ok s) -> Socket.closed s = false -> conn_open s.
Proof.
  revert s. induction es as [|e es IH] using rev_ind; intros s Hrun Hc.
  - injection Hrun as <-. apply conn_open_new.
  - apply run_snoc in Hrun as ([s1|] & Hrun & Hs); [|done]. eapply conn_open_step; [|exact Hs|exact Hc].
    intros Hc1. by apply IH.
Qed.

(** What the socket still has. *)
Definition up_left (s : sock) : list Message := Socket.up_pending s.
Definition down_left (s : sock) : list Message := Socket.down_pending s ++ Socket.in_hand s.

(** *** The steps of an open socket *)

Lemma open_sends (s : sock) ms :
  conn_open s -> exists s', run Socket.step (Ok s) (map Socket.Send ms) = Some (Ok s') /\ conn_open s' /\
    down_left s' = down_left s /\ Socket.downstream s' = Socket.downstream s.
Proof.
  revert s. induction ms as [|m ms IH]; intros s Ho; [by exists s|].
  destruct (open_in m _ (co_up _ Ho)) as (u & Hu & Hou & _).
  assert (Hs : Socket.sock_step s (Socket.Send m) = Some (Ok (Socket.set_upstream (K := K) u s))).
  { cbn. unfold Socket.up. cbn. by rewrite Hu. }
  assert (Ho1 : conn_open (Socket.set_upstream (K := K) u s)).
  { eapply conn_open_step; [by intros _|exact Hs|]. apply Ho. }
  destruct (IH _ Ho1) as (s' & Hrun & Ho' & Hd & Hd'). exists s'. split; [|by rewrite Hd, Hd'].
  cbn [map run Socket.step]. by rewrite Hs.
Qed.

Lemma open_receive (s : sock) m ms :
  conn_open s -> Socket.down_pending s = m :: ms ->
  exists s', Socket.sock_step s Socket.Receive = Some (Ok s') /\ conn_open s' /\
    Socket.down_pending s' = ms /\ Socket.in_hand s' = Socket.in_hand s /\
    Socket.first_pending (Socket.downstream s) = Some m.
Proof.
  intros Ho Hp. destruct (open_out m ms _ (co_down _ Ho) Hp) as (d & Hd & Hod & Hpd).
  assert (Hs : Socket.sock_step s Socket.Receive = Some (Ok (Socket.set_downstream (K := K) d s))).
  { cbn. unfold Socket.down. cbn. by rewrite Hd. }
  exists (Socket.set_downstream (K := K) d s). split; [done|]. split.
  { eapply conn_open_step; [by intros _|exact Hs|]. apply Ho. }
  split; [exact Hpd|]. split; [done|]. unfold Socket.first_pending. cbn.
  unfold Socket.down_pending in Hp. cbn in Hp. by rewrite (open_not_returned _ (co_down _ Ho)), Hp.
Qed.

Lemma open_push (s : sock) m :
  conn_open s -> Socket.in_hand s = [m] ->
  exists s', Socket.sock_step s Socket.ReadPush = Some (Ok s') /\ conn_open s' /\
    Socket.down_pending s' = Socket.down_pending s ++ [m] /\ Socket.in_hand s' = [].
Proof.
  intros Ho Hh. unfold Socket.in_hand in Hh. destruct (Socket.reader s) as [|m'|] eqn:Hr; try done.
  injection Hh as ->. destruct (open_in m _ (co_down _ Ho)) as (d & Hd & _ & Hpd).
  assert (Hs : Socket.sock_step s Socket.ReadPush =
    Some (Ok (Socket.set_reader Socket.ReaderDecoding (Socket.set_downstream (K := K) d s)))).
  { cbn. rewrite Hr. unfold Socket.down. cbn. by rewrite Hd. }
  eexists. split; [exact Hs|]. split; [|by split].
  eapply conn_open_step; [by intros _|exact Hs|]. apply Ho.
Qed.

Lemma open_write (s : sock) m ms :
  conn_open s -> up_left s = m :: ms ->
  exists s', Socket.sock_step s Socket.WriteOk = Some (Ok s') /\ conn_open s' /\
    up_left s' = ms /\ down_left s' = down_left s.
Proof.
  intros Ho Hp. destruct (open_out m ms _ (co_up _ Ho) Hp) as (u & Hu & _ & Hpu).
  assert (Hs : Socket.sock_step s Socket.WriteOk =
    Some (Ok (Socket.set_wire (Socket.wire s ++ [m]) (Socket.set_upstream (K := K) u s)))).
  { cbn. unfold Socket.first_pending, Socket.writer_running. cbn.
    unfold up_left, Socket.up_pending in Hp. cbn in Hp.
    rewrite (open_not_returned _ (co_up _ Ho)), Hp, (co_writer _ Ho). cbn. unfold Socket.up. cbn. by rewrite Hu. }
  eexists. split; [exact Hs|]. split; [|by split].
  eapply conn_open_step; [by intros _|exact Hs|]. apply Ho.
Qed.
