(* ===== verification/ProtoV1.v ===== *)
(** * cocaine12/wprotov1.go and cocaine12/worker_protocol.go

    The messages of version 1 of the worker protocol and the dispatcher that
    turns a received message into a call of a [protocolHandler]. The handler
    is an interface (a class): [WorkerNG] of Worker.v implements it, and
    [recorder] below records the calls. *)
From S2P Require Import Prelude GoTypes.
From Stdlib Require Import ZArith Lia Sorting.Sorted.

Open Scope go_scope.

(** ** Definitions *)

Definition v1Handshake : Z := 0.
Definition v1Heartbeat : Z := 0.
Definition v1Invoke : Z := 0.
Definition v1Write : Z := 0.
Definition v1Error : Z := 1.
Definition v1Close : Z := 2.
Definition v1Terminate : Z := 1.
Definition v1UtilitySession : Z := 1.

Definition newHandshakeV1 (id : string) : Message :=
  mkMessage (mkInfo v1UtilitySession v1Handshake) [VString id] [].

Definition newHeartbeatV1 : Message :=
  mkMessage (mkInfo v1UtilitySession v1Heartbeat) [] [].

Definition newInvokeV1 (session : Z) (event : string) : Message :=
  mkMessage (mkInfo session v1Invoke) [VString event] [].

Definition newChunkV1 (session : Z) (data : gobytes) : Message :=
  mkMessage (mkInfo session v1Write) [VBytes data] [].

Definition newErrorV1 (session category code : Z) (message : string) : Message :=
  mkMessage (mkInfo session v1Error) [VIntPair category code; VString message] [].

Definition newChokeV1 (session : Z) : Message :=
  mkMessage (mkInfo session v1Close) [] [].

(** [isChunk] *)
Definition isChunk (msg : Message) : bool := bool_decide (msg_type msg = v1Write).

(** [getEventName]: the first payload element, a panic when there is none. *)
Definition getEventName (msg : Message) : outcome (string * bool) :=
  match Payload msg with
  | [] => Panic
  | VString event :: _ => Ok (event, true)
  | VBytes event :: _ => Ok (string_of_bytes event, true)
  | _ :: _ => Ok ("", false)
  end.

(** [protocolHandler]: the operations the dispatcher calls on a [W]. They may
    panic; only [onInvoke] returns an error. *)
Class protocolHandler (W : Type) := {
  onChoke : Message -> W -> outcome W;
  onChunk : Message -> W -> outcome W;
  onError : Message -> W -> outcome W;
  onHeartbeat : Message -> W -> outcome W;
  onInvoke : Message -> W -> outcome (W * option error);
  onTerminate : Message -> W -> outcome W
}.

Record v1Protocol : Type := mkV1 { maxSession : Z }.

Definition newV1Protocol : v1Protocol := mkV1 1.

Section Dispatch.
Context {W : Type} `{protocolHandler W}.

Definition no_error (m : outcome W) : outcome (W * option error) :=
  let* w := m in Ok (w, None).

Definition dispatchUtilityMessage (p : W) (msg : Message) : outcome (W * option error) :=
  if decide (msg_type msg = v1Heartbeat) then no_error (onHeartbeat msg p)
  else if decide (msg_type msg = v1Terminate) then no_error (onTerminate msg p)
  else Ok (p, Some (Errorf "an invalid utility message type %d" [VInt Kuint64 (msg_type msg)])).

Definition onMessage (v : v1Protocol) (p : W) (msg : Message)
    : outcome (v1Protocol * W * option error) :=
  if decide (msg_session msg = v1UtilitySession) then
    let* '(p, err) := dispatchUtilityMessage p msg in Ok (v, p, err)
  else if decide (maxSession v < msg_session msg)%Z then
    if decide (msg_type msg <> v1Invoke) then
      Ok (v, p, Some (Errorf "new session %d must start from invoke type %d, not %d\n"
            [VInt Kuint64 (msg_session msg); VInt Kint v1Invoke; VInt Kuint64 (msg_type msg)]))
    else
      let v := mkV1 (msg_session msg) in
      let* '(p, err) := onInvoke msg p in Ok (v, p, err)
  else
    let* '(p, err) :=
      if decide (msg_type msg = v1Write) then no_error (onChunk msg p)
      else if decide (msg_type msg = v1Close) then no_error (onChoke msg p)
      else if decide (msg_type msg = v1Error) then no_error (onError msg p)
      else Ok (p, Some (Errorf "an invalid message type: %d, message %v"
                          [VInt Kuint64 (msg_type msg); msg_value msg])) in
    Ok (v, p, err).

(** The dispatcher over a sequence of messages, ignoring the errors as the
    worker's loop does (it prints them). *)
Fixpoint dispatch_all (v : v1Protocol) (p : W) (msgs : list Message)
    : outcome (v1Protocol * W) :=
  match msgs with
  | [] => Ok (v, p)
  | msg :: msgs =>
    let* '(v, p, _) := onMessage v p msg in dispatch_all v p msgs
  end.
End Dispatch.

(** A handler that only records the calls it gets. *)
Inductive call : Type :=
| CallChoke (msg : Message)
| CallChunk (msg : Message)
| CallError (msg : Message)
| CallHeartbeat (msg : Message)
| CallInvoke (msg : Message)
| CallTerminate (msg : Message).

#[export] Instance recorder : protocolHandler (list call) := {
  onChoke msg l := Ok (l ++ [CallChoke msg]);
  onChunk msg l := Ok (l ++ [CallChunk msg]);
  onError msg l := Ok (l ++ [CallError msg]);
  onHeartbeat msg l := Ok (l ++ [CallHeartbeat msg]);
  onInvoke msg l := Ok (l ++ [CallInvoke msg], None);
  onTerminate msg l := Ok (l ++ [CallTerminate msg])
}.

(** A recorded call replayed on any handler. *)
Definition replay {W} `{protocolHandler W} (c : call) (w : W) : outcome W :=
  match c with
  | CallChoke m => onChoke m w
  | CallChunk m => onChunk m w
  | CallError m => onError m w
  | CallHeartbeat m => onHeartbeat m w
  | CallInvoke m => let* '(w, _) := onInvoke m w in Ok w
  | CallTerminate m => onTerminate m w
  end.

Fixpoint replay_all {W} `{protocolHandler W} (cs : list call) (w : W) : outcome W :=
  match cs with
  | [] => Ok w
  | c :: cs => let* w := replay c w in replay_all cs w
  end.

(** The specification of the dispatcher: the call a message causes, given the
    largest session seen, and the largest session afterwards. *)
Definition call_of (max : Z) (msg : Message) : option call * Z :=
  let s := msg_session msg in
  let t := msg_type msg in
  if decide (s = v1UtilitySession) then
    (if decide (t = 0%Z) then Some (CallHeartbeat msg)
     else if decide (t = 1%Z) then Some (CallTerminate msg) else None, max)
  else if decide (max < s)%Z then
    if decide (t = 0%Z) then (Some (CallInvoke msg), s) else (None, max)
  else
    (if decide (t = 0%Z) then Some (CallChunk msg)
     else if decide (t = 1%Z) then Some (CallError msg)
     else if decide (t = 2%Z) then Some (CallChoke msg) else None, max).

Fixpoint calls_of (max : Z) (msgs : list Message) : list call :=
  match msgs with
  | [] => []
  | msg :: msgs => opt_list (call_of max msg).1 ++ calls_of (call_of max msg).2 msgs
  end.

Definition invoked_session (c : call) : option Z :=
  match c with CallInvoke m => Some (msg_session m) | _ => None end.

(** ** Lemmas *)

Lemma onMessage_call_of {W} `{protocolHandler W} v (p : W) msg :
  (let* '(v', p', _) := onMessage v p msg in Ok (v', p')) =
  let* p' := replay_all (opt_list (call_of (maxSession v) msg).1) p in
  Ok (mkV1 (call_of (maxSession v) msg).2, p').
Proof.
  destruct v as [max]. unfold onMessage, dispatchUtilityMessage, call_of, no_error,
    v1Heartbeat, v1Terminate, v1Invoke, v1Write, v1Close, v1Error. cbn [maxSession].
  repeat case_decide; try (exfalso; lia); cbn [opt_list replay_all replay fst snd]; try done;
    match goal with |- context [outcome_bind ?x _] => by destruct x as [[? ?]|] || by destruct x end.
Qed.

Lemma dispatch_all_replay {W} `{protocolHandler W} v (p : W) msgs :
  (let* '(_, p') := dispatch_all v p msgs in Ok p') =
  replay_all (calls_of (maxSession v) msgs) p.
Proof.
  revert v p. induction msgs as [|msg msgs IH]; intros v p; [done|].
  cbn [dispatch_all calls_of].
  pose proof (onMessage_call_of v p msg) as Hc. revert Hc.
  destruct (onMessage v p msg) as [[[v' p'] err]|]; simpl;
    destruct (call_of (maxSession v) msg) as [[c|] max']; simpl; intros Hc.
  - destruct (replay c p) as [p1|]; simpl in *; [|done]. injection Hc as -> ->. apply IH.
  - injection Hc as -> ->. apply IH.
  - by destruct (replay c p).
  - done.
Qed.

Lemma call_of_max max msg : (max <= (call_of max msg).2)%Z.
Proof. unfold call_of. repeat case_decide; simpl; lia. Qed.

Lemma call_of_invoked max msg c s :
  (call_of max msg).1 = Some c -> invoked_session c = Some s ->
  (max < s)%Z /\ (call_of max msg).2 = s /\ s <> v1UtilitySession.
Proof. unfold call_of. repeat case_decide; naive_solver. Qed.

Lemma invoked_increasing max msgs :
  Forall (fun s => max < s)%Z (omap invoked_session (calls_of max msgs)) /\
  StronglySorted Z.lt (omap invoked_session (calls_of max msgs)).
Proof.
  revert max. induction msgs as [|msg msgs IH]; intros max; [by repeat constructor|].
  cbn [calls_of]. rewrite omap_app.
  pose proof (call_of_max max msg) as Hmax.
  destruct (IH (call_of max msg).2) as [Hf Hs].
  assert (Hf' : Forall (fun s => max < s)%Z
    (omap invoked_session (calls_of (call_of max msg).2 msgs))).
  { eapply Forall_impl; [exact Hf|]. simpl. lia. }
  destruct (call_of max msg).1 as [c|] eqn:Hc; simpl; [|done].
  destruct (invoked_session c) as [s|] eqn:Hinv; simpl; [|done].
  destruct (call_of_invoked max msg c s Hc Hinv) as (Hlt & Heq & _).
  split; [by constructor|]. constructor; [done|]. by rewrite <- Heq.
Qed.

Lemma replay_recorder cs l : replay_all cs l = Ok (l ++ cs).
Proof.
  revert l. induction cs as [|c cs IH]; intros l; simpl; [by rewrite app_nil_r|].
  destruct c; simpl; rewrite IH; by rewrite <- (assoc_L (++)).
Qed.

(** ** Properties *)

(** C13 (refinement): whatever the handler, dispatching a sequence of messages
    does to it exactly the calls of the specification [calls_of]: at most one
    call per message, decided by the message's session and type and by the
    largest session invoked so far. *)
Theorem dispatcher_refines_spec {W : Type} `{protocolHandler W} (p : W) (msgs : list Message) :
  (let* '(_, p') := dispatch_all newV1Protocol p msgs in Ok p') =
  replay_all (calls_of 1 msgs) p.
Proof. apply dispatch_all_replay. Qed.

(** The sessions a handler is invoked for are strictly
    increasing and above the utility session, so no session is invoked twice
    whatever messages the peer sends. *)
Theorem invoked_sessions_increasing (msgs : list Message) (v : v1Protocol) (calls : list call)
    (Hrun : dispatch_all newV1Protocol ([] : list call) msgs = Ok (v, calls)) :
  StronglySorted Z.lt (omap invoked_session calls) /\
  Forall (fun s => v1UtilitySession < s)%Z (omap invoked_session calls) /\
  NoDup (omap invoked_session calls).
Proof.
  pose proof (dispatch_all_replay newV1Protocol ([] : list call) msgs) as Hr.
  rewrite Hrun, replay_recorder in Hr. simpl in Hr. injection Hr as ->.
  destruct (invoked_increasing 1 msgs) as [Hf Hs]. split_and!; [done..|].
  induction Hs as [|s l Hs IH Hfl]; [by constructor|].
  apply Forall_cons in Hf as [_ Hf]. constructor; [|auto].
  intros Hin. rewrite Forall_forall in Hfl. specialize (Hfl _ Hin). lia.
Qed.

Lemma invoked_sessions_increasing_witness :
  NoDup (omap invoked_session
    [CallInvoke (newInvokeV1 2 "a"); CallChunk (newInvokeV1 2 "b"); CallInvoke (newInvokeV1 7 "c")]).
Proof.
  exact (proj2 (proj2 (invoked_sessions_increasing
    [newInvokeV1 2 "a"; newInvokeV1 2 "b"; newInvokeV1 7 "c"; newChokeV1 9]
    (mkV1 7) _ eq_refl))).
Defined.

(** A message built by one of the constructors of the protocol
    is dispatched to the operation it is meant for: an invoke of a new session
    to [onInvoke], and in a session already invoked a chunk, an error and a
    choke to [onChunk], [onError] and [onChoke]; a heartbeat to [onHeartbeat]. *)
Theorem constructors_dispatch (v : v1Protocol) (s : Z) (event msg : string) (data : gobytes)
    (category code : Z) (Hs : (v1UtilitySession < s)%Z) :
  let calls m := outcome_bind (onMessage v ([] : list call) m) (fun '(_, l, err) => Ok (l, err)) in
  ((maxSession v < s)%Z ->
     calls (newInvokeV1 s event) = Ok ([CallInvoke (newInvokeV1 s event)], None)) /\
  ((s <= maxSession v)%Z ->
     calls (newChunkV1 s data) = Ok ([CallChunk (newChunkV1 s data)], None) /\
     calls (newErrorV1 s category code msg) =
       Ok ([CallError (newErrorV1 s category code msg)], None) /\
     calls (newChokeV1 s) = Ok ([CallChoke (newChokeV1 s)], None)) /\
  calls newHeartbeatV1 = Ok ([CallHeartbeat newHeartbeatV1], None).
Proof.
  unfold v1UtilitySession in Hs.
  unfold onMessage, newInvokeV1, newChunkV1, newErrorV1, newChokeV1, msg_session, msg_type; simpl.
  split_and!; [intros Hlt | intros Hle; split_and! |]; unfold v1UtilitySession;
    rewrite ?(decide_False (P := s = 1%Z)) by lia; rewrite ?decide_True, ?decide_False by lia; done.
Qed.

Lemma constructors_dispatch_witness :
  outcome_bind (onMessage (mkV1 5) ([] : list call) (newChokeV1 4)) (fun '(_, l, err) => Ok (l, err))
    = Ok ([CallChoke (newChokeV1 4)], None).
Proof.
  refine (proj2 (proj2 (proj1 (proj2 (constructors_dispatch (mkV1 5) 4 "" "" None 0 0 _)) _)));
    [unfold v1UtilitySession | cbn]; lia.
Defined.
