(* ===== verification/Handler.v ===== *)
(** * cocaine12/handler.go, cocaine12/worker_handlers.go and
    [trapRecoverAndClose] of cocaine12/workerng.go

    What a handler is given: the [request] it reads and the [response] it
    writes, and what is sent for one invocation whatever the handler does. *)
From S2P Require Import Prelude GoTypes ProtoV1.
From Stdlib Require Import ZArith Lia.

(** ** The response *)

Definition cworkererrorcategory : Z := 42.
Definition cdefaulterrrorcode : Z := 100.

Definition ErrorNoEventHandler : Z := 200.
Definition ErrorPanicInHandler : Z := 100.

Definition ErrMalformedErrorMessage : error :=
  ErrRequest "malformed error message" cworkererrorcategory cdefaulterrrorcode.

(** [response]; [sent] is what it passed to [toWorker.Send]. *)
Record response : Type := mkResponse {
  session : Z;
  closed : bool;
  sent : list Message
}.

Definition newResponse (session : Z) : response := mkResponse session false [].

Definition isClosed (r : response) : bool := closed r.
Definition close (r : response) : response := mkResponse (session r) true (sent r).
Definition toWorker_Send (m : Message) (r : response) : response :=
  mkResponse (session r) (closed r) (sent r ++ [m]).

Definition ZeroCopyWrite (data : gobytes) (r : response) : response * option error :=
  if isClosed r then (r, Some ErrClosedPipe)
  else (toWorker_Send (newChunkV1 (session r) data) r, None).

(** [append([]byte(nil), data...)]: nil when there is nothing to copy. *)
Definition copy_bytes (data : gobytes) : gobytes :=
  match bytes_of data with [] => None | l => Some l end.

Definition Write (data : gobytes) (r : response) : response * (nat * option error) :=
  match ZeroCopyWrite (copy_bytes data) r with
  | (r, Some err) => (r, (0, Some err))
  | (r, None) => (r, (length (bytes_of data), None))
  end.

Definition Close (r : response) : response * option error :=
  if isClosed r then (r, Some EINVAL)
  else let r := close r in (toWorker_Send (newChokeV1 (session r)) r, None).

Definition ErrorMsg (code : Z) (message : string) (r : response) : response * option error :=
  if isClosed r then (r, Some ErrClosedPipe)
  else
    let r := close r in
    (toWorker_Send (newErrorV1 (session r) cworkererrorcategory code message) r, None).

(** ** The request *)

(** What the [select] of [Read] receives: a message or the closing of
    [toHandler], or the end of the context. *)
Inductive read_event : Type :=
| ReadMsg (msg : Message)
| ReadClosed
| ReadCtxDone (reason : string).

Section Request.
(** [convertPayload] into [struct { CodeInfo [2]int; Message string }]: the
    codec encodes the payload and decodes it into the structure. *)
Context (convertPayload : list value -> (Z * Z * string) + error).

Definition Read (e : read_event) : outcome (gobytes * option error) :=
  match e with
  | ReadMsg msg =>
    if isChunk msg then
      match Payload msg with
      | [] => Panic
      | VBytes result :: _ => Ok (result, None)
      | _ :: _ => Ok (None, Some ErrBadPayload)
      end
    else
      match Payload msg with
      | [] => Ok (None, Some ErrMalformedErrorMessage)
      | _ :: _ =>
        match convertPayload (Payload msg) with
        | inr err => Ok (None, Some err)
        | inl (category, code, message) => Ok (None, Some (ErrRequest message category code))
        end
      end
  | ReadClosed => Ok (None, Some ErrStreamIsClosed)
  | ReadCtxDone reason => Ok (None, Some (CtxErr reason))
  end.
End Request.

(** ** Handlers

    A handler is a program over the two interfaces: it may read the request,
    call the operations of the response, use their results, and either return
    or panic. *)
Inductive handler_prog : Type :=
| HReturn
| HPanic (info : string)
| HRead (k : gobytes * option error -> handler_prog)
| HWrite (data : gobytes) (k : nat * option error -> handler_prog)
| HZeroCopyWrite (data : gobytes) (k : option error -> handler_prog)
| HClose (k : option error -> handler_prog)
| HErrorMsg (code : Z) (message : string) (k : option error -> handler_prog).

(** The run of a handler; [reads] gives the result of its successive calls of
    [Read]. The result says whether it panicked. *)
Fixpoint exec_handler (p : handler_prog) (reads : nat -> gobytes * option error) (r : response)
    : response * option string :=
  match p with
  | HReturn => (r, None)
  | HPanic info => (r, Some info)
  | HRead k => exec_handler (k (reads 0)) (fun n => reads (S n)) r
  | HWrite data k => let (r, res) := Write data r in exec_handler (k res) reads r
  | HZeroCopyWrite data k => let (r, res) := ZeroCopyWrite data r in exec_handler (k res) reads r
  | HClose k => let (r, res) := Close r in exec_handler (k res) reads r
  | HErrorMsg code message k =>
    let (r, res) := ErrorMsg code message r in exec_handler (k res) reads r
  end.

(** [trapRecoverAndClose]: [recoverInfo] is what [recover()] returns, [stack]
    the stack text (empty unless [printStack]). *)
Definition trapRecoverAndClose (event : string) (recoverInfo : option string) (stack : string)
    (r : response) : response :=
  match recoverInfo with
  | Some info =>
    (ErrorMsg ErrorPanicInHandler
       ("Event: '" +:+ event +:+ "', recover: " +:+ info +:+ ", stack: \n" +:+ stack +:+ "\n") r).1
  | None => (Close r).1
  end.

(** The goroutine [onInvoke] starts: the handler under the deferred trap. *)
Definition invocation (event : string) (p : handler_prog) (stack : string)
    (reads : nat -> gobytes * option error) (s : Z) : response :=
  let (r, recoverInfo) := exec_handler p reads (newResponse s) in
  trapRecoverAndClose event recoverInfo stack r.

(** ** cocaine12/worker_handlers.go *)

Record EventHandlers : Type := mkEventHandlers {
  fallback : string -> handler_prog;          (* RequestHandler: takes the event *)
  handlers : gmap string (option handler_prog) (* EventHandler, may be nil *)
}.

Definition DefaultFallbackHandler (event : string) : handler_prog :=
  HErrorMsg ErrorNoEventHandler ("There is no handler for an event " +:+ event) (fun _ => HReturn).

Definition NewEventHandlersFromMap (hs : gmap string (option handler_prog)) : EventHandlers :=
  mkEventHandlers DefaultFallbackHandler hs.
Definition NewEventHandlers : EventHandlers := NewEventHandlersFromMap ∅.

Definition On (name : string) (handler : option handler_prog) (e : EventHandlers) : EventHandlers :=
  mkEventHandlers (fallback e) (<[name := handler]> (handlers e)).
Definition SetFallbackHandler (handler : string -> handler_prog) (e : EventHandlers)
    : EventHandlers := mkEventHandlers handler (handlers e).

(** [handlers[event]] is nil for a missing key. *)
Definition Call (e : EventHandlers) (event : string) : handler_prog :=
  match mjoin (handlers e !! event) with
  | None => fallback e event
  | Some handler => handler
  end.

(** [Worker.Run] of cocaine12/worker.go binds the handlers of its argument, in
    the order the map is visited, before running the worker. *)
Definition bind_all (order : list (string * option handler_prog)) (e : EventHandlers)
    : EventHandlers := foldl (fun e '(event, handler) => On event handler e) e order.

(** ** Lemmas *)

(** The messages of a well-formed response stream: chunks, then, once closed,
    one choke or one error. *)
Definition is_terminal (s : Z) (m : Message) : Prop :=
  m = newChokeV1 s \/ exists code message, m = newErrorV1 s cworkererrorcategory code message.

Definition stream_inv (r : response) : Prop :=
  exists (chunks : list gobytes) (ending : option Message),
    sent r = map (newChunkV1 (session r)) chunks ++ opt_list ending /\
    closed r = bool_decide (is_Some ending) /\
    (forall m, ending = Some m -> is_terminal (session r) m).

Lemma stream_inv_new s : stream_inv (newResponse s).
Proof. exists [], None. split_and!; done. Qed.

Lemma stream_inv_chunk data r :
  stream_inv r -> stream_inv (ZeroCopyWrite data r).1 /\
  session (ZeroCopyWrite data r).1 = session r.
Proof.
  intros (chunks & ending & Hs & Hc & Ht). unfold ZeroCopyWrite, isClosed.
  destruct (closed r) eqn:Hcl; [split; [exists chunks, ending; cbn; by rewrite Hcl|done]|].
  split; [|done]. symmetry in Hc. apply bool_decide_eq_false in Hc.
  destruct ending as [m|]; [by destruct Hc|].
  exists (chunks ++ [data]), None. cbn in *. rewrite map_app, Hs, !app_nil_r.
  split_and!; done.
Qed.

Lemma stream_inv_terminal m r :
  stream_inv r -> closed r = false -> is_terminal (session r) m ->
  stream_inv (toWorker_Send m (close r)).
Proof.
  intros (chunks & ending & Hs & Hc & Ht) Hcl Hm. rewrite Hcl in Hc. symmetry in Hc.
  apply bool_decide_eq_false in Hc. destruct ending as [m'|]; [by destruct Hc|].
  exists chunks, (Some m). cbn in *. rewrite Hs, app_nil_r. split_and!; [done..|].
  by intros ? [= <-].
Qed.

Lemma stream_inv_Close r :
  stream_inv r -> stream_inv (Close r).1 /\ session (Close r).1 = session r /\
  closed (Close r).1 = true.
Proof.
  intros Hr. unfold Close, isClosed. destruct (closed r) eqn:Hcl; [done|].
  split_and!; [|done..]. apply stream_inv_terminal; unfold is_terminal; eauto.
Qed.

Lemma stream_inv_ErrorMsg code message r :
  stream_inv r -> stream_inv (ErrorMsg code message r).1 /\
  session (ErrorMsg code message r).1 = session r /\
  closed (ErrorMsg code message r).1 = true.
Proof.
  intros Hr. unfold ErrorMsg, isClosed. destruct (closed r) eqn:Hcl; [done|].
  split_and!; [|done..]. apply stream_inv_terminal; unfold is_terminal; eauto.
Qed.

Lemma stream_inv_Write data r :
  stream_inv r -> stream_inv (Write data r).1 /\ session (Write data r).1 = session r.
Proof.
  intros Hr. destruct (stream_inv_chunk (copy_bytes data) r Hr) as [Hi Hs].
  unfold Write. by destruct (ZeroCopyWrite _ r) as [r' [err|]].
Qed.

Lemma exec_handler_inv p reads r :
  stream_inv r -> stream_inv (exec_handler p reads r).1 /\
  session (exec_handler p reads r).1 = session r.
Proof.
  revert reads r. induction p as [|info|k IH|data k IH|data k IH|k IH|code message k IH];
    intros reads r Hr; simpl; try done.
  - apply IH, Hr.
  - destruct (stream_inv_Write data r Hr) as [Hi Hs].
    destruct (Write data r) as [r' res]. simpl in *. rewrite <- Hs. by apply IH.
  - destruct (stream_inv_chunk data r Hr) as [Hi Hs].
    destruct (ZeroCopyWrite data r) as [r' res]. simpl in *. rewrite <- Hs. by apply IH.
  - destruct (stream_inv_Close r Hr) as (Hi & Hs & _).
    destruct (Close r) as [r' res]. simpl in *. rewrite <- Hs. by apply IH.
  - destruct (stream_inv_ErrorMsg code message r Hr) as (Hi & Hs & _).
    destruct (ErrorMsg code message r) as [r' res]. simpl in *. rewrite <- Hs. by apply IH.
Qed.

(** Only the results of the reads matter. *)
Lemma exec_handler_ext p : forall reads reads' r, (forall n, reads n = reads' n) ->
  exec_handler p reads r = exec_handler p reads' r.
Proof.
  induction p as [|info|k IH|data k IH|data k IH|k IH|code message k IH]; intros reads reads' r Hr;
    cbn [exec_handler]; try done.
  - rewrite (Hr 0). by apply IH.
  - destruct (Write data r). by apply IH.
  - destruct (ZeroCopyWrite data r). by apply IH.
  - destruct (Close r). by apply IH.
  - destruct (ErrorMsg code message r). by apply IH.
Qed.

(** The chunks of a stream. *)
Definition stream_of (s : Z) (chunks : list gobytes) (ending : Message) : list Message :=
  map (newChunkV1 s) chunks ++ [ending].

Lemma invocation_closed event p stack reads s :
  let r := invocation event p stack reads s in
  stream_inv r /\ session r = s /\ closed r = true.
Proof.
  unfold invocation, trapRecoverAndClose.
  destruct (exec_handler_inv p reads _ (stream_inv_new s)) as [Hi Hs].
  destruct (exec_handler p reads (newResponse s)) as [r [info|]]; simpl in *; rewrite <- Hs.
  - apply (stream_inv_ErrorMsg _ _ r Hi).
  - apply (stream_inv_Close r Hi).
Qed.

(** A closed response sends nothing more and every operation fails. *)
Lemma closed_response data code message r :
  closed r = true ->
  ZeroCopyWrite data r = (r, Some ErrClosedPipe) /\
  Write data r = (r, (0, Some ErrClosedPipe)) /\
  Close r = (r, Some EINVAL) /\
  ErrorMsg code message r = (r, Some ErrClosedPipe).
Proof.
  intros Hc. unfold Write, ZeroCopyWrite, Close, ErrorMsg, isClosed. by rewrite Hc.
Qed.

Lemma bind_all_lookup order e name :
  NoDup order.*1 ->
  handlers (bind_all order e) !! name =
    match (list_to_map order : gmap string (option handler_prog)) !! name with
    | Some h => Some h
    | None => handlers e !! name
    end.
Proof.
  revert e. induction order as [|[ev h] order IH]; intros e Hnd; [done|].
  apply NoDup_cons in Hnd as [Hnin Hnd]. change (bind_all ((ev, h) :: order) e) with (bind_all order (On ev h e)).
  rewrite (IH (On ev h e) Hnd). cbn [list_to_map foldr On handlers fst snd uncurry].
  destruct (decide (ev = name)) as [->|Hne].
  - rewrite !lookup_insert_eq. by rewrite not_elem_of_list_to_map_1.
  - by rewrite !lookup_insert_ne.
Qed.

(** ** Properties *)

(** C12 (safety): whatever a handler does - write, close, report an error, any
    number of times and in any order, return or panic - the messages of one
    invocation are chunks followed by exactly one choke or error, all of the
    invoked session, and the response ends closed. *)
Theorem invocation_stream (event : string) (p : handler_prog) (stack : string)
    (reads : nat -> gobytes * option error) (s : Z) :
  let r := invocation event p stack reads s in
  closed r = true /\
  exists (chunks : list gobytes) (ending : Message),
    sent r = stream_of s chunks ending /\ is_terminal s ending.
Proof.
  intros r. destruct (invocation_closed event p stack reads s) as (Hi & Hs & Hc).
  split; [done|]. fold r in Hi, Hs, Hc.
  destruct Hi as (chunks & ending & Hsent & Hcl & Ht).
  rewrite Hc in Hcl. symmetry in Hcl. apply bool_decide_eq_true in Hcl as [m ->].
  exists chunks, m. rewrite <- Hs. split; [done|by apply Ht].
Qed.

(** A handler that panics without having closed its response makes
    the client get an error of category 42 and code 100 as the last message; a
    handler that returns without having closed it makes the client get a choke;
    a response the handler closed itself is left as it is. *)
Theorem trap_closes (event : string) (p : handler_prog) (stack : string)
    (reads : nat -> gobytes * option error) (s : Z) :
  let r := (exec_handler p reads (newResponse s)).1 in
  let recovered := (exec_handler p reads (newResponse s)).2 in
  sent (invocation event p stack reads s) =
    sent r ++
    (if closed r then []
     else match recovered with
          | None => [newChokeV1 s]
          | Some info => [newErrorV1 s 42 100 ("Event: '" +:+ event +:+ "', recover: " +:+ info
                            +:+ ", stack: \n" +:+ stack +:+ "\n")]
          end).
Proof.
  unfold invocation.
  destruct (exec_handler_inv p reads _ (stream_inv_new s)) as [_ Hs].
  destruct (exec_handler p reads (newResponse s)) as [r recovered]; simpl in *.
  destruct (closed r) eqn:Hc.
  - destruct (closed_response None ErrorPanicInHandler
      ("Event: '" +:+ event +:+ "', recover: " +:+ default "" recovered
         +:+ ", stack: \n" +:+ stack +:+ "\n") r Hc) as (_ & _ & Hcl & He).
    destruct recovered as [info|]; simpl in *; by rewrite ?Hcl, ?He, app_nil_r.
  - destruct recovered as [info|]; unfold trapRecoverAndClose, ErrorMsg, Close, isClosed;
      rewrite Hc; simpl; by rewrite Hs.
Qed.

(** [Read] gives a handler the data of a chunk built by
    [newChunkV1], and the message, category and code of an error built by
    [newErrorV1], provided the codec decodes an error payload to the fields it
    encodes; the closing of the stream and the end of the context are reported
    as their own errors. *)
Theorem request_read_roundtrip (convertPayload : list value -> (Z * Z * string) + error)
    (Hcodec : forall category code message,
       convertPayload [VIntPair category code; VString message] = inl (category, code, message)) :
  (forall s data, Read convertPayload (ReadMsg (newChunkV1 s data)) = Ok (data, None)) /\
  (forall s category code message,
     Read convertPayload (ReadMsg (newErrorV1 s category code message)) =
       Ok (None, Some (ErrRequest message category code))) /\
  Read convertPayload ReadClosed = Ok (None, Some ErrStreamIsClosed) /\
  (forall reason, Read convertPayload (ReadCtxDone reason) = Ok (None, Some (CtxErr reason))).
Proof.
  split_and!; try done. intros s category code message.
  cbn. by rewrite Hcodec.
Qed.

Lemma request_read_roundtrip_witness :
  Read (fun l => match l with
                 | [VIntPair a b; VString m] => inl (a, b, m)
                 | _ => inr (ExtErr "codec")
                 end) (ReadMsg (newErrorV1 3 42 (-100) "dummyError"))
    = Ok (None, Some (ErrRequest "dummyError" 42 (-100))).
Proof. apply request_read_roundtrip. done. Defined.

(** After [Worker.Run] has bound its handlers, an event runs
    the handler given for it, else the one bound before with [On], else (also
    for a nil handler) the fallback, which by default replies with error 200. *)
Theorem event_handlers_call (order : list (string * option handler_prog)) (e : EventHandlers)
    (event : string) (Hnd : NoDup order.*1) :
  Call (bind_all order e) event =
    match (list_to_map order : gmap string (option handler_prog)) !! event with
    | Some (Some h) => h
    | Some None => fallback e event
    | None => Call e event
    end /\
  sent (invocation event (Call NewEventHandlers event) "" (fun _ => (None, None)) 7) =
    [newErrorV1 7 42 200 ("There is no handler for an event " +:+ event)].
Proof.
  assert (Hf : forall o e', fallback (bind_all o e') = fallback e').
  { induction o as [|[ev h] o IH]; intros e'; [done|]. apply (IH (On ev h e')). }
  split; [|by cbn].
  unfold Call. rewrite bind_all_lookup, Hf by done.
  by destruct ((list_to_map order : gmap string (option handler_prog)) !! event) as [[h|]|].
Qed.

Lemma event_handlers_call_witness :
  Call (bind_all [("a", Some HReturn); ("b", None)] NewEventHandlers) "a" = HReturn.
Proof.
  refine (proj1 (event_handlers_call [("a", Some HReturn); ("b", None)] NewEventHandlers "a" _)).
  apply (bool_decide_unpack _). vm_compute. exact I.
Defined.
