(* ===== verification/Reader.v ===== *)
(** * cocaine12/utils.go: [requestReader]

    The adapter that presents the chunks of a request as an [io.Reader]: a
    chunk longer than the caller's buffer is kept for the next calls. *)
From S2P Require Import Prelude GoTypes.
From Stdlib Require Import Strings.Byte Lia.

(** ** Definitions *)

(** [requestReader]: [buffer] is the unread part of its [bytes.Buffer]; the
    request is the sequence of results its [Read] will give. *)
Record requestReader : Type := mkReader {
  buffer : list byte;
  req : list (gobytes * option error)
}.

Definition RequestReader (req : list (gobytes * option error)) : requestReader :=
  mkReader [] req.

(** [bytes.Buffer.Read] of a non-empty buffer into a slice of length [n]. *)
Definition buffer_Read (n : nat) (b : list byte) : list byte * list byte := (take n b, drop n b).

(** [Read(p)] with [len(p) = n]: the bytes copied to the front of [p], the
    error, and the reader afterwards; [None] when the request has no result to
    give yet, and the call blocks. The returned count is the number of bytes
    copied. *)
Definition Read (n : nat) (r : requestReader)
    : option (list byte * option error * requestReader) :=
  match buffer r with
  | _ :: _ =>
    let (p, rest) := buffer_Read n (buffer r) in
    Some (p, None, mkReader rest (req r))
  | [] =>
    match req r with
    | [] => None
    | (data, err) :: req' =>
      match err with
      | None =>
        let d := bytes_of data in
        let copied := take n d in                 (* n := copy(p, data) *)
        if decide (length copied < length d) then
          Some (copied, None, mkReader (drop (length copied) d) req')
        else Some (copied, None, mkReader [] req')
      | Some ErrStreamIsClosed => Some ([], Some EOF, mkReader [] req')
      | Some err => Some ([], Some err, mkReader [] req')
      end
    end
  end.

(** Successive reads with the given slice lengths, up to the first error. *)
Fixpoint read_all (ns : list nat) (r : requestReader)
    : option (list byte * option error * requestReader) :=
  match ns with
  | [] => Some ([], None, r)
  | n :: ns =>
    match Read n r with
    | None => None
    | Some (p, Some err, r) => Some (p, Some err, r)
    | Some (p, None, r) =>
      match read_all ns r with
      | None => None
      | Some (ps, err, r) => Some (p ++ ps, err, r)
      end
    end
  end.

(** The results of a request whose stream carries [chunks] and is then closed. *)
Definition closed_stream (chunks : list gobytes) : list (gobytes * option error) :=
  map (fun c => (c, None)) chunks ++ [(None, Some ErrStreamIsClosed)].

Definition contents (chunks : list gobytes) : list byte := concat (map bytes_of chunks).

(** What is still to be read. *)
Definition remaining (b : list byte) (chunks : list gobytes) : list byte := b ++ contents chunks.

(** ** Lemmas *)

Lemma Read_step n b chunks :
  match Read n (mkReader b (closed_stream chunks)) with
  | Some (p, None, r) =>
    length p <= n /\
    exists b' chunks', r = mkReader b' (closed_stream chunks') /\
      remaining b chunks = p ++ remaining b' chunks' /\
      (0 < n -> length b' + length (contents chunks') + length chunks' <
                length b + length (contents chunks) + length chunks)
  | Some (p, Some err, r) => err = EOF /\ p = [] /\ remaining b chunks = []
  | None => False
  end.
Proof.
  unfold Read. cbn [buffer req]. destruct b as [|x b].
  - destruct chunks as [|c chunks]; [done|]. cbn [closed_stream map app].
    unfold remaining, contents. cbn [map concat app].
    assert (Hlen : length (take n (bytes_of c)) = min n (length (bytes_of c)))
      by apply length_take.
    case_decide as Hlt; (split; [lia|]).
    + exists (drop n (bytes_of c)), chunks. rewrite Hlen. rewrite Nat.min_l by lia.
      split_and!; [done| |].
      * by rewrite (assoc_L (++)), take_drop.
      * rewrite length_app, length_drop. simpl. lia.
    + exists [], chunks. split_and!; [done| |].
      * rewrite take_ge by lia. done.
      * rewrite length_app. simpl. lia.
  - unfold buffer_Read. split; [rewrite length_take; lia|].
    exists (drop n (x :: b)), chunks. split_and!; [done| |].
    + unfold remaining. by rewrite (assoc_L (++)), take_drop.
    + rewrite length_drop. simpl. lia.
Qed.

(** Reads that meet no error deliver a prefix of what remained. *)
Lemma read_all_contents ns b chunks :
  match read_all ns (mkReader b (closed_stream chunks)) with
  | Some (ps, None, r) =>
    exists b' chunks', r = mkReader b' (closed_stream chunks') /\
      remaining b chunks = ps ++ remaining b' chunks'
  | Some (ps, Some err, r) => err = EOF /\ ps = remaining b chunks
  | None => False
  end.
Proof.
  revert b chunks. induction ns as [|n ns IH]; intros b chunks; [by exists b, chunks|].
  cbn [read_all]. pose proof (Read_step n b chunks) as Hs.
  destruct (Read n _) as [[[p [err|]] r]|]; [naive_solver| |done].
  destruct Hs as (_ & b' & chunks' & -> & Hrem & _). specialize (IH b' chunks').
  destruct (read_all ns _) as [[[ps [err|]] r]|]; [| |done].
  - destruct IH as [-> ->]. done.
  - destruct IH as (b2 & c2 & -> & Hr). exists b2, c2. split; [done|].
    by rewrite Hrem, Hr, (assoc_L (++)).
Qed.

Lemma read_all_eof n k b chunks :
  0 < n -> length b + length (contents chunks) + length chunks < k ->
  exists ps r, read_all (replicate k n) (mkReader b (closed_stream chunks)) = Some (ps, Some EOF, r).
Proof.
  intros Hn. revert b chunks. induction k as [|k IH]; intros b chunks Hk; [lia|].
  cbn [replicate read_all]. pose proof (Read_step n b chunks) as Hs.
  destruct (Read n _) as [[[p [err|]] r]|]; [|destruct Hs as (_ & b' & c' & -> & _ & Hm)|done].
  - destruct Hs as (-> & _). eauto.
  - destruct (IH b' c') as (ps & r & ->); [specialize (Hm Hn); lia|]. eauto.
Qed.

(** ** Properties *)

(** Reading a closed request through the reader with slices
    of any lengths delivers the bytes of its chunks exactly: never more than
    the slice holds, in order, nothing lost or repeated between a chunk and the
    internal buffer; end of file is reported exactly after the last byte, and
    is reached by finitely many reads of non-empty slices. *)
Theorem reader_exact (chunks : list gobytes) :
  (forall ns,
     match read_all ns (RequestReader (closed_stream chunks)) with
     | Some (ps, None, _) => exists rest, contents chunks = ps ++ rest
     | Some (ps, Some err, _) => err = EOF /\ ps = contents chunks
     | None => False
     end) /\
  (forall n, 0 < n -> exists k ps r,
     read_all (replicate k n) (RequestReader (closed_stream chunks)) = Some (ps, Some EOF, r)) /\
  (forall n b p err r, Read n (mkReader b (closed_stream chunks)) = Some (p, err, r) ->
     length p <= n).
Proof.
  split_and!.
  - intros ns. pose proof (read_all_contents ns [] chunks) as H.
    unfold RequestReader. destruct (read_all ns _) as [[[ps [err|]] r]|]; [done| |done].
    destruct H as (b' & c' & _ & Hr). by eexists.
  - intros n Hn. eexists. by apply read_all_eof; [|apply Nat.lt_succ_diag_r].
  - intros n b p err r Hr. pose proof (Read_step n b chunks) as H. rewrite Hr in H.
    destruct err; [|naive_solver]. destruct H as (_ & -> & _). simpl. lia.
Qed.

