(* ===== verification/Cocainetest.v ===== *)
(** * cocaine12/cocainetest: the request and the response for tests of handlers

    A test runs a handler on a [Request] that it filled and looks at what is left in
    a [Response]. The handlers are the programs of Handler.v; the theorem compares
    such a run with the one in a worker. *)
From S2P Require Import Prelude GoTypes ProtoV1.
From S2P Require Handler.
From Stdlib Require Import Strings.Byte ZArith Lia.
Import Handler (handler_prog, HReturn, HPanic, HRead, HWrite, HZeroCopyWrite, HClose, HErrorMsg).

(** ** Definitions *)

(** cocainetest/request.go *)
Record Request : Type := mkRequest {
  chunks : list gobytes
}.

Definition NewRequest : Request := mkRequest [].

Definition Request_Write (p : gobytes) (r : Request) : Request * (nat * option error) :=
  (mkRequest (chunks r ++ [p]), (length (bytes_of p), None)).

Definition Read (r : Request) : Request * (gobytes * option error) :=
  match chunks r with
  | [] => (r, (None, Some ErrStreamIsClosed))
  | chunk :: rest => (mkRequest rest, (chunk, None))
  end.

(** cocainetest/response.go; [Buffer] has what [bytes.Buffer] holds. *)
Record CocaineError : Type := mkCocaineError {
  Msg : string;
  Code : Z
}.

Record Response : Type := mkResponse {
  Buffer : list byte;
  closed : bool;
  Err : option CocaineError
}.

Definition NewResponse : Response := mkResponse [] false None.

(** [Buffer.Write], promoted from the embedded buffer. *)
Definition Write (data : gobytes) (r : Response) : Response * (nat * option error) :=
  (mkResponse (Buffer r ++ bytes_of data) (closed r) (Err r), (length (bytes_of data), None)).

Definition ZeroCopyWrite (data : gobytes) (r : Response) : Response * option error :=
  let (r, res) := Write data r in (r, res.2).

Definition Close (r : Response) : Response * option error :=
  if closed r then (r, Some EINVAL) else (mkResponse (Buffer r) true (Err r), None).

Definition ErrorMsg (code : Z) (msg : string) (r : Response) : Response * option error :=
  if closed r then (r, Some ErrClosedPipe)
  else Close (mkResponse (Buffer r) (closed r) (Some (mkCocaineError msg code))).

(** A handler called by a test. *)
Fixpoint exec_test (p : handler_prog) (req : Request) (r : Response) : Response * option string :=
  match p with
  | HReturn => (r, None)
  | HPanic info => (r, Some info)
  | HRead k => let (req, res) := Read req in exec_test (k res) req r
  | HWrite data k => let (r, res) := Write data r in exec_test (k res) req r
  | HZeroCopyWrite data k => let (r, res) := ZeroCopyWrite data r in exec_test (k res) req r
  | HClose k => let (r, res) := Close r in exec_test (k res) req r
  | HErrorMsg code message k => let (r, res) := ErrorMsg code message r in exec_test (k res) req r
  end.

(** ** Specification *)

(** Whether the handler writes to the response of the test after its end. *)
Fixpoint writes_late (p : handler_prog) (req : Request) (r : Response) : bool :=
  match p with
  | HReturn | HPanic _ => false
  | HRead k => let (req, res) := Read req in writes_late (k res) req r
  | HWrite data k => closed r || let (r, res) := Write data r in writes_late (k res) req r
  | HZeroCopyWrite data k =>
    closed r || let (r, res) := ZeroCopyWrite data r in writes_late (k res) req r
  | HClose k => let (r, res) := Close r in writes_late (k res) req r
  | HErrorMsg code message k =>
    let (r, res) := ErrorMsg code message r in writes_late (k res) req r
  end.

(** What the reads of a request give that got [cs] and was closed. *)
Definition reads_of (cs : list gobytes) (n : nat) : gobytes * option error :=
  match cs !! n with
  | Some chunk => (chunk, None)
  | None => (None, Some ErrStreamIsClosed)
  end.

(** The messages of the worker that a response of a test stands for. *)
Definition stands_for (t : Response) (s : Z) (ms : list Message) : Prop :=
  exists data : list gobytes,
    Buffer t = concat (map bytes_of data) /\
    ms = map (newChunkV1 s) data ++
      (if closed t then
         match Err t with
         | None => [newChokeV1 s]
         | Some e => [newErrorV1 s Handler.cworkererrorcategory (Code e) (Msg e)]
         end
       else []).

(** ** Lemmas *)

(** The response of a worker and its double. *)
Record doubles (t : Response) (r : Handler.response) : Prop := {
  same_closed : Handler.closed r = closed t;
  same_open : closed t = false -> Err t = None;
  same_sent : stands_for t (Handler.session r) (Handler.sent r)
}.

Lemma doubles_new s : doubles NewResponse (Handler.newResponse s).
Proof. split; [done..|]. by exists []. Qed.

Lemma doubles_chunk t r data data' : doubles t r -> closed t = false -> bytes_of data' = bytes_of data ->
  doubles (Write data t).1 (Handler.toWorker_Send (newChunkV1 (Handler.session r) data') r).
Proof.
  intros [Hc Ho (ds & Hb & Hs)] Hcl Hd. split; [done|done|].
  exists (ds ++ [data']). cbn. rewrite Hcl in *. rewrite app_nil_r in *. split.
  - rewrite map_app, concat_app, <- Hb. cbn. by rewrite app_nil_r, Hd.
  - by rewrite Hs, map_app.
Qed.

Lemma doubles_end t r m e : doubles t r -> closed t = false ->
  m = match e with
      | None => newChokeV1 (Handler.session r)
      | Some e => newErrorV1 (Handler.session r) Handler.cworkererrorcategory (Code e) (Msg e)
      end ->
  doubles (mkResponse (Buffer t) true e) (Handler.toWorker_Send m (Handler.close r)).
Proof.
  intros [Hc Ho (ds & Hb & Hs)] Hcl ->. split; [done|done|].
  exists ds. cbn. rewrite Hcl, app_nil_r in Hs. split; [done|]. rewrite Hs. by destruct e.
Qed.

Lemma copy_bytes_of data : bytes_of (Handler.copy_bytes data) = bytes_of data.
Proof. unfold Handler.copy_bytes. by destruct (bytes_of data). Qed.

Lemma exec_doubles p : forall req t r, doubles t r -> writes_late p req t = false ->
  doubles (exec_test p req t).1 (Handler.exec_handler p (reads_of (chunks req)) r).1 /\
  (exec_test p req t).2 = (Handler.exec_handler p (reads_of (chunks req)) r).2.
Proof.
  induction p as [|info|k IH|data k IH|data k IH|k IH|code message k IH]; intros req t r Ht Hl;
    cbn [exec_test Handler.exec_handler writes_late] in *; try done.
  - unfold Read in *. destruct req as [[|c cs]]; cbn [chunks] in *.
    + rewrite (Handler.exec_handler_ext _ (fun n => reads_of [] (S n)) (reads_of [])) by (by intros []).
      by apply (IH _ (mkRequest [])).
    + rewrite (Handler.exec_handler_ext _ (fun n => reads_of (c :: cs) (S n)) (reads_of cs)) by done.
      by apply (IH _ (mkRequest cs)).
  - apply orb_false_iff in Hl as [Hc Hl]. unfold Handler.Write, Handler.ZeroCopyWrite, Handler.isClosed.
    rewrite (same_closed _ _ Ht), Hc. cbn [Write] in Hl.
    apply IH; [|done]. apply doubles_chunk; [done..|]. apply copy_bytes_of.
  - apply orb_false_iff in Hl as [Hc Hl]. unfold Handler.ZeroCopyWrite, Handler.isClosed.
    rewrite (same_closed _ _ Ht), Hc. apply IH; [|done]. by apply doubles_chunk.
  - unfold Close, Handler.Close, Handler.isClosed in *. rewrite (same_closed _ _ Ht).
    destruct (closed t) eqn:Hc; apply IH; try done.
    rewrite (same_open _ _ Ht Hc). by apply doubles_end.
  - unfold ErrorMsg, Handler.ErrorMsg, Handler.isClosed in *. rewrite (same_closed _ _ Ht).
    destruct (closed t) eqn:Hc; [by apply IH|]. unfold Close in *. cbn [closed Buffer Err] in *.
    apply IH; [|done]. by apply doubles_end.
Qed.

(** ** Property *)

(** The test of a handler shows what a worker would send: filled
    with chunks, the [Request] gives the handler what a closed request with these
    chunks gives it, and what is left in the [Response] stands for the messages of
    the worker's response, for every handler that does not write to a response it has
    closed - the double takes such a write, which the worker refuses. *)
Theorem cocainetest_faithful (p : handler_prog) (data : list gobytes) (s : Z)
    (Hlate : writes_late p (foldl (fun r c => (Request_Write c r).1) NewRequest data) NewResponse = false) :
  let req := foldl (fun r c => (Request_Write c r).1) NewRequest data in
  let '(t, panicked) := exec_test p req NewResponse in
  let '(r, panicked') := Handler.exec_handler p (reads_of data) (Handler.newResponse s) in
  panicked = panicked' /\ Handler.closed r = closed t /\ stands_for t s (Handler.sent r).
Proof.
  assert (Hreq : forall cs, foldl (fun r c => (Request_Write c r).1) (mkRequest cs) data = mkRequest (cs ++ data)).
  { clear Hlate. induction data as [|c data IH]; intros cs; cbn; [by rewrite app_nil_r|].
    by rewrite IH, <- (assoc_L (++)). }
  change NewRequest with (mkRequest []) in *. rewrite (Hreq []) in *. cbn [app] in *.
  destruct (exec_doubles p (mkRequest data) NewResponse (Handler.newResponse s) (doubles_new s) Hlate)
    as [Hd He]. cbn [chunks] in *.
  destruct (Handler.exec_handler_inv p (reads_of data) _ (Handler.stream_inv_new s)) as [_ Hs].
  destruct (exec_test p _ _) as [t i], (Handler.exec_handler p _ _) as [r i'].
  cbn [fst snd] in *. split_and!; [done|apply Hd|]. cbn in Hs. rewrite <- Hs. apply Hd.
Qed.

(** ** Witness: an echo that ends with an error; and a late write *)
Definition sample_echo : handler_prog :=
  HRead (fun res => HWrite res.1 (fun _ => HErrorMsg 7 "done" (fun _ => HReturn))).

Lemma cocainetest_faithful_witness :
  (let '(t, _) := exec_test sample_echo (mkRequest [Some [x61]]) NewResponse in
   stands_for t 3 [newChunkV1 3 (Some [x61]); newErrorV1 3 42 7 "done"]) /\
  (exec_test (HClose (fun _ => HWrite (Some [x61]) (fun _ => HReturn))) NewRequest NewResponse).1 =
    mkResponse [x61] true None /\
  Handler.sent (Handler.exec_handler (HClose (fun _ => HWrite (Some [x61]) (fun _ => HReturn)))
    (reads_of []) (Handler.newResponse 3)).1 = [newChokeV1 3].
Proof.
  split; [|done]. exact (proj2 (proj2 (cocainetest_faithful sample_echo [Some [x61]] 3 eq_refl))).
Defined.
