(* ===== verification/Worker.v ===== *)
(** * cocaine12/workerng.go and cocaine12/worker.go: the worker

    [WorkerNG] implements the [protocolHandler] interface of ProtoV1.v; its
    event loop, the timers, the request queues of the handlers and the
    connection are composed as a transition system. The environment chooses
    the messages that arrive, when timers fire, when the connection dies, when
    the user calls [Stop], and which ready case of a [select] is taken. *)
From S2P Require Import Prelude GoTypes Headers Buffers ProtoV1.
From Stdlib Require Import ZArith Lia.

(** ** State *)

(** The goroutine [onInvoke] starts: what its closure captures, and the
    request queue it reads. [g_given] is what the handler received from it. *)
Record handler_go : Type := mkGo {
  g_session : Z;                       (* of responseStream *)
  g_event : string;
  g_trace : option TraceInfo;          (* attached to ctx *)
  g_queue : HandlerLoop.state Message; (* the loop of requestStream *)
  g_closed : bool;                     (* requestStream.closed is closed *)
  g_given : list Message
}.

(** [conn] is seen through [socketIO]: what was written to [Write()], the state
    of the [IsClosed()] broadcast and of the [Read()] channel, and the number
    of calls of [Close()]. [sessions] maps to an index of [gos]. *)
Record WorkerNG : Type := mkWorker {
  id : string;
  written : list Message;
  conn_closed : bool;
  read_closed : bool;
  close_calls : nat;
  heartbeatTimer : timer;
  disownTimer : timer;
  token_stops : nat;                   (* calls of tokenManager.Stop *)
  sessions : gmap Z nat;
  gos : list handler_go;
  stopped : bool;
  debug : bool;
  stackSignalEnabled : bool;
  dispatcher : v1Protocol;
  terminationHandler : bool;           (* not nil *)
  terminations : nat;                  (* calls of terminationHandler *)
  blocked : bool                       (* a push that can never proceed *)
}.

Section Setters.
Context (w : WorkerNG).
Definition set_conn wr cc rc k := mkWorker (id w) wr cc rc k (heartbeatTimer w) (disownTimer w)
  (token_stops w) (sessions w) (gos w) (stopped w) (debug w) (stackSignalEnabled w)
  (dispatcher w) (terminationHandler w) (terminations w) (blocked w).
Definition set_timers h d := mkWorker (id w) (written w) (conn_closed w) (read_closed w)
  (close_calls w) h d (token_stops w) (sessions w) (gos w) (stopped w) (debug w)
  (stackSignalEnabled w) (dispatcher w) (terminationHandler w) (terminations w) (blocked w).
Definition set_sessions ss gs b := mkWorker (id w) (written w) (conn_closed w) (read_closed w)
  (close_calls w) (heartbeatTimer w) (disownTimer w) (token_stops w) ss gs (stopped w) (debug w)
  (stackSignalEnabled w) (dispatcher w) (terminationHandler w) (terminations w) b.
Definition set_stopped ts st := mkWorker (id w) (written w) (conn_closed w) (read_closed w)
  (close_calls w) (heartbeatTimer w) (disownTimer w) ts (sessions w) (gos w) st (debug w)
  (stackSignalEnabled w) (dispatcher w) (terminationHandler w) (terminations w) (blocked w).
Definition set_options dbg sse th n := mkWorker (id w) (written w) (conn_closed w)
  (read_closed w) (close_calls w) (heartbeatTimer w) (disownTimer w) (token_stops w)
  (sessions w) (gos w) (stopped w) dbg sse (dispatcher w) th n (blocked w).
Definition set_dispatcher v := mkWorker (id w) (written w) (conn_closed w) (read_closed w)
  (close_calls w) (heartbeatTimer w) (disownTimer w) (token_stops w) (sessions w) (gos w)
  (stopped w) (debug w) (stackSignalEnabled w) v (terminationHandler w) (terminations w)
  (blocked w).
End Setters.

(** ** Operations *)

(** The outcome of [select { case conn.Write() <- m: case <-conn.IsClosed():
    case <-time.After(d): }]. *)
Inductive write_select : Type :=
| Sent
| ConnClosed
| TimedOut.

Definition select_write (sel : write_select) (m : Message) (w : WorkerNG) : WorkerNG :=
  match sel with
  | Sent => set_conn w (written w ++ [m]) (conn_closed w) (read_closed w) (close_calls w)
  | ConnClosed | TimedOut => w
  end.

(** The closed case is ready only when the connection is closed. *)
Definition select_ready (sel : write_select) (w : WorkerNG) : bool :=
  match sel with
  | ConnClosed => conn_closed w
  | Sent | TimedOut => true
  end.

Definition sendHandshake (sel : write_select) (w : WorkerNG) : WorkerNG * option error :=
  (select_write sel (newHandshakeV1 (id w)) w,
   match sel with
   | TimedOut => Some (Errorf "unable to send a handshake for a long time" [])
   | _ => None
   end).

Definition newWorkerNG (conn_isclosed : bool) (id : string) (protoVersion : Z) (debug : bool)
    (sel : write_select) : WorkerNG + error :=
  let w := mkWorker id [] conn_isclosed false 0 (mkTimer true false) (mkTimer true false) 0
             ∅ [] false debug true (mkV1 0) false 0 false in
  if decide (protoVersion = 1%Z) then
    let w := set_dispatcher w newV1Protocol in
    let w := set_timers w (heartbeatTimer w) (timer_Stop (disownTimer w)) in
    let w := set_timers w (timer_Stop (heartbeatTimer w)) (disownTimer w) in
    match sendHandshake sel w with
    | (_, Some err) => inr err
    | (w, None) => inl w
    end
  else inr (Errorf "unsupported protocol version %d" [VInt Kint protoVersion]).

Definition SetDebug (d : bool) (w : WorkerNG) : WorkerNG :=
  set_options w d (stackSignalEnabled w) (terminationHandler w) (terminations w).
Definition EnableStackSignal (enable : bool) (w : WorkerNG) : WorkerNG :=
  set_options w (debug w) enable (terminationHandler w) (terminations w).

Definition isStopped (w : WorkerNG) : bool := stopped w.

Definition conn_Close (w : WorkerNG) : WorkerNG :=
  set_conn w (written w) true (read_closed w) (S (close_calls w)).

Definition Stop (w : WorkerNG) : WorkerNG :=
  if isStopped w then w
  else conn_Close (set_stopped w (S (token_stops w)) true).

Definition onDisownTimeout (w : WorkerNG) : WorkerNG := Stop w.

Definition onHeartbeatTimeout (sel : write_select) (w : WorkerNG) : WorkerNG :=
  let w := set_timers w (heartbeatTimer w) (timer_Reset (disownTimer w)) in
  let w := set_timers w (timer_Reset (heartbeatTimer w)) (disownTimer w) in
  select_write sel newHeartbeatV1 w.

(** [request.push]: a send to the loop of the request, which blocks for ever
    when that loop has returned. *)
Definition push (i : nat) (msg : Message) (w : WorkerNG) : outcome WorkerNG :=
  match gos w !! i with
  | None => Panic
  | Some g =>
    match HandlerLoop.step (g_queue g) (HandlerLoop.Incoming msg) with
    | Some q => Ok (set_sessions w (sessions w)
        (<[i := mkGo (g_session g) (g_event g) (g_trace g) q (g_closed g) (g_given g)]> (gos w))
        (blocked w))
    | None => Ok (set_sessions w (sessions w) (gos w) true)
    end
  end.

(** [request.Close]: closing the channel twice panics. *)
Definition request_Close (i : nat) (w : WorkerNG) : outcome WorkerNG :=
  match gos w !! i with
  | None => Panic
  | Some g =>
    if g_closed g then Panic
    else Ok (set_sessions w (sessions w)
      (<[i := mkGo (g_session g) (g_event g) (g_trace g) (g_queue g) true (g_given g)]> (gos w))
      (blocked w))
  end.

Definition worker_onChoke (msg : Message) (w : WorkerNG) : outcome WorkerNG :=
  match sessions w !! msg_session msg with
  | Some reqStream =>
    let* w := request_Close reqStream w in
    Ok (set_sessions w (delete (msg_session msg) (sessions w)) (gos w) (blocked w))
  | None => Ok w
  end%go.

(** [onChunk] and [onError] *)
Definition worker_onChunk (msg : Message) (w : WorkerNG) : outcome WorkerNG :=
  match sessions w !! msg_session msg with
  | Some reqStream => push reqStream msg w
  | None => Ok w
  end.
Definition worker_onError (msg : Message) (w : WorkerNG) : outcome WorkerNG :=
  match sessions w !! msg_session msg with
  | Some reqStream => push reqStream msg w
  | None => Ok w
  end.

(** The context of an invocation: the tracing headers when they decode. *)
Definition invoke_trace (msg : Message) : option TraceInfo :=
  match getTraceData (Headers msg) with
  | (traceInfo, None) => Some traceInfo
  | (_, Some _) => None
  end.

Definition worker_onInvoke (msg : Message) (w : WorkerNG) : outcome (WorkerNG * option error) :=
  let* '(event, ok) := getEventName msg in
  if negb ok then Ok (w, Some (Errorf "unable to get an event name from %s" [msg_value msg]))
  else
    let currentSession := msg_session msg in
    let go := mkGo currentSession event (invoke_trace msg) HandlerLoop.loop_init false [] in
    Ok (set_sessions w (<[currentSession := length (gos w)]> (sessions w)) (gos w ++ [go])
          (blocked w), None).

Definition worker_onHeartbeat (msg : Message) (w : WorkerNG) : WorkerNG :=
  set_timers w (heartbeatTimer w) (timer_Stop (disownTimer w)).

(** The wait for the termination handler ends with it or with its timeout;
    either way the worker goes on. *)
Definition worker_onTerminate (sel : write_select) (msg : Message) (w : WorkerNG) : WorkerNG :=
  let w := if terminationHandler w
           then set_options w (debug w) (stackSignalEnabled w) true (S (terminations w)) else w in
  Stop (select_write sel msg w).

#[local] Instance worker_handler (sel : write_select) : protocolHandler WorkerNG := {
  onChoke := worker_onChoke;
  onChunk := worker_onChunk;
  onError := worker_onError;
  onHeartbeat msg w := Ok (worker_onHeartbeat msg w);
  onInvoke := worker_onInvoke;
  onTerminate msg w := Ok (worker_onTerminate sel msg w)
}.

(** [w.dispatcher.onMessage(w, msg)]; the loop prints the error. *)
Definition dispatch (sel : write_select) (msg : Message) (w : WorkerNG) : outcome WorkerNG :=
  let* '(v, w, _) := onMessage (H := worker_handler sel) (dispatcher w) w msg in
  Ok (set_dispatcher w v).

(** ** The event loop and its environment *)

Inductive loop_state : Type :=
| NotRun
| Running
| Finished (result : option error).

Inductive event : Type :=
(* the loop *)
| RunCall (th : bool) (sel : write_select)   (* Run: the first heartbeat *)
| MsgReceived (msg : Message) (sel : write_select)
| ReadEnded                                  (* msg, ok := <-conn.Read(); !ok *)
| HeartbeatTick (sel : write_select)
| DisownTick
| StoppedSeen
| StackSignal
(* the request queue of an invocation, read by its handler *)
| QueueOut (i : nat)
| QueueClosed (i : nat)
(* the environment *)
| HeartbeatFires
| DisownFires
| ConnLost                                   (* the socket closes itself *)
| ReadCloses                                 (* Read() is closed *)
| UserStop.

Definition in_loop (l : loop_state) : bool := match l with Running => true | _ => false end.

Definition queue_step (i : nat) (e : HandlerLoop.event Message) (w : WorkerNG)
    : option WorkerNG :=
  match gos w !! i with
  | None => None
  | Some g =>
    match HandlerLoop.step (g_queue g) e with
    | Some q => Some (set_sessions w (sessions w)
        (<[i := mkGo (g_session g) (g_event g) (g_trace g) q (g_closed g)
                  (g_given g ++ dequeued (opt_list (HandlerLoop.label (g_queue g) e)))]> (gos w))
        (blocked w))
    | None => None
    end
  end.

Definition queue_closed (i : nat) (w : WorkerNG) : bool :=
  match gos w !! i with Some g => g_closed g | None => false end.

(** The loop goroutine takes a step only while it runs and is not blocked. *)
Definition loop_step (l : loop_state) (w : WorkerNG) (e : event)
    : option (outcome (loop_state * WorkerNG)) :=
  if negb (in_loop l) || blocked w then None
  else
    match e with
    | MsgReceived msg sel =>
      if negb (read_closed w) && select_ready sel w then
        Some (outcome_bind (dispatch sel msg w) (fun w => Ok (Running, w)))
      else None
    | ReadEnded =>
      if read_closed w then
        Some (Ok (Finished (if stopped w then None else Some ErrConnectionLost), w))
      else None
    | HeartbeatTick sel =>
      if fired (heartbeatTimer w) && select_ready sel w then
        let w := set_timers w (timer_receive (heartbeatTimer w)) (disownTimer w) in
        Some (Ok (Running, onHeartbeatTimeout sel w))
      else None
    | DisownTick =>
      if fired (disownTimer w) then
        let w := set_timers w (heartbeatTimer w) (timer_receive (disownTimer w)) in
        Some (Ok (Finished (Some ErrDisowned), onDisownTimeout w))
      else None
    | StoppedSeen => if stopped w then Some (Ok (Finished None, w)) else None
    | StackSignal => if stackSignalEnabled w then Some (Ok (Running, w)) else None
    | _ => None
    end.

Definition env_step (l : loop_state) (w : WorkerNG) (e : event)
    : option (outcome (loop_state * WorkerNG)) :=
  let keep o := (fun w => Ok (l, w)) <$> o in
  match e with
  | RunCall th sel =>
    match l with
    | NotRun =>
      if select_ready sel w then
        let w := set_options w (debug w) (stackSignalEnabled w) th (terminations w) in
        Some (Ok (Running, onHeartbeatTimeout sel w))
      else None
    | _ => None
    end
  | QueueOut i => keep (queue_step i HandlerLoop.Out w)
  | QueueClosed i => if queue_closed i w then keep (queue_step i HandlerLoop.Closed w) else None
  | HeartbeatFires =>
    if armed (heartbeatTimer w) then
      keep (Some (set_timers w (timer_fire (heartbeatTimer w)) (disownTimer w)))
    else None
  | DisownFires =>
    if armed (disownTimer w) then
      keep (Some (set_timers w (heartbeatTimer w) (timer_fire (disownTimer w))))
    else None
  | ConnLost => keep (Some (set_conn w (written w) true (read_closed w) (close_calls w)))
  | ReadCloses => keep (Some (set_conn w (written w) (conn_closed w) true (close_calls w)))
  | UserStop => keep (Some (Stop w))
  | _ => loop_step l w e
  end.

Definition step (s : outcome (loop_state * WorkerNG)) (e : event)
    : option (outcome (loop_state * WorkerNG)) :=
  match s with
  | Panic => None
  | Ok (l, w) => env_step l w e
  end.

(** ** Specification: the streams of the handlers

    What a worker promises to its handlers, without queues or goroutines: each
    invoked session has a stream, open until its choke, of the chunks and
    errors received while it is open. *)
Record stream : Type := mkStream {
  open : bool;
  msgs : list Message
}.

Record spec : Type := mkSpec {
  spec_max : Z;
  streams : gmap Z stream
}.

Definition spec_init : spec := mkSpec 1 ∅.

Definition stream_add (m : Message) (ss : gmap Z stream) : gmap Z stream :=
  match ss !! msg_session m with
  | Some (mkStream true l) => <[msg_session m := mkStream true (l ++ [m])]> ss
  | _ => ss
  end.

Definition spec_call (c : call) (ss : gmap Z stream) : gmap Z stream :=
  match c with
  | CallInvoke m =>
    match getEventName m with
    | Ok (_, true) => <[msg_session m := mkStream true []]> ss
    | _ => ss
    end
  | CallChunk m | CallError m => stream_add m ss
  | CallChoke m =>
    match ss !! msg_session m with
    | Some (mkStream true l) => <[msg_session m := mkStream false l]> ss
    | _ => ss
    end
  | CallHeartbeat _ | CallTerminate _ => ss
  end.

Definition spec_msg (sp : spec) (m : Message) : spec :=
  mkSpec (call_of (spec_max sp) m).2
    (foldl (flip spec_call) (streams sp) (opt_list (call_of (spec_max sp) m).1)).

(** The messages a run of the loop dispatches. *)
Definition dispatched (es : list event) : list Message :=
  omap (fun e => match e with MsgReceived m _ => Some m | _ => None end) es.

(** The stream of an invocation: what its handler received and will receive. *)
Definition view (g : handler_go) : stream :=
  mkStream (negb (g_closed g)) (g_given g ++ HandlerLoop.state_pending (g_queue g)).

Definition view_map (gs : list handler_go) : gmap Z stream :=
  list_to_map ((fun g => (g_session g, view g)) <$> gs).

(** ** Lemmas: the refinement relation *)

(** A queue that returned delivered everything; before [Close] it is open. *)
Definition queue_ok (q : HandlerLoop.state Message) (closed : bool) : Prop :=
  HandlerLoop.inv q /\ (HandlerLoop.returned q = true -> HandlerLoop.state_pending q = []) /\
  (closed = false -> HandlerLoop.closed q = false).

Record worker_rel (w : WorkerNG) (sp : spec) : Prop := {
  rel_max : maxSession (dispatcher w) = spec_max sp;
  rel_above : (1 <= spec_max sp)%Z;
  rel_nodup : NoDup (g_session <$> gos w);
  rel_bound : Forall (fun g => g_session g <= spec_max sp)%Z (gos w);
  rel_streams : streams sp = view_map (gos w);
  rel_sessions : forall s i, sessions w !! s = Some i <->
    exists g, gos w !! i = Some g /\ g_session g = s /\ g_closed g = false;
  rel_queue : Forall (fun g => queue_ok (g_queue g) (g_closed g)) (gos w);
  rel_blocked : blocked w = false
}.

Lemma view_map_lookup gs i g :
  NoDup (g_session <$> gs) -> gs !! i = Some g -> view_map gs !! g_session g = Some (view g).
Proof.
  intros Hnd Hi. apply elem_of_list_to_map_1.
  - rewrite <- list_fmap_compose. exact Hnd.
  - apply (list_elem_of_fmap_2 (fun g => (g_session g, view g))), list_elem_of_lookup_2 with i, Hi.
Qed.

Lemma view_map_insert gs i g g' :
  NoDup (g_session <$> gs) -> gs !! i = Some g -> g_session g' = g_session g ->
  view_map (<[i := g']> gs) = <[g_session g := view g']> (view_map gs).
Proof.
  revert i. induction gs as [|h gs IH]; intros i Hnd Hi Hs; [done|].
  apply NoDup_cons in Hnd as [Hnin Hnd]. unfold view_map in *.
  destruct i as [|i]; cbn [insert list_insert fmap list_fmap list_to_map foldr lookup list_lookup] in *.
  - simplify_eq. cbn. rewrite Hs. by rewrite insert_insert_eq.
  - cbn. rewrite IH by done. apply insert_insert_ne. intros Heq.
    apply Hnin. rewrite Heq. apply list_elem_of_fmap_2, list_elem_of_lookup_2 with i, Hi.
Qed.

Lemma view_map_snoc gs g :
  g_session g ∉ g_session <$> gs -> view_map (gs ++ [g]) = <[g_session g := view g]> (view_map gs).
Proof.
  induction gs as [|h gs IH]; intros Hnin; [done|].
  rewrite fmap_cons, not_elem_of_cons in Hnin. destruct Hnin as [Hne Hnin].
  unfold view_map in *. cbn. rewrite IH by done. by apply insert_insert_ne.
Qed.

Lemma view_map_None gs s : s ∉ g_session <$> gs -> view_map gs !! s = None.
Proof.
  intros Hnin. apply not_elem_of_list_to_map_1. by rewrite <- list_fmap_compose.
Qed.

(** An open queue accepts a message. *)
Lemma queue_accepts (q : HandlerLoop.state Message) m :
  HandlerLoop.closed q = false ->
  exists q', HandlerLoop.step q (HandlerLoop.Incoming m) = Some q' /\
    queue_ok q' false /\
    HandlerLoop.state_pending q' = HandlerLoop.state_pending q ++ [m].
Proof.
  destruct q as [[p c]|p]; [|done]. cbn. intros Hc. eexists. split; [done|].
  apply negb_false_iff in Hc. subst c.
  assert (Ht : HandlerLoop.top (HandlerLoop.mkVars (p ++ [m]) true) =
    HandlerLoop.Selecting (HandlerLoop.mkVars (p ++ [m]) true)) by by destruct p.
  rewrite Ht. by split_and!.
Qed.

(** Replacing an invocation by one of the same session. *)
Lemma worker_rel_update w sp i g g' :
  worker_rel w sp -> gos w !! i = Some g -> g_session g' = g_session g ->
  g_closed g' = g_closed g ->
  queue_ok (g_queue g') (g_closed g') ->
  worker_rel (set_sessions w (sessions w) (<[i := g']> (gos w)) (blocked w))
    (mkSpec (spec_max sp) (<[g_session g := view g']> (streams sp))).
Proof.
  intros [Hmax Hab Hnd Hb Hst Hss Hq Hbl] Hi Hs Hcl Hok.
  assert (Hfm : g_session <$> <[i := g']> (gos w) = g_session <$> gos w).
  { rewrite list_fmap_insert, Hs. apply list_insert_id. by rewrite list_lookup_fmap, Hi. }
  split; cbn; try done.
  - by rewrite Hfm.
  - apply Forall_insert; [done|]. rewrite Hs. rewrite Forall_lookup in Hb. by apply (Hb i).
  - rewrite Hst. symmetry. by apply view_map_insert.
  - intros s j. rewrite Hss. destruct (decide (i = j)) as [<-|Hne].
    + rewrite list_lookup_insert_eq by (by eapply lookup_lt_Some). rewrite Hi.
      split; intros (? & [= <-] & ? & ?); eexists; split_and!; try done; congruence.
    + by rewrite list_lookup_insert_ne.
  - by apply Forall_insert.
Qed.

(** The pieces of the state the relation does not look at. *)
Lemma worker_rel_frame w w' sp :
  worker_rel w sp -> dispatcher w' = dispatcher w -> sessions w' = sessions w ->
  gos w' = gos w -> blocked w' = blocked w -> worker_rel w' sp.
Proof.
  intros [] Hd Hs Hg Hb. split; rewrite ?Hd, ?Hs, ?Hg, ?Hb; done.
Qed.

Lemma rel_session_open w sp s i :
  worker_rel w sp -> sessions w !! s = Some i ->
  exists g, gos w !! i = Some g /\ g_session g = s /\ g_closed g = false /\
    streams sp !! s = Some (view g).
Proof.
  intros Hr Hs. apply (rel_sessions _ _ Hr) in Hs as (g & Hi & Hs & Hc).
  exists g. split_and!; [done..|]. rewrite (rel_streams _ _ Hr), <- Hs.
  by apply view_map_lookup with i, Hi; apply Hr.
Qed.

Lemma rel_session_none w sp s l :
  worker_rel w sp -> sessions w !! s = None -> streams sp !! s <> Some (mkStream true l).
Proof.
  intros Hr Hs Hst. rewrite (rel_streams _ _ Hr) in Hst.
  apply elem_of_list_to_map_2 in Hst.
  apply list_elem_of_fmap in Hst as (g & [= Hsg Hcl _] & Hg).
  apply list_elem_of_lookup in Hg as [i Hi].
  assert (Hsome : sessions w !! s = Some i).
  { apply (rel_sessions _ _ Hr). exists g. split_and!; [done..|].
    symmetry in Hcl. by apply negb_true_iff. }
  congruence.
Qed.

(** The handler of a chunk or an error appends to the open stream. *)
Lemma rel_push w sp m :
  worker_rel w sp ->
  exists w', worker_onChunk m w = Ok w' /\
    worker_rel w' (mkSpec (spec_max sp) (stream_add m (streams sp))).
Proof.
  intros Hr. unfold worker_onChunk, stream_add.
  destruct (sessions w !! msg_session m) as [i|] eqn:Hs.
  - destruct (rel_session_open _ _ _ _ Hr Hs) as (g & Hi & Hsg & Hc & Hst).
    rewrite Hst. unfold view. rewrite Hc. cbn [negb]. unfold push. rewrite Hi.
    pose proof (rel_queue _ _ Hr) as Hq. rewrite Forall_lookup in Hq.
    destruct (Hq i g Hi) as (_ & _ & Hqc).
    destruct (queue_accepts (g_queue g) m (Hqc Hc)) as (q & Hstep & Hok & Hp).
    rewrite Hstep. eexists. split; [done|].
    pose proof (worker_rel_update w sp i g
      (mkGo (g_session g) (g_event g) (g_trace g) q (g_closed g) (g_given g)) Hr Hi
      eq_refl eq_refl) as Hu. specialize (Hu ltac:(by rewrite Hc)).
    unfold view in Hu. cbn in Hu. rewrite Hc, Hp, (assoc_L (++)), Hsg in Hu. rewrite Hc, Hsg. exact Hu.
  - exists w. split; [done|]. destruct sp as [mx ss]. cbn in *.
    destruct (ss !! msg_session m) as [[[] l]|] eqn:Hst; [|done..].
    by destruct (rel_session_none _ _ _ l Hr Hs).
Qed.

Lemma rel_choke w sp m :
  worker_rel w sp ->
  exists w', worker_onChoke m w = Ok w' /\
    worker_rel w' (mkSpec (spec_max sp) (spec_call (CallChoke m) (streams sp))).
Proof.
  intros Hr. unfold worker_onChoke. cbn [spec_call].
  destruct (sessions w !! msg_session m) as [i|] eqn:Hs.
  - destruct (rel_session_open _ _ _ _ Hr Hs) as (g & Hi & Hsg & Hc & Hst).
    rewrite Hst. unfold view at 1. rewrite Hc. cbn [negb]. unfold request_Close. rewrite Hi, Hc.
    eexists. split; [done|].
    set (g' := mkGo (g_session g) (g_event g) (g_trace g) (g_queue g) true (g_given g)).
    destruct Hr as [Hmax Hab Hnd Hb Hstr Hss Hq Hbl].
    assert (Hfm : g_session <$> <[i := g']> (gos w) = g_session <$> gos w).
    { rewrite list_fmap_insert. apply list_insert_id. by rewrite list_lookup_fmap, Hi. }
    split; cbn; try done.
    + by rewrite Hfm.
    + apply Forall_insert; [done|]. rewrite Forall_lookup in Hb. by apply (Hb i g).
    + rewrite Hstr, <- Hsg. symmetry. by apply (view_map_insert _ _ g).
    + intros s j. destruct (decide (s = msg_session m)) as [->|Hne].
      * rewrite lookup_delete_eq. split; [done|]. intros (h & Hj & Hsh & Hch). exfalso.
        destruct (decide (i = j)) as [<-|Hne].
        { rewrite list_lookup_insert_eq in Hj by (by eapply lookup_lt_Some). by simplify_eq. }
        rewrite list_lookup_insert_ne in Hj by done.
        assert (Hs2 : sessions w !! msg_session m = Some j) by (apply Hss; eauto).
        congruence.
      * rewrite lookup_delete_ne, Hss by done. destruct (decide (i = j)) as [<-|Hne'].
        -- rewrite list_lookup_insert_eq by (by eapply lookup_lt_Some). rewrite Hi.
           split; intros (? & [= <-] & ? & ?); [congruence|done].
        -- by rewrite list_lookup_insert_ne.
    + apply Forall_insert; [done|]. rewrite Forall_lookup in Hq.
      destruct (Hq i g Hi) as (Hinv & Hret & _). by split_and!.
  - exists w. split; [done|]. destruct sp as [mx ss]. cbn in *.
    destruct (ss !! msg_session m) as [[[] l]|] eqn:Hst; [|done..].
    by destruct (rel_session_none _ _ _ l Hr Hs).
Qed.

Lemma rel_invoke w sp m :
  worker_rel w sp -> (spec_max sp < msg_session m)%Z -> Payload m <> [] ->
  exists w' err, worker_onInvoke m w = Ok (w', err) /\
    worker_rel (set_dispatcher w' (mkV1 (msg_session m)))
      (mkSpec (msg_session m) (spec_call (CallInvoke m) (streams sp))).
Proof.
  intros [Hmax Hab Hnd Hb Hstr Hss Hq Hbl] Hlt Hp. unfold worker_onInvoke. cbn [spec_call].
  destruct (getEventName m) as [[ev ok]|] eqn:Hev; cycle 1.
  { unfold getEventName in Hev. destruct (Payload m) as [|[] ?]; done. }
  cbn [outcome_bind]. rewrite Forall_lookup in Hb.
  assert (Hb' : Forall (fun g => g_session g <= msg_session m)%Z (gos w)).
  { apply Forall_lookup. intros j g Hj. specialize (Hb j g Hj). cbn in Hb. lia. }
  destruct ok; cbn [negb]; do 2 eexists; (split; [done|]); cycle 1.
  { split; cbn; try done; lia. }
  assert (Hnin : msg_session m ∉ g_session <$> gos w).
  { intros Hin. apply list_elem_of_fmap in Hin as (g & Hsg & Hg).
    apply list_elem_of_lookup in Hg as [j Hj]. specialize (Hb j g Hj). cbn in Hb. lia. }
  split; cbn; try done.
  - lia.
  - rewrite fmap_app, NoDup_app. split_and!; [done| |repeat constructor; set_solver].
    intros x Hx. cbn. rewrite list_elem_of_singleton. by intros ->.
  - apply Forall_app. split; [done|]. by repeat constructor.
  - rewrite Hstr. symmetry. by apply view_map_snoc.
  - intros s j. destruct (decide (s = msg_session m)) as [->|Hne].
    + rewrite lookup_insert_eq. split.
      * intros [= <-]. eexists. split; [by rewrite lookup_app_r, Nat.sub_diag by lia|done].
      * intros (g & Hj & Hsg & _). apply lookup_app_Some in Hj as [Hj|[Hle Hj]].
        -- specialize (Hb j g Hj). cbn in Hb. lia.
        -- destruct (j - length (gos w)) eqn:Hd; [|done]. f_equal. lia.
    + rewrite lookup_insert_ne, Hss by done. split.
      * intros (g & Hj & ?). exists g. split; [|done]. by apply lookup_app_l_Some.
      * intros (g & Hj & Hsg & Hc). apply lookup_app_Some in Hj as [Hj|[Hle Hj]]; [by eauto|].
        destruct (j - length (gos w)); [|done]. cbn in Hj. by simplify_eq.
  - apply Forall_app. split; [done|]. by repeat constructor.
Qed.

Lemma rel_Stop w sp : worker_rel w sp -> worker_rel (Stop w) sp.
Proof.
  intros Hr. unfold Stop, isStopped, conn_Close. destruct (stopped w); [done|].
  by eapply worker_rel_frame.
Qed.

Lemma rel_select_write sel m w sp : worker_rel w sp -> worker_rel (select_write sel m w) sp.
Proof. intros Hr. destruct sel; [|done..]. by eapply worker_rel_frame. Qed.

Lemma rel_onTerminate sel m w sp : worker_rel w sp -> worker_rel (worker_onTerminate sel m w) sp.
Proof.
  intros Hr. unfold worker_onTerminate. cbv zeta. apply rel_Stop, rel_select_write.
  destruct (terminationHandler w); [|done]. by eapply worker_rel_frame.
Qed.

Lemma rel_onHeartbeatTimeout sel w sp :
  worker_rel w sp -> worker_rel (onHeartbeatTimeout sel w) sp.
Proof.
  intros Hr. unfold onHeartbeatTimeout. cbv zeta. apply rel_select_write.
  by eapply worker_rel_frame.
Qed.

(** The invoke of a new session that carries no event name at all. *)
Definition empty_invoke (max : Z) (m : Message) : Prop :=
  (max < msg_session m)%Z /\ msg_session m <> v1UtilitySession /\
  msg_type m = v1Invoke /\ Payload m = [].

(** One dispatched message: the specification's step, or the panic. *)
Lemma rel_dispatch sel m w sp :
  worker_rel w sp ->
  (exists w', dispatch sel m w = Ok w' /\ worker_rel w' (spec_msg sp m)) \/
  (dispatch sel m w = Panic /\ empty_invoke (spec_max sp) m).
Proof.
  intros Hr. pose proof (rel_max _ _ Hr) as Hm.
  destruct (dispatcher w) as [mx] eqn:Hd. cbn in Hm. subst mx.
  unfold dispatch, onMessage, dispatchUtilityMessage, spec_msg, call_of, no_error.
  rewrite Hd. cbn [maxSession].
  unfold v1Heartbeat, v1Terminate, v1Invoke, v1Write, v1Close, v1Error.
  destruct sp as [mx ss]. cbn [spec_max streams] in *.
  assert (Hfin : forall w' ss', worker_rel w' (mkSpec mx ss') ->
    worker_rel (set_dispatcher w' (mkV1 mx)) (mkSpec mx ss')).
  { intros w' ss' [Hmax' ?????? ?]. by split. }
  repeat case_decide; try (exfalso; lia).
  all: cbn [outcome_bind opt_list foldl flip fst snd onHeartbeat onTerminate onChunk onChoke
         onError onInvoke worker_handler spec_call].
  - left. eexists. split; [done|]. apply Hfin. by eapply worker_rel_frame.
  - left. eexists. split; [done|]. apply Hfin. by apply rel_onTerminate.
  - left. eexists. split; [done|]. by apply Hfin.
  - left. eexists. split; [done|]. by apply Hfin.
  - destruct (Payload m) as [|p l] eqn:Hp.
    + right. split; [|unfold empty_invoke, v1Invoke; split_and!; auto; by apply dec_stable]. unfold worker_onInvoke, getEventName. by rewrite Hp.
    + left. destruct (rel_invoke w (mkSpec mx ss) m Hr) as (w' & err & Hi & Hr'); [done|by rewrite Hp|].
      rewrite Hi. eexists. split; [done|]. exact Hr'.
  - left. destruct (rel_push w (mkSpec mx ss) m Hr) as (w' & Hp & Hr'). rewrite Hp.
    eexists. split; [done|]. by apply Hfin.
  - left. destruct (rel_choke w (mkSpec mx ss) m Hr) as (w' & Hp & Hr'). rewrite Hp.
    eexists. split; [done|]. by apply Hfin.
  - left. destruct (rel_push w (mkSpec mx ss) m Hr) as (w' & Hp & Hr').
    unfold worker_onChunk in Hp. unfold worker_onError. rewrite Hp.
    eexists. split; [done|]. by apply Hfin.
  - left. eexists. split; [done|]. by apply Hfin.
Qed.

(** The loop of a request, as its handler reads it, keeps the stream. *)
Lemma queue_ok_step q e q' closed :
  queue_ok q closed -> HandlerLoop.step q e = Some q' ->
  (e = HandlerLoop.Closed -> closed = true) ->
  queue_ok q' closed.
Proof.
  intros (Hinv & Hret & Hopen) Hs He. destruct q as [[p c]|p]; [|done]. split_and!.
  - exact (buf_step_inv (BufferLoop := HandlerLoop.buffer) _ _ _ Hinv Hs).
  - intros Hr. refine (buf_graceful (BufferLoop := HandlerLoop.buffer) _ _ _ Hs _ Hr). by destruct e.
  - intros Hc. specialize (Hopen Hc). cbn in Hopen. apply negb_false_iff in Hopen.
    cbn in Hinv. destruct e; cbn in Hs; step_inv Hs.
    + by destruct p.
    + match goal with |- context [HandlerLoop.mkVars ?l _] => by destruct l end.
    + naive_solver.
Qed.

Lemma rel_queue_step w sp i e w' :
  worker_rel w sp -> queue_step i e w = Some w' ->
  (e = HandlerLoop.Out \/ (e = HandlerLoop.Closed /\ queue_closed i w = true)) ->
  worker_rel w' sp.
Proof.
  intros Hr Hq He. unfold queue_step, queue_closed in *.
  destruct (gos w !! i) as [g|] eqn:Hi; [|done].
  destruct (HandlerLoop.step (g_queue g) e) as [q|] eqn:Hs; [|done]. injection Hq as <-.
  pose proof (rel_queue _ _ Hr) as Hf. rewrite Forall_lookup in Hf.
  set (g' := mkGo _ _ _ _ _ _).
  assert (Hv : view g' = view g).
  { unfold view, g'. cbn. f_equal. rewrite <- (assoc_L (++)). f_equal.
    destruct (g_queue g) as [[p c]|p]; [|done].
    destruct He as [->|[-> _]]; cbn in Hs |- *; step_inv Hs; by rewrite HandlerLoop.handler_top_pending. }
  pose proof (worker_rel_update w sp i g g' Hr Hi eq_refl eq_refl) as Hu.
  rewrite Hv, insert_id in Hu.
  - destruct sp. apply Hu, (queue_ok_step _ _ _ _ (Hf i g Hi) Hs). naive_solver.
  - rewrite (rel_streams _ _ Hr). by apply view_map_lookup with i, Hi; apply Hr.
Qed.

Lemma rel_new cc name pv dbg sel w :
  newWorkerNG cc name pv dbg sel = inl w -> worker_rel w spec_init.
Proof.
  unfold newWorkerNG, sendHandshake. cbv zeta. case_decide; [|done].
  destruct sel; [| |done]; intros [= <-]; (split; try done; [by constructor|]);
    intros s i; cbn; rewrite lookup_empty; naive_solver.
Qed.

Lemma rel_step l w e s sp :
  worker_rel w sp -> env_step l w e = Some s ->
  match s with
  | Ok (_, w') => worker_rel w' (foldl spec_msg sp (dispatched [e]))
  | Panic => exists m sel, e = MsgReceived m sel /\ empty_invoke (spec_max sp) m
  end.
Proof.
  intros Hr Hs. destruct e as [th sel|m sel| |sel| | | |i|i| | | | |]; cbn in Hs.
  - destruct l; [|done..]. destruct (select_ready sel w); [|done]. injection Hs as <-.
    apply rel_onHeartbeatTimeout. by eapply worker_rel_frame.
  - unfold loop_step in Hs. destruct (_ || _); [done|]. destruct (_ && _); [|done].
    injection Hs as <-. cbn.
    destruct (rel_dispatch sel m w sp Hr) as [(w' & Hd & Hr')|[Hd He]]; rewrite Hd; cbn; eauto.
  - unfold loop_step in Hs. destruct (_ || _); [done|]. destruct (read_closed w); [|done].
    by injection Hs as <-.
  - unfold loop_step in Hs. destruct (_ || _); [done|]. destruct (_ && _); [|done].
    injection Hs as <-. apply rel_onHeartbeatTimeout. by eapply worker_rel_frame.
  - unfold loop_step in Hs. destruct (_ || _); [done|]. destruct (fired _); [|done].
    injection Hs as <-. apply rel_Stop. by eapply worker_rel_frame.
  - unfold loop_step in Hs. destruct (_ || _); [done|]. destruct (stopped w); [|done].
    by injection Hs as <-.
  - unfold loop_step in Hs. destruct (_ || _); [done|]. destruct (stackSignalEnabled w); [|done].
    by injection Hs as <-.
  - destruct (queue_step i _ w) eqn:Hq; [|done]. injection Hs as <-.
    eapply rel_queue_step; [done|exact Hq|by left].
  - destruct (queue_closed i w) eqn:Hc; [|done].
    destruct (queue_step i _ w) eqn:Hq; [|done]. injection Hs as <-.
    eapply rel_queue_step; [done|exact Hq|by right].
  - destruct (armed _); [|done]. injection Hs as <-. by eapply worker_rel_frame.
  - destruct (armed _); [|done]. injection Hs as <-. by eapply worker_rel_frame.
  - injection Hs as <-. by eapply worker_rel_frame.
  - injection Hs as <-. by eapply worker_rel_frame.
  - injection Hs as <-. by apply rel_Stop.
Qed.

Lemma dispatched_app es1 es2 : dispatched (es1 ++ es2) = dispatched es1 ++ dispatched es2.
Proof. apply omap_app. Qed.

Lemma rel_run es w0 sp0 s :
  worker_rel w0 sp0 -> run step (Ok (NotRun, w0)) es = Some s ->
  match s with
  | Ok (_, w) => worker_rel w (foldl spec_msg sp0 (dispatched es))
  | Panic => exists es' m sel, es = es' ++ [MsgReceived m sel] /\
      empty_invoke (spec_max (foldl spec_msg sp0 (dispatched es'))) m
  end.
Proof.
  intros H0. revert s. induction es as [|e es IH] using rev_ind; intros s Hrun.
  { by injection Hrun as <-. }
  apply run_snoc in Hrun as ([[l w]|] & Hrun & Hs); [|done].
  specialize (IH _ Hrun). cbn in IH, Hs. pose proof (rel_step _ _ _ _ _ IH Hs) as Hst.
  destruct s as [[l' w']|].
  - by rewrite dispatched_app, foldl_app.
  - destruct Hst as (m & sel & -> & He). by exists es, m, sel.
Qed.

(** ** Lemmas: life cycle, timers and the wire *)

Definition is_terminate (m : Message) : bool :=
  bool_decide (msg_session m = v1UtilitySession /\ msg_type m = v1Terminate).
Definition is_heartbeat (m : Message) : bool :=
  bool_decide (msg_session m = v1UtilitySession /\ msg_type m = v1Heartbeat).

(** What the handlers of messages leave alone. *)
Definition life (w : WorkerNG) :=
  (written w, conn_closed w, read_closed w, (close_calls w, token_stops w, stopped w)).
Definition timers (w : WorkerNG) := (heartbeatTimer w, disownTimer w).

Lemma push_life i m w w' : push i m w = Ok w' -> life w' = life w /\ timers w' = timers w.
Proof.
  unfold push. destruct (gos w !! i) as [g|]; [|done].
  destruct (HandlerLoop.step _ _); by intros [= <-].
Qed.

Lemma onChunk_life m w w' :
  worker_onChunk m w = Ok w' -> life w' = life w /\ timers w' = timers w.
Proof.
  unfold worker_onChunk. destruct (sessions w !! _); [apply push_life|by intros [= <-]].
Qed.

Lemma onChoke_life m w w' :
  worker_onChoke m w = Ok w' -> life w' = life w /\ timers w' = timers w.
Proof.
  unfold worker_onChoke, request_Close. destruct (sessions w !! _) as [i|]; [|by intros [= <-]].
  destruct (gos w !! i) as [g|]; [|done]. destruct (g_closed g); [done|]. by intros [= <-].
Qed.

Lemma onInvoke_life m w w' err :
  worker_onInvoke m w = Ok (w', err) -> life w' = life w /\ timers w' = timers w.
Proof.
  unfold worker_onInvoke. destruct (getEventName m) as [[ev []]|]; cbn; [| |done];
    by intros [= <- <-].
Qed.

Lemma dispatch_life sel m w w' :
  dispatch sel m w = Ok w' ->
  life w' = life (if is_terminate m then Stop (select_write sel m w) else w) /\
  timers w' = (heartbeatTimer w,
               if is_heartbeat m then timer_Stop (disownTimer w) else disownTimer w).
Proof.
  unfold dispatch, onMessage, dispatchUtilityMessage, no_error, is_terminate, is_heartbeat.
  intros H. apply outcome_bind_ok in H as ([[v w1] err] & H & [= <-]).
  assert (Hgoal : forall w2, life (set_dispatcher w2 v) = life w2 /\
    timers (set_dispatcher w2 v) = timers w2) by done.
  destruct (Hgoal w1) as [-> ->]. clear Hgoal.
  destruct (decide (msg_session m = v1UtilitySession)) as [Hs|Hs].
  - destruct (decide (msg_type m = v1Heartbeat)) as [Ht|Ht].
    { cbn in H. simplify_eq. rewrite bool_decide_eq_false_2, bool_decide_eq_true_2; [done| |].
      - done.
      - rewrite Ht. by intros [_ ?]. }
    destruct (decide (msg_type m = v1Terminate)) as [Ht'|Ht']; cbn in H; simplify_eq.
    + rewrite bool_decide_eq_true_2, bool_decide_eq_false_2 by naive_solver.
      unfold worker_onTerminate, Stop, isStopped. cbv zeta.
      destruct (terminationHandler w), sel; cbn; by destruct (stopped w).
    + by rewrite !bool_decide_eq_false_2 by naive_solver.
  - rewrite !bool_decide_eq_false_2 by naive_solver.
    assert (Hdone : life w1 = life w /\ timers w1 = timers w); [|done].
    repeat case_decide; cbn in H; try by simplify_eq.
    + apply outcome_bind_ok in H as ([w2 e] & H & [= <- <- <-]). by eapply onInvoke_life.
    + apply outcome_bind_ok in H as ([w2 e] & H & [= <- <- <-]).
      apply outcome_bind_ok in H as (w3 & H & [= <- <-]). by eapply onChunk_life.
    + apply outcome_bind_ok in H as ([w2 e] & H & [= <- <- <-]).
      apply outcome_bind_ok in H as (w3 & H & [= <- <-]). by eapply onChoke_life.
    + apply outcome_bind_ok in H as ([w2 e] & H & [= <- <- <-]).
      apply outcome_bind_ok in H as (w3 & H & [= <- <-]).
      by eapply onChunk_life.
Qed.

(** Specification of the flags, as functions of the past events. *)
Definition stops (e : event) : bool :=
  match e with
  | UserStop | DisownTick => true
  | MsgReceived m _ => is_terminate m
  | _ => false
  end.

(** What the worker itself writes to the connection. *)
Definition writes (e : event) : list Message :=
  match e with
  | RunCall _ Sent | HeartbeatTick Sent => [newHeartbeatV1]
  | MsgReceived m Sent => if is_terminate m then [m] else []
  | _ => []
  end.

(** Whether a heartbeat awaits its reply. *)
Definition awaits (b : bool) (e : event) : bool :=
  match e with
  | RunCall _ _ | HeartbeatTick _ => true
  | MsgReceived m _ => if is_heartbeat m then false else b
  | DisownFires => false
  | _ => b
  end.
Definition awaiting (es : list event) : bool := foldl awaits false es.

Definition result_ok (l : loop_state) (w : WorkerNG) : Prop :=
  match l with
  | Finished None | Finished (Some ErrDisowned) => stopped w = true
  | Finished (Some ErrConnectionLost) => read_closed w = true
  | Finished (Some _) => False
  | _ => True
  end.

Definition stop_inv (l : loop_state) (w : WorkerNG) : Prop :=
  token_stops w = (if stopped w then 1 else 0) /\
  close_calls w = (if stopped w then 1 else 0) /\
  (stopped w = true -> conn_closed w = true) /\ result_ok l w.

Lemma Stop_inv l w : stop_inv l w -> stop_inv l (Stop w) /\ stopped (Stop w) = true.
Proof.
  unfold stop_inv, Stop, isStopped, conn_Close. destruct (stopped w) eqn:Hs; [by rewrite Hs|].
  intros (Ht & Hc & _ & Hr). cbn. rewrite Ht, Hc. split_and!; try done.
  destruct l as [| |[[]|]]; cbn in *; try done; congruence.
Qed.


Lemma Stop_written w : written (Stop w) = written w.
Proof. unfold Stop. by destruct (isStopped w). Qed.

Lemma Stop_timers w : timers (Stop w) = timers w.
Proof. unfold Stop. by destruct (isStopped w). Qed.

(** The effect of an event on the life cycle and the timers. *)
Definition life_step (e : event) (w : WorkerNG) : WorkerNG :=
  match e with
  | RunCall _ sel => onHeartbeatTimeout sel w
  | MsgReceived m sel =>
    let w := if is_terminate m then Stop (select_write sel m w) else w in
    if is_heartbeat m then worker_onHeartbeat m w else w
  | HeartbeatTick sel =>
    onHeartbeatTimeout sel (set_timers w (timer_receive (heartbeatTimer w)) (disownTimer w))
  | DisownTick => Stop (set_timers w (heartbeatTimer w) (timer_receive (disownTimer w)))
  | HeartbeatFires => set_timers w (timer_fire (heartbeatTimer w)) (disownTimer w)
  | DisownFires => set_timers w (heartbeatTimer w) (timer_fire (disownTimer w))
  | ConnLost => set_conn w (written w) true (read_closed w) (close_calls w)
  | ReadCloses => set_conn w (written w) (conn_closed w) true (close_calls w)
  | UserStop => Stop w
  | _ => w
  end.

Ltac loop_event Hs :=
  unfold loop_step in Hs; destruct (_ || _); [done|]; cbn in Hs.

Lemma dispatch_life_step sel m w w' :
  dispatch sel m w = Ok w' ->
  life w' = life (life_step (MsgReceived m sel) w) /\
  timers w' = timers (life_step (MsgReceived m sel) w).
Proof.
  intros Hd. destruct (dispatch_life _ _ _ _ Hd) as [-> ->]. cbn.
  pose proof (Stop_timers (select_write sel m w)) as [= Hh Hdis].
  destruct (is_heartbeat m), (is_terminate m); split; try done; unfold timers; cbn;
    rewrite ?Hh, ?Hdis; by destruct sel.
Qed.

Lemma step_life l w e l' w' :
  env_step l w e = Some (Ok (l', w')) ->
  life w' = life (life_step e w) /\ timers w' = timers (life_step e w).
Proof.
  intros Hs. destruct e as [th sel|m sel| |sel| | | |i|i| | | | |]; cbn in Hs;
    try (by step_inv Hs); try (by loop_event Hs; step_inv Hs).
  - destruct l; [|done..]. destruct (select_ready sel w); [|done]. injection Hs as <- <-.
    by destruct sel.
  - loop_event Hs. destruct (_ && _); [|done]. injection Hs as Hd.
    apply outcome_bind_ok in Hd as (w1 & Hd & [= <- <-]). by apply dispatch_life_step.
  - unfold queue_step in Hs. step_inv Hs; done.
  - unfold queue_step in Hs. step_inv Hs; done.
Qed.

(** The loop returns only for the reasons [Run] documents. *)
Lemma step_result l w e l' w' :
  env_step l w e = Some (Ok (l', w')) ->
  l' = l \/ l' = Running \/
  (e = ReadEnded /\ read_closed w = true /\
   l' = Finished (if stopped w then None else Some ErrConnectionLost)) \/
  (e = DisownTick /\ fired (disownTimer w) = true /\ l' = Finished (Some ErrDisowned)) \/
  (e = StoppedSeen /\ stopped w = true /\ l' = Finished None).
Proof.
  intros Hs. destruct e as [th sel|m sel| |sel| | | |i|i| | | | |]; cbn in Hs;
    try (by unfold queue_step in Hs; step_inv Hs; auto);
    try (by loop_event Hs; step_inv Hs; eauto 8).
  loop_event Hs. destruct (_ && _); [|done]. injection Hs as Hd.
  apply outcome_bind_ok in Hd as (w1 & _ & [= <- <-]). auto.
Qed.

Definition flags_ok (w : WorkerNG) : Prop :=
  token_stops w = (if stopped w then 1 else 0) /\
  close_calls w = (if stopped w then 1 else 0) /\
  (stopped w = true -> conn_closed w = true).

Lemma Stop_flags w : flags_ok w -> flags_ok (Stop w) /\ stopped (Stop w) = true.
Proof.
  unfold flags_ok, Stop, isStopped, conn_Close. destruct (stopped w) eqn:Hs; [by rewrite Hs|].
  intros (Ht & Hc & _). cbn. by rewrite Ht, Hc.
Qed.

Lemma Stop_read_closed w : read_closed (Stop w) = read_closed w.
Proof. unfold Stop. by destruct (isStopped w). Qed.

Lemma life_step_flags e w :
  flags_ok w -> flags_ok (life_step e w) /\ stopped (life_step e w) = stopped w || stops e.
Proof.
  intros Hf. rewrite orb_comm.
  destruct e as [th sel|m sel| |sel| | | |i|i| | | | |]; cbn; try done.
  - by destruct sel.
  - destruct (is_terminate m), (is_heartbeat m); cbn; try done;
      by apply (Stop_flags (select_write sel m w)); destruct sel.
  - by destruct sel.
  - by apply (Stop_flags (set_timers w _ _)).
  - destruct Hf as (? & ? & ?). by split_and!.
  - by apply Stop_flags.
Qed.

Lemma life_step_written e w : written (life_step e w) = written w ++ writes e.
Proof.
  destruct e as [th []|m sel| |[]| | | |i|i| | | | |]; cbn; rewrite ?Stop_written; cbn;
    rewrite ?app_nil_r; try done.
  destruct (is_terminate m), (is_heartbeat m), sel; cbn; rewrite ?Stop_written; cbn;
    by rewrite ?app_nil_r.
Qed.

Lemma life_step_timers e w :
  armed (disownTimer (life_step e w)) = awaits (armed (disownTimer w)) e /\
  (fired (disownTimer (life_step e w)) = true -> fired (disownTimer w) = true \/ e = DisownFires).
Proof.
  assert (HS : forall w', disownTimer (Stop w') = disownTimer w').
  { intros w'. by pose proof (Stop_timers w') as [= _ ?]. }
  destruct e as [th []|m sel| |[]| | | |i|i| | | | |]; cbn; rewrite ?HS; cbn; try (by split; auto).
  destruct (is_terminate m), (is_heartbeat m), sel; cbn; rewrite ?HS; cbn; by split; auto.
Qed.

Lemma life_step_read e w :
  read_closed (life_step e w) = true -> read_closed w = true \/ e = ReadCloses.
Proof.
  destruct e as [th []|m sel| |[]| | | |i|i| | | | |]; cbn; rewrite ?Stop_read_closed; cbn; auto.
  destruct (is_terminate m), (is_heartbeat m), sel; cbn; rewrite ?Stop_read_closed; cbn; auto.
Qed.

(** The observations of a run, as functions of its events. *)
Record observed (w0 : WorkerNG) (es : list event) (l : loop_state) (w : WorkerNG) : Prop := {
  ob_flags : flags_ok w;
  ob_stopped : stopped w = existsb stops es;
  ob_written : written w = written w0 ++ concat (map writes es);
  ob_armed : armed (disownTimer w) = awaiting es;
  ob_fired : fired (disownTimer w) = true ->
    exists es1 es2, es = es1 ++ DisownFires :: es2 /\ awaiting es1 = true;
  ob_read : read_closed w = true -> ReadCloses ∈ es;
  ob_result : match l with
    | Finished None => existsb stops es = true
    | Finished (Some ErrDisowned) => existsb stops es = true /\
        exists es1 es2, es = es1 ++ DisownFires :: es2 /\ awaiting es1 = true
    | Finished (Some ErrConnectionLost) => ReadCloses ∈ es
    | Finished (Some _) => False
    | _ => True
    end
}.

Lemma observed_result w0 es l w e l' w' :
  observed w0 es l w -> env_step l w e = Some (Ok (l', w')) ->
  match l' with
  | Finished None => existsb stops (es ++ [e]) = true
  | Finished (Some ErrDisowned) => existsb stops (es ++ [e]) = true /\
      exists es1 es2, es ++ [e] = es1 ++ DisownFires :: es2 /\ awaiting es1 = true
  | Finished (Some ErrConnectionLost) => ReadCloses ∈ es ++ [e]
  | Finished (Some _) => False
  | _ => True
  end.
Proof.
  intros [_ Hst _ _ Hfired Hread Hres] Hs. rewrite existsb_app.
  assert (Hext : (exists es1 es2, es = es1 ++ DisownFires :: es2 /\ awaiting es1 = true) ->
    exists es1 es2, es ++ [e] = es1 ++ DisownFires :: es2 /\ awaiting es1 = true).
  { intros (es1 & es2 & -> & ?). exists es1, (es2 ++ [e]). by rewrite <- (assoc_L (++)). }
  destruct (step_result _ _ _ _ _ Hs) as [->|[->|[(-> & Hr & ->)|[(-> & Hf & ->)|(-> & Hs' & ->)]]]].
  - destruct l as [| |[[]|]]; try done.
    + destruct Hres as [-> Hres]. by split; [|apply Hext].
    + apply elem_of_app. by left.
    + by rewrite Hres.
  - done.
  - destruct (stopped w); [by rewrite <- Hst|]. apply elem_of_app. left. by apply Hread.
  - rewrite orb_true_r. split; [done|]. by apply Hext, Hfired.
  - by rewrite <- Hst, Hs'.
Qed.

Lemma observed_step w0 es l w e l' w' :
  observed w0 es l w -> env_step l w e = Some (Ok (l', w')) -> observed w0 (es ++ [e]) l' w'.
Proof.
  intros Ho Hs. pose proof (observed_result _ _ _ _ _ _ _ Ho Hs) as Hres.
  destruct (step_life _ _ _ _ _ Hs) as [Hl Ht]. injection Hl as Hw Hcc Hrc Hk Hts Hst.
  injection Ht as _ Hd. destruct Ho as [Hf Hst0 Hw0 Ha Hfi Hr _].
  destruct (life_step_flags e w Hf) as [Hf' Hst'].
  destruct (life_step_timers e w) as [Ha' Hfi']. split; try done.
  - unfold flags_ok in *. by rewrite Hk, Hts, Hst, Hcc.
  - rewrite Hst, Hst', Hst0, existsb_app. cbn. by rewrite orb_false_r.
  - by rewrite Hw, life_step_written, Hw0, map_app, concat_app, (assoc_L (++)); cbn; rewrite app_nil_r.
  - rewrite Hd, Ha', Ha. unfold awaiting. by rewrite foldl_app.
  - rewrite Hd. intros Hfd. destruct (Hfi' Hfd) as [Hfd'| -> ].
    + destruct (Hfi Hfd') as (es1 & es2 & -> & ?). exists es1, (es2 ++ [e]).
      by rewrite <- (assoc_L (++)).
    + exists es, []. split; [done|]. rewrite <- Ha.
      cbn in Hs. by destruct (armed (disownTimer w)).
  - rewrite Hrc. intros Hr'. destruct (life_step_read e w Hr') as [Hr0|Hr0]; [specialize (Hr Hr0)|rewrite Hr0]; set_solver.
Qed.

Lemma observed_new cc name pv dbg sel w :
  newWorkerNG cc name pv dbg sel = inl w -> observed w [] NotRun w.
Proof.
  unfold newWorkerNG, sendHandshake. cbv zeta. case_decide; [|done].
  destruct sel; [| |done]; intros [= <-]; split; done.
Qed.

Lemma observed_run cc name pv dbg sel w0 es l w :
  newWorkerNG cc name pv dbg sel = inl w0 ->
  run step (Ok (NotRun, w0)) es = Some (Ok (l, w)) -> observed w0 es l w.
Proof.
  intros Hnew. revert l w. induction es as [|e es IH] using rev_ind; intros l w Hrun.
  { injection Hrun as <- <-. by eapply observed_new. }
  apply run_snoc in Hrun as ([[l1 w1]|] & Hrun & Hs); [|done].
  by eapply observed_step; [apply IH|].
Qed.

(** ** Stop from two goroutines

    [Stop] tests [stopped] and closes it without a lock, and it is called by
    the loop (a disown or a terminate message) and by the user. *)
Module StopRace.
(** The program counter of one call of [Stop]. *)
Inductive pc : Type :=
| AtCheck          (* if w.isStopped() *)
| AtTokenStop      (* w.tokenManager.Stop() *)
| AtClose          (* close(w.stopped) *)
| AtConnClose      (* w.conn.Close() *)
| Done.

Record state : Type := mkState {
  stopped : bool;
  token_stops : nat;
  conn_closes : nat;
  first : pc;
  second : pc
}.

Definition init : state := mkState false 0 0 AtCheck AtCheck.

(** One instruction of a call: the shared state and the next instruction. *)
Definition exec (p : pc) (s : state) : outcome (state * pc) :=
  match p with
  | AtCheck => Ok (s, if stopped s then Done else AtTokenStop)
  | AtTokenStop =>
    Ok (mkState (stopped s) (S (token_stops s)) (conn_closes s) (first s) (second s), AtClose)
  | AtClose =>
    if stopped s then Panic
    else Ok (mkState true (token_stops s) (conn_closes s) (first s) (second s), AtConnClose)
  | AtConnClose =>
    Ok (mkState (stopped s) (token_stops s) (S (conn_closes s)) (first s) (second s), Done)
  | Done => Ok (s, Done)
  end.

(** [true] schedules the first call, [false] the second. *)
Definition step (o : outcome state) (who : bool) : option (outcome state) :=
  match o with
  | Panic => None
  | Ok s =>
    Some (outcome_bind (exec (if who then first s else second s)  s) (fun '(s, p) =>
      Ok (if who then mkState (stopped s) (token_stops s) (conn_closes s) p (second s)
          else mkState (stopped s) (token_stops s) (conn_closes s) (first s) p)))
  end.
End StopRace.

(** ** Properties *)

(** The worker of the examples below. *)
Definition sample_worker : WorkerNG :=
  mkWorker "w" [newHandshakeV1 "w"] false false 0 (mkTimer false false) (mkTimer false false) 0
    ∅ [] false false true newV1Protocol false 0 false.

(** C2 (refinement): in every run of a worker, whatever the messages, the
    timers, the [Stop] calls and the interleaving with its handlers, the
    requests are exactly the streams of the specification: each invoked session
    has one request, which received the chunks and errors of its session
    between its invoke and its choke, in order; what its handler has read is a
    prefix of it, and all of it once its queue has returned. The loop never
    blocks on a push. *)
Theorem worker_refines_streams (conn_isclosed : bool) (id : string) (protoVersion : Z)
    (debug : bool) (sel : write_select) (w0 w : WorkerNG) (es : list event) (l : loop_state)
    (Hnew : newWorkerNG conn_isclosed id protoVersion debug sel = inl w0)
    (Hrun : run step (Ok (NotRun, w0)) es = Some (Ok (l, w))) :
  let sp := foldl spec_msg spec_init (dispatched es) in
  blocked w = false /\
  NoDup (g_session <$> gos w) /\
  streams sp = view_map (gos w) /\
  forall i g, gos w !! i = Some g ->
    exists st, streams sp !! g_session g = Some st /\ g_given g `prefix_of` msgs st /\
      (HandlerLoop.returned (g_queue g) = true -> st = mkStream false (g_given g)).
Proof.
  intros sp. pose proof (rel_run es w0 _ _ (rel_new _ _ _ _ _ _ Hnew) Hrun) as Hr.
  cbn in Hr. fold sp in Hr. split_and!; [apply Hr..|]. intros i g Hi.
  exists (view g). rewrite (rel_streams _ _ Hr). split_and!.
  - by apply view_map_lookup with i, Hi; apply Hr.
  - by eexists.
  - intros Hret. pose proof (rel_queue _ _ Hr) as Hq. rewrite Forall_lookup in Hq.
    destruct (Hq i g Hi) as (_ & Hp & Ho). unfold view. rewrite (Hp Hret), app_nil_r.
    destruct (g_closed g); [done|]. specialize (Ho eq_refl).
    by destruct (g_queue g).
Qed.

(** The worker after the events of an example, from the kernel's evaluation. *)
Ltac run_worker E :=
  match goal with |- context [run ?st ?s ?es] =>
    destruct (run st s es) as [[[? w]|]|] eqn:E; [|vm_compute in E; discriminate..]
  end.

Lemma worker_refines_streams_witness :
  match run step (Ok (NotRun, sample_worker))
    [RunCall false Sent; MsgReceived (newInvokeV1 2 "ev") Sent;
     MsgReceived (newChunkV1 2 None) Sent; QueueOut 0; MsgReceived (newChokeV1 2) Sent;
     QueueClosed 0] with
  | Some (Ok (_, w)) => view_map (gos w) !! 2%Z = Some (mkStream false [newChunkV1 2 None])
  | _ => False
  end.
Proof.
  run_worker E.
  destruct (worker_refines_streams false "w" 1 false Sent sample_worker w _ _ eq_refl E)
    as (_ & _ & H & _).
  rewrite <- H. vm_compute. reflexivity.
Defined.

(** No sequence of messages, ticks and calls makes a worker panic,
    except an invoke of a new session with an empty payload, whose event name
    is read out of range. *)
Theorem worker_panics_only_on_empty_invoke (conn_isclosed : bool) (id : string)
    (protoVersion : Z) (debug : bool) (sel : write_select) (w0 : WorkerNG) (es : list event)
    (Hnew : newWorkerNG conn_isclosed id protoVersion debug sel = inl w0)
    (Hrun : run step (Ok (NotRun, w0)) es = Some Panic) :
  exists es' m sel', es = es' ++ [MsgReceived m sel'] /\
    msg_session m <> v1UtilitySession /\ msg_type m = v1Invoke /\ Payload m = [].
Proof.
  destruct (rel_run es w0 _ _ (rel_new _ _ _ _ _ _ Hnew) Hrun) as (es' & m & sel' & -> & He).
  exists es', m, sel'. split; [done|apply He].
Qed.

Lemma worker_panics_only_on_empty_invoke_witness :
  exists es' m sel', [RunCall false Sent; MsgReceived (mkMessage (mkInfo 2 0) [] []) Sent]
    = es' ++ [MsgReceived m sel'] /\
    msg_session m <> v1UtilitySession /\ msg_type m = v1Invoke /\ Payload m = [].
Proof.
  apply (worker_panics_only_on_empty_invoke false "w" 1 false Sent sample_worker);
    vm_compute; reflexivity.
Defined.



(** C16 (invariant): the disown timer runs exactly while a heartbeat the worker
    sent awaits its reply; [Run] returns [ErrDisowned] only if that timer fired
    in such a period, and then the worker is stopped. *)
Theorem worker_disowned (conn_isclosed : bool) (id : string) (protoVersion : Z)
    (debug : bool) (sel : write_select) (w0 w : WorkerNG) (es : list event) (l : loop_state)
    (Hnew : newWorkerNG conn_isclosed id protoVersion debug sel = inl w0)
    (Hrun : run step (Ok (NotRun, w0)) es = Some (Ok (l, w))) :
  armed (disownTimer w) = awaiting es /\
  (l = Finished (Some ErrDisowned) ->
   stopped w = true /\
   exists es1 es2, es = es1 ++ DisownFires :: es2 /\ awaiting es1 = true).
Proof.
  pose proof (observed_run _ _ _ _ _ _ _ _ _ Hnew Hrun) as [_ Hst _ Ha _ _ Hres].
  split; [done|]. intros ->. destruct Hres as [Hs Hres]. by rewrite Hst.
Qed.

Lemma worker_disowned_witness :
  match run step (Ok (NotRun, sample_worker)) [RunCall false Sent; DisownFires; DisownTick] with
  | Some (Ok (_, w)) => armed (disownTimer w) = false
  | _ => False
  end.
Proof.
  run_worker E.
  exact (proj1 (worker_disowned false "w" 1 false Sent sample_worker w _ _ eq_refl E)).
Defined.

(** Stopping the disown timer does not take back a tick it has
    already delivered, so a heartbeat reply the loop handles after the timer
    has fired does not keep the worker from returning [ErrDisowned]. *)
Theorem stale_disown_tick (conn_isclosed : bool) (id : string) (protoVersion : Z)
    (debug : bool) (sel : write_select) (w0 w : WorkerNG) (es : list event)
    (Hnew : newWorkerNG conn_isclosed id protoVersion debug sel = inl w0)
    (Hrun : run step (Ok (NotRun, w0)) es = Some (Ok (Running, w)))
    (Hwait : awaiting es = true) (Hread : read_closed w = false) :
  exists w', run step (Ok (Running, w))
      [DisownFires; MsgReceived newHeartbeatV1 Sent; DisownTick] =
    Some (Ok (Finished (Some ErrDisowned), w')).
Proof.
  destruct (observed_run _ _ _ _ _ _ _ _ _ Hnew Hrun) as [_ _ _ Ha _ _ _].
  pose proof (rel_run es w0 _ _ (rel_new _ _ _ _ _ _ Hnew) Hrun) as Hr. cbn in Hr.
  pose proof (rel_blocked _ _ Hr) as Hb. rewrite Hwait in Ha.
  cbn. rewrite Ha. cbn. unfold loop_step. cbn. rewrite Hb, Hread. cbn.
  assert (Hd : forall w, dispatch Sent newHeartbeatV1 w =
    Ok (set_dispatcher (worker_onHeartbeat newHeartbeatV1 w) (dispatcher w))) by done.
  rewrite Hd. cbn. unfold loop_step. cbn. rewrite Hb. by eexists.
Qed.

Lemma stale_disown_tick_witness :
  match run step (Ok (NotRun, sample_worker)) [RunCall false Sent] with
  | Some (Ok (_, w)) => exists w', run step (Ok (Running, w))
      [DisownFires; MsgReceived newHeartbeatV1 Sent; DisownTick] =
      Some (Ok (Finished (Some ErrDisowned), w'))
  | _ => False
  end.
Proof.
  run_worker E. apply (stale_disown_tick false "w" 1 false Sent sample_worker w [RunCall false Sent]).
  - reflexivity.
  - rewrite E. cbn in E. by injection E as <- _.
  - reflexivity.
  - cbn in E. by injection E as _ <-.
Defined.

(** Two calls of [Stop] that run one after the other stop the
    worker once, but there is a schedule of two concurrent calls in which the
    second one closes the closed channel and panics. *)
Theorem Stop_not_concurrent :
  run StopRace.step (Ok StopRace.init) (replicate 4 true ++ replicate 4 false) =
    Some (Ok (StopRace.mkState true 1 1 StopRace.Done StopRace.Done)) /\
  exists schedule, length schedule = 6 /\
    run StopRace.step (Ok StopRace.init) schedule = Some Panic.
Proof. split; [done|]. by exists [true; false; true; false; true; false]. Qed.
