(* ===== verification/App.v ===== *)
(** * The application: a worker of Worker.v with the handlers of Handler.v

    [onInvoke] of cocaine12/workerng.go starts a goroutine per session that runs the
    handler bound to the event ([EventHandlers.Call]) under the trap. Here these
    goroutines run beside the loop of the worker: they read their requests from the
    queues that the loop fills, and what they answer goes to the connection through
    [toWorker.Send]. *)
From S2P Require Import Prelude GoTypes Buffers ProtoV1 Worker.
From S2P Require Handler.
From Stdlib Require Import ZArith Lia.
Import Handler (handler_prog, HReturn, HPanic, HRead, HWrite, HZeroCopyWrite, HClose, HErrorMsg,
  response, stream_inv).

(** ** Definitions *)

(** The goroutine of an invocation: what is left of its handler, [None] behind the
    trap; its response; the results of its reads; and whether a [Read] panicked. *)
Record go : Type := mkAppGo {
  prog : option handler_prog;
  resp : response;
  reads : list (gobytes * option error);
  corrupt : bool
}.

Record app : Type := mkApp {
  a_loop : loop_state;
  a_worker : WorkerNG;
  a_gos : list go       (* in the order of [gos] *)
}.

Inductive app_event : Type :=
| WorkerEvent (e : Worker.event)
| Act (i : nat) (accepted : bool).   (* the next operation of a handler *)

Section App.
(** The codec behind [Read]; the handlers; the text of a stack; what is left of a
    handler when a [Read] of it panics: its deferred calls, then the panic. *)
Context (convertPayload : list value -> (Z * Z * string) + error).
Context (hs : Handler.EventHandlers) (stack : string).
Context (unwinding : handler_prog -> handler_prog).

Definition start_go (g : handler_go) : go :=
  mkAppGo (Some (Handler.Call hs (g_event g))) (Handler.newResponse (g_session g)) [] false.

(** [toWorker.Send] of what an operation added to its response: written to the
    connection, or dropped when that is closed. *)
Definition send (accepted : bool) (r r' : response) (w : WorkerNG) : option WorkerNG :=
  match drop (length (Handler.sent r)) (Handler.sent r') with
  | [] => Some w
  | m :: _ =>
    if accepted then Some (select_write Sent m w)
    else if conn_closed w then Some w else None
  end.

(** The [select] of [request.Read]: a message from the queue, or its end; the context
    of an invocation is never done. *)
Definition receive (i : nat) (g : handler_go) (w : WorkerNG) : option (WorkerNG * Handler.read_event) :=
  if HandlerLoop.returned (g_queue g) then Some (w, Handler.ReadClosed)
  else
    match head (HandlerLoop.state_pending (g_queue g)) with
    | None => None
    | Some m => (fun w => (w, Handler.ReadMsg m)) <$> queue_step i HandlerLoop.Out w
    end.

(** An operation on the response. *)
Definition response_op (p : handler_prog) (r : response) : option (response * handler_prog) :=
  match p with
  | HWrite data k => let (r', res) := Handler.Write data r in Some (r', k res)
  | HZeroCopyWrite data k => let (r', res) := Handler.ZeroCopyWrite data r in Some (r', k res)
  | HClose k => let (r', res) := Handler.Close r in Some (r', k res)
  | HErrorMsg code message k =>
    let (r', res) := Handler.ErrorMsg code message r in Some (r', k res)
  | _ => None
  end.

(** The next operation of the handler; a [Read] that panics panics the handler. *)
Definition act (i : nat) (accepted : bool) (g : handler_go) (d : go) (w : WorkerNG)
    : option (WorkerNG * go) :=
  let respond r' p :=
    (fun w => (w, mkAppGo p r' (reads d) (corrupt d))) <$> send accepted (resp d) r' w in
  match prog d with
  | None => None
  | Some HReturn => respond (Handler.trapRecoverAndClose (g_event g) None stack (resp d)) None
  | Some (HPanic info) =>
    respond (Handler.trapRecoverAndClose (g_event g) (Some info) stack (resp d)) None
  | Some (HRead k) =>
    match receive i g w with
    | None => None
    | Some (w, e) =>
      match Handler.Read convertPayload e with
      | Ok res => Some (w, mkAppGo (Some (k res)) (resp d) (reads d ++ [res]) (corrupt d))
      | Panic => Some (w, mkAppGo (Some (unwinding (HRead k))) (resp d) (reads d) true)
      end
    end
  | Some p =>
    match response_op p (resp d) with
    | Some (r', p') => respond r' (Some p')
    | None => None
    end
  end.

(** The reads of the queues are those of the handlers. *)
Definition is_read (e : Worker.event) : bool := match e with QueueOut _ => true | _ => false end.

Definition app_ok (a : app) (e : app_event) : option (outcome app) :=
  match e with
  | WorkerEvent e =>
    if is_read e then None
    else
      match env_step (a_loop a) (a_worker a) e with
      | None => None
      | Some Panic => Some Panic
      | Some (Ok (l, w)) =>
        Some (Ok (mkApp l w (a_gos a ++ map start_go (drop (length (a_gos a)) (gos w)))))
      end
  | Act i accepted =>
    match gos (a_worker a) !! i, a_gos a !! i with
    | Some g, Some d =>
      (fun '(w, d) => Ok (mkApp (a_loop a) w (<[i := d]> (a_gos a)))) <$>
        act i accepted g d (a_worker a)
    | _, _ => None
    end
  end.

Definition app_step (o : outcome app) (e : app_event) : option (outcome app) :=
  match o with
  | Panic => None
  | Ok a => app_ok a e
  end.
End App.

(** ** Specification *)

Definition worker_events (es : list app_event) : list Worker.event :=
  omap (fun e => match e with WorkerEvent e => Some e | _ => None end) es.

(** The messages of a session on the wire. *)
Definition on_wire (s : Z) (w : WorkerNG) : list Message :=
  filter (fun m => msg_session m = s) (written w).

(** The reads so far, then any others. *)
Definition after (l : list (gobytes * option error)) (f : nat -> gobytes * option error) (n : nat)
    : gobytes * option error :=
  match l !! n with Some res => res | None => f (n - length l) end.

Definition stream_closed : gobytes * option error := (None, Some ErrStreamIsClosed).

(** ** Lemmas: the goroutines of the worker *)

Record same_go (g g' : handler_go) : Prop := {
  same_session : g_session g' = g_session g;
  same_event : g_event g' = g_event g;
  same_given : g_given g' = g_given g;
  same_returned : HandlerLoop.returned (g_queue g) = true -> HandlerLoop.returned (g_queue g') = true
}.

Lemma same_go_refl g : same_go g g.
Proof. by split. Qed.

(** The worker keeps its goroutines and starts new ones, of larger sessions. *)
Record gos_grow (mx : Z) (l l' : list handler_go) : Prop := {
  grow_old : forall i g, l !! i = Some g -> exists g', l' !! i = Some g' /\ same_go g g';
  grow_new : forall i g, l !! i = None -> l' !! i = Some g -> g_given g = [] /\ (mx < g_session g)%Z
}.

Lemma gos_grow_refl mx l : gos_grow mx l l.
Proof. split; [eauto using same_go_refl|congruence]. Qed.

Lemma gos_grow_insert mx l i g g' :
  l !! i = Some g -> same_go g g' -> gos_grow mx l (<[i := g']> l).
Proof.
  intros Hi Hs. split.
  - intros j h Hj. destruct (decide (i = j)) as [<-|Hne].
    + exists g'. rewrite list_lookup_insert_eq by (by eapply lookup_lt_Some). by simplify_eq.
    + exists h. by rewrite list_lookup_insert_ne by done.
  - intros j h Hj Hj'. rewrite list_lookup_insert_ne in Hj'; [congruence|]. intros ->. congruence.
Qed.

Lemma gos_grow_snoc mx l g : g_given g = [] -> (mx < g_session g)%Z -> gos_grow mx l (l ++ [g]).
Proof.
  intros Hg Hs. split.
  - intros i h Hi. exists h. split; [by apply lookup_app_l_Some|apply same_go_refl].
  - intros i h Hi Hi'. apply lookup_ge_None in Hi. rewrite lookup_app_r in Hi' by done.
    destruct (i - length l); by simplify_eq/=.
Qed.

Lemma step_not_returned (q q' : HandlerLoop.state Message) e :
  HandlerLoop.step q e = Some q' -> HandlerLoop.returned q = false.
Proof. by destruct q. Qed.

Lemma push_gos mx i m w w' : push i m w = Ok w' -> gos_grow mx (gos w) (gos w').
Proof.
  unfold push. destruct (gos w !! i) as [g|] eqn:Hi; [|done].
  destruct (HandlerLoop.step _ _) as [q|] eqn:Hq; intros [= <-]; [|apply gos_grow_refl].
  apply gos_grow_insert with g; [done|]. split; try done.
  cbn. rewrite (step_not_returned _ _ _ Hq). done.
Qed.

Lemma onChunk_gos mx m w w' : worker_onChunk m w = Ok w' -> gos_grow mx (gos w) (gos w').
Proof.
  unfold worker_onChunk. destruct (sessions w !! _); [apply push_gos|].
  intros [= <-]. apply gos_grow_refl.
Qed.

Lemma onChoke_gos mx m w w' : worker_onChoke m w = Ok w' -> gos_grow mx (gos w) (gos w').
Proof.
  unfold worker_onChoke, request_Close.
  destruct (sessions w !! _) as [i|]; [|intros [= <-]; apply gos_grow_refl].
  destruct (gos w !! i) as [g|] eqn:Hi; [|done]. destruct (g_closed g); [done|]. intros [= <-].
  apply gos_grow_insert with g; [done|by split].
Qed.

Lemma onInvoke_gos mx m w w' err :
  (mx < msg_session m)%Z -> worker_onInvoke m w = Ok (w', err) -> gos_grow mx (gos w) (gos w').
Proof.
  intros Hlt. unfold worker_onInvoke. destruct (getEventName m) as [[ev []]|]; cbn; [| |done];
    intros [= <- <-]; [by apply gos_grow_snoc|apply gos_grow_refl].
Qed.

Lemma Stop_gos w : gos (Stop w) = gos w.
Proof. unfold Stop. by destruct (isStopped w). Qed.

Lemma dispatch_gos sel m w w' :
  dispatch sel m w = Ok w' -> gos_grow (maxSession (dispatcher w)) (gos w) (gos w').
Proof.
  unfold dispatch, onMessage, dispatchUtilityMessage, no_error.
  intros H. apply outcome_bind_ok in H as ([[v w1] err] & H & [= <-]). cbn [gos set_dispatcher].
  repeat case_decide; cbn in H; try (simplify_eq; apply gos_grow_refl).
  - simplify_eq. unfold worker_onTerminate. cbv zeta. rewrite Stop_gos.
    destruct (terminationHandler w), sel; apply gos_grow_refl.
  - apply outcome_bind_ok in H as ([w2 e] & H & [= <- <- <-]). by eapply onInvoke_gos.
  - apply outcome_bind_ok in H as ([w2 e] & H & [= <- <- <-]).
    apply outcome_bind_ok in H as (w3 & H & [= <- <-]). by eapply onChunk_gos.
  - apply outcome_bind_ok in H as ([w2 e] & H & [= <- <- <-]).
    apply outcome_bind_ok in H as (w3 & H & [= <- <-]). by eapply onChoke_gos.
  - apply outcome_bind_ok in H as ([w2 e] & H & [= <- <- <-]).
    apply outcome_bind_ok in H as (w3 & H & [= <- <-]). by eapply onChunk_gos.
Qed.

Lemma env_gos l w e l' w' :
  env_step l w e = Some (Ok (l', w')) -> is_read e = false ->
  gos_grow (maxSession (dispatcher w)) (gos w) (gos w').
Proof.
  intros Hs He.
  assert (Hkeep : gos w' = gos w -> gos_grow (maxSession (dispatcher w)) (gos w) (gos w')).
  { intros ->. apply gos_grow_refl. }
  destruct e as [th sel|m sel| |sel| | | |i|i| | | | |]; cbn in Hs; try done;
    try (unfold loop_step in Hs; destruct (_ || _); [done|]; cbn in Hs).
  - destruct l; [|done..]. destruct (select_ready sel w); [|done]. injection Hs as <- <-.
    apply Hkeep. by destruct sel.
  - destruct (_ && _); [|done]. injection Hs as Hd.
    apply outcome_bind_ok in Hd as (w1 & Hd & [= <- <-]). by eapply dispatch_gos.
  - step_inv Hs; by apply Hkeep.
  - destruct (_ && _); [|done]. injection Hs as <- <-. apply Hkeep. by destruct sel.
  - destruct (fired _); [|done]. injection Hs as <- <-. apply Hkeep. unfold onDisownTimeout.
    by rewrite Stop_gos.
  - step_inv Hs; by apply Hkeep.
  - step_inv Hs; by apply Hkeep.
  - destruct (queue_closed i w); [|done]. unfold queue_step in Hs.
    destruct (gos w !! i) as [g|] eqn:Hi; [|done].
    destruct (HandlerLoop.step _ _) as [q|] eqn:Hq; [|done]. injection Hs as <- <-.
    apply gos_grow_insert with g; [done|]. split; try done; cbn; [by rewrite app_nil_r|].
    rewrite (step_not_returned _ _ _ Hq). done.
  - step_inv Hs; by apply Hkeep.
  - step_inv Hs; by apply Hkeep.
  - step_inv Hs; by apply Hkeep.
  - step_inv Hs; by apply Hkeep.
  - injection Hs as <- <-. apply Hkeep, Stop_gos.
Qed.

(** *** What the worker writes itself is of the first session. *)

Lemma writes_session e : Forall (fun m => msg_session m = 1%Z) (writes e).
Proof.
  destruct e as [th []|m []| |[]| | | |i|i| | | | |]; cbn; repeat constructor.
  destruct (is_terminate m) eqn:Ht; [|constructor]. repeat constructor.
  unfold is_terminate in Ht. by apply bool_decide_eq_true in Ht as [? _].
Qed.

Lemma env_wire l w e l' w' s :
  env_step l w e = Some (Ok (l', w')) -> (1 < s)%Z -> on_wire s w' = on_wire s w.
Proof.
  intros Hs Hlt. destruct (step_life _ _ _ _ _ Hs) as [Hl _]. injection Hl as Hw _ _ _ _ _.
  unfold on_wire. rewrite Hw, life_step_written, filter_app.
  assert (Hnone : forall ms : list Message, Forall (fun m => msg_session m = 1%Z) ms ->
    filter (fun m => msg_session m = s) ms = []).
  { induction 1 as [|m ms Hm _ IH]; [done|]. rewrite filter_cons_False by lia. done. }
  by rewrite (Hnone _ (writes_session e)), app_nil_r.
Qed.

Lemma Stop_closed w : conn_closed w = true -> conn_closed (Stop w) = true.
Proof. unfold Stop. by destruct (isStopped w). Qed.

Lemma env_closed l w e l' w' :
  env_step l w e = Some (Ok (l', w')) -> conn_closed w = true -> conn_closed w' = true.
Proof.
  intros Hs Hc. destruct (step_life _ _ _ _ _ Hs) as [Hl _]. injection Hl as _ Hw _ _ _ _.
  rewrite Hw. destruct e as [th []|m []| |[]| | | |i|i| | | | |]; cbn; try done;
    try (destruct (is_terminate m), (is_heartbeat m); cbn; try done);
    by apply Stop_closed.
Qed.

(** *** Operations of a response *)

(** An operation adds at most one message of its session and keeps the stream. *)
Record op_ok (r r' : response) : Prop := {
  op_session : Handler.session r' = Handler.session r;
  op_stream : stream_inv r -> stream_inv r';
  op_sent : exists m : option Message, Handler.sent r' = Handler.sent r ++ opt_list m /\
    forall m', m = Some m' -> msg_session m' = Handler.session r
}.

Lemma op_none r : op_ok r r.
Proof. split; [done..|]. exists None. by rewrite app_nil_r. Qed.

Lemma op_zero_copy data r : op_ok r (Handler.ZeroCopyWrite data r).1.
Proof.
  split; [unfold Handler.ZeroCopyWrite; by destruct (Handler.isClosed r)| |].
  - intros Hr. apply (Handler.stream_inv_chunk data r Hr).
  - unfold Handler.ZeroCopyWrite. destruct (Handler.isClosed r); [apply op_none|].
    exists (Some (newChunkV1 (Handler.session r) data)). split; [done|]. by intros m' [= <-].
Qed.

Lemma op_Write data r : op_ok r (Handler.Write data r).1.
Proof.
  pose proof (op_zero_copy (Handler.copy_bytes data) r) as H. unfold Handler.Write.
  by destruct (Handler.ZeroCopyWrite _ r) as [r' [err|]].
Qed.

Lemma op_Close r : op_ok r (Handler.Close r).1.
Proof.
  split; [unfold Handler.Close; by destruct (Handler.isClosed r)| |].
  - intros Hr. apply (Handler.stream_inv_Close r Hr).
  - unfold Handler.Close. destruct (Handler.isClosed r); [apply op_none|].
    exists (Some (newChokeV1 (Handler.session r))). split; [done|]. by intros m' [= <-].
Qed.

Lemma op_ErrorMsg code message r : op_ok r (Handler.ErrorMsg code message r).1.
Proof.
  split; [unfold Handler.ErrorMsg; by destruct (Handler.isClosed r)| |].
  - intros Hr. apply (Handler.stream_inv_ErrorMsg code message r Hr).
  - unfold Handler.ErrorMsg. destruct (Handler.isClosed r); [apply op_none|].
    exists (Some (newErrorV1 (Handler.session r) Handler.cworkererrorcategory code message)).
    split; [done|]. by intros m' [= <-].
Qed.

Lemma op_response p r r' p' :
  response_op p r = Some (r', p') ->
  op_ok r r' /\ forall reads, Handler.exec_handler p reads r = Handler.exec_handler p' reads r'.
Proof.
  destruct p as [|info|k|data k|data k|k|code message k]; cbn; [done..| | | |].
  - pose proof (op_Write data r) as H. destruct (Handler.Write data r). by intros [= <- <-].
  - pose proof (op_zero_copy data r) as H. destruct (Handler.ZeroCopyWrite data r). by intros [= <- <-].
  - pose proof (op_Close r) as H. destruct (Handler.Close r). by intros [= <- <-].
  - pose proof (op_ErrorMsg code message r) as H. destruct (Handler.ErrorMsg code message r). by intros [= <- <-].
Qed.

Lemma op_trap event info stack r : op_ok r (Handler.trapRecoverAndClose event info stack r).
Proof. destruct info; [apply op_ErrorMsg|apply op_Close]. Qed.

(** *** Sends *)

(** What a send leaves alone. *)
Lemma send_frame accepted r r' w w' :
  send accepted r r' w = Some w' ->
  gos w' = gos w /\ conn_closed w' = conn_closed w /\ dispatcher w' = dispatcher w /\
  sessions w' = sessions w /\ blocked w' = blocked w.
Proof.
  unfold send. destruct (drop _ _) as [|m l]; [by intros [= <-]|].
  destruct accepted; [by intros [= <-]|]. destruct (conn_closed w) eqn:Hc; [|done].
  by intros [= <-].
Qed.

Lemma send_wire accepted r r' w w' :
  op_ok r r' -> send accepted r r' w = Some w' ->
  (forall s, s <> Handler.session r -> on_wire s w' = on_wire s w) /\
  (on_wire (Handler.session r) w `sublist_of` Handler.sent r ->
   on_wire (Handler.session r) w' `sublist_of` Handler.sent r') /\
  (conn_closed w = false -> on_wire (Handler.session r) w = Handler.sent r ->
   on_wire (Handler.session r) w' = Handler.sent r').
Proof.
  intros [_ _ (m & Hsent & Hm)]. unfold send. rewrite Hsent, drop_app_length.
  destruct m as [m|]; cbn [opt_list].
  - specialize (Hm m eq_refl). destruct accepted.
    + intros [= <-]. unfold on_wire. cbn [written select_write set_conn]. split_and!.
      * intros s Hs. rewrite filter_app, filter_cons_False by congruence. by rewrite filter_nil, app_nil_r.
      * intros Hsub. rewrite filter_app, filter_cons_True by done. by apply sublist_app.
      * intros _ Heq. rewrite filter_app, filter_cons_True by done. by rewrite Heq.
    + destruct (conn_closed w); [|done]. intros [= <-]. split_and!; [done| |done].
      intros Hsub. rewrite Hsub. by apply sublist_inserts_r.
  - intros [= <-]. by rewrite app_nil_r.
Qed.

(** *** The invariant of a goroutine *)
Section Invariant.
Context (convertPayload : list value -> (Z * Z * string) + error).
Context (hs : Handler.EventHandlers) (stack : string).
Context (unwinding : handler_prog -> handler_prog).
#[local] Abbreviation act := (act convertPayload stack unwinding).

(** The results that a handler gets for the messages of its request. *)
Definition reads_of (ms : list Message) : list (outcome (gobytes * option error)) :=
  (fun m => Handler.Read convertPayload (Handler.ReadMsg m)) <$> ms.

Definition handler_of (g : handler_go) : handler_prog := Handler.Call hs (g_event g).

(** The handler has run as [exec_handler] says, so far or to its end. *)
Definition executed (g : handler_go) (d : go) : Prop :=
  forall f,
    match prog d with
    | Some p => Handler.exec_handler (handler_of g) (after (reads d) f) (Handler.newResponse (g_session g)) =
        Handler.exec_handler p f (resp d)
    | None => resp d =
        Handler.invocation (g_event g) (handler_of g) stack (after (reads d) f) (g_session g)
    end.

Definition reads_ok (g : handler_go) (d : go) : Prop :=
  exists n, Ok <$> reads d = reads_of (g_given g) ++ replicate n (Ok stream_closed) /\
    (0 < n -> HandlerLoop.returned (g_queue g) = true).

Record go_inv (w : WorkerNG) (g : handler_go) (d : go) : Prop := {
  gi_session : Handler.session (resp d) = g_session g;
  gi_above : (1 < g_session g)%Z;
  gi_stream : stream_inv (resp d);
  gi_done : prog d = None -> Handler.closed (resp d) = true;
  gi_wire : on_wire (g_session g) w `sublist_of` Handler.sent (resp d);
  gi_complete : conn_closed w = false -> on_wire (g_session g) w = Handler.sent (resp d);
  gi_reads : corrupt d = false -> reads_ok g d;
  gi_exec : corrupt d = false -> executed g d;
  (* a handler that starts with a read gets no further without it *)
  gi_first : forall k, handler_of g = HRead k -> corrupt d = false -> reads d = [] -> prog d = Some (HRead k)
}.

(** The parts of the state another goroutine's operation leaves. *)
Lemma go_inv_frame w w' g g' d :
  go_inv w g d -> same_go g g' -> on_wire (g_session g) w' = on_wire (g_session g) w ->
  (conn_closed w' = false -> conn_closed w = false) -> go_inv w' g' d.
Proof.
  intros [Hs Ha Hst Hd Hw Hc Hr He Hf] [Hs' He' Hg' Hq'] Hwire Hcl.
  split; unfold handler_of; rewrite ?Hs', ?Hwire, ?He'; auto.
  - intros Hco. destruct (Hr Hco) as (n & Hn & Hn'). exists n. rewrite Hg'. auto.
  - intros Hco f'. specialize (He Hco f'). unfold handler_of in *. by rewrite He', Hs'.
Qed.

(** A new goroutine. *)
Lemma go_inv_start w g :
  (1 < g_session g)%Z -> g_given g = [] -> on_wire (g_session g) w = [] ->
  go_inv w g (start_go hs g).
Proof.
  intros Ha Hg Hw. split; cbn; rewrite ?Hw; try done.
  - apply Handler.stream_inv_new.
  - intros _. exists 0. rewrite Hg. split; [done|lia].
  - intros _ f. apply Handler.exec_handler_ext. intros n. unfold after. cbn. by rewrite Nat.sub_0_r.
  - intros k Hk _ _. unfold handler_of in Hk. by rewrite Hk.
Qed.

Lemma after_snoc l res f n :
  after (l ++ [res]) f n = after l (fun n => match n with 0 => res | S n => f n end) n.
Proof.
  unfold after. destruct (decide (n < length l)) as [Hn|Hn].
  - rewrite lookup_app_l by done. by destruct (lookup_lt_is_Some_2 l n Hn) as [x ->].
  - rewrite lookup_app_r by lia. rewrite (lookup_ge_None_2 l n) by lia. rewrite length_app. cbn.
    destruct (n - length l) as [|k] eqn:Hk; [done|]. cbn. f_equal. lia.
Qed.

(** An operation that answers. *)
Lemma respond_inv accepted w w' g d r' p :
  go_inv w g d -> op_ok (resp d) r' -> send accepted (resp d) r' w = Some w' ->
  (forall k, prog d <> Some (HRead k)) -> (p = None -> Handler.closed r' = true) ->
  (executed g d -> executed g (mkAppGo p r' (reads d) (corrupt d))) ->
  go_inv w' g (mkAppGo p r' (reads d) (corrupt d)).
Proof.
  intros [Hs Ha Hst Hd Hw Hc Hr He Hf] Hop Hsend Hread Hdone Hex.
  destruct (send_frame _ _ _ _ _ Hsend) as (_ & Hcl & _).
  destruct (send_wire _ _ _ _ _ Hop Hsend) as (_ & Hsub & Hall). rewrite Hs in Hsub, Hall.
  split; cbn; auto.
  - by rewrite (op_session _ _ Hop).
  - by apply Hop.
  - rewrite Hcl. auto.
  - intros k Hk Hco Hn. by destruct (Hread k (Hf k Hk Hco Hn)).
Qed.

(** A [Read] of the request. *)
Lemma receive_inv i g w w' e sp :
  worker_rel w sp -> gos w !! i = Some g -> receive i g w = Some (w', e) ->
  worker_rel w' sp /\ written w' = written w /\ conn_closed w' = conn_closed w /\
  exists g', gos w' = <[i := g']> (gos w) /\ g_session g' = g_session g /\ g_event g' = g_event g /\
    ((exists m, e = Handler.ReadMsg m /\ g_given g' = g_given g ++ [m] /\
        HandlerLoop.returned (g_queue g) = false) \/
     (e = Handler.ReadClosed /\ g' = g /\ HandlerLoop.returned (g_queue g) = true)).
Proof.
  intros Hr Hi. unfold receive. destruct (HandlerLoop.returned (g_queue g)) eqn:Hret.
  { intros [= <- <-]. split_and!; [done..|]. exists g. split_and!; [by rewrite list_insert_id|done..|auto]. }
  destruct (head _) as [m|] eqn:Hm; [|done].
  destruct (queue_step i HandlerLoop.Out w) as [w1|] eqn:Hq; [|done]. intros [= <- <-].
  split; [by eapply rel_queue_step; [done|exact Hq|left]|].
  unfold queue_step in Hq. rewrite Hi in Hq.
  destruct (HandlerLoop.step _ _) as [q|] eqn:Hstep; [|done]. injection Hq as <-.
  split_and!; [done..|]. eexists. split_and!; [reflexivity|done|done|].
  left. exists m. split_and!; [done| |done]. cbn. by rewrite Hm.
Qed.

Lemma read_event_ok g d g' e :
  reads_ok g d ->
  (exists m, e = Handler.ReadMsg m /\ g_given g' = g_given g ++ [m] /\
     HandlerLoop.returned (g_queue g) = false) \/
  (e = Handler.ReadClosed /\ g' = g /\ HandlerLoop.returned (g_queue g) = true) ->
  forall res p, Handler.Read convertPayload e = Ok res ->
  reads_ok g' (mkAppGo p (resp d) (reads d ++ [res]) (corrupt d)).
Proof.
  intros (n & Hn & Hret) He res p Hres. unfold reads_ok. cbn [reads].
  destruct He as [(m & -> & Hg & Hq)|(-> & -> & Hq)].
  - exists 0. rewrite Hg. split; [|lia]. destruct n; [|rewrite Hret in Hq by lia; done].
    unfold reads_of in *. rewrite app_nil_r in *. rewrite !fmap_app, Hn. cbn [fmap list_fmap]. by rewrite Hres.
  - exists (S n). split; [|done]. rewrite fmap_app, Hn, replicate_S_end, (assoc_L (++)).
    cbn in Hres. by injection Hres as <-.
Qed.

(** What an operation of goroutine [i] leaves true. *)
Record act_ok (i : nat) (g : handler_go) (w w' : WorkerNG) (d' : go) (sp : spec) : Prop := {
  ao_rel : worker_rel w' sp;
  ao_closed : conn_closed w' = conn_closed w;
  ao_others : forall s, s <> g_session g -> on_wire s w' = on_wire s w;
  ao_go : exists g', gos w' = <[i := g']> (gos w) /\ g_session g' = g_session g /\ go_inv w' g' d'
}.

Lemma act_respond i accepted g d w r' p w' d' sp :
  worker_rel w sp -> gos w !! i = Some g -> go_inv w g d ->
  op_ok (resp d) r' -> (forall k, prog d <> Some (HRead k)) -> (p = None -> Handler.closed r' = true) ->
  (executed g d -> executed g (mkAppGo p r' (reads d) (corrupt d))) ->
  (fun w => (w, mkAppGo p r' (reads d) (corrupt d))) <$> send accepted (resp d) r' w = Some (w', d') ->
  act_ok i g w w' d' sp.
Proof.
  intros Hr Hi Hg Hop Hread Hdone Hex (w1 & Hsend & [= -> ->])%fmap_Some.
  destruct (send_frame _ _ _ _ _ Hsend) as (Hgos & Hcl & Hdisp & Hss & Hbl).
  destruct (send_wire _ _ _ _ _ Hop Hsend) as (Hother & _ & _). rewrite (gi_session _ _ _ Hg) in Hother.
  split; [by eapply worker_rel_frame|done|done|].
  exists g. split_and!; [by rewrite Hgos, list_insert_id|done|by eapply respond_inv].
Qed.

Lemma act_read i g d w w' e k res sp :
  worker_rel w sp -> gos w !! i = Some g -> go_inv w g d -> prog d = Some (HRead k) ->
  receive i g w = Some (w', e) -> res = Handler.Read convertPayload e ->
  act_ok i g w w'
    match res with
    | Ok res => mkAppGo (Some (k res)) (resp d) (reads d ++ [res]) (corrupt d)
    | Panic => mkAppGo (Some (unwinding (HRead k))) (resp d) (reads d) true
    end sp.
Proof.
  intros Hr Hi Hg Hp Hrec Hres. pose proof (gi_session _ _ _ Hg) as Hses.
  destruct (receive_inv _ _ _ _ _ _ Hr Hi Hrec) as (Hr1 & Hw1 & Hc1 & g' & Hgos & Hs' & He' & Hev).
  split; [done..| |]; [intros s _; unfold on_wire; by rewrite Hw1|].
  exists g'. split_and!; [done..|].
  destruct Hg as [_ Ha Hst Hd Hw Hc Hrd Hex Hf].
  destruct res as [res|]; split; cbn; rewrite ?Hs'; unfold on_wire in *; rewrite ?Hw1, ?Hc1; auto; try done.
  - intros Hco. by eapply read_event_ok; [apply Hrd| |].
  - intros Hco f. specialize (Hex Hco (fun n => match n with 0 => res | S n => f n end)).
    rewrite Hp in Hex. cbn in Hex |- *. unfold handler_of in *. rewrite He', Hs'.
    etransitivity; [|exact Hex]. apply Handler.exec_handler_ext. intros n. apply after_snoc.
  - intros k' _ _ Hn. by apply app_eq_nil in Hn as [_ Hn].
Qed.

(** One operation of a handler. *)
Lemma act_inv i accepted g d w w' d' sp :
  worker_rel w sp -> gos w !! i = Some g -> go_inv w g d ->
  act i accepted g d w = Some (w', d') -> act_ok i g w w' d' sp.
Proof.
  intros Hr Hi Hg. pose proof (gi_stream _ _ _ Hg) as Hst. unfold App.act.
  destruct (prog d) as [p|] eqn:Hp; [|done].
  assert (Hresponse : match response_op p (resp d) with
    | Some (r', p') => (fun w => (w, mkAppGo (Some p') r' (reads d) (corrupt d))) <$> send accepted (resp d) r' w
    | None => None end = Some (w', d') -> act_ok i g w w' d' sp).
  { destruct (response_op p (resp d)) as [[r' p']|] eqn:Hop; [|done].
    destruct (op_response _ _ _ _ Hop) as [Hok Hex]. apply act_respond; try done.
    { intros k Hk. rewrite Hp in Hk. injection Hk as ->. done. }
    intros He f. specialize (He f). rewrite Hp in He. cbn in He |- *. by rewrite He. }
  destruct p as [|info|k|data k|data k|k|code message k]; try exact Hresponse.
  - apply act_respond; try done; [apply op_trap|by rewrite Hp| |].
    + intros _. apply (Handler.stream_inv_Close _ Hst).
    + intros He f. specialize (He f). rewrite Hp in He. cbn in He |- *.
      unfold Handler.invocation. by rewrite He.
  - apply act_respond; try done; [apply op_trap|by rewrite Hp| |].
    + intros _. apply (Handler.stream_inv_ErrorMsg _ _ _ Hst).
    + intros He f. specialize (He f). rewrite Hp in He. cbn in He |- *.
      unfold Handler.invocation. by rewrite He.
  - destruct (receive i g w) as [[w1 e]|] eqn:Hrec; [|done]. intros Hact.
    pose proof (act_read _ _ _ _ _ _ _ _ _ Hr Hi Hg Hp Hrec eq_refl) as Hok.
    destruct (Handler.Read convertPayload e); by injection Hact as <- <-.
Qed.
End Invariant.

Lemma grow_length mx l l' : gos_grow mx l l' -> length l <= length l'.
Proof.
  intros [Hold _]. destruct (decide (length l <= length l')) as [|Hn]; [done|].
  destruct (lookup_lt_is_Some_2 l (length l')) as [g Hg]; [lia|].
  destruct (Hold _ _ Hg) as (g' & Hg' & _). apply lookup_lt_Some in Hg'. lia.
Qed.

Lemma spec_max_mono sp ms : (spec_max sp <= spec_max (foldl spec_msg sp ms))%Z.
Proof.
  revert sp. induction ms as [|m ms IH]; intros sp; cbn; [done|].
  exact (Z.le_trans _ _ _ (call_of_max (spec_max sp) m) (IH (spec_msg sp m))).
Qed.

Section Run.
Context (convertPayload : list value -> (Z * Z * string) + error).
Context (hs : Handler.EventHandlers) (stack : string).
Context (unwinding : handler_prog -> handler_prog).
#[local] Abbreviation app_step := (app_step convertPayload hs stack unwinding).
#[local] Abbreviation go_inv := (go_inv convertPayload hs stack).

Record app_inv (sp : spec) (a : app) : Prop := {
  ai_rel : worker_rel (a_worker a) sp;
  ai_length : length (a_gos a) = length (gos (a_worker a));
  ai_gos : forall i g d, gos (a_worker a) !! i = Some g -> a_gos a !! i = Some d ->
    go_inv (a_worker a) g d;
  ai_fresh : forall s, (spec_max sp < s)%Z -> on_wire s (a_worker a) = []
}.

Lemma worker_event_inv sp a e l w :
  app_inv sp a -> is_read e = false -> env_step (a_loop a) (a_worker a) e = Some (Ok (l, w)) ->
  app_inv (foldl spec_msg sp (dispatched [e]))
    (mkApp l w (a_gos a ++ map (start_go hs) (drop (length (a_gos a)) (gos w)))).
Proof.
  intros [Hr Hlen Hgos Hfresh] He Hs.
  pose proof (rel_step _ _ _ _ _ Hr Hs) as Hr'. cbn in Hr'.
  pose proof (env_gos _ _ _ _ _ Hs He) as Hg. rewrite (rel_max _ _ Hr) in Hg.
  pose proof (rel_above _ _ Hr) as Hab.
  pose proof (spec_max_mono sp (dispatched [e])) as Hmono.
  pose proof (grow_length _ _ _ Hg) as Hle.
  split; cbn.
  - exact Hr'.
  - rewrite length_app, length_map, length_drop. lia.
  - intros i g' d Hi Hd. destruct (decide (i < length (a_gos a))) as [Hlt|Hge].
    + rewrite lookup_app_l in Hd by done.
      destruct (lookup_lt_is_Some_2 (gos (a_worker a)) i) as [g Hig]; [lia|].
      destruct (grow_old _ _ _ Hg i g Hig) as (g2 & Hi2 & Hsame). rewrite Hi in Hi2. injection Hi2 as <-.
      pose proof (Hgos i g d Hig Hd) as Hinv.
      eapply go_inv_frame; [done|done|by eapply env_wire; [|apply (gi_above _ _ _ _ _ _ Hinv)]|].
      intros Hc. destruct (conn_closed (a_worker a)) eqn:Hc'; [|done].
      by rewrite (env_closed _ _ _ _ _ Hs Hc') in Hc.
    + rewrite lookup_app_r in Hd by lia. rewrite list_lookup_fmap, lookup_drop in Hd.
      replace (length (a_gos a) + (i - length (a_gos a))) with i in Hd by lia.
      rewrite Hi in Hd. injection Hd as <-.
      destruct (grow_new _ _ _ Hg i g') as [Hgiv Hses]; [apply lookup_ge_None; lia|done|].
      apply go_inv_start; [lia|done|]. rewrite (env_wire _ _ _ _ _ _ Hs) by lia. by apply Hfresh.
  - intros s Hlt. pose proof (Z.le_lt_trans _ _ _ Hmono Hlt) as Hlt'.
    rewrite (env_wire _ _ _ _ _ _ Hs) by lia. by apply Hfresh.
Qed.

Lemma act_event_inv sp a i accepted g d w d' :
  app_inv sp a -> gos (a_worker a) !! i = Some g -> a_gos a !! i = Some d ->
  act convertPayload stack unwinding i accepted g d (a_worker a) = Some (w, d') ->
  app_inv sp (mkApp (a_loop a) w (<[i := d']> (a_gos a))).
Proof.
  intros [Hr Hlen Hgos Hfresh] Hi Hd Hact.
  destruct (act_inv _ hs _ _ _ _ _ _ _ _ _ sp Hr Hi (Hgos i g d Hi Hd) Hact)
    as [Hr' Hc Hother (g' & Hg' & Hs' & Hinv')].
  assert (Hne : forall j h, gos (a_worker a) !! j = Some h -> j <> i -> g_session h <> g_session g).
  { intros j h Hj Hji Heq. apply Hji. eapply (NoDup_lookup (g_session <$> gos (a_worker a))).
    - apply Hr.
    - by rewrite list_lookup_fmap, Hj.
    - rewrite list_lookup_fmap, Hi. cbn. by rewrite Heq. }
  split; cbn.
  - exact Hr'.
  - by rewrite Hg', !length_insert.
  - intros j h dj Hj Hdj. rewrite Hg' in Hj. destruct (decide (i = j)) as [<-|Hji].
    + rewrite list_lookup_insert_eq in Hj by (by eapply lookup_lt_Some).
      rewrite list_lookup_insert_eq in Hdj by (by eapply lookup_lt_Some). by simplify_eq.
    + rewrite list_lookup_insert_ne in Hj by done. rewrite list_lookup_insert_ne in Hdj by done.
      eapply go_inv_frame; [by apply (Hgos j)|apply same_go_refl| |congruence].
      apply Hother. apply (Hne j h Hj). congruence.
  - intros s Hlt. rewrite Hother; [by apply Hfresh|].
    pose proof (rel_bound _ _ Hr) as Hb. rewrite Forall_lookup in Hb. specialize (Hb i g Hi). cbn in Hb. lia.
Qed.

Lemma app_run_inv es w0 a :
  worker_rel w0 spec_init -> gos w0 = [] -> Forall (fun m => msg_session m = 1%Z) (written w0) ->
  run app_step (Ok (mkApp NotRun w0 [])) es = Some (Ok a) ->
  app_inv (foldl spec_msg spec_init (dispatched (worker_events es))) a.
Proof.
  intros Hr Hg Hw. revert a. induction es as [|e es IH] using rev_ind; intros a Hrun.
  { injection Hrun as <-. split; cbn; [done|by rewrite Hg|by intros []|].
    intros s Hs. unfold on_wire. induction Hw as [|m ms Hm _ IHw]; [done|].
    by rewrite filter_cons_False by lia. }
  apply run_snoc in Hrun as ([a1|] & Hrun & Hs); [|done]. specialize (IH a1 Hrun).
  unfold worker_events. rewrite omap_app. fold (worker_events es). rewrite dispatched_app, foldl_app.
  destruct e as [e|i accepted]; cbn in Hs |- *.
  - destruct (is_read e) eqn:He; [done|].
    destruct (env_step _ _ e) as [[[l w]|]|] eqn:Henv; [|done..]. injection Hs as <-.
    by apply worker_event_inv.
  - destruct (gos (a_worker a1) !! i) as [g|] eqn:Hi; [|done].
    destruct (a_gos a1 !! i) as [d|] eqn:Hd; [|done].
    apply fmap_Some in Hs as ([w d'] & Hact & [= ->]). by eapply act_event_inv.
Qed.

(** *** Progress of a goroutine by its own events *)

(** The operations of goroutine [i] and the end of its queue's input. *)
Definition own (i : nat) (e : app_event) : Prop :=
  e = Act i true \/ e = WorkerEvent (QueueClosed i).

Definition reaches (i : nat) (a a' : app) : Prop :=
  exists es, Forall (own i) es /\ run app_step (Ok a) es = Some (Ok a').

Lemma reaches_refl i a : reaches i a a.
Proof. by exists []. Qed.

Lemma reaches_step i e a a1 a' :
  own i e -> app_ok convertPayload hs stack unwinding a e = Some (Ok a1) -> reaches i a1 a' -> reaches i a a'.
Proof.
  intros Hown Hstep (es & Hes & Hrun). exists (e :: es). split; [by constructor|]. cbn. by rewrite Hstep.
Qed.

(** It ended, or waits in [Read] for the next message of an open stream. *)
Definition settled (i : nat) (a : app) : Prop :=
  exists g d, gos (a_worker a) !! i = Some g /\ a_gos a !! i = Some d /\
    (prog d = None \/
     exists k, prog d = Some (HRead k) /\ g_closed g = false /\
       HandlerLoop.state_pending (g_queue g) = []).

(** The state in which goroutine [i] is about to run [p]. *)
Record at_prog (sp : spec) (i : nat) (p : handler_prog) (g : handler_go) (d : go) (a : app) : Prop := {
  at_inv : app_inv sp a;
  at_go : gos (a_worker a) !! i = Some g;
  at_answer : a_gos a !! i = Some d;
  at_code : prog d = Some p
}.

Lemma act_step sp i p g d a w d' :
  at_prog sp i p g d a ->
  act convertPayload stack unwinding i true g d (a_worker a) = Some (w, d') ->
  let a1 := mkApp (a_loop a) w (<[i := d']> (a_gos a)) in
  app_ok convertPayload hs stack unwinding a (Act i true) = Some (Ok a1) /\ app_inv sp a1 /\
  a_gos a1 !! i = Some d'.
Proof.
  intros [Hinv Hi Hd _] Hact a1. split; [cbn; by rewrite Hi, Hd, Hact|].
  split; [by eapply act_event_inv|]. by apply list_lookup_insert_eq, lookup_lt_Some with d.
Qed.

(** A send that is accepted happens, and leaves the queues. *)
Lemma send_accepted r r' w : exists w', send true r r' w = Some w' /\ gos w' = gos w.
Proof. unfold send. destruct (drop _ _); by eexists. Qed.

Lemma receive_pending i g w :
  gos w !! i = Some g -> HandlerLoop.state_pending (g_queue g) <> [] ->
  HandlerLoop.returned (g_queue g) = false ->
  exists m w' g', receive i g w = Some (w', Handler.ReadMsg m) /\ gos w' !! i = Some g' /\
    S (length (HandlerLoop.state_pending (g_queue g'))) =
    length (HandlerLoop.state_pending (g_queue g)).
Proof.
  intros Hi Hne Hret. unfold receive, queue_step. rewrite Hret, Hi.
  destruct (g_queue g) as [[[|m q] c]|q]; [done| |done]. cbn. eexists m, _, _.
  split; [done|]. cbn. rewrite list_lookup_insert_eq by (by eapply lookup_lt_Some).
  split; [done|]. cbn. by rewrite HandlerLoop.handler_top_pending.
Qed.

(** The end of the input of a queue with nothing pending. *)
Lemma close_step sp i p g d a :
  at_prog sp i p g d a -> g_closed g = true -> HandlerLoop.state_pending (g_queue g) = [] ->
  HandlerLoop.returned (g_queue g) = false ->
  exists a1 g1, app_ok convertPayload hs stack unwinding a (WorkerEvent (QueueClosed i)) = Some (Ok a1) /\
    at_prog sp i p g1 d a1 /\ HandlerLoop.returned (g_queue g1) = true /\
    HandlerLoop.state_pending (g_queue g1) = [].
Proof.
  intros [Hinv Hi Hd Hp] Hc Hq Hret. pose proof (rel_queue _ _ (ai_rel _ _ Hinv)) as Hf.
  rewrite Forall_lookup in Hf. destruct (Hf i g Hi) as (Hqi & _ & _).
  destruct (env_step (a_loop a) (a_worker a) (QueueClosed i)) as [[[l w]|]|] eqn:Henv.
  2,3: exfalso; cbn in Henv; unfold queue_closed, queue_step in Henv; rewrite Hi, Hc in Henv;
    destruct (g_queue g) as [[[|] [|]]|]; cbn in *; try done; naive_solver.
  pose proof (worker_event_inv sp a (QueueClosed i) l w Hinv eq_refl Henv) as Hinv'.
  cbn in Henv. unfold queue_closed, queue_step in Henv. rewrite Hi, Hc in Henv.
  destruct (HandlerLoop.step (g_queue g) HandlerLoop.Closed) as [q|] eqn:Hstep; [|done].
  injection Henv as <- <-.
  eexists _, _. split; [|split; [split; [exact Hinv'| |exact (lookup_app_l_Some _ _ _ _ Hd)|done]|]].
  - cbn. unfold queue_closed, queue_step. by rewrite Hi, Hc, Hstep.
  - cbn. by apply list_lookup_insert_eq, lookup_lt_Some with g.
  - destruct (g_queue g) as [[[|m ms] [|]]|]; cbn in *; try done. by injection Hstep as <-.
Qed.

Definition settles (sp : spec) (i : nat) (a : app) : Prop :=
  exists a', reaches i a a' /\ app_inv sp a' /\ settled i a'.

Lemma settles_step sp i e a a1 :
  own i e -> app_ok convertPayload hs stack unwinding a e = Some (Ok a1) ->
  settles sp i a1 -> settles sp i a.
Proof. intros Hown Hstep (a' & Hr & H). exists a'. split; [by eapply reaches_step|done]. Qed.

(** The last operation of a handler: its trap. *)
Lemma settles_trap sp i p g d a info :
  at_prog sp i p g d a -> p = match info with Some info => HPanic info | None => HReturn end ->
  settles sp i a.
Proof.
  intros Hat ->.
  destruct (send_accepted (resp d) (Handler.trapRecoverAndClose (g_event g) info stack (resp d)) (a_worker a))
    as (w' & Hs & Hg).
  destruct (act_step sp i _ g d a w'
    (mkAppGo None (Handler.trapRecoverAndClose (g_event g) info stack (resp d)) (reads d) (corrupt d)) Hat)
    as (Hstep & Hinv & Hd).
  { unfold act. rewrite (at_code _ _ _ _ _ _ Hat). destruct info; by rewrite Hs. }
  eapply settles_step; [by left|exact Hstep|]. eexists. split; [apply reaches_refl|]. split; [exact Hinv|].
  eexists g, _. split; [cbn; by rewrite Hg; apply Hat|]. split; [exact Hd|by left].
Qed.

(** An operation on the response goes on with the handler. *)
Lemma settles_response sp i p g d a r' p' :
  at_prog sp i p g d a -> response_op p (resp d) = Some (r', p') ->
  (forall d' a', at_prog sp i p' g d' a' -> settles sp i a') -> settles sp i a.
Proof.
  intros Hat Hop IH. destruct (send_accepted (resp d) r' (a_worker a)) as (w' & Hs & Hg).
  destruct (act_step sp i _ g d a w' (mkAppGo (Some p') r' (reads d) (corrupt d)) Hat)
    as (Hstep & Hinv & Hd).
  { unfold act. rewrite (at_code _ _ _ _ _ _ Hat), Hop, Hs. by destruct p. }
  eapply settles_step; [by left|exact Hstep|]. eapply IH.
  split; [exact Hinv|cbn; by rewrite Hg; apply Hat|exact Hd|done].
Qed.

(** A [Read] at the end of the stream. *)
Lemma settles_read_closed sp i k g d a :
  at_prog sp i (HRead k) g d a -> HandlerLoop.returned (g_queue g) = true ->
  (forall d' a', at_prog sp i (k stream_closed) g d' a' -> settles sp i a') -> settles sp i a.
Proof.
  intros Hat Hret IH.
  destruct (act_step sp i _ g d a (a_worker a)
    (mkAppGo (Some (k stream_closed)) (resp d) (reads d ++ [stream_closed]) (corrupt d)) Hat)
    as (Hstep & Hinv & Hd).
  { unfold act, receive. by rewrite (at_code _ _ _ _ _ _ Hat), Hret. }
  eapply settles_step; [by left|exact Hstep|]. eapply IH. split; [exact Hinv|apply Hat|exact Hd|done].
Qed.

Lemma goroutine_settles sp i n : forall p g d a,
  at_prog sp i p g d a -> length (HandlerLoop.state_pending (g_queue g)) <= n -> settles sp i a.
Proof.
  induction n as [n IHn] using lt_wf_ind.
  induction p as [|info|k IH|data k IH|data k IH|k IH|code message k IH]; intros g d a Hat Hn;
    [by eapply (settles_trap _ _ _ _ _ _ None)|by eapply (settles_trap _ _ _ _ _ _ (Some info))| |..].
  { destruct (HandlerLoop.returned (g_queue g)) eqn:Hret; [by eapply settles_read_closed; eauto|].
    destruct (decide (HandlerLoop.state_pending (g_queue g) = [])) as [Hq|Hq].
    - destruct (g_closed g) eqn:Hc.
      + destruct (close_step _ _ _ _ _ _ Hat Hc Hq Hret) as (a1 & g1 & Hstep & Hat1 & Hret1 & Hq1).
        eapply settles_step; [by right|exact Hstep|]. eapply settles_read_closed; [done..|].
        intros d' a' Hat'. eapply IH; [exact Hat'|]. rewrite Hq1. cbn. lia.
      + exists a. split; [apply reaches_refl|]. split; [apply Hat|].
        exists g, d. split_and!; [apply Hat..|]. right. exists k. by split_and!; [apply Hat| |].
    - destruct (receive_pending _ _ _ (at_go _ _ _ _ _ _ Hat) Hq Hret) as (m & w' & g' & Hrec & Hg' & Hlen).
      destruct (Handler.Read convertPayload (Handler.ReadMsg m)) as [res|] eqn:Hres.
      + destruct (act_step sp i _ g d a w'
          (mkAppGo (Some (k res)) (resp d) (reads d ++ [res]) (corrupt d)) Hat) as (Hstep & Hinv & Hd).
        { unfold act. by rewrite (at_code _ _ _ _ _ _ Hat), Hrec, Hres. }
        eapply settles_step; [by left|exact Hstep|]. eapply (IH res g'); [|lia]. by split.
      + destruct (act_step sp i _ g d a w'
          (mkAppGo (Some (unwinding (HRead k))) (resp d) (reads d) true) Hat) as (Hstep & Hinv & Hd).
        { unfold act. by rewrite (at_code _ _ _ _ _ _ Hat), Hrec, Hres. }
        eapply settles_step; [by left|exact Hstep|].
        eapply (IHn (length (HandlerLoop.state_pending (g_queue g')))); [lia| |done]. by split. }
  all: match type of Hat with at_prog _ _ ?p _ _ _ =>
      destruct (response_op p (resp d)) as [[r' p']|] eqn:Hop end;
    cbn in Hop; match type of Hop with (let (_, _) := ?x in _) = _ => destruct x eqn:Hx end; [|done];
    eapply settles_response; [exact Hat|cbn; by rewrite Hx|];
    injection Hop as <- <-; intros d' a' Hat'; by eapply IH.
Qed.
End Run.

(** A new worker. *)
Lemma new_worker conn_isclosed id protoVersion debug sel w0 :
  newWorkerNG conn_isclosed id protoVersion debug sel = inl w0 ->
  worker_rel w0 spec_init /\ gos w0 = [] /\ Forall (fun m => msg_session m = 1%Z) (written w0).
Proof.
  intros Hnew. split; [by eapply rel_new|]. unfold newWorkerNG, sendHandshake in Hnew. cbv zeta in Hnew.
  case_decide; [|done]. destruct sel; [| |done]; injection Hnew as <-; by repeat constructor.
Qed.

(** ** Properties *)

(** C3 (refinement): in every run of an application, whatever arrives, whatever its
    handlers do and however they interleave with each other and the loop: each
    session invoked has one goroutine; the results of its reads are those of the
    chunks and errors of its session, in order, and the end of the stream once its
    choke came and they are all read; what it has answered is what its handler
    answers to these reads when it is run alone, to its end under the trap: chunks
    and one choke or error. The connection carries these answers, each session's in
    order and apart from the others, all of them until it is closed. *)
Theorem app_serves (convertPayload : list value -> (Z * Z * string) + error)
    (hs : Handler.EventHandlers) (stack : string) (unwinding : handler_prog -> handler_prog)
    (conn_isclosed : bool) (id : string) (protoVersion : Z) (debug : bool) (sel : write_select)
    (w0 : WorkerNG) (es : list app_event) (a : app)
    (Hnew : newWorkerNG conn_isclosed id protoVersion debug sel = inl w0)
    (Hrun : run (app_step convertPayload hs stack unwinding) (Ok (mkApp NotRun w0 [])) es = Some (Ok a)) :
  let w := a_worker a in
  let sp := foldl spec_msg spec_init (dispatched (worker_events es)) in
  streams sp = view_map (gos w) /\ length (a_gos a) = length (gos w) /\
  forall i g d, gos w !! i = Some g -> a_gos a !! i = Some d ->
    on_wire (g_session g) w `sublist_of` Handler.sent (resp d) /\
    (conn_closed w = false -> on_wire (g_session g) w = Handler.sent (resp d)) /\
    (prog d = None -> exists chunks ending,
       Handler.sent (resp d) = Handler.stream_of (g_session g) chunks ending /\
       Handler.is_terminal (g_session g) ending) /\
    (corrupt d = false ->
       (exists st n, streams sp !! g_session g = Some st /\ g_given g `prefix_of` msgs st /\
          Ok <$> reads d = reads_of convertPayload (g_given g) ++ replicate n (Ok stream_closed) /\
          (0 < n -> st = mkStream false (g_given g))) /\
       executed hs stack g d).
Proof.
  intros w sp.
  destruct (new_worker _ _ _ _ _ _ Hnew) as (Hr0 & Hg0 & Hw0).
  destruct (app_run_inv convertPayload hs stack unwinding es w0 a Hr0 Hg0 Hw0 Hrun)
    as [Hr Hlen Hgos _]. fold sp w in Hr, Hgos, Hlen.
  split_and!; [apply Hr|done|]. intros i g d Hi Hd. pose proof (Hgos i g d Hi Hd) as Hg.
  split_and!; [apply Hg|apply Hg| |].
  - intros Hp. pose proof (gi_done _ _ _ _ _ _ Hg Hp) as Hc.
    destruct (gi_stream _ _ _ _ _ _ Hg) as (chunks & ending & Hs & Hcl & Ht).
    rewrite Hc in Hcl. symmetry in Hcl. apply bool_decide_eq_true in Hcl as [m ->].
    rewrite (gi_session _ _ _ _ _ _ Hg) in *. exists chunks, m. split; [done|by apply Ht].
  - intros Hco. split; [|by apply Hg]. destruct (gi_reads _ _ _ _ _ _ Hg Hco) as (n & Hn & Hret).
    exists (view g), n. rewrite (rel_streams _ _ Hr). split_and!; [|by eexists|done|].
    + by apply view_map_lookup with i, Hi; apply Hr.
    + intros Hpos. specialize (Hret Hpos). pose proof (rel_queue _ _ Hr) as Hq.
      rewrite Forall_lookup in Hq. destruct (Hq i g Hi) as (_ & Hp & Ho). unfold view.
      rewrite (Hp Hret), app_nil_r. destruct (g_closed g); [done|]. specialize (Ho eq_refl).
      by destruct (g_queue g).
Qed.

(** No session of an application is ever stuck: in every state that a run
    reaches, the goroutine of any session can go on by its own operations, without
    the loop and the other handlers, until its handler ended and answered, or until
    it waits in [Read] for the next message of an open stream of which it has read
    everything. Once the choke of the session came, it ends. *)
Theorem app_answers (convertPayload : list value -> (Z * Z * string) + error)
    (hs : Handler.EventHandlers) (stack : string) (unwinding : handler_prog -> handler_prog)
    (conn_isclosed : bool) (id : string) (protoVersion : Z) (debug : bool) (sel : write_select)
    (w0 : WorkerNG) (es : list app_event) (a : app) (i : nat)
    (Hnew : newWorkerNG conn_isclosed id protoVersion debug sel = inl w0)
    (Hrun : run (app_step convertPayload hs stack unwinding) (Ok (mkApp NotRun w0 [])) es = Some (Ok a))
    (Hi : i < length (gos (a_worker a))) :
  let sp := foldl spec_msg spec_init (dispatched (worker_events es)) in
  exists es' a' g d,
    Forall (own i) es' /\
    run (app_step convertPayload hs stack unwinding) (Ok a) es' = Some (Ok a') /\
    gos (a_worker a') !! i = Some g /\ a_gos a' !! i = Some d /\
    (prog d = None /\ Handler.closed (resp d) = true \/
     (exists k, prog d = Some (HRead k)) /\ streams sp !! g_session g = Some (mkStream true (g_given g))).
Proof.
  intros sp. destruct (new_worker _ _ _ _ _ _ Hnew) as (Hr0 & Hg0 & Hw0).
  pose proof (app_run_inv convertPayload hs stack unwinding es w0 a Hr0 Hg0 Hw0 Hrun) as Hinv.
  fold sp in Hinv. destruct (lookup_lt_is_Some_2 _ _ Hi) as [g Hg].
  rewrite <- (ai_length _ _ _ _ _ Hinv) in Hi. destruct (lookup_lt_is_Some_2 _ _ Hi) as [d Hd].
  assert (Hs : settles convertPayload hs stack unwinding sp i a).
  { destruct (prog d) as [p|] eqn:Hp; [by eapply goroutine_settles|].
    exists a. split; [apply reaches_refl|]. split; [done|]. exists g, d. auto. }
  destruct Hs as (a' & (es' & Hes & Hrun') & Hinv' & g' & d' & Hg' & Hd' & Hend).
  exists es', a', g', d'. split_and!; [done..|]. destruct Hend as [Hp|(k & Hp & Hc & Hq)].
  - left. split; [done|]. by apply (gi_done _ _ _ _ _ _ (ai_gos _ _ _ _ _ Hinv' i g' d' Hg' Hd')).
  - right. split; [by exists k|]. rewrite (rel_streams _ _ (ai_rel _ _ _ _ _ Hinv')).
    rewrite (view_map_lookup _ i g'); [|apply (ai_rel _ _ _ _ _ Hinv')|done].
    unfold view. by rewrite Hc, Hq, app_nil_r.
Qed.

(** ** Witness: an echo, and a session without a handler *)
Definition sample_handlers : Handler.EventHandlers :=
  Handler.On "echo" (Some (HRead (fun res => HWrite res.1 (fun _ => HReturn)))) Handler.NewEventHandlers.
Definition sample_events : list app_event :=
  [WorkerEvent (RunCall false Sent);
   WorkerEvent (MsgReceived (newInvokeV1 2 "echo") Sent);
   WorkerEvent (MsgReceived (newInvokeV1 3 "none") Sent);
   WorkerEvent (MsgReceived (newChunkV1 2 None) Sent);
   Act 1 true; Act 0 true; Act 0 true; Act 1 true; Act 0 true].

Lemma app_serves_witness :
  match run (app_step (fun _ => inr EOF) sample_handlers "" (fun p => p)) (Ok (mkApp NotRun sample_worker [])) sample_events with
  | Some (Ok a) =>
    on_wire 2 (a_worker a) = [newChunkV1 2 None; newChokeV1 2] /\
    on_wire 3 (a_worker a) = [newErrorV1 3 42 200 "There is no handler for an event none"] /\
    length (a_gos a) = length (gos (a_worker a))
  | _ => False
  end.
Proof.
  destruct (run _ _ _) as [[a|]|] eqn:Hrun; [|vm_compute in Hrun; discriminate..].
  pose proof (app_serves _ _ _ _ false "w" 1 false Sent sample_worker _ a eq_refl Hrun) as (_ & Hlen & _).
  split_and!; [| |exact Hlen]; vm_compute in Hrun; by injection Hrun as <-.
Defined.

Lemma app_answers_witness :
  match run (app_step (fun _ => inr EOF) sample_handlers "" (fun p => p)) (Ok (mkApp NotRun sample_worker []))
          (take 4 sample_events) with
  | Some (Ok a) =>
    exists es', Forall (own 0) es' /\
      is_Some (run (app_step (fun _ => inr EOF) sample_handlers "" (fun p => p)) (Ok a) es')
  | _ => False
  end.
Proof.
  destruct (run _ _ _) as [[a|]|] eqn:Hrun; [|vm_compute in Hrun; discriminate..].
  assert (Hi : 0 < length (gos (a_worker a))) by (vm_compute in Hrun; injection Hrun as <-; cbn; lia).
  destruct (app_answers _ _ _ _ false "w" 1 false Sent sample_worker _ a 0 eq_refl Hrun Hi)
    as (es' & a' & g & d & Hes & Hrun' & _). exists es'. split; [exact Hes|]. by rewrite Hrun'.
Defined.
