(* ===== verification/System.v ===== *)
(** * A process: the application of App.v over the socket of Socket.v

    The worker and its handlers send to and read from an [asyncRWSocket]
    (cocaine12/asocket.go): what App.v takes as the environment of the connection -
    which messages are received, that it is closed, that [Read] ends - is here what
    the socket and its goroutines do. *)
From S2P Require Import Prelude GoTypes Buffers Connection ProtoV1 Worker App.
From S2P Require Socket Handler.
From Stdlib Require Import ZArith Lia.
Import Handler (handler_prog).

Open Scope stdpp_scope.

(** ** Definitions *)

Record system : Type := mkSystem {
  program : app;
  conn : sock
}.

Inductive system_event : Type :=
| Internal (e : sock_event)        (* the goroutines of the socket, and the network *)
| Receives (sel : write_select)    (* the loop of the worker receives from Read() *)
| Program (e : app_event).         (* another event of the worker and its handlers *)

(** What an event of the program does with its connection: it receives, it sends
    what is new in [written], and it closes. *)
Definition conn_events (e : app_event) (w w' : WorkerNG) : list sock_event :=
  (match e with WorkerEvent (MsgReceived _ _) => [Socket.Receive] | _ => [] end) ++
  map Socket.Send (drop (length (written w)) (written w')) ++
  (if decide (close_calls w' = close_calls w) then [] else [Socket.CloseCall]).

(** The event of the program: the message the worker receives is the first of the
    socket; the connection is lost by the socket alone. *)
Definition program_event (s : sock) (e : system_event) : option app_event :=
  match e with
  | Internal _ => None
  | Receives sel =>
    (fun m => WorkerEvent (MsgReceived m sel)) <$> Socket.first_pending (Socket.downstream s)
  | Program (WorkerEvent (MsgReceived _ _ | ConnLost | ReadCloses)) => None
  | Program e => Some e
  end.

(** [IsClosed()] and the end of [Read()], as the socket says. *)
Definition observe (s : sock) (a : app) : app :=
  mkApp (a_loop a)
    (set_conn (a_worker a) (written (a_worker a)) (Socket.closed s)
       (Socket.buffer_returned (Socket.downstream s)) (close_calls (a_worker a)))
    (a_gos a).

Section System.
Context (convertPayload : list value -> (Z * Z * string) + error).
Context (hs : Handler.EventHandlers) (stack : string).
Context (unwinding : handler_prog -> handler_prog).
#[local] Abbreviation app_ok := (app_ok convertPayload hs stack unwinding).
#[local] Abbreviation app_step := (app_step convertPayload hs stack unwinding).

Definition system_ok (p : system) (e : system_event) : option (outcome system) :=
  match e with
  | Internal e =>
    if is_internal e then
      match Socket.sock_step (conn p) e with
      | Some (Ok s) => Some (Ok (mkSystem (observe s (program p)) s))
      | Some Panic => Some Panic
      | None => None
      end
    else None
  | _ =>
    match program_event (conn p) e with
    | Some e =>
      match app_ok (program p) e with
      | Some (Ok a) =>
        match run Socket.step (Ok (conn p)) (conn_events e (a_worker (program p)) (a_worker a)) with
        | Some (Ok s) => Some (Ok (mkSystem (observe s a) s))
        | Some Panic => Some Panic
        | None => None
        end
      | Some Panic => Some Panic
      | None => None
      end
    | None => None
    end
  end.

Definition system_step (o : outcome system) (e : system_event) : option (outcome system) :=
  match o with
  | Panic => None
  | Ok p => system_ok p e
  end.

(** [newWorkerNG] over a socket that has run for a while: its handshake is sent. *)
Definition launch (before : list sock_event) (id : string) (protoVersion : Z) (debug : bool)
    (sel : write_select) : option system :=
  match run Socket.step (Ok Socket.newAsyncRW) before with
  | Some (Ok s) =>
    match newWorkerNG (Socket.closed s) id protoVersion debug sel with
    | inl w =>
      if select_ready sel w && forallb is_internal before then
        match run Socket.step (Ok s) (map Socket.Send (written w)) with
        | Some (Ok s) => Some (mkSystem (observe s (mkApp NotRun w [])) s)
        | _ => None
        end
      else None
    | inr _ => None
    end
  | _ => None
  end.

End System.

(** ** Specification *)

(** The messages that the network delivers. *)
Definition network (es : list system_event) : list Message :=
  Socket.decoded (omap (fun e => match e with Internal e => Some e | _ => None end) es).

(** Those of a session. *)
Definition of_session (s : Z) (ms : list Message) : list Message :=
  filter (fun m => msg_session m = s) ms.

(** ** Lemmas: the connection as the worker sees it *)

(** What an event of the program does to the worker's part of the connection. *)
Record conn_step (w w' : WorkerNG) : Prop := {
  cs_written : exists ms, written w' = written w ++ ms;
  cs_closed : conn_closed w' = true -> conn_closed w = true \/ close_calls w' <> close_calls w;
  cs_read : read_closed w' = read_closed w;
  cs_calls : close_calls w' = close_calls w \/ (close_calls w = 0 /\ close_calls w' = 1);
  cs_flags : flags_ok w'
}.

Lemma conn_step_refl w w' :
  life w' = life w -> flags_ok w -> conn_step w w'.
Proof.
  intros [= Hw Hc Hr Hk Ht Hs] Hf. split; rewrite ?Hc, ?Hk; auto; [|by unfold flags_ok; rewrite Ht, Hk, Hs, Hc].
  exists []. by rewrite app_nil_r.
Qed.

Lemma conn_step_life w w' w'' : life w'' = life w' -> conn_step w w' -> conn_step w w''.
Proof.
  intros [= Hw Hc Hr Hk Ht Hs] [Hms Hcl Hrd Hca Hf]. unfold flags_ok in Hf.
  split; unfold flags_ok; by rewrite ?Hw, ?Hc, ?Hr, ?Hk, ?Ht, ?Hs.
Qed.

Lemma conn_step_before w w1 w' : life w1 = life w -> conn_step w1 w' -> conn_step w w'.
Proof.
  intros [= Hw Hc Hr Hk Ht Hs] [Hms Hcl Hrd Hca Hf].
  rewrite Hw in Hms. rewrite Hc, Hk in Hcl. rewrite Hr in Hrd. rewrite Hk in Hca. by split.
Qed.

Lemma Stop_conn_step w w' : conn_step w w' -> conn_step w (Stop w').
Proof.
  intros [Hms Hcl Hrd Hca Hf]. destruct (Stop_flags w' Hf) as [Hf' _].
  unfold Stop, isStopped in *. destruct (stopped w') eqn:Hs; [by split|]. split; cbn; try done.
  - right. destruct Hf as (_ & Hk & _). rewrite Hs in Hk. lia.
  - destruct Hf as (_ & Hk & _). rewrite Hs in Hk. rewrite Hk. right. lia.
Qed.

Lemma select_conn_step sel m w : flags_ok w -> conn_step w (select_write sel m w).
Proof.
  intros Hf. destruct sel; [|by apply conn_step_refl..]. split; cbn; auto. by exists [m].
Qed.

Lemma heartbeat_conn_step sel w : flags_ok w -> conn_step w (onHeartbeatTimeout sel w).
Proof.
  intros Hf. unfold onHeartbeatTimeout. set (w1 := set_timers _ _ _).
  apply (conn_step_before w w1); [done|]. by apply select_conn_step.
Qed.

Lemma env_conn l w e l' w' :
  env_step l w e = Some (Ok (l', w')) -> flags_ok w -> e <> ConnLost -> e <> ReadCloses ->
  conn_step w w'.
Proof.
  intros Hs Hf Hlost Hread. destruct (step_life _ _ _ _ _ Hs) as [Hl _].
  refine (conn_step_life _ _ _ Hl _).
  destruct e as [th sel|m sel| |sel| | | |i|i| | | | |]; cbn [life_step]; try done;
    try (by apply conn_step_refl).
  - by apply heartbeat_conn_step.
  - assert (Ht : conn_step w (if is_terminate m then Stop (select_write sel m w) else w)).
    { destruct (is_terminate m); [by apply Stop_conn_step, select_conn_step|by apply conn_step_refl]. }
    destruct (is_heartbeat m); [|done]. by refine (conn_step_life _ _ _ _ Ht).
  - eapply conn_step_before; [|by apply heartbeat_conn_step]. done.
  - apply Stop_conn_step. by apply conn_step_refl.
  - by apply Stop_conn_step, conn_step_refl.
Qed.

Lemma send_conn accepted r r' w w' : send accepted r r' w = Some w' -> flags_ok w -> conn_step w w'.
Proof.
  intros Hs Hf. unfold send in Hs. destruct (drop _ _) as [|m l].
  { injection Hs as <-. by apply conn_step_refl. }
  destruct accepted.
  - injection Hs as <-. exact (select_conn_step Sent m w Hf).
  - destruct (Worker.conn_closed w); [|done]. injection Hs as <-. by apply conn_step_refl.
Qed.

Lemma act_conn convertPayload stack unwinding i accepted g d w w' d' :
  act convertPayload stack unwinding i accepted g d w = Some (w', d') -> flags_ok w -> conn_step w w'.
Proof.
  intros Hact Hf.
  assert (Hresp : forall r' q, (fun w => (w, mkAppGo q r' (reads d) (corrupt d))) <$> send accepted (resp d) r' w
    = Some (w', d') -> conn_step w w').
  { intros r' q (w1 & Hs & [= -> _])%fmap_Some. by eapply send_conn. }
  unfold act in Hact. destruct (prog d) as [p|]; [|done].
  destruct p; try (by eapply Hresp);
    try (destruct (response_op _ _) as [[r' p']|]; [by eapply Hresp|done]).
  destruct (receive i g w) as [[w1 e]|] eqn:Hr; [|done].
  assert (w1 = w') by (destruct (Handler.Read _ _); by injection Hact). subst w1.
  unfold receive in Hr. destruct (Buffers.HandlerLoop.returned _).
  { injection Hr as <- <-. by apply conn_step_refl. }
  destruct (head _); [|done]. apply fmap_Some in Hr as (w1 & Hq & [= -> _]).
  unfold queue_step in Hq. destruct (gos w !! i); [|done]. destruct (Buffers.HandlerLoop.step _ _); [|done].
  injection Hq as <-. by apply conn_step_refl.
Qed.

(** An event of the program. *)
Lemma app_conn convertPayload hs stack unwinding a e a' :
  app_ok convertPayload hs stack unwinding a e = Some (Ok a') -> flags_ok (a_worker a) ->
  e <> WorkerEvent ConnLost -> e <> WorkerEvent ReadCloses ->
  conn_step (a_worker a) (a_worker a').
Proof.
  intros Hstep Hf He1 He2. destruct e as [e|i accepted]; cbn in Hstep.
  - destruct (is_read e); [done|].
    destruct (env_step _ _ e) as [[[l w]|]|] eqn:Henv; [|done..]. injection Hstep as <-.
    eapply env_conn; [done..| |]; congruence.
  - destruct (gos (a_worker a) !! i) as [g|]; [|done]. destruct (a_gos a !! i) as [d|]; [|done].
    apply fmap_Some in Hstep as ([w d'] & Hact & [= ->]). by eapply act_conn.
Qed.

(** ** Lemmas: the socket under the events of the program *)

Definition receives (e : app_event) : bool :=
  match e with WorkerEvent (MsgReceived _ _) => true | _ => false end.

Lemma conn_events_decoded e w w' : Socket.decoded (conn_events e w w') = [].
Proof.
  unfold conn_events. rewrite !decoded_app.
  assert (Hs : forall ms : list Message, Socket.decoded (map Socket.Send ms) = []) by (by induction ms).
  rewrite Hs. by destruct e as [[]|]; cbn; case_decide.
Qed.

(** What the worker does to a socket that only it closes never panics. *)
Lemma conn_events_run e w w' ss s o :
  conn_step w w' -> run Socket.step (Ok Socket.newAsyncRW) ss = Some (Ok s) ->
  existsb Socket.is_CloseCall ss = bool_decide (close_calls w <> 0) ->
  run Socket.step (Ok s) (conn_events e w w') = Some o ->
  exists s', o = Ok s' /\ written w' = written w ++ Socket.accepted (conn_events e w w') /\
    Socket.received (Ok s) (conn_events e w w') =
      (if receives e then opt_list (Socket.first_pending (Socket.downstream s)) else []) /\
    existsb Socket.is_CloseCall (ss ++ conn_events e w w') = bool_decide (close_calls w' <> 0) /\
    (Socket.closed s = true \/ close_calls w' <> close_calls w -> Socket.closed s' = true) /\
    (Socket.buffer_returned (Socket.downstream s) = true ->
       Socket.buffer_returned (Socket.downstream s') = true).
Proof.
  intros [(ms & Hms) _ _ Hca _] Hss Hcl Hrun. unfold conn_events in *.
  rewrite Hms, drop_app_length in *.
  set (pre := match e with WorkerEvent (MsgReceived _ _) => [Socket.Receive] | _ => [] end) in *.
  assert (Hpre : forall o1, run Socket.step (Ok s) pre = Some o1 -> exists s1, o1 = Ok s1 /\
    Socket.received (Ok s) pre = (if receives e then opt_list (Socket.first_pending (Socket.downstream s)) else []) /\
    Socket.closed s1 = Socket.closed s /\
    (Socket.buffer_returned (Socket.downstream s) = true ->
       Socket.buffer_returned (Socket.downstream s1) = true)).
  { unfold pre. destruct e as [[]|]; try (intros o1 [= <-]; by exists s). apply receive_run. }
  rewrite run_app in Hrun. destruct (run Socket.step (Ok s) pre) as [o1|] eqn:Hr1; [|done].
  destruct (Hpre o1 eq_refl) as (s1 & -> & Hrec1 & Hc1 & Hd1).
  rewrite run_app in Hrun. destruct (run Socket.step (Ok s1) (map Socket.Send ms)) as [o2|] eqn:Hr2; [|done].
  destruct (sends_run _ _ _ Hr2) as (s2 & -> & Hrec2 & Hc2 & Hd2).
  assert (Hpacc : Socket.accepted pre = []) by (unfold pre; by destruct e as [[]|]).
  assert (Hpcl : existsb Socket.is_CloseCall pre = false) by (unfold pre; by destruct e as [[]|]).
  rewrite (received_app _ _ _ _ Hr1), (received_app _ _ _ _ Hr2), Hrec1, Hrec2, !accepted_app, Hpacc,
    sends_accepted, !existsb_app, Hpcl, sends_close, Hcl.
  case_decide as Hsame.
  - injection Hrun as <-. exists s2. rewrite Hc2, Hc1, Hd2, !app_nil_r, Hsame.
    split_and!; try done; [by rewrite orb_false_r|intros [?|[]]; done].
  - destruct Hca as [?|[H0 H1]]; [done|]. rewrite H0, H1 in *.
    assert (Hall : run Socket.step (Ok Socket.newAsyncRW) (ss ++ pre ++ map Socket.Send ms) = Some (Ok s2))
      by by rewrite run_app, Hss, run_app, Hr1.
    destruct (close_run _ _ o Hall) as (s' & -> & Hc' & Hd'); [|done|].
    { by rewrite !existsb_app, Hcl, Hpcl, sends_close. }
    exists s'. rewrite Hd', Hd2. split_and!; try done; [by rewrite app_nil_r|].
    destruct (receives e); by rewrite ?app_nil_r.
Qed.

(** ** Lemmas: the two views of a run *)
Section Views.
Context (convertPayload : list value -> (Z * Z * string) + error).
Context (hs : Handler.EventHandlers) (stack : string).
Context (unwinding : handler_prog -> handler_prog).
#[local] Abbreviation app_step := (app_step convertPayload hs stack unwinding).
#[local] Abbreviation system_step := (system_step convertPayload hs stack unwinding).
Context (w0 : WorkerNG) (Hrel : worker_rel w0 spec_init) (Hgos : gos w0 = []).
Context (Hwritten : Forall (fun m => msg_session m = 1%Z) (written w0)).

(** A run of the process is one of the application, [aes], and one of the socket,
    [ses], that agree on the messages they exchange. *)
Record views (aes : list app_event) (ses : list sock_event) (p : system) : Prop := {
  v_program : run app_step (Ok (mkApp NotRun w0 [])) aes = Some (Ok (program p));
  v_conn : run Socket.step (Ok Socket.newAsyncRW) ses = Some (Ok (conn p));
  v_written : Socket.accepted ses = written (a_worker (program p));
  v_received : Socket.received (Ok Socket.newAsyncRW) ses = dispatched (worker_events aes);
  v_closed : conn_closed (a_worker (program p)) = Socket.closed (conn p);
  v_read : read_closed (a_worker (program p)) = Socket.buffer_returned (Socket.downstream (conn p));
  v_calls : existsb Socket.is_CloseCall ses = bool_decide (close_calls (a_worker (program p)) <> 0);
  v_flags : flags_ok (a_worker (program p))
}.

(** What the worker sees of its connection are events of its environment. *)
Lemma conn_observe_run s a :
  (conn_closed (a_worker a) = true -> Socket.closed s = true) ->
  (read_closed (a_worker a) = true -> Socket.buffer_returned (Socket.downstream s) = true) ->
  length (a_gos a) = length (gos (a_worker a)) ->
  exists es, run app_step (Ok a) es = Some (Ok (observe s a)) /\ dispatched (worker_events es) = [].
Proof.
  intros Hc Hr Hlen. set (es1 := if Socket.closed s then [WorkerEvent ConnLost] else []).
  set (es2 := if Socket.buffer_returned (Socket.downstream s) then [WorkerEvent ReadCloses] else []).
  exists (es1 ++ es2). split.
  - rewrite run_app. destruct a as [l w gs]. cbn in Hlen. unfold observe, es1, es2.
    assert (Hdrop : drop (length gs) (gos w) = []) by (by rewrite Hlen, drop_all).
    destruct (Socket.closed s), (Socket.buffer_returned (Socket.downstream s)), w as [? ? [] [] ?];
      cbn in Hc, Hr, Hdrop |- *; try (by specialize (Hc eq_refl)); try (by specialize (Hr eq_refl));
      by rewrite ?Hdrop; cbn; rewrite ?app_nil_r, ?Hdrop; cbn; rewrite ?app_nil_r.
  - unfold es1, es2. by destruct (Socket.closed s), (Socket.buffer_returned _).
Qed.

(** The views after some events of both sides, when the worker observes its socket. *)
Lemma views_extend aes ses p aes' ses' a s :
  views aes ses p ->
  run app_step (Ok (program p)) aes' = Some (Ok a) ->
  run Socket.step (Ok (conn p)) ses' = Some (Ok s) ->
  written (a_worker a) = written (a_worker (program p)) ++ Socket.accepted ses' ->
  Socket.received (Ok (conn p)) ses' = dispatched (worker_events aes') ->
  (conn_closed (a_worker a) = true -> Socket.closed s = true) ->
  (read_closed (a_worker a) = true -> Socket.buffer_returned (Socket.downstream s) = true) ->
  existsb Socket.is_CloseCall (ses ++ ses') = bool_decide (close_calls (a_worker a) <> 0) ->
  flags_ok (a_worker a) ->
  exists aes1, views aes1 (ses ++ ses') (mkSystem (observe s a) s).
Proof using Hrel Hgos Hwritten.
  intros [Hp Hs Hw Hr _ _ _ _] Ha Hs' Hw' Hr' Hc Hrd Hk Hf.
  assert (Hrun : run app_step (Ok (mkApp NotRun w0 [])) (aes ++ aes') = Some (Ok a))
    by by rewrite run_app, Hp.
  pose proof (app_run_inv _ _ _ _ _ _ _ Hrel Hgos Hwritten Hrun) as Hinv.
  destruct (conn_observe_run s a Hc Hrd (ai_length _ _ _ _ _ Hinv)) as (es & Hes & Hnone).
  exists ((aes ++ aes') ++ es). split; cbn; try done.
  - by rewrite run_app, Hrun.
  - by rewrite run_app, Hs.
  - by rewrite accepted_app, Hw, Hw'.
  - unfold worker_events. rewrite (received_app _ _ _ _ Hs), Hr, Hr', !omap_app, !dispatched_app.
    fold (worker_events aes) (worker_events aes') (worker_events es). by rewrite Hnone, app_nil_r.
  - destruct Hf as (Ht & Hcl & Hst). split_and!; [done..|]. cbn. auto.
Qed.

Lemma program_event_inv s e ev :
  program_event s e = Some ev ->
  ev <> WorkerEvent ConnLost /\ ev <> WorkerEvent ReadCloses /\
  dispatched (worker_events [ev]) =
    if receives ev then opt_list (Socket.first_pending (Socket.downstream s)) else [].
Proof.
  destruct e as [e|sel|[e|i acc]]; cbn; [done| | |].
  - intros (m & Hm & ->)%fmap_Some. cbn. by rewrite Hm.
  - by destruct e; intros [= <-].
  - by intros [= <-].
Qed.

(** An event of the program. *)
Lemma views_program aes ses p e ev o :
  views aes ses p -> program_event (conn p) e = Some ev ->
  match app_ok convertPayload hs stack unwinding (program p) ev with
  | Some (Ok a) =>
    match run Socket.step (Ok (conn p)) (conn_events ev (a_worker (program p)) (a_worker a)) with
    | Some (Ok s) => Some (Ok (mkSystem (observe s a) s))
    | Some Panic => Some Panic
    | None => None
    end
  | Some Panic => Some Panic
  | None => None
  end = Some o ->
  match o with
  | Ok p' => exists aes' ses', views aes' (ses ++ ses') p' /\ Socket.decoded ses' = []
  | Panic => app_ok convertPayload hs stack unwinding (program p) ev = Some Panic
  end.
Proof using Hrel Hgos Hwritten.
  intros Hv Hev. pose proof Hv as [Hp Hs Hw Hr Hc Hrd Hk Hf].
  destruct (program_event_inv _ _ _ Hev) as (He1 & He2 & Hdisp).
  destruct (app_ok _ _ _ _ _ ev) as [[a|]|] eqn:Ha; [|by intros [= <-]|done].
  pose proof (app_conn _ _ _ _ _ _ _ Ha Hf He1 He2) as Hconn.
  destruct (run Socket.step (Ok (conn p)) _) as [o1|] eqn:Hrun; [|done].
  destruct (conn_events_run _ _ _ _ _ _ Hconn Hs Hk Hrun)
    as (s' & -> & Hw' & Hr' & Hk' & Hc' & Hd'). intros [= <-].
  assert (Hext : exists aes', views aes' (ses ++ conn_events ev (a_worker (program p)) (a_worker a))
    (mkSystem (observe s' a) s')).
  { refine (views_extend aes ses p [ev] _ a s' Hv _ Hrun Hw' _ _ _ Hk' (cs_flags _ _ Hconn)).
    - cbn [run App.app_step]. by rewrite Ha.
    - by rewrite Hdisp.
    - intros Hcl. apply Hc'. rewrite <- Hc. by apply (cs_closed _ _ Hconn).
    - intros Hrd'. apply Hd'. rewrite <- Hrd, <- Hrd'. symmetry. apply Hconn. }
  destruct Hext as [aes' Hext]. eexists _, _. split; [exact Hext|apply conn_events_decoded].
Qed.

Lemma views_step aes ses p e o :
  views aes ses p -> system_ok convertPayload hs stack unwinding p e = Some o ->
  match o with
  | Ok p' => exists aes' ses', views aes' (ses ++ ses') p' /\ Socket.decoded ses' = network [e]
  | Panic => exists ev, program_event (conn p) e = Some ev /\
      app_ok convertPayload hs stack unwinding (program p) ev = Some Panic
  end.
Proof using Hrel Hgos Hwritten.
  intros Hv Hstep. unfold system_ok in Hstep. destruct e as [e|sel|e].
  2-3: destruct (program_event (conn p) _) as [ev|] eqn:Hev; [|done];
    pose proof (views_program _ _ _ _ _ _ Hv Hev Hstep) as H; destruct o; [exact H|by exists ev].
  pose proof Hv as [Hp Hs Hw Hr Hc Hrd Hk Hf].
  destruct (is_internal e) eqn:Hi; [|done].
  destruct (Socket.sock_step (conn p) e) as [o1|] eqn:Hse; [|done].
  destruct (internal_step _ _ _ Hi Hse) as (s' & -> & Hacc & Hrec & Hcall & Hc' & Hd'). injection Hstep as <-.
  destruct (views_extend aes ses p [] [e] (program p) s' Hv) as [aes' Hv']; try done.
  - cbn [run Socket.step]. by rewrite Hse.
  - by rewrite Hacc, app_nil_r.
  - by rewrite Hc.
  - by rewrite Hrd.
  - rewrite existsb_app, Hk. cbn. by rewrite Hcall, !orb_false_r.
  - exists aes', [e]. split; [done|]. unfold network. cbn. by destruct e.
Qed.
End Views.

(** *** The start of a process *)

(** A new worker has sent nothing but its handshake, and is not stopped. *)
Lemma new_worker_conn cc id pv dbg sel w0 :
  newWorkerNG cc id pv dbg sel = inl w0 ->
  conn_closed w0 = cc /\ read_closed w0 = false /\ close_calls w0 = 0 /\ flags_ok w0.
Proof.
  unfold newWorkerNG, sendHandshake. cbv zeta. case_decide; [|done].
  destruct sel; [| |done]; by intros [= <-].
Qed.

Lemma launch_views convertPayload hs stack unwinding before id pv dbg sel p :
  launch before id pv dbg sel = Some p ->
  exists s w0 aes ses, run Socket.step (Ok Socket.newAsyncRW) before = Some (Ok s) /\
    newWorkerNG (Socket.closed s) id pv dbg sel = inl w0 /\
    views convertPayload hs stack unwinding w0 aes ses p /\
    Socket.decoded ses = Socket.decoded before.
Proof.
  unfold launch. destruct (run Socket.step _ before) as [[s|]|] eqn:Hb; [|done..].
  destruct (newWorkerNG _ _ _ _ _) as [w0|] eqn:Hnew; [|done].
  destruct (_ && _) eqn:Hok; [|done]. apply andb_true_iff in Hok as [_ Hint].
  destruct (run Socket.step (Ok s) _) as [o|] eqn:Hs; [|done].
  destruct (sends_run _ _ _ Hs) as (s' & -> & Hr & Hc & Hd). intros [= <-].
  destruct (internal_run _ _ _ Hint Hb) as (Ha0 & Hr0 & Hc0).
  destruct (new_worker _ _ _ _ _ _ Hnew) as (Hrel & Hgos & Hw0).
  destruct (new_worker_conn _ _ _ _ _ _ Hnew) as (Hcc & Hrd & Hk & Hf).
  destruct (conn_observe_run convertPayload hs stack unwinding s' (mkApp NotRun w0 []))
    as (aes & Haes & Hnone); cbn; [congruence|congruence|by rewrite Hgos|].
  exists s, w0, aes, (before ++ map Socket.Send (written w0)). split_and!; [done|done| |].
  - split; cbn; try done.
    + by rewrite run_app, Hb.
    + by rewrite accepted_app, Ha0, sends_accepted.
    + by rewrite (received_app _ _ _ _ Hb), Hr0, Hr, Hnone.
    + by rewrite existsb_app, Hc0, sends_close, Hk.
    + destruct Hf as (? & ? & Hst). split_and!; [done..|]. cbn. intros Hst0. rewrite Hc.
      by rewrite <- Hcc, Hst.
  - rewrite decoded_app.
    assert (Hn : forall ms : list Message, Socket.decoded (map Socket.Send ms) = []) by (by induction ms).
    by rewrite Hn, app_nil_r.
Qed.

(** *** Runs of a process *)

Lemma network_app es1 es2 : network (es1 ++ es2) = network es1 ++ network es2.
Proof. unfold network. by rewrite omap_app, decoded_app. Qed.

(** The worker panics only at an invoke without an event. *)
Lemma app_panic convertPayload hs stack unwinding sp a ev :
  worker_rel (a_worker a) sp ->
  app_ok convertPayload hs stack unwinding a ev = Some Panic ->
  exists m sel, ev = WorkerEvent (MsgReceived m sel) /\ empty_invoke (spec_max sp) m.
Proof.
  intros Hr H. destruct ev as [e|i acc]; cbn in H.
  - destruct (is_read e); [done|].
    destruct (env_step (a_loop a) (a_worker a) e) as [[[l w]|]|] eqn:He; [done| |done].
    destruct (rel_step _ _ _ _ _ Hr He) as (m & sel & -> & Hm). by exists m, sel.
  - destruct (gos (a_worker a) !! i), (a_gos a !! i); try done.
    by apply fmap_Some in H as ([] & _ & ?).
Qed.

Lemma system_run convertPayload hs stack unwinding before id pv dbg sel p0 es o :
  launch before id pv dbg sel = Some p0 ->
  run (system_step convertPayload hs stack unwinding) (Ok p0) es = Some o ->
  exists s w0, run Socket.step (Ok Socket.newAsyncRW) before = Some (Ok s) /\
    newWorkerNG (Socket.closed s) id pv dbg sel = inl w0 /\
    match o with
    | Ok p => exists aes ses, views convertPayload hs stack unwinding w0 aes ses p /\
        Socket.decoded ses = Socket.decoded before ++ network es
    | Panic => exists es' p sel' m, es = es' ++ [Receives sel'] /\
        run (system_step convertPayload hs stack unwinding) (Ok p0) es' = Some (Ok p) /\
        Socket.first_pending (Socket.downstream (conn p)) = Some m /\
        msg_session m <> v1UtilitySession /\ msg_type m = v1Invoke /\ Payload m = []
    end.
Proof.
  intros Hl Hrun.
  destruct (launch_views convertPayload hs stack unwinding _ _ _ _ _ _ Hl)
    as (s & w0 & aes0 & ses0 & Hb & Hnew & Hv0 & Hd0).
  exists s, w0. split; [done|]. split; [done|].
  destruct (new_worker _ _ _ _ _ _ Hnew) as (Hrel & Hgos & Hw0).
  revert o Hrun. induction es as [|e es IH] using rev_ind; intros o Hrun.
  { injection Hrun as <-. exists aes0, ses0. unfold network. cbn. by rewrite app_nil_r. }
  apply run_snoc in Hrun as ([p|] & Hrun & Hs); [|done].
  destruct (IH _ Hrun) as (aes & ses & Hv & Hd). cbn in Hs.
  pose proof (views_step convertPayload hs stack unwinding w0 Hrel Hgos Hw0 aes ses p e o Hv Hs) as Hst.
  destruct o as [p'|].
  - destruct Hst as (aes' & ses' & Hv' & Hd'). exists aes', (ses ++ ses'). split; [done|].
    by rewrite decoded_app, Hd, Hd', network_app, (assoc_L (++)).
  - destruct Hst as (ev & Hev & Hp).
    pose proof (app_run_inv _ _ _ _ _ _ _ Hrel Hgos Hw0 (v_program _ _ _ _ _ _ _ _ Hv)) as Hinv.
    destruct (app_panic _ _ _ _ _ _ _ (ai_rel _ _ _ _ _ Hinv) Hp) as (m & sel' & -> & _ & Hm).
    exists es, p. destruct e as [e|sel2|[e|]]; cbn in Hev; try done.
    + apply fmap_Some in Hev as (m' & Hm' & [= -> ->]). by exists sel2, m'.
    + by destruct e.
Qed.

(** ** Properties *)


(** ** Witness: an echo over a connection that breaks *)
Definition sample_system_events : list system_event :=
  [Internal Socket.WriteOk; Program (WorkerEvent (RunCall false Sent));
   Internal (Socket.ReadOk (newInvokeV1 2 "echo")); Internal Socket.ReadPush; Receives Sent;
   Internal (Socket.ReadOk (newChunkV1 2 None)); Internal Socket.ReadPush; Receives Sent;
   Program (Act 0 true); Program (Act 0 true); Program (Act 0 true);
   Internal Socket.WriteOk; Internal Socket.WriteOk; Internal Socket.WriteErr].

