(* ===== verification/Progress.v ===== *)
(** * Progress of a process over its socket

    While the connection is open, a process of System.v can always finish what the
    network gave it: the goroutines of the socket, the loop of the worker and the
    handlers have steps that empty the socket in both directions and bring every
    handler to its end or to a read of an open stream. *)
From S2P Require Import Prelude GoTypes Buffers Connection ProtoV1 Worker App System.
From S2P Require Socket Handler.
From Stdlib Require Import ZArith Lia.
Import Handler (handler_prog, HRead).

Open Scope stdpp_scope.

(** ** Lemmas: the steps of the process *)
Section Progress.
Context (convertPayload : list value -> (Z * Z * string) + error).
Context (hs : Handler.EventHandlers) (stack : string).
Context (unwinding : handler_prog -> handler_prog).
#[local] Abbreviation app_ok := (app_ok convertPayload hs stack unwinding).
#[local] Abbreviation app_step := (app_step convertPayload hs stack unwinding).
#[local] Abbreviation system_ok := (system_ok convertPayload hs stack unwinding).
#[local] Abbreviation system_step := (system_step convertPayload hs stack unwinding).
#[local] Abbreviation settled := App.settled.
Context (w0 : WorkerNG) (Hrel : worker_rel w0 spec_init) (Hgos : gos w0 = []).
Context (Hwritten : Forall (fun m => msg_session m = 1%Z) (written w0)).
#[local] Abbreviation views := (views convertPayload hs stack unwinding w0).

Lemma observe_same s a :
  conn_open s -> conn_closed (a_worker a) = false -> read_closed (a_worker a) = false ->
  System.observe s a = a.
Proof.
  intros Ho Hc Hr. destruct a as [l [] g]. cbn in *. unfold System.observe. cbn.
  pose proof (co_closed _ Ho) as Hcl. pose proof (open_not_returned _ (co_down _ Ho)) as Hret.
  cbn in Hret. by rewrite Hcl, Hret, Hc, Hr.
Qed.

(** An event of the program that does not close an open connection is possible. *)
Lemma program_possible p e ev a :
  conn_open (conn p) -> program_event (conn p) e = Some ev -> app_ok (program p) ev = Some (Ok a) ->
  close_calls (a_worker a) = close_calls (a_worker (program p)) ->
  conn_closed (a_worker a) = false -> read_closed (a_worker a) = false ->
  (receives ev = true -> Socket.down_pending (conn p) <> []) ->
  exists s', system_ok p e = Some (Ok (mkSystem a s')) /\ conn_open s' /\
    down_left s' = if receives ev then tail (down_left (conn p)) else down_left (conn p).
Proof.
  intros Ho Hev Ha Hk Hc Hr Hd.
  assert (Hrun : exists s', run Socket.step (Ok (conn p)) (conn_events ev (a_worker (program p)) (a_worker a)) =
      Some (Ok s') /\ conn_open s' /\
      down_left s' = if receives ev then tail (down_left (conn p)) else down_left (conn p)).
  { unfold conn_events. rewrite decide_True by done. rewrite app_nil_r.
    destruct (receives ev) eqn:Hrec.
    - destruct (Socket.down_pending (conn p)) as [|m ms] eqn:Hp; [by specialize (Hd eq_refl)|].
      destruct (open_receive _ _ _ Ho Hp) as (s1 & Hs1 & Ho1 & Hp1 & Hh1 & _).
      destruct (open_sends s1 (drop (length (written (a_worker (program p)))) (written (a_worker a))) Ho1)
        as (s' & Hs' & Ho' & Hd' & _).
      exists s'. split_and!; [|done|unfold down_left in *; by rewrite Hd', Hp, Hp1, Hh1].
      destruct ev as [[]|]; try done. rewrite run_app. cbn [run Socket.step]. by rewrite Hs1.
    - destruct (open_sends (conn p) (drop (length (written (a_worker (program p)))) (written (a_worker a))) Ho)
        as (s' & Hs' & Ho' & Hd' & _).
      exists s'. split_and!; [|done|done]. destruct ev as [[]|]; done. }
  destruct Hrun as (s' & Hrun & Ho' & Hd'). exists s'. split; [|done].
  unfold System.system_ok. destruct e as [e|sel|e]; [done|..]; rewrite Hev, Ha, Hrun; by rewrite observe_same.
Qed.

(** What an operation of goroutine [i] leaves alone. *)
Record own_frame (i : nat) (a a' : app) : Prop := {
  of_loop : a_loop a' = a_loop a;
  of_calls : close_calls (a_worker a') = close_calls (a_worker a);
  of_closed : conn_closed (a_worker a') = conn_closed (a_worker a);
  of_read : read_closed (a_worker a') = read_closed (a_worker a);
  of_length : length (gos (a_worker a')) = length (gos (a_worker a));
  of_others : forall j, j <> i -> gos (a_worker a') !! j = gos (a_worker a) !! j /\
    a_gos a' !! j = a_gos a !! j
}.

Lemma queue_step_frame i e w w' :
  queue_step i e w = Some w' ->
  life w' = life w /\ length (gos w') = length (gos w) /\ forall j, j <> i -> gos w' !! j = gos w !! j.
Proof.
  unfold queue_step. destruct (gos w !! i); [|done]. destruct (HandlerLoop.step _ _); [|done].
  intros [= <-]. split; [done|]. cbn. rewrite length_insert. split; [done|].
  intros j Hj. by apply list_lookup_insert_ne.
Qed.

Lemma act_frame i g d w w' d' :
  act convertPayload stack unwinding i true g d w = Some (w', d') ->
  close_calls w' = close_calls w /\ conn_closed w' = conn_closed w /\ read_closed w' = read_closed w /\
  length (gos w') = length (gos w) /\ forall j, j <> i -> gos w' !! j = gos w !! j.
Proof.
  intros Hact.
  assert (Hresp : forall r' q, (fun w => (w, mkAppGo q r' (reads d) (corrupt d))) <$> send true (resp d) r' w
    = Some (w', d') -> close_calls w' = close_calls w /\ conn_closed w' = conn_closed w /\
      read_closed w' = read_closed w /\ length (gos w') = length (gos w) /\
      forall j, j <> i -> gos w' !! j = gos w !! j).
  { intros r' q (w1 & Hs & [= -> _])%fmap_Some. unfold send in Hs.
    destruct (drop _ _); by injection Hs as <-. }
  unfold act in Hact. destruct (prog d) as [p|]; [|done].
  destruct p; try (by eapply Hresp);
    try (destruct (response_op _ _) as [[r' p']|]; [by eapply Hresp|done]).
  destruct (receive i g w) as [[w1 e]|] eqn:Hr; [|done].
  assert (w1 = w') by (destruct (Handler.Read _ _); by injection Hact). subst w1.
  unfold receive in Hr. destruct (HandlerLoop.returned _); [by injection Hr as <- <-|].
  destruct (head _); [|done]. apply fmap_Some in Hr as (w1 & Hq & [= -> _]).
  destruct (queue_step_frame _ _ _ _ Hq) as (Hl & Hlen & Hj). injection Hl as _ Hc Hrd Hk _ _. done.
Qed.

Lemma own_keeps i e a a' : own i e -> app_ok a e = Some (Ok a') -> length (a_gos a) = length (gos (a_worker a)) ->
  own_frame i a a'.
Proof.
  intros [-> | ->] Ha Hlen; cbn in Ha.
  - destruct (gos (a_worker a) !! i) as [g|]; [|done]. destruct (a_gos a !! i) as [d|]; [|done].
    apply fmap_Some in Ha as ([w d'] & Hact & [= ->]).
    destruct (act_frame _ _ _ _ _ _ Hact) as (Hk & Hc & Hr & Hl & Hj). split; try done.
    intros j Hne. split; [by apply Hj|]. by apply list_lookup_insert_ne.
  - destruct (queue_closed i (a_worker a)); [|done].
    destruct (queue_step i HandlerLoop.Closed (a_worker a)) as [w|] eqn:Hq; [|done]. injection Ha as <-.
    destruct (queue_step_frame _ _ _ _ Hq) as (Hl & Hlen' & Hj). injection Hl as _ Hc Hr Hk _ _.
    split; try done. intros j Hne. cbn. split; [by apply Hj|].
    by rewrite Hlen, <- Hlen', drop_all, app_nil_r.
Qed.

Lemma own_frame_refl i a : own_frame i a a.
Proof. by split. Qed.

Lemma own_frame_trans i a a1 a2 : own_frame i a a1 -> own_frame i a1 a2 -> own_frame i a a2.
Proof.
  intros [L1 K1 C1 R1 N1 O1] [L2 K2 C2 R2 N2 O2]. split; try congruence.
  intros j Hj. destruct (O1 j Hj), (O2 j Hj). split; congruence.
Qed.

(** *** Runs that the process can take by itself *)

Definition sys_reaches (p p' : system) : Prop :=
  exists es, network es = [] /\ run system_step (Ok p) es = Some (Ok p').

Lemma sys_reaches_refl p : sys_reaches p p.
Proof. by exists []. Qed.

Lemma sys_reaches_trans p p1 p2 : sys_reaches p p1 -> sys_reaches p1 p2 -> sys_reaches p p2.
Proof.
  intros (es1 & Hn1 & H1) (es2 & Hn2 & H2). exists (es1 ++ es2).
  split; [by rewrite network_app, Hn1, Hn2|]. by rewrite run_app, H1.
Qed.

Lemma sys_reaches_one p e p' : network [e] = [] -> system_ok p e = Some (Ok p') -> sys_reaches p p'.
Proof. intros Hn Hs. exists [e]. split; [done|]. cbn [run System.system_step]. by rewrite Hs. Qed.

(** A running worker over an open connection. *)
Definition live (p : system) : Prop :=
  (exists aes ses, views aes ses p) /\ conn_open (conn p) /\ a_loop (program p) = Running.

Lemma live_facts p : live p ->
  conn_closed (a_worker (program p)) = false /\ read_closed (a_worker (program p)) = false /\
  exists sp, app_inv convertPayload hs stack sp (program p).
Proof using Hrel Hgos Hwritten.
  intros ((aes & ses & Hv) & Ho & _). split_and!.
  - rewrite (v_closed _ _ _ _ _ _ _ _ Hv). apply Ho.
  - rewrite (v_read _ _ _ _ _ _ _ _ Hv). apply (open_not_returned _ (co_down _ Ho)).
  - eexists. exact (app_run_inv _ _ _ _ _ _ _ Hrel Hgos Hwritten (v_program _ _ _ _ _ _ _ _ Hv)).
Qed.

Lemma live_step p e p' :
  live p -> system_ok p e = Some (Ok p') -> conn_open (conn p') -> a_loop (program p') = Running -> live p'.
Proof using Hrel Hgos Hwritten.
  intros ((aes & ses & Hv) & _ & _) Hs Ho Hl. split; [|done].
  destruct (views_step convertPayload hs stack unwinding w0 Hrel Hgos Hwritten aes ses p e (Ok p') Hv Hs)
    as (aes' & ses' & Hv' & _). by exists aes', (ses ++ ses').
Qed.

(** *** A goroutine settles *)

Lemma own_lift i es : forall p a',
  live p -> Forall (own i) es -> run app_step (Ok (program p)) es = Some (Ok a') ->
  exists p', sys_reaches p p' /\ live p' /\ program p' = a' /\ down_left (conn p') = down_left (conn p) /\
    own_frame i (program p) a'.
Proof using Hrel Hgos Hwritten.
  induction es as [|e es IH]; intros p a' Hl Hes Hrun.
  { injection Hrun as <-. exists p. split_and!; [apply sys_reaches_refl|done..|apply own_frame_refl]. }
  apply Forall_cons in Hes as [He Hes]. cbn [run App.app_step] in Hrun.
  destruct (app_ok (program p) e) as [[a1|]|] eqn:Ha; [|by destruct es..].
  destruct (live_facts p Hl) as (Hc & Hr & sp & Hinv).
  pose proof (own_keeps i e _ _ He Ha (ai_length _ _ _ _ _ Hinv)) as Hf.
  destruct (program_possible p (Program e) e a1) as (s1 & Hs1 & Ho1 & Hd1); try done.
  - apply Hl.
  - by destruct He as [-> | ->].
  - apply Hf.
  - by rewrite (of_closed _ _ _ Hf).
  - by rewrite (of_read _ _ _ Hf).
  - by destruct He as [-> | ->].
  - assert (Hrec : receives e = false) by (by destruct He as [-> | ->]). rewrite Hrec in Hd1.
    assert (Hl1 : live (mkSystem a1 s1)).
    { eapply live_step; [exact Hl|exact Hs1|exact Ho1|]. cbn. rewrite (of_loop _ _ _ Hf). apply Hl. }
    destruct (IH (mkSystem a1 s1) a' Hl1 Hes Hrun) as (p' & Hre & Hl' & Hp' & Hd' & Hf').
    exists p'. split_and!; [|done|done|by etransitivity; [exact Hd'|exact Hd1]|by eapply own_frame_trans].
    eapply sys_reaches_trans; [|exact Hre]. by apply (sys_reaches_one p (Program e)).
Qed.

Lemma settles_any sp i a :
  app_inv convertPayload hs stack sp a -> i < length (gos (a_worker a)) ->
  settles convertPayload hs stack unwinding sp i a.
Proof.
  intros Hinv Hi. destruct (lookup_lt_is_Some_2 _ _ Hi) as [g Hg].
  rewrite <- (ai_length _ _ _ _ _ Hinv) in Hi. destruct (lookup_lt_is_Some_2 _ _ Hi) as [d Hd].
  destruct (prog d) as [q|] eqn:Hq; [by eapply goroutine_settles|].
  exists a. split; [apply reaches_refl|]. split; [done|]. exists g, d. auto.
Qed.

Lemma settle_one p i :
  live p -> i < length (gos (a_worker (program p))) ->
  exists p', sys_reaches p p' /\ live p' /\ down_left (conn p') = down_left (conn p) /\
    own_frame i (program p) (program p') /\ settled i (program p').
Proof using Hrel Hgos Hwritten.
  intros Hl Hi. destruct (live_facts p Hl) as (_ & _ & sp & Hinv).
  destruct (settles_any sp i (program p) Hinv Hi) as (a' & (es & Hes & Hrun) & _ & Hset).
  destruct (own_lift i es p a' Hl Hes Hrun) as (p' & Hre & Hl' & <- & Hd & Hf). by exists p'.
Qed.

Lemma settle_all p n :
  live p -> n <= length (gos (a_worker (program p))) ->
  exists p', sys_reaches p p' /\ live p' /\ down_left (conn p') = down_left (conn p) /\
    length (gos (a_worker (program p'))) = length (gos (a_worker (program p))) /\
    forall j, j < n -> settled j (program p').
Proof using Hrel Hgos Hwritten.
  intros Hl. induction n as [|n IH]; intros Hn.
  { exists p. split_and!; [apply sys_reaches_refl|done..|lia]. }
  destruct IH as (p1 & Hr1 & Hl1 & Hd1 & Hn1 & Hs1); [lia|].
  destruct (settle_one p1 n Hl1) as (p2 & Hr2 & Hl2 & Hd2 & Hf & Hs2); [lia|].
  exists p2. split_and!; [by eapply sys_reaches_trans|done|congruence|by rewrite (of_length _ _ _ Hf)|].
  intros j Hj. destruct (decide (j = n)) as [->|Hne]; [done|].
  destruct (Hs1 j) as (g & d & Hg & Hd & Hend); [lia|]. destruct (of_others _ _ _ Hf j Hne) as [Hg' Hd'].
  exists g, d. by rewrite Hg', Hd'.
Qed.

(** *** The messages of the socket *)

(** It neither terminates the worker nor is an invoke without an event. *)
Definition harmless (m : Message) : Prop :=
  is_terminate m = false /\ (msg_type m = v1Invoke -> msg_session m <> v1UtilitySession -> Payload m <> []).

Lemma handle_one p m ms :
  live p -> Socket.down_pending (conn p) = m :: ms -> harmless m ->
  exists p', sys_reaches p p' /\ live p' /\ down_left (conn p') = tail (down_left (conn p)).
Proof using Hrel Hgos Hwritten.
  intros Hl Hp [Ht Hi]. pose proof Hl as (_ & Ho & Hloop).
  destruct (live_facts p Hl) as (Hc & Hr & sp & Hinv). pose proof (ai_rel _ _ _ _ _ Hinv) as Hrl.
  destruct (rel_dispatch Sent m (a_worker (program p)) sp Hrl) as [(w' & Hd & _)|[_ (_ & Hm1 & Hm2 & Hm3)]];
    [|by destruct (Hi Hm2 Hm1)].
  destruct (dispatch_life_step _ _ _ _ Hd) as [Hlife _].
  assert (Hlife' : life w' = life (a_worker (program p))).
  { rewrite Hlife. cbn [life_step]. rewrite Ht. by destruct (is_heartbeat m). }
  injection Hlife' as _ Hcl Hrd Hk _ _.
  set (a := mkApp Running w' (a_gos (program p) ++ map (start_go hs) (drop (length (a_gos (program p))) (gos w')))).
  assert (Ha : app_ok (program p) (WorkerEvent (MsgReceived m Sent)) = Some (Ok a)).
  { cbn. unfold loop_step. rewrite Hloop, (rel_blocked _ _ Hrl), Hr. cbn. by rewrite Hd. }
  destruct (open_receive _ _ _ Ho Hp) as (_ & _ & _ & _ & _ & Hfirst).
  destruct (program_possible p (Receives Sent) (WorkerEvent (MsgReceived m Sent)) a) as (s' & Hs & Ho' & Hd');
    try done; try (cbn; congruence).
  { cbn. by rewrite Hfirst. }
  { intros _. by rewrite Hp. }
  exists (mkSystem a s'). split; [by apply (sys_reaches_one p (Receives Sent))|]. split; [|exact Hd'].
  by eapply live_step.
Qed.

(** An event of the socket that keeps it open. *)
Lemma internal_possible p e s' :
  live p -> is_internal e = true -> Socket.sock_step (conn p) e = Some (Ok s') -> conn_open s' ->
  network [Internal e] = [] -> sys_reaches p (mkSystem (program p) s') /\ live (mkSystem (program p) s').
Proof using Hrel Hgos Hwritten.
  intros Hl Hi Hs Ho Hn. destruct (live_facts p Hl) as (Hc & Hr & _).
  assert (Hok : system_ok p (Internal e) = Some (Ok (mkSystem (program p) s'))).
  { cbn [System.system_ok]. by rewrite Hi, Hs, observe_same. }
  split; [by apply (sys_reaches_one p (Internal e))|]. eapply live_step; [exact Hl|exact Hok|exact Ho|]. apply Hl.
Qed.

Lemma handle_pending ms : forall p,
  live p -> Socket.down_pending (conn p) = ms -> Socket.in_hand (conn p) = [] -> Forall harmless ms ->
  exists p', sys_reaches p p' /\ live p' /\ down_left (conn p') = [].
Proof using Hrel Hgos Hwritten.
  induction ms as [|m ms IH]; intros p Hl Hp Hh Hm.
  { exists p. split; [apply sys_reaches_refl|]. split; [done|]. unfold down_left. by rewrite Hp, Hh. }
  apply Forall_cons in Hm as [Hm Hms]. destruct (handle_one p m ms Hl Hp Hm) as (p1 & Hr1 & Hl1 & Hd1).
  assert (Hd : down_left (conn p1) = ms) by (rewrite Hd1; unfold down_left; rewrite Hp, Hh; cbn; apply app_nil_r).
  assert (Hh1 : Socket.in_hand (conn p1) = [] /\ Socket.down_pending (conn p1) = ms \/
    exists m', Socket.in_hand (conn p1) = [m']).
  { unfold down_left in Hd. destruct (Socket.in_hand (conn p1)) as [|m' l] eqn:Hin.
    - left. by rewrite app_nil_r in Hd.
    - right. unfold Socket.in_hand in Hin. destruct (Socket.reader (conn p1)); try done.
      injection Hin as -> <-. by exists m'. }
  destruct Hh1 as [[Hh1 Hp1]|[m' Hh1]].
  - destruct (IH p1 Hl1 Hp1 Hh1 Hms) as (p' & Hr' & Hl' & Hd'). exists p'. split; [by eapply sys_reaches_trans|done].
  - destruct (open_push _ _ (proj1 (proj2 Hl1)) Hh1) as (s2 & Hs2 & Ho2 & Hp2 & Hh2).
    destruct (internal_possible p1 Socket.ReadPush s2 Hl1 eq_refl Hs2 Ho2 eq_refl) as [Hr2 Hl2].
    assert (Hp2' : Socket.down_pending s2 = ms) by (rewrite Hp2, <- Hd; unfold down_left; by rewrite Hh1).
    destruct (IH _ Hl2 Hp2' Hh2 Hms) as (p' & Hr' & Hl' & Hd'). exists p'.
    split; [eapply sys_reaches_trans; [exact Hr1|by eapply sys_reaches_trans]|done].
Qed.

Lemma handle_all p :
  live p -> Forall harmless (down_left (conn p)) ->
  exists p', sys_reaches p p' /\ live p' /\ down_left (conn p') = [].
Proof using Hrel Hgos Hwritten.
  intros Hl Hm. destruct (Socket.in_hand (conn p)) as [|m l] eqn:Hin.
  - unfold down_left in Hm. rewrite Hin, app_nil_r in Hm. by eapply handle_pending.
  - assert (Hin' : Socket.in_hand (conn p) = [m]).
    { unfold Socket.in_hand in *. destruct (Socket.reader (conn p)); try done. by injection Hin as -> <-. }
    destruct (open_push _ _ (proj1 (proj2 Hl)) Hin') as (s2 & Hs2 & Ho2 & Hp2 & Hh2).
    destruct (internal_possible p Socket.ReadPush s2 Hl eq_refl Hs2 Ho2 eq_refl) as [Hr2 Hl2].
    destruct (handle_pending _ _ Hl2 eq_refl Hh2) as (p' & Hr' & Hl' & Hd').
    { change (Forall harmless (Socket.down_pending s2)). rewrite Hp2. unfold down_left in Hm.
      by rewrite Hin' in Hm. }
    exists p'. split; [by eapply sys_reaches_trans|done].
Qed.

Lemma flush ms : forall p, live p -> up_left (conn p) = ms ->
  exists p', sys_reaches p p' /\ live p' /\ program p' = program p /\ up_left (conn p') = [] /\
    down_left (conn p') = down_left (conn p).
Proof using Hrel Hgos Hwritten.
  induction ms as [|m ms IH]; intros p Hl Hu; [exists p; by split_and!; [apply sys_reaches_refl| | | |]|].
  destruct (open_write _ _ _ (proj1 (proj2 Hl)) Hu) as (s1 & Hs1 & Ho1 & Hu1 & Hd1).
  destruct (internal_possible p Socket.WriteOk s1 Hl eq_refl Hs1 Ho1 eq_refl) as [Hr1 Hl1].
  destruct (IH _ Hl1 Hu1) as (p' & Hr' & Hl' & Hp' & Hu' & Hd'). exists p'.
  split_and!; [by eapply sys_reaches_trans|done|done|done|by rewrite Hd'].
Qed.
End Progress.

(** A socket emptied in both directions: the worker has handled what was decoded, and
    the connection carries what it wrote. *)
Lemma emptied convertPayload hs stack unwinding before id pv dbg sel p0 es p :
  launch before id pv dbg sel = Some p0 ->
  run (system_step convertPayload hs stack unwinding) (Ok p0) es = Some (Ok p) ->
  conn_open (conn p) -> down_left (conn p) = [] -> up_left (conn p) = [] ->
  app_inv convertPayload hs stack (foldl spec_msg spec_init (Socket.decoded before ++ network es)) (program p) /\
  written (a_worker (program p)) = Socket.wire (conn p) /\
  conn_closed (a_worker (program p)) = false.
Proof.
  intros Hlaunch Hrun Ho Hdown Hup.
  destruct (system_run _ _ _ _ _ _ _ _ _ _ _ _ Hlaunch Hrun) as (s & w & Hb & Hnew & aes & ses & Hv & Hdec).
  destruct (new_worker _ _ _ _ _ _ Hnew) as (Hrel & Hgos & Hw0).
  pose proof Hv as [Hp Hs Hw Hrc Hcl _ _ _].
  pose proof (app_run_inv _ _ _ _ _ _ _ Hrel Hgos Hw0 Hp) as Hinv.
  pose proof (Socket.read_run ses Socket.newAsyncRW (conn p) Hs) as Hread.
  assert (Hd : dispatched (worker_events aes) = Socket.decoded before ++ network es).
  { rewrite <- Hdec, <- Hrc. unfold down_left in Hdown. rewrite Hdown, app_nil_r in Hread. exact Hread. }
  rewrite Hd in Hinv. split; [exact Hinv|]. split; [|rewrite Hcl; apply Ho].
  destruct (Socket.write_run ses [] Socket.newAsyncRW (conn p)) as (unsent & Hun & Hwr); [by exists []|done|].
  rewrite <- Hw. change ([] ++ Socket.accepted ses) with (Socket.accepted ses) in Hun.
  unfold up_left in Hup. by rewrite Hun, (Hwr (co_writer _ Ho)), Hup, app_nil_r.
Qed.

(** A goroutine that is settled. *)
Lemma settled_end convertPayload hs stack sp a i g d :
  app_inv convertPayload hs stack sp a -> gos (a_worker a) !! i = Some g -> a_gos a !! i = Some d ->
  settled i a ->
  (prog d = None /\
     (corrupt d = false ->
        (exists n, Ok <$> reads d = reads_of convertPayload (g_given g) ++ replicate n (Ok stream_closed)) /\
        forall later, resp d =
          Handler.invocation (g_event g) (Handler.Call hs (g_event g)) stack
            (after (reads d) later) (g_session g)) \/
   (exists k, prog d = Some (HRead k)) /\ view g = mkStream true (g_given g)).
Proof.
  intros Hinv Hi Hd (g' & d' & Hg' & Hd' & Hend). rewrite Hi in Hg'. rewrite Hd in Hd'.
  injection Hg' as <-. injection Hd' as <-. pose proof (ai_gos _ _ _ _ _ Hinv i g d Hi Hd) as Hg.
  destruct Hend as [Hend|(k & Hk & Hcl & Hq)].
  - left. split; [done|]. intros Hco. split.
    + destruct (gi_reads _ _ _ _ _ _ Hg Hco) as (n & Hn & _). by exists n.
    + intros later. pose proof (gi_exec _ _ _ _ _ _ Hg Hco later) as He. by rewrite Hend in He.
  - right. split; [by exists k|]. unfold view. by rewrite Hcl, Hq, app_nil_r.
Qed.

(** ** Property *)

(** C4 (liveness): end to end, a process whose worker runs over an open connection is
    never stuck: from every state that a run reaches it can go on without the network
    to a state in which every message that was ever decoded is handled and everything
    sent is on the connection - so for each session invoked the connection carries
    exactly what its handler answered -, and every handler either has ended, having
    answered as it does when it is run alone on the messages of its session, or waits
    for the next message of an open stream of which it has read everything. The
    messages still in the socket must not terminate the worker, nor be invokes without
    an event. *)
Theorem system_answers (convertPayload : list value -> (Z * Z * string) + error)
    (hs : Handler.EventHandlers) (stack : string) (unwinding : handler_prog -> handler_prog)
    (before : list sock_event) (id : string) (protoVersion : Z) (debug : bool)
    (sel : write_select) (p0 p : system) (es : list system_event)
    (Hlaunch : launch before id protoVersion debug sel = Some p0)
    (Hrun : run (system_step convertPayload hs stack unwinding) (Ok p0) es = Some (Ok p))
    (Hloop : a_loop (program p) = Running) (Hopen : Socket.closed (conn p) = false)
    (Hmsgs : Forall harmless (Socket.down_pending (conn p) ++ Socket.in_hand (conn p))) :
  let sp := foldl spec_msg spec_init (Socket.decoded before ++ network es) in
  exists es' p',
    network es' = [] /\
    run (system_step convertPayload hs stack unwinding) (Ok p) es' = Some (Ok p') /\
    let gs := gos (a_worker (program p')) in
    streams sp = view_map gs /\ length (a_gos (program p')) = length gs /\
    forall i g d, gs !! i = Some g -> a_gos (program p') !! i = Some d ->
      of_session (g_session g) (Socket.wire (conn p')) = Handler.sent (resp d) /\
      exists st, streams sp !! g_session g = Some st /\ g_given g `prefix_of` msgs st /\
        (prog d = None /\
           (corrupt d = false ->
              (exists n, Ok <$> reads d = reads_of convertPayload (g_given g) ++ replicate n (Ok stream_closed)) /\
              forall later, resp d =
                Handler.invocation (g_event g) (Handler.Call hs (g_event g)) stack
                  (after (reads d) later) (g_session g)) \/
         (exists k, prog d = Some (HRead k)) /\ st = mkStream true (g_given g)).
Proof.
  destruct (system_run _ _ _ _ _ _ _ _ _ _ _ _ Hlaunch Hrun) as (s0 & w0 & _ & Hnew & aes & ses & Hv & Hdec).
  destruct (new_worker _ _ _ _ _ _ Hnew) as (Hrel & Hgos & Hw0). intros sp.
  assert (Hl : live convertPayload hs stack unwinding w0 p).
  { split; [by exists aes, ses|]. split; [|done]. by eapply conn_open_run; [apply Hv|]. }
  destruct (handle_all _ _ _ _ _ Hrel Hgos Hw0 p Hl Hmsgs) as (p1 & Hr1 & Hl1 & Hd1).
  destruct (settle_all _ _ _ _ _ Hrel Hgos Hw0 p1 _ Hl1 (le_n _)) as (p2 & Hr2 & Hl2 & Hd2 & Hn2 & Hset).
  destruct (flush _ _ _ _ _ Hrel Hgos Hw0 _ p2 Hl2 eq_refl) as (p' & Hr3 & Hl3 & Hp3 & Hu3 & Hd3).
  destruct (sys_reaches_trans _ _ _ _ _ _ _ Hr1 (sys_reaches_trans _ _ _ _ _ _ _ Hr2 Hr3)) as (es' & Hnet & Hrun').
  assert (Hall : run (system_step convertPayload hs stack unwinding) (Ok p0) (es ++ es') = Some (Ok p'))
    by by rewrite run_app, Hrun.
  assert (Hd : down_left (conn p') = []) by by rewrite Hd3, Hd2, Hd1.
  destruct (emptied _ _ _ _ _ _ _ _ _ _ _ _ Hlaunch Hall (proj1 (proj2 Hl3)) Hd Hu3) as (Hinv & Hwire & Hcl).
  rewrite network_app, Hnet, app_nil_r in Hinv. fold sp in Hinv. pose proof Hinv as [Hrl Hlen Hgo _].
  exists es', p'. split; [done|]. split; [done|]. cbv zeta. split; [apply Hrl|]. split; [done|].
  intros i g d Hi Hdi. split.
  { unfold of_session. rewrite <- Hwire. by apply (gi_complete _ _ _ _ _ _ (Hgo i g d Hi Hdi)). }
  exists (view g). rewrite (rel_streams _ _ Hrl).
  split; [by apply view_map_lookup with i, Hi; apply Hrl|]. split; [by eexists|].
  eapply settled_end; [done..|]. rewrite Hp3. apply Hset. rewrite <- Hn2, <- Hp3. by eapply lookup_lt_Some.
Qed.

(** ** Witness: an echo whose invoke and chunk are still in the socket *)
Lemma system_answers_witness :
  match launch [] "w" 1 false Sent with
  | Some p0 =>
    match run (system_step (fun _ => inr EOF) sample_handlers "" (fun p => p)) (Ok p0)
        (take 3 sample_system_events) with
    | Some (Ok p) => exists es' p',
        run (system_step (fun _ => inr EOF) sample_handlers "" (fun p => p)) (Ok p) es' = Some (Ok p') /\
        view_map (gos (a_worker (program p'))) = streams (foldl spec_msg spec_init [newInvokeV1 2 "echo"])
    | _ => False
    end
  | None => False
  end.
Proof.
  destruct (launch _ _ _ _ _) as [p0|] eqn:Hl; [|vm_compute in Hl; discriminate].
  destruct (run _ _ _) as [[p|]|] eqn:Hrun;
    [|vm_compute in Hl; injection Hl as <-; vm_compute in Hrun; discriminate..].
  assert (Hp : a_loop (program p) = Running /\ Socket.closed (conn p) = false /\
    Socket.down_pending (conn p) ++ Socket.in_hand (conn p) = [newInvokeV1 2 "echo"]).
  { vm_compute in Hl. injection Hl as <-. vm_compute in Hrun. by injection Hrun as <-. }
  destruct Hp as (Hloop & Hopen & Hmsgs).
  assert (Hh : Forall harmless (Socket.down_pending (conn p) ++ Socket.in_hand (conn p))).
  { rewrite Hmsgs. repeat constructor. intros _ _. discriminate. }
  destruct (system_answers _ _ _ _ _ _ _ _ _ _ _ _ Hl Hrun Hloop Hopen Hh)
    as (es' & p' & _ & Hrun' & Hst & _). exists es', p'. split; [exact Hrun'|]. symmetry. exact Hst.
Defined.
