(* ===== verification/Stacks.v ===== *)
(** * cocaine12/stack.go and [printAllStacks] of workerng.go: the stacks of a worker

    The dump of the stacks into a buffer that doubles until they fit, what the worker
    prints and stores of it, and the worker of Worker.v with the signal that asks for
    it. What [runtime.Stack] writes is the environment's. *)
From S2P Require Import Prelude GoTypes ProtoV1 Worker.
From Stdlib Require Import ZArith Lia Strings.Byte.

Open Scope stdpp_scope.

(** ** Definitions *)

Section Dump.
(** The stacks at each call of [runtime.Stack], and the largest slice that [make]
    can allocate. *)
Context (stacks : nat -> list byte) (max_alloc : Z).

(** [make([]byte, n)] *)
Definition make_bytes (n : Z) : outcome Z :=
  if decide (0 <= n <= max_alloc)%Z then Ok n else Panic.

(** [runtime.Stack(buf, true)] writes what fits into the buffer. *)
Definition runtime_Stack (i : nat) (len : Z) : list byte := take (Z.to_nat len) (stacks i).

(** The loop of [dumpStack], where the variables are the length of the last buffer
    and what is in it. *)
Fixpoint dumpStack_loop (fuel i : nat) (len_buf bufferLen : Z) (written : list byte)
    : option (outcome (list byte)) :=
  if decide (Z.of_nat (length written) = len_buf) then
    match fuel with
    | 0 => None
    | S fuel =>
      match make_bytes bufferLen with
      | Panic => Some Panic
      | Ok len_buf => dumpStack_loop fuel (S i) len_buf (wrap_int64 (bufferLen * 2)) (runtime_Stack i len_buf)
      end
    end
  else Some (Ok written).

Definition dumpStack (fuel : nat) : option (outcome (list byte)) :=
  dumpStack_loop fuel 0 0 16384 [].

(** ** Lemmas *)

Definition size_at (i : nat) : Z := (2 ^ (14 + Z.of_nat i))%Z.

Lemma size_at_S i : (size_at (S i) = size_at i * 2)%Z.
Proof.
  unfold size_at. replace (14 + Z.of_nat (S i))%Z with (Z.succ (14 + Z.of_nat i)) by lia.
  rewrite Z.pow_succ_r by lia. lia.
Qed.

Lemma size_at_bound i : i <= 48 -> (0 < size_at i < 2 ^ 63)%Z.
Proof.
  intros Hi. unfold size_at. split; [apply Z.pow_pos_nonneg; lia|].
  apply Z.pow_lt_mono_r; lia.
Qed.

Lemma size_at_next i : i < 48 -> wrap_int64 (size_at i * 2) = size_at (S i).
Proof.
  intros Hi. rewrite <- size_at_S. pose proof (size_at_bound (S i) ltac:(lia)) as Hb.
  unfold wrap_int64, wrap64. rewrite Z.mod_small by (unfold two64; lia). by rewrite decide_True by lia.
Qed.

(** The sizes of the buffers, until the length is not one any more. *)
Definition bufferLen_at (i : nat) : Z := if decide (i <= 48) then size_at i else (- 2 ^ 63)%Z.

Lemma bufferLen_at_next i : i <= 48 -> wrap_int64 (size_at i * 2) = bufferLen_at (S i).
Proof.
  intros Hi. unfold bufferLen_at. case_decide as Hs; [apply size_at_next; lia|].
  by replace i with 48 by lia.
Qed.

(** A turn of the loop at the [i]-th size. *)
Lemma dumpStack_turn fuel i len_buf written :
  Z.of_nat (length written) = len_buf -> i <= 48 -> (size_at i <= max_alloc)%Z ->
  dumpStack_loop (S fuel) i len_buf (size_at i) written =
    if decide (Z.of_nat (length (stacks i)) < size_at i)%Z then Some (Ok (stacks i))
    else dumpStack_loop fuel (S i) (size_at i) (wrap_int64 (size_at i * 2)) (runtime_Stack i (size_at i)).
Proof.
  intros Hw Hi Hm. pose proof (size_at_bound i Hi) as Hb. cbn [dumpStack_loop].
  rewrite decide_True by done. unfold make_bytes. rewrite decide_True by lia.
  case_decide as Hlt; [|done].
  assert (Hs : runtime_Stack i (size_at i) = stacks i) by (unfold runtime_Stack; apply take_ge; lia).
  rewrite Hs. destruct fuel; cbn [dumpStack_loop]; by rewrite decide_False by lia.
Qed.

(** The turn that ends the loop: the stacks fit, or there is no larger buffer. *)
Definition overflows (j : nat) : Prop :=
  (size_at j <= Z.of_nat (length (stacks j)))%Z /\ (size_at j <= max_alloc)%Z.

Lemma dumpStack_loop_ends fuel i len_buf written :
  (max_alloc < 2 ^ 63)%Z -> Z.of_nat (length written) = len_buf -> 49 < fuel + i -> i <= 49 ->
  exists j r, i <= j <= 49 /\ (forall k, i <= k < j -> overflows k) /\
    dumpStack_loop fuel i len_buf (bufferLen_at i) written = Some r /\
    match r with
    | Ok buf => buf = stacks j /\ (Z.of_nat (length buf) < size_at j <= max_alloc)%Z
    | Panic => (max_alloc < size_at j)%Z
    end.
Proof.
  intros Hmax. revert fuel len_buf written. remember (49 - i) as n eqn:Hn.
  revert i Hn. induction n as [|n IH]; intros i Hn fuel len_buf written Hw Hf Hi.
  - assert (i = 49) as -> by lia. destruct fuel as [|fuel]; [lia|].
    exists 49, Panic. split_and!; [lia|lia|intros; lia| |change (size_at 49) with (2 ^ 63)%Z; lia].
    cbn [dumpStack_loop]. rewrite decide_True by done. unfold make_bytes.
    by rewrite decide_False by (unfold bufferLen_at; rewrite decide_False by lia; lia).
  - destruct fuel as [|fuel]; [lia|]. unfold bufferLen_at at 1. rewrite decide_True by lia.
    destruct (decide (size_at i <= max_alloc)%Z) as [Hm|Hm].
    + rewrite dumpStack_turn by (done || lia). case_decide as Hlt.
      { exists i, (Ok (stacks i)). split_and!; try done; lia. }
      pose proof (size_at_bound i ltac:(lia)) as Hb.
      assert (Hlen : Z.of_nat (length (runtime_Stack i (size_at i))) = size_at i).
      { unfold runtime_Stack. rewrite length_take. lia. }
      rewrite bufferLen_at_next by lia.
      destruct (IH (S i) ltac:(lia) fuel _ _ Hlen) as (j & r & Hj & Hk & Hrun & Hr); [lia..|].
      exists j, r. split_and!; [lia|lia| |done|done]. intros k Hki. destruct (decide (k = i)) as [->|Hne].
      * split; lia.
      * apply Hk. lia.
    + exists i, Panic. split_and!; [lia|lia|intros; lia| |lia]. cbn [dumpStack_loop].
      rewrite decide_True by done. unfold make_bytes. rewrite decide_False by lia. done.
Qed.
End Dump.

(** ** The worker that is asked for its stacks *)

Inductive printed : Type :=
| StackTrace (trace : list byte)
| WriteFileError (filename : string) (err : error).

(** The process of a worker: the signal in its channel, which holds one, what it
    printed, and the files it wrote. *)
Record traced : Type := mkTraced {
  t_loop : loop_state;
  t_worker : WorkerNG;
  t_signal : bool;
  stdout : list printed;
  files : gmap string (list byte)
}.

Inductive traced_event : Type :=
| WorkerEvent (e : Worker.event)
| Sigusr1
| SignalSeen (stacks : nat -> list byte) (write_error : option error).

Section Traced.
Context (max_alloc : Z) (appName : string) (pid : Z).

Definition filename : string := appName +:+ "-" +:+ pretty pid.

(** With the fuel that [dumpStack_loop_ends] shows to be enough. *)
Definition printAllStacks (stacks : nat -> list byte) (write_error : option error) (t : traced)
    : option (outcome traced) :=
  match dumpStack stacks max_alloc 50 with
  | None => None
  | Some Panic => Some Panic
  | Some (Ok stackTrace) =>
    let out := stdout t ++ [StackTrace stackTrace] in
    Some (Ok
      match write_error with
      | Some err => mkTraced (t_loop t) (t_worker t) (t_signal t) (out ++ [WriteFileError filename err]) (files t)
      | None => mkTraced (t_loop t) (t_worker t) (t_signal t) out (<[filename := stackTrace]> (files t))
      end)
  end.

(** [signal.Notify] is in force while the loop runs. *)
Definition traced_step (o : outcome traced) (e : traced_event) : option (outcome traced) :=
  match o with
  | Panic => None
  | Ok t =>
    match e with
    | WorkerEvent StackSignal => None
    | WorkerEvent e =>
      match env_step (t_loop t) (t_worker t) e with
      | None => None
      | Some Panic => Some Panic
      | Some (Ok (l, w)) => Some (Ok (mkTraced l w (t_signal t) (stdout t) (files t)))
      end
    | Sigusr1 =>
      Some (Ok (mkTraced (t_loop t) (t_worker t)
        (t_signal t || (in_loop (t_loop t) && stackSignalEnabled (t_worker t))) (stdout t) (files t)))
    | SignalSeen stacks write_error =>
      if t_signal t then
        match env_step (t_loop t) (t_worker t) StackSignal with
        | None => None
        | Some Panic => Some Panic
        | Some (Ok (l, w)) => printAllStacks stacks write_error (mkTraced l w false (stdout t) (files t))
        end
      else None
    end
  end.

(** ** Specification *)

Definition of_worker (es : list traced_event) : list Worker.event :=
  omap (fun e => match e with WorkerEvent e => Some e | _ => None end) es.
Definition is_signal (e : traced_event) : bool := match e with Sigusr1 => true | _ => false end.
Definition traces (out : list printed) : list (list byte) :=
  omap (fun p => match p with StackTrace b => Some b | _ => None end) out.

(** ** Lemmas *)

Lemma of_worker_app es1 es2 : of_worker (es1 ++ es2) = of_worker es1 ++ of_worker es2.
Proof. apply omap_app. Qed.

Lemma traces_app o1 o2 : traces (o1 ++ o2) = traces o1 ++ traces o2.
Proof. apply omap_app. Qed.

(** The dump ends within its fuel. *)
Lemma dumpStack_ends stacks :
  (max_alloc < 2 ^ 63)%Z ->
  exists j r, j <= 49 /\ (forall k, k < j -> overflows stacks max_alloc k) /\
    dumpStack stacks max_alloc 50 = Some r /\
    match r with
    | Ok buf => buf = stacks j /\ (Z.of_nat (length buf) < size_at j <= max_alloc)%Z
    | Panic => (max_alloc < size_at j)%Z
    end.
Proof.
  intros Hmax. destruct (dumpStack_loop_ends stacks max_alloc 50 0 0 [] Hmax eq_refl)
    as (j & r & Hj & Hk & Hrun & Hr); [lia..|].
  exists j, r. split_and!; [lia| |exact Hrun|exact Hr]. intros k Hkj. apply Hk. lia.
Qed.

(** A dump: what it prints and leaves alone. *)
Lemma printAllStacks_inv stacks write_error t t' :
  (max_alloc < 2 ^ 63)%Z -> printAllStacks stacks write_error t = Some (Ok t') ->
  exists i, t_loop t' = t_loop t /\ t_worker t' = t_worker t /\ t_signal t' = t_signal t /\
    traces (stdout t') = traces (stdout t) ++ [stacks i].
Proof.
  intros Hmax. unfold printAllStacks.
  destruct (dumpStack_ends stacks Hmax) as (j & [b|] & _ & _ & -> & Hr); [|done].
  destruct Hr as [-> _]. intros [= <-]. exists j.
  destruct write_error; cbn; rewrite !traces_app; cbn; by rewrite ?app_nil_r.
Qed.

(** A signal that is pending in a running loop is handled. *)
Lemma signal_handled stacks write_error t :
  (max_alloc < 2 ^ 63)%Z -> t_signal t = true -> t_loop t = Running ->
  blocked (t_worker t) = false -> stackSignalEnabled (t_worker t) = true ->
  (exists t' j, traced_step (Ok t) (SignalSeen stacks write_error) = Some (Ok t') /\
     t_loop t' = Running /\ t_worker t' = t_worker t /\ t_signal t' = false /\
     (Z.of_nat (length (stacks j)) < size_at j <= max_alloc)%Z /\
     traces (stdout t') = traces (stdout t) ++ [stacks j] /\
     (write_error = None -> files t' !! filename = Some (stacks j))) \/
  (traced_step (Ok t) (SignalSeen stacks write_error) = Some Panic /\
   exists j, (max_alloc < size_at j)%Z /\ forall k, k < j -> (size_at k <= Z.of_nat (length (stacks k)))%Z).
Proof.
  intros Hmax Hs Hl Hb He. cbn [traced_step]. rewrite Hs, Hl. cbn [env_step]. unfold loop_step.
  rewrite Hb, He. cbn [in_loop negb orb]. unfold printAllStacks.
  destruct (dumpStack_ends stacks Hmax) as (j & [b|] & _ & Hk & -> & Hr).
  - left. destruct Hr as [-> Hlen]. eexists _, j. split; [reflexivity|].
    destruct write_error; cbn; rewrite !traces_app; cbn; rewrite ?app_nil_r; split_and!; try done; try lia.
    intros _. by rewrite lookup_insert_eq.
  - right. split; [done|]. exists j. split; [done|]. intros k Hkj. by apply Hk.
Qed.

(** The parts of the state that a signal may change. *)
Definition traced_inv (w0 : WorkerNG) (es : list traced_event) (t : traced) : Prop :=
  run Worker.step (Ok (NotRun, w0)) (of_worker es) = Some (Ok (t_loop t, t_worker t)) /\
  length (traces (stdout t)) + (if t_signal t then 1 else 0) <= length (List.filter is_signal es) /\
  forall b, b ∈ traces (stdout t) -> exists stacks err i, SignalSeen stacks err ∈ es /\ b = stacks i.

Lemma traced_inv_step w0 es t e t' :
  (max_alloc < 2 ^ 63)%Z -> traced_inv w0 es t -> traced_step (Ok t) e = Some (Ok t') ->
  traced_inv w0 (es ++ [e]) t'.
Proof.
  intros Hmax (Hrun & Hlen & Hin) Hs.
  assert (Hin' : forall out, traces out = traces (stdout t) -> forall b, b ∈ traces out ->
    exists stacks err i, SignalSeen stacks err ∈ es ++ [e] /\ b = stacks i).
  { intros out -> b Hb. destruct (Hin b Hb) as (s & err & i & H & ->). exists s, err, i. set_solver. }
  unfold traced_inv. rewrite of_worker_app, run_app, Hrun, List.filter_app, length_app.
  cbn [traced_step] in Hs. destruct e as [e| |stacks err].
  - destruct (env_step (t_loop t) (t_worker t) e) as [[[l w]|]|] eqn:He; [|by destruct e..].
    assert (Ht : t' = mkTraced l w (t_signal t) (stdout t) (files t)) by (by destruct e; simplify_eq).
    subst t'. cbn [List.filter is_signal length of_worker omap list_omap run Worker.step t_loop t_worker t_signal stdout]. rewrite He. split_and!; [done|lia|by apply Hin'].
  - injection Hs as <-. cbn [List.filter is_signal length of_worker omap list_omap run Worker.step t_loop t_worker t_signal stdout].
    split_and!; [done| |by apply Hin'].
    destruct (t_signal t), (in_loop _ && _); cbn [orb]; lia.
  - destruct (t_signal t) eqn:Hsig; [|done].
    destruct (env_step (t_loop t) (t_worker t) StackSignal) as [[[l w]|]|] eqn:He; [|done..].
    destruct (printAllStacks_inv _ _ _ _ Hmax Hs) as (i & Hl & Hw & Hsg & Htr).
    cbn [t_loop t_worker t_signal stdout] in Hl, Hw, Hsg, Htr.
    cbn in He. unfold loop_step in He. destruct (negb _ || _) eqn:Hg; [done|].
    destruct (stackSignalEnabled _); [|done]. injection He as <- <-.
    apply orb_false_iff in Hg as [Hg _]. destruct (t_loop t) eqn:Hlt; try done.
    rewrite Hl, Hw, Hsg, Htr, length_app.
    cbn [List.filter is_signal length of_worker omap list_omap run Worker.step t_loop t_worker t_signal stdout].
    split_and!; [done|lia|].
    intros b [Hb|Hb]%elem_of_app; [by apply (Hin' (stdout t))|].
    apply list_elem_of_singleton in Hb as ->. exists stacks, err, i. set_solver.
Qed.

Lemma traced_run w0 es t :
  (max_alloc < 2 ^ 63)%Z ->
  run traced_step (Ok (mkTraced NotRun w0 false [] ∅)) es = Some (Ok t) -> traced_inv w0 es t.
Proof.
  intros Hmax. revert t. induction es as [|e es IH] using rev_ind; intros t Hrun.
  - injection Hrun as <-. split_and!; [done|cbn; lia|]. intros b Hb. by apply not_elem_of_nil in Hb.
  - apply run_snoc in Hrun as ([t1|] & Hrun & He); [|done]. by eapply traced_inv_step; [|apply IH|].
Qed.
End Traced.

(** ** Property *)

(** C31 (termination): a worker that is asked for its stacks by signals stays the
    worker it is: its runs are those of the worker without the signals, it prints at
    most one dump per signal, and a pending signal is always handled: the loop of
    [dumpStack] ends with the first dump that is shorter than its buffer, which
    doubles each time, and is written to the file of the process, unless the memory
    cannot hold a buffer for the stacks, when [make] panics. *)
Theorem stack_signals (max_alloc : Z) (appName : string) (pid : Z) (conn_isclosed : bool)
    (id : string) (protoVersion : Z) (debug : bool) (sel : write_select) (w0 : WorkerNG)
    (es : list traced_event) (t : traced)
    (Hmax : (max_alloc < 2 ^ 63)%Z)
    (Hnew : newWorkerNG conn_isclosed id protoVersion debug sel = inl w0)
    (Hrun : run (traced_step max_alloc appName pid) (Ok (mkTraced NotRun w0 false [] ∅)) es = Some (Ok t)) :
  run Worker.step (Ok (NotRun, w0)) (of_worker es) = Some (Ok (t_loop t, t_worker t)) /\
  length (traces (stdout t)) <= length (List.filter is_signal es) /\
  (forall b, b ∈ traces (stdout t) -> exists stacks err i, SignalSeen stacks err ∈ es /\ b = stacks i) /\
  forall stacks write_error,
    t_signal t = true -> t_loop t = Running -> stackSignalEnabled (t_worker t) = true ->
    (exists t' j, traced_step max_alloc appName pid (Ok t) (SignalSeen stacks write_error) = Some (Ok t') /\
       t_loop t' = Running /\ t_worker t' = t_worker t /\ t_signal t' = false /\
       (Z.of_nat (length (stacks j)) < size_at j <= max_alloc)%Z /\
       traces (stdout t') = traces (stdout t) ++ [stacks j] /\
       (write_error = None -> files t' !! filename appName pid = Some (stacks j))) \/
    (traced_step max_alloc appName pid (Ok t) (SignalSeen stacks write_error) = Some Panic /\
     exists j, (max_alloc < size_at j)%Z /\
       forall k, k < j -> (size_at k <= Z.of_nat (length (stacks k)))%Z).
Proof.
  destruct (traced_run _ _ _ _ _ _ Hmax Hrun) as (Hw & Hlen & Hin).
  split_and!; [done|destruct (t_signal t); lia|done|]. intros stacks write_error Hs Hl He.
  apply signal_handled; try done.
  pose proof (rel_run _ _ _ _ (rel_new _ _ _ _ _ _ Hnew) Hw) as Hr. apply (rel_blocked _ _ Hr).
Qed.

Lemma stack_signals_witness :
  match run (traced_step (2 ^ 47) "app" 7) (Ok (mkTraced NotRun sample_worker false [] ∅))
    [WorkerEvent (RunCall false Sent); Sigusr1; Sigusr1] with
  | Some (Ok t) => exists t' j,
      traced_step (2 ^ 47) "app" 7 (Ok t) (SignalSeen (fun _ => [x61]) None) = Some (Ok t') /\
      (1 < size_at j)%Z /\ traces (stdout t') = [[x61]]
  | _ => False
  end.
Proof.
  destruct (run _ _ _) as [[t|]|] eqn:Hrun; [|vm_compute in Hrun; discriminate..].
  destruct (stack_signals (2 ^ 47) _ _ false "w" 1 false Sent sample_worker _ t eq_refl eq_refl Hrun)
    as (_ & _ & _ & Hend).
  destruct (Hend (fun _ => [x61]) None) as [(t' & j & Hs & _ & _ & _ & Hj & Ht & _)|(Hs & _)];
    try (vm_compute in Hrun; by injection Hrun as <-).
  - exists t', j. split; [exact Hs|]. split; [apply Hj|]. rewrite Ht.
    vm_compute in Hrun. by injection Hrun as <-.
Defined.
