(* ===== verification/Channel.v ===== *)
(** * cocaine12/channel.go: the two directions of a call

    [rx] receives the results of a call: the service's loop pushes them into a
    one-place channel backed by a queue, and the clients take them with [Get],
    which follows the upstream tree of the method. [tx] sends further messages
    along the downstream tree. The [serviceRes] of service.go is modelled here.

    [Get] and [push] are split at their synchronisations, so that several
    getters and pushers interleave. *)
From S2P Require Import Prelude GoTypes Dispatch.
From Stdlib Require Import ZArith Lia.

Open Scope go_scope.

(** ** Results (cocaine12/service.go) *)

Record serviceRes : Type := mkRes {
  payload : list value;
  method : Z;
  err : option error
}.

Definition Result (s : serviceRes) : Z * list value * option error := (method s, payload s, err s).
Definition Err (s : serviceRes) : option error := err s.
Definition setError (e : error) (s : serviceRes) : serviceRes :=
  mkRes (payload s) (method s) (Some e).

(** [Extract] into a target of type [T]; the codec converts the payload. *)
Definition Extract {T} (convertPayload : list value -> T + error) (s : serviceRes) : T + error :=
  match err s with
  | Some e => inr e
  | None => convertPayload (payload s)
  end.

(** ** rx *)

Record rx : Type := mkRx {
  pushBuffer : option serviceRes;   (* a channel of capacity 1 *)
  rxTree : option streamDescription;
  queue : list serviceRes;
  done : bool
}.

Definition new_rx (upstream : option streamDescription) : rx := mkRx None upstream [] false.

Definition Closed (r : rx) : bool := done r.

(** [select { case pushBuffer <- queue\[0\]: queue = queue\[1:\] default: }] on
    a non-empty queue. *)
Definition move_first (r : rx) : rx :=
  match pushBuffer r, queue r with
  | None, res :: rest => mkRx (Some res) (rxTree r) rest (done r)
  | _, _ => r
  end.

(** The part of [push] under the lock. *)
Definition push_enqueue (res : serviceRes) (r : rx) : rx :=
  move_first (mkRx (pushBuffer r) (rxTree r) (queue r ++ [res]) (done r)).

(** The rest of [push]: whether the session is detached. A missing entry of the
    tree is a nil item, whose [Description] is read. *)
Definition push_detaches (res : serviceRes) (r : rx) : outcome bool :=
  match rxTree r with
  | None => Panic
  | Some treeMap =>
    match tree_lookup treeMap (method res) with
    | None => Panic
    | Some temp => Ok (bool_decide (Type_ (item_description temp) = emptyDispatch))
    end
  end.

(** [Get] after a result was received from [pushBuffer]: the move in the tree,
    then the decoding of an "error" message. *)
Section Get.
(** [convertPayload] into the category and code, and the message. *)
Context (convertPayload : list value -> (Z * Z * string) + error).

Definition advance (d : option streamDescription) (r : rx) : rx :=
  match Type_ d with
  | emptyDispatch => mkRx (pushBuffer r) (rxTree r) (queue r) true
  | recursiveDispatch => r
  | otherDispatch => mkRx (pushBuffer r) d (queue r) (done r)
  end.

Definition attach_error (name : string) (res : serviceRes) : serviceRes * option error :=
  if decide (name = "error") then
    match Extract convertPayload res with
    | inr e => (res, Some e)
    | inl (category, code, message) =>
      (setError (ErrRequest message category code) res, None)
    end
  else (res, None).

Definition get_finish (res : serviceRes) (r : rx) : outcome (rx * (serviceRes * option error)) :=
  match rxTree r with
  | None => Panic
  | Some treeMap =>
    match tree_lookup treeMap (method res) with
    | None => Panic
    | Some temp =>
      Ok (advance (item_description temp) r, attach_error (item_name temp) res)
    end
  end.

(** *** Getters and pushers *)

(** Where a goroutine calling [Get] is: outside, past the test of [Closed],
    after the empty fast path, waiting on [pushBuffer], or holding a result. *)
Inductive getter : Type :=
| GIdle
| GOpen
| GMissed
| GWaiting
| GHolding (res : serviceRes).

Record chan_state : Type := mkChan {
  rx_of : rx;
  checking : list serviceRes;       (* pushes that have left the lock *)
  getters : list getter;
  detached : bool;                  (* sessions.Detach was called *)
  pushed : list serviceRes;         (* in the order of the lock *)
  taken : list serviceRes;          (* received from pushBuffer, in order *)
  results : list (serviceRes * option error)
}.

Definition chan_init (upstream : option streamDescription) (n : nat) : chan_state :=
  mkChan (new_rx upstream) [] (replicate n GIdle) false [] [] [].

Inductive event : Type :=
| Push (res : serviceRes)   (* push: the part under the lock *)
| CheckTree (i : nat)       (* push: the rest, of the i-th pending push *)
| GetStart (g : nat)        (* Get: the test of Closed() *)
| FastPath (g : nat)        (* the first select *)
| Refill (g : nat)          (* the part of Get under the lock *)
| Receive (g : nat)         (* second select: <-pushBuffer *)
| CtxDone (g : nat)         (* second select: <-ctx.Done() *)
| Finish (g : nat).         (* the rest of Get *)

Definition take_buffer (g : nat) (res : serviceRes) (c : chan_state) : chan_state :=
  let r := rx_of c in
  mkChan (mkRx None (rxTree r) (queue r) (done r)) (checking c)
    (<[g := GHolding res]> (getters c)) (detached c) (pushed c) (taken c ++ [res]) (results c).

Definition set_rx (r : rx) (c : chan_state) : chan_state :=
  mkChan r (checking c) (getters c) (detached c) (pushed c) (taken c) (results c).
Definition set_getter (g : nat) (p : getter) (c : chan_state) : chan_state :=
  mkChan (rx_of c) (checking c) (<[g := p]> (getters c)) (detached c) (pushed c) (taken c)
    (results c).
Definition add_result (x : serviceRes * option error) (c : chan_state) : chan_state :=
  mkChan (rx_of c) (checking c) (getters c) (detached c) (pushed c) (taken c) (results c ++ [x]).

Definition step_ok (c : chan_state) (e : event) : option (outcome chan_state) :=
  match e with
  | Push res =>
    Some (Ok (mkChan (push_enqueue res (rx_of c)) (checking c ++ [res]) (getters c) (detached c)
      (pushed c ++ [res]) (taken c) (results c)))
  | CheckTree i =>
    match checking c !! i with
    | None => None
    | Some res =>
      Some (let* d := push_detaches res (rx_of c) in
            Ok (mkChan (rx_of c) (delete i (checking c)) (getters c) (detached c || d) (pushed c)
                  (taken c) (results c)))
    end
  | GetStart g =>
    match getters c !! g with
    | Some GIdle =>
      Some (Ok (if Closed (rx_of c) then c      (* ErrStreamIsClosed *)
                else set_getter g GOpen c))
    | _ => None
    end
  | FastPath g =>
    match getters c !! g with
    | Some GOpen =>
      match pushBuffer (rx_of c) with
      | Some res => Some (Ok (take_buffer g res c))
      | None => Some (Ok (set_getter g GMissed c))
      end
    | _ => None
    end
  | Refill g =>
    match getters c !! g with
    | Some GMissed => Some (Ok (set_getter g GWaiting (set_rx (move_first (rx_of c)) c)))
    | _ => None
    end
  | Receive g =>
    match getters c !! g, pushBuffer (rx_of c) with
    | Some GWaiting, Some res => Some (Ok (take_buffer g res c))
    | _, _ => None
    end
  | CtxDone g =>
    match getters c !! g with
    | Some GWaiting => Some (Ok (set_getter g GIdle c))
    | _ => None
    end
  | Finish g =>
    match getters c !! g with
    | Some (GHolding res) =>
      Some (let* '(r, x) := get_finish res (rx_of c) in
            Ok (add_result x (set_getter g GIdle (set_rx r c))))
    | _ => None
    end
  end.

Definition step (o : outcome chan_state) (e : event) : option (outcome chan_state) :=
  match o with
  | Panic => None
  | Ok c => step_ok c e
  end.

(** Successive results, as one client gets them. *)
Fixpoint get_all (rs : list serviceRes) (r : rx)
    : outcome (rx * list (serviceRes * option error)) :=
  match rs with
  | [] => Ok (r, [])
  | res :: rs =>
    if Closed r then Ok (r, [])                 (* ErrStreamIsClosed *)
    else
      let* '(r, x) := get_finish res r in
      let* '(r, xs) := get_all rs r in
      Ok (r, x :: xs)
  end.
End Get.

(** ** tx *)

Record tx : Type := mkTx {
  txTree : option streamDescription;
  tx_id : Z;
  tx_done : bool;
  headers : list value
}.

Section Tx.
(** The order in which [range] visits a tree. *)
Context (range : streamDescription -> list (Z * option StreamDescriptionItem)).

Definition range_of (t : option streamDescription) : list (Z * option StreamDescriptionItem) :=
  match t with Some t => range t | None => [] end.

(** [Call]: the new state, the message sent and the error. *)
Definition Call (name : string) (args : list value) (t : tx)
    : outcome (tx * option Message * option error) :=
  if tx_done t then Ok (t, None, Some (Errorf "tx is done" []))
  else
    let* '(method, e) := streamMethodByName (txTree t) (range_of (txTree t)) name in
    match e with
    | Some e => Ok (t, None, Some e)
    | None =>
      match txTree t with
      | None => Panic
      | Some treeMap =>
        match tree_lookup treeMap method with
        | None => Panic
        | Some temp =>
          let t' :=
            match Type_ (item_description temp) with
            | emptyDispatch => mkTx (txTree t) (tx_id t) true (headers t)
            | recursiveDispatch => t
            | otherDispatch => mkTx (item_description temp) (tx_id t) (tx_done t) (headers t)
            end in
          Ok (t', Some (mkMessage (mkInfo (tx_id t) method) args (headers t)), None)
        end
      end
    end.

Fixpoint call_all (calls : list (string * list value)) (t : tx)
    : outcome (tx * list Message) :=
  match calls with
  | [] => Ok (t, [])
  | (name, args) :: calls =>
    let* '(t, m, _) := Call name args t in
    let* '(t, ms) := call_all calls t in
    Ok (t, opt_list m ++ ms)
  end.
End Tx.

(** ** Specification: paths of a dispatch tree

    The position after a sequence of message types, and whether the stream is
    over; [None] when a type is not expected at its position. *)
Fixpoint walk (t : streamDescription) (ms : list Z) : option (streamDescription * bool) :=
  match ms with
  | [] => Some (t, false)
  | m :: ms =>
    match tree_lookup t m with
    | None => None
    | Some i =>
      match item_description i with
      | None => walk t ms
      | Some d =>
        if decide (size (sd_tree d) = 0) then
          match ms with [] => Some (t, true) | _ :: _ => None end
        else walk d ms
      end
    end
  end.

(** A tree whose entries are all final or recursive: the position never moves. *)
Definition flat (t : streamDescription) : Prop :=
  forall m i, tree_lookup t m = Some i -> Type_ (item_description i) <> otherDispatch.

Definition final (t : streamDescription) (res : serviceRes) : bool :=
  match tree_lookup t (method res) with
  | Some i => bool_decide (Type_ (item_description i) = emptyDispatch)
  | None => false
  end.

(** ** Lemmas *)

Lemma move_first_fifo r :
  opt_list (pushBuffer (move_first r)) ++ queue (move_first r) =
    opt_list (pushBuffer r) ++ queue r.
Proof. by destruct r as [[] ? []]. Qed.

Lemma move_first_pos r : rxTree (move_first r) = rxTree r /\ done (move_first r) = done r.
Proof. by destruct r as [[] ? []]. Qed.

Lemma push_enqueue_fifo res r :
  opt_list (pushBuffer (push_enqueue res r)) ++ queue (push_enqueue res r) =
    opt_list (pushBuffer r) ++ queue r ++ [res].
Proof. unfold push_enqueue. by rewrite move_first_fifo. Qed.

Lemma push_enqueue_pos res r :
  rxTree (push_enqueue res r) = rxTree r /\ done (push_enqueue res r) = done r.
Proof. by destruct r as [[] ? []]. Qed.

(** After the lock is released a non-empty queue means a full buffer. *)
Lemma move_first_full r : pushBuffer (move_first r) = None -> queue (move_first r) = [].
Proof. by destruct r as [[] ? []]. Qed.

Lemma type_empty d : Type_ d = emptyDispatch <-> exists s, d = Some s /\ size (sd_tree s) = 0.
Proof.
  unfold Type_. destruct d as [s|]; [case_decide|]; naive_solver.
Qed.

Lemma type_recursive d : Type_ d = recursiveDispatch <-> d = None.
Proof. unfold Type_. destruct d as [s|]; [case_decide|]; naive_solver. Qed.

Section GetLemmas.
Context (convertPayload : list value -> (Z * Z * string) + error).
#[local] Abbreviation get_finish := (get_finish convertPayload).
#[local] Abbreviation get_all := (get_all convertPayload).
#[local] Abbreviation step := (step convertPayload).
#[local] Abbreviation step_ok := (step_ok convertPayload).

Lemma get_finish_buffer res r r' x :
  get_finish res r = Ok (r', x) -> pushBuffer r' = pushBuffer r /\ queue r' = queue r.
Proof.
  unfold Channel.get_finish, advance. intros H. destruct (rxTree r) as [t|]; [|done].
  destruct (tree_lookup t (method res)) as [i|]; [|done].
  injection H as <- _. by destruct (Type_ (item_description i)).
Qed.

(** [get_finish] depends on the position only. *)
Lemma get_finish_pos res r r2 r' x :
  get_finish res r = Ok (r', x) -> rxTree r2 = rxTree r -> done r2 = done r ->
  get_finish res r2 = Ok (mkRx (pushBuffer r2) (rxTree r') (queue r2) (done r'), x).
Proof.
  unfold Channel.get_finish, advance. intros H Ht Hd. rewrite Ht.
  destruct (rxTree r) as [t|] eqn:Hr; [|done].
  destruct (tree_lookup t (method res)) as [i|]; [|done].
  injection H as <- <-. destruct r2. cbn in *. subst.
  destruct (Type_ (item_description i)); cbn; by rewrite ?Hr.
Qed.

Lemma get_all_snoc rs r r' xs res r'' x :
  get_all rs r = Ok (r', xs) -> done r' = false -> get_finish res r' = Ok (r'', x) ->
  get_all (rs ++ [res]) r = Ok (r'', xs ++ [x]).
Proof.
  revert r xs. induction rs as [|r1 rs IH]; intros r xs Hall Hd Hf; cbn in *.
  - injection Hall as -> <-. unfold Closed. by rewrite Hd, Hf.
  - unfold Closed in *. destruct (done r) eqn:Hdr.
    { injection Hall as -> <-. by rewrite Hd in Hdr. }
    apply outcome_bind_ok in Hall as ([r1' x1] & Hf1 & Hall).
    apply outcome_bind_ok in Hall as ([r2' xs2] & Hall & [= -> <-]).
    rewrite Hf1. cbn. by rewrite (IH _ _ Hall Hd Hf).
Qed.

Lemma chan_fifo_step c e c' :
  step_ok c e = Some (Ok c') ->
  taken c ++ opt_list (pushBuffer (rx_of c)) ++ queue (rx_of c) = pushed c ->
  taken c' ++ opt_list (pushBuffer (rx_of c')) ++ queue (rx_of c') = pushed c'.
Proof.
  intros Hs Hi. destruct e as [res|i|g|g|g|g|g|g]; cbn in Hs.
  - injection Hs as <-. cbn [taken rx_of pushed]. rewrite push_enqueue_fifo, <- Hi.
    by rewrite !(assoc_L (++)).
  - step_inv Hs. apply outcome_bind_ok in Hs as (d & _ & [= <-]). done.
  - step_inv Hs; by destruct (Closed _).
  - destruct (getters c !! g) as [[]|]; try done.
    destruct (pushBuffer (rx_of c)) as [res|] eqn:Hb; injection Hs as <-; cbn in *.
    + by rewrite <- (assoc_L (++)).
    + by rewrite Hb.
  - step_inv Hs. cbn. by rewrite move_first_fifo.
  - destruct (getters c !! g) as [[]|]; try done.
    destruct (pushBuffer (rx_of c)) as [res|] eqn:Hb; [|done]. injection Hs as <-. cbn in *.
    by rewrite <- (assoc_L (++)).
  - step_inv Hs. done.
  - step_inv Hs. apply outcome_bind_ok in Hs as ([r x] & Hf & [= <-]). cbn.
    apply get_finish_buffer in Hf as [-> ->]. done.
Qed.
End GetLemmas.

(** ** Properties of the receiving side *)
Section RxLemmas.
Context (convertPayload : list value -> (Z * Z * string) + error).
#[local] Abbreviation get_finish := (get_finish convertPayload).
#[local] Abbreviation get_all := (get_all convertPayload).
#[local] Abbreviation step := (step convertPayload).
#[local] Abbreviation step_ok := (step_ok convertPayload).

Lemma step_Ok_inv o e c' : step o e = Some (Ok c') -> exists c, o = Ok c /\ step_ok c e = Some (Ok c').
Proof. destruct o as [c|]; [|done]. cbn. eauto. Qed.

(** Invariants of the states that have not panicked. *)
Lemma chan_invariant (Inv : chan_state -> Prop) c0 es c :
  Inv c0 -> (forall c e c', Inv c -> step_ok c e = Some (Ok c') -> Inv c') ->
  run step (Ok c0) es = Some (Ok c) -> Inv c.
Proof.
  intros H0 Hstep. revert c. induction es as [|e es IH] using rev_ind; intros c Hrun.
  { by injection Hrun as <-. }
  apply run_snoc in Hrun as (o & Hrun & Hs).
  apply step_Ok_inv in Hs as (c1 & -> & Hs). eauto.
Qed.

(** One client: what it holds, and its position against [get_all]. *)
Definition holding (p : getter) : list serviceRes :=
  match p with GHolding res => [res] | _ => [] end.

Definition open_phase (p : getter) : bool :=
  match p with GIdle => false | _ => true end.

Definition single_inv (upstream : option streamDescription) (c : chan_state) : Prop :=
  exists p gots,
    getters c = [p] /\
    taken c = gots ++ holding p /\
    get_all gots (new_rx upstream) =
      Ok (mkRx None (rxTree (rx_of c)) [] (done (rx_of c)), results c) /\
    (open_phase p = true -> done (rx_of c) = false) /\
    (p = GWaiting -> pushBuffer (rx_of c) = None -> queue (rx_of c) = []).

Lemma single_lookup (p q : getter) g : [p] !! g = Some q -> g = 0 /\ p = q.
Proof. destruct g as [|[|g]]; cbn; naive_solver. Qed.

Lemma push_enqueue_full res r : pushBuffer (push_enqueue res r) <> None.
Proof. destruct r as [[] ? []]; done. Qed.

Lemma single_step upstream c e c' :
  single_inv upstream c -> step_ok c e = Some (Ok c') -> single_inv upstream c'.
Proof.
  intros (p & gots & Hg & Ht & Hall & Hop & Hw) Hs.
  destruct e as [res|i|g|g|g|g|g|g]; cbn in Hs.
  - injection Hs as <-. exists p, gots. cbn [getters taken rx_of results].
    destruct (push_enqueue_pos res (rx_of c)) as [-> ->]. split_and!; [done..|].
    intros _ Hn. by destruct (push_enqueue_full res (rx_of c)).
  - step_inv Hs. apply outcome_bind_ok in Hs as (d & _ & [= <-]).
    exists p, gots. by split_and!.
  - rewrite Hg in Hs. step_inv Hs. apply single_lookup in Heqo as [-> ->].
    unfold Closed. destruct (done (rx_of c)) eqn:Hd; [exists GIdle, gots; rewrite ?Hd; by split_and!|].
    exists GOpen, gots. cbn. rewrite Hg, Hd. by split_and!.
  - rewrite Hg in Hs. destruct ([p] !! g) as [q|] eqn:Hq; [|done].
    apply single_lookup in Hq as [-> ->]. destruct q; try done. cbn in Ht.
    destruct (pushBuffer (rx_of c)) as [res|]; injection Hs as <-.
    + exists (GHolding res), gots. cbn. rewrite Hg, Ht, app_nil_r. by split_and!.
    + exists GMissed, gots. cbn. rewrite Hg. by split_and!.
  - rewrite Hg in Hs. destruct ([p] !! g) as [q|] eqn:Hq; [|done].
    apply single_lookup in Hq as [-> ->]. destruct q; try done. injection Hs as <-.
    exists GWaiting, gots. cbn. destruct (move_first_pos (rx_of c)) as [-> ->].
    rewrite Hg. split_and!; try done. intros _. apply move_first_full.
  - rewrite Hg in Hs. destruct ([p] !! g) as [q|] eqn:Hq; [|done].
    apply single_lookup in Hq as [-> ->]. destruct q; try done. cbn in Ht.
    destruct (pushBuffer (rx_of c)) as [res|]; [|done]. injection Hs as <-.
    exists (GHolding res), gots. cbn. rewrite Hg, Ht, app_nil_r. by split_and!.
  - rewrite Hg in Hs. destruct ([p] !! g) as [q|] eqn:Hq; [|done].
    apply single_lookup in Hq as [-> ->]. destruct q; try done. injection Hs as <-.
    exists GIdle, gots. cbn. rewrite Hg. by split_and!.
  - rewrite Hg in Hs. destruct ([p] !! g) as [q|] eqn:Hq; [|done].
    apply single_lookup in Hq as [-> ->]. destruct q as [| | | |res]; try done.
    injection Hs as Hs. apply outcome_bind_ok in Hs as ([r x] & Hf & [= <-]).
    exists GIdle, (gots ++ [res]). cbn. rewrite Hg, app_nil_r.
    pose proof (get_finish_pos _ _ _ (mkRx None (rxTree (rx_of c)) [] (done (rx_of c)))
      _ _ Hf eq_refl eq_refl) as Hf'. cbn in Hf'.
    split_and!; try done. by eapply get_all_snoc; [exact Hall|cbn; by apply Hop|].
Qed.

Lemma single_run upstream es c :
  run step (Ok (chan_init upstream 1)) es = Some (Ok c) -> single_inv upstream c.
Proof.
  apply chan_invariant; [|apply single_step]. by exists GIdle, [].
Qed.

Lemma chan_fifo_run upstream n es c :
  run step (Ok (chan_init upstream n)) es = Some (Ok c) ->
  taken c ++ opt_list (pushBuffer (rx_of c)) ++ queue (rx_of c) = pushed c.
Proof.
  apply (chan_invariant (fun c => taken c ++ opt_list (pushBuffer (rx_of c)) ++ queue (rx_of c)
    = pushed c)); [done|]. intros ? ? ? Hi Hs. by eapply chan_fifo_step.
Qed.

Lemma get_all_walk t rs t' b :
  walk t (method <$> rs) = Some (t', b) ->
  exists xs, get_all rs (new_rx (Some t)) = Ok (mkRx None (Some t') [] b, xs) /\
    length xs = length rs.
Proof.
  revert t. induction rs as [|res rs IH]; intros t Hw; cbn in *.
  { injection Hw as -> <-. by exists []. }
  unfold get_finish, Channel.get_finish, advance. cbn [rxTree new_rx].
  destruct (tree_lookup t (method res)) as [i|]; [|done].
  destruct (item_description i) as [d|]; cbn [Type_].
  - case_decide as Hsz; cbn.
    + destruct rs as [|r2 rs]; [|done]. injection Hw as -> <-. cbn. by eexists [_].
    + destruct (IH d Hw) as (xs & Hall & Hlen). unfold new_rx in Hall. rewrite Hall. cbn.
      eexists (_ :: xs). cbn. by rewrite Hlen.
  - cbn. destruct (IH t Hw) as (xs & Hall & Hlen). rewrite Hall. cbn.
    eexists (_ :: xs). cbn. by rewrite Hlen.
Qed.

(** In a flat tree the position is the root, and [CheckTree] is exact. *)
Definition known (t : streamDescription) (res : serviceRes) : Prop :=
  is_Some (tree_lookup t (method res)).

Definition flat_inv (t : streamDescription) (c : chan_state) : Prop :=
  rxTree (rx_of c) = Some t /\
  Forall (known t) (pushed c) /\
  (exists chk, pushed c ≡ₚ checking c ++ chk /\
     (detached c = true <-> exists res, res ∈ chk /\ final t res = true)).

Lemma push_detaches_known t res r :
  rxTree r = Some t -> known t res -> push_detaches res r = Ok (final t res).
Proof.
  intros Ht [i Hi]. unfold push_detaches, final. by rewrite Ht, Hi.
Qed.

Lemma get_finish_flat t res r :
  flat t -> rxTree r = Some t -> known t res ->
  exists r' x, get_finish res r = Ok (r', x) /\ rxTree r' = Some t.
Proof.
  intros Hflat Ht [i Hi]. unfold get_finish, Channel.get_finish, advance. rewrite Ht, Hi.
  do 2 eexists. split; [done|]. specialize (Hflat _ _ Hi).
  by destruct (Type_ (item_description i)).
Qed.

Definition event_known (t : streamDescription) (e : event) : Prop :=
  match e with Push res => known t res | _ => True end.

Lemma held_known t n es c g res :
  run step (Ok (chan_init (Some t) n)) es = Some (Ok c) ->
  getters c !! g = Some (GHolding res) -> res ∈ taken c.
Proof.
  intros Hrun. revert g res.
  apply (chan_invariant (fun c => forall g res, getters c !! g = Some (GHolding res) ->
    res ∈ taken c) (chan_init (Some t) n) es); [|clear|done].
  { intros g res Hg. cbn in Hg. by apply lookup_replicate in Hg as [? _]. }
  assert (Hins : forall (l : list getter) g p k res (tk : list serviceRes), (forall g res, l !! g = Some (GHolding res) ->
    res ∈ tk) -> (forall res', p = GHolding res' -> res' ∈ tk) ->
    <[g := p]> l !! k = Some (GHolding res) -> res ∈ tk).
  { intros l g p k res tk Hl Hp Hk.
    apply list_lookup_insert_Some in Hk as [(_ & Heq & _)|[_ Hk]]; eauto. }
  intros c e c' Hi Hs g0 res0.
  destruct e as [res|i|g|g|g|g|g|g]; cbn in Hs.
  - injection Hs as <-. apply Hi.
  - step_inv Hs. apply outcome_bind_ok in Hs as (d & _ & [= <-]). apply Hi.
  - step_inv Hs. destruct (Closed _); [apply Hi|]. cbn. by apply Hins.
  - step_inv Hs; cbn; apply Hins; try done; set_solver.
  - step_inv Hs. cbn. by apply Hins.
  - step_inv Hs; cbn; apply Hins; try done; set_solver.
  - step_inv Hs. cbn. by apply Hins.
  - step_inv Hs. apply outcome_bind_ok in Hs as ([r x] & _ & [= <-]). cbn. by apply Hins.
Qed.

Lemma flat_step t n es c e s :
  flat t -> run step (Ok (chan_init (Some t) n)) es = Some (Ok c) -> event_known t e ->
  flat_inv t c -> step_ok c e = Some s -> exists c', s = Ok c' /\ flat_inv t c'.
Proof.
  intros Hflat Hrun He (Ht & Hk & chk & Hp & Hd) Hs.
  pose proof (fun g res => held_known t n es c g res Hrun) as Hheld.
  pose proof (chan_fifo_run _ _ _ _ Hrun) as Hfifo.
  destruct e as [res|i|g|g|g|g|g|g]; cbn in Hs.
  - injection Hs as <-. eexists. split; [done|]. unfold flat_inv.
    cbn [rx_of pushed checking detached].
    destruct (push_enqueue_pos res (rx_of c)) as [-> _].
    split_and!; [done|apply Forall_app; by repeat constructor|].
    exists chk. split; [|done]. rewrite Hp, <- !(assoc_L (++)).
    apply Permutation_app_head, Permutation_app_comm.
  - destruct (checking c !! i) as [res|] eqn:Hi; [|done]. injection Hs as <-.
    pose proof (delete_Permutation (checking c) i res Hi) as Hdel.
    assert (Hkn : known t res).
    { rewrite Forall_forall in Hk. apply Hk. rewrite Hp, Hdel. set_solver. }
    rewrite (push_detaches_known t) by done. cbn.
    eexists. split; [done|]. split_and!; [done..|]. exists (res :: chk). cbn. split.
    + etransitivity; [exact Hp|]. rewrite Hdel at 1. cbn. apply Permutation_middle.
    + rewrite orb_true_iff, Hd. setoid_rewrite elem_of_cons. naive_solver.
  - destruct (getters c !! g) as [[]|]; try done. injection Hs as <-.
    eexists. split; [done|]. destruct (Closed _); unfold flat_inv; eauto.
  - destruct (getters c !! g) as [[]|]; try done.
    destruct (pushBuffer (rx_of c)); injection Hs as <-; eexists; (split; [done|]);
      unfold flat_inv; eauto.
  - destruct (getters c !! g) as [[]|]; try done. injection Hs as <-.
    eexists. split; [done|]. unfold flat_inv. cbn.
    destruct (move_first_pos (rx_of c)) as [-> _]. eauto.
  - destruct (getters c !! g) as [[]|]; try done.
    destruct (pushBuffer (rx_of c)); [|done]. injection Hs as <-. eexists. split; [done|].
    unfold flat_inv; eauto.
  - destruct (getters c !! g) as [[]|]; try done. injection Hs as <-.
    eexists. split; [done|]. unfold flat_inv; eauto.
  - destruct (getters c !! g) as [[| | | |res]|] eqn:Hg; try done. injection Hs as <-.
    assert (Hkn : known t res).
    { rewrite Forall_forall in Hk. apply Hk. rewrite <- Hfifo.
      apply elem_of_app. left. by eapply Hheld. }
    destruct (get_finish_flat t res (rx_of c) Hflat Ht Hkn) as (r' & x & Hf & Ht').
    rewrite Hf. cbn. eexists. split; [done|]. unfold flat_inv; eauto.
Qed.

Lemma flat_run t n es s :
  flat t -> Forall (event_known t) es ->
  run step (Ok (chan_init (Some t) n)) es = Some s -> exists c, s = Ok c /\ flat_inv t c.
Proof.
  intros Hflat. revert s. induction es as [|e es IH] using rev_ind; intros s Hk Hrun.
  { injection Hrun as <-. eexists. split; [done|]. split_and!; [done..|].
    exists []. split; [done|]. split; [done|]. intros (? & ?%elem_of_nil & _). done. }
  apply Forall_app in Hk as [Hk He]. apply Forall_cons in He as [He _].
  apply run_snoc in Hrun as (o & Hrun & Hs).
  destruct (IH o Hk Hrun) as (c & -> & Hinv). cbn in Hs.
  exact (flat_step t n es c e s Hflat Hrun He Hinv Hs).
Qed.
End RxLemmas.

Lemma valueOrError_flat t : valueOrError = Some t -> flat t.
Proof.
  intros [= <-] m i Hm. apply tree_lookup_Some in Hm. cbn [sd_tree] in Hm.
  apply lookup_insert_Some in Hm as [(_ & [= <-])|[_ Hm]]; [done|].
  by apply lookup_singleton_Some in Hm as (_ & [= <-]).
Qed.

(** ** Lemmas on the sending side *)
Section TxLemmas.
Context (range : streamDescription -> list (Z * option StreamDescriptionItem)).
Context (range_ok : forall s, range s ≡ₚ map_to_list (sd_tree s)).

(** One [Call] on a well-formed tree: no panic, and a step of [walk]. *)
Lemma Call_step name args t tr :
  txTree t = Some tr -> sd_wf tr -> tx_done t = false ->
  (exists e, Call range name args t = Ok (t, None, Some e)) \/
  (exists t' tr' m i, Call range name args t =
      Ok (t', Some (mkMessage (mkInfo (tx_id t) m) args (headers t)), None) /\
    tree_lookup tr m = Some i /\ item_name i = name /\
    txTree t' = Some tr' /\ sd_wf tr' /\ tx_id t' = tx_id t /\ headers t' = headers t /\
    walk tr [m] = Some (tr', tx_done t')).
Proof using range_ok.
  intros Ht Hwf Hd. unfold Call. rewrite Ht, Hd. cbn [range_of streamMethodByName].
  pose proof (stream_scan_result (range tr) name) as Hs.
  destruct (stream_scan name (range tr)) as [[m [e|]]|]; cbn [outcome_bind].
  - left. by exists e.
  - right. destruct Hs as (i & Hin & Hn).
    apply (elem_of_range _ _ _ _ (range_ok tr)) in Hin.
    destruct (sd_wf_lookup _ _ _ Hwf Hin) as (? & [= <-] & Hdwf).
    apply tree_lookup_Some in Hin. rewrite Hin. unfold Type_.
    destruct (item_description i) as [d|] eqn:Hdi; [case_decide|];
      do 2 eexists; exists m, i; (split_and!; [done|done|done| |..]); cbn; try done; auto.
    all: rewrite Hin, Hdi, ?Hd; by rewrite ?decide_True, ?decide_False by done.
  - destruct Hs as [i Hin]. by destruct (sd_wf_order _ _ _ Hwf (range_ok tr) Hin).
Qed.

Lemma walk_cons t m t1 b1 ms :
  walk t [m] = Some (t1, b1) -> (b1 = true -> ms = []) ->
  walk t (m :: ms) = if b1 then Some (t1, true) else walk t1 ms.
Proof.
  cbn. destruct (tree_lookup t m) as [i|]; [|done].
  destruct (item_description i) as [d|]; [case_decide|]; intros [= <- <-] Hb; try done.
  by rewrite Hb.
Qed.

Lemma call_all_done calls t :
  tx_done t = true -> call_all range calls t = Ok (t, []).
Proof.
  intros Hd. induction calls as [|[name args] calls IH]; [done|].
  cbn. unfold Call. rewrite Hd. cbn. by rewrite IH.
Qed.

Lemma call_all_walk calls t tr :
  txTree t = Some tr -> sd_wf tr -> tx_done t = false ->
  exists t' tr' ms, call_all range calls t = Ok (t', ms) /\
    walk tr (msg_type <$> ms) = Some (tr', tx_done t') /\
    Forall (fun m => msg_session m = tx_id t /\ Headers m = headers t) ms.
Proof using range_ok.
  revert t tr. induction calls as [|[name args] calls IH]; intros t tr Ht Hwf Hd.
  { exists t, tr, []. cbn. rewrite Hd. by split_and!. }
  cbn [call_all].
  destruct (Call_step name args t tr Ht Hwf Hd)
    as [[e He]|(t1 & tr1 & m & i & He & _ & _ & Ht1 & Hwf1 & Hid & Hh & Hw)]; rewrite He; cbn.
  - destruct (IH t tr Ht Hwf Hd) as (t' & tr' & ms & -> & ? & ?). by exists t', tr', ms.
  - destruct (tx_done t1) eqn:Hd1.
    + rewrite call_all_done by done. cbn. exists t1, tr1. eexists. split; [done|].
      rewrite Hd1. cbn in Hw. split; [done|]. by repeat constructor.
    + destruct (IH t1 tr1 Ht1 Hwf1 Hd1) as (t' & tr' & ms & -> & Hw' & Hall). cbn.
      exists t', tr'. eexists. split; [done|]. split.
      * cbn [fmap list_fmap]. change (msg_type _) with m.
        by rewrite (walk_cons tr m tr1 false) by done.
      * rewrite Hid, Hh in Hall. by constructor.
Qed.
End TxLemmas.

(** ** Properties *)

(** C14 (invariant): with any number of concurrent [Get]s and [push]es, the
    results taken from [pushBuffer], the one in it and the queue are, in this
    order, the results pushed: none is lost, duplicated or overtaken. *)
Theorem channel_fifo (convertPayload : list value -> (Z * Z * string) + error)
    (upstream : option streamDescription) (n : nat) (es : list event) (c : chan_state)
    (Hrun : run (step convertPayload) (Ok (chan_init upstream n)) es = Some (Ok c)) :
  taken c ++ opt_list (pushBuffer (rx_of c)) ++ queue (rx_of c) = pushed c.
Proof. by eapply chan_fifo_run. Qed.

(** The codec of the examples: it decodes what [newErrorV1] packs. *)
Definition sample_codec (l : list value) : (Z * Z * string) + error :=
  match l with
  | [VIntPair category code; VString message] => inl (category, code, message)
  | _ => inr (ExtErr "codec")
  end.

Ltac run_chan E :=
  match goal with |- context [run ?st ?s ?es] =>
    destruct (run st s es) as [[c|]|] eqn:E; [|vm_compute in E; discriminate..]
  end.

Lemma channel_fifo_witness :
  match run (step sample_codec) (Ok (chan_init valueOrError 2))
    [GetStart 0; FastPath 0; Push (mkRes [] 0 None); Push (mkRes [VNil] 1 None); Refill 0;
     Receive 0] with
  | Some (Ok c) => taken c ++ opt_list (pushBuffer (rx_of c)) ++ queue (rx_of c) =
      [mkRes [] 0 None; mkRes [VNil] 1 None]
  | _ => False
  end.
Proof.
  run_chan E. rewrite (channel_fifo sample_codec valueOrError 2 _ c E).
  vm_compute in E. by injection E as <-.
Defined.

(** A client that alone gets the results of a channel and waits
    in [Get] is never stuck while something is pending: the buffer is full and
    it can receive. What it got so far is what [get_all] makes of a prefix of the
    results pushed, in order. *)
Theorem channel_single_client (convertPayload : list value -> (Z * Z * string) + error)
    (upstream : option streamDescription) (es : list event) (c : chan_state)
    (Hrun : run (step convertPayload) (Ok (chan_init upstream 1)) es = Some (Ok c)) :
  (getters c = [GWaiting] -> opt_list (pushBuffer (rx_of c)) ++ queue (rx_of c) <> [] ->
   exists c', step convertPayload (Ok c) (Receive 0) = Some (Ok c')) /\
  exists gots r, gots `prefix_of` pushed c /\
    get_all convertPayload gots (new_rx upstream) = Ok (r, results c).
Proof.
  destruct (single_run _ _ _ _ Hrun) as (p & gots & Hg & Ht & Hall & Hop & Hw).
  pose proof (chan_fifo_run _ _ _ _ _ Hrun) as Hf. split.
  - intros Hwait Hne. rewrite Hg in Hwait. injection Hwait as ->. cbn. rewrite Hg. cbn.
    destruct (pushBuffer (rx_of c)) as [res|] eqn:Hb; [by eexists|].
    by rewrite (Hw eq_refl eq_refl) in Hne.
  - exists gots. eexists. split; [|exact Hall]. rewrite <- Hf, Ht, <- !(assoc_L (++)).
    by eexists.
Qed.

Lemma channel_single_client_witness :
  match run (step sample_codec) (Ok (chan_init valueOrError 1))
    [GetStart 0; FastPath 0; Refill 0; Push (mkRes [] 0 None)] with
  | Some (Ok c) => exists c', step sample_codec (Ok c) (Receive 0) = Some (Ok c')
  | _ => False
  end.
Proof.
  run_chan E. apply (proj1 (channel_single_client sample_codec valueOrError _ c E));
    cbn in E; by injection E as <-.
Defined.

(** Two clients getting from one channel may leave one of them
    waiting on the empty buffer while a result is in the queue; nothing but
    another push, or another [Get], moves it on. *)
Theorem channel_two_clients_stall (convertPayload : list value -> (Z * Z * string) + error)
    (upstream : option streamDescription) (a b : serviceRes) :
  exists es c, run (step convertPayload) (Ok (chan_init upstream 2)) es = Some (Ok c) /\
    getters c = [GHolding a; GWaiting] /\ pushBuffer (rx_of c) = None /\
    queue (rx_of c) = [b] /\
    step convertPayload (Ok c) (Receive 1) = None.
Proof.
  eexists [GetStart 0; FastPath 0; Refill 0; GetStart 1; FastPath 1; Refill 1;
    Push a; Push b; Receive 0], _.
  split; [done|]. by split_and!.
Qed.

(** Results that follow the upstream tree are all delivered,
    without a panic, each moving the position as the tree says; after a final
    message the channel is closed ([Get] then returns [ErrStreamIsClosed]). *)
Theorem get_follows_tree (convertPayload : list value -> (Z * Z * string) + error)
    (t t' : streamDescription) (rs : list serviceRes) (b : bool)
    (Hw : walk t (method <$> rs) = Some (t', b)) :
  exists xs, get_all convertPayload rs (new_rx (Some t)) = Ok (mkRx None (Some t') [] b, xs) /\
    length xs = length rs.
Proof. by apply get_all_walk. Qed.

Lemma get_follows_tree_witness :
  match valueOrError with
  | Some t => exists xs, get_all sample_codec [mkRes [VIntPair 1 2; VString "e"] 1 None]
      (new_rx (Some t)) = Ok (mkRx None (Some t) [] true, xs) /\ length xs = 1
  | None => False
  end.
Proof.
  cbn [valueOrError].
  apply (get_follows_tree sample_codec _ _ [mkRes [VIntPair 1 2; VString "e"] 1 None] true).
  vm_compute. reflexivity.
Defined.

(** On a tree whose entries are all final or recursive, as those
    the locator publishes, no interleaving of pushes of known messages and gets
    panics, and once the pushes are over the session was detached exactly when a
    final message was pushed. *)
Theorem flat_channel_safe (convertPayload : list value -> (Z * Z * string) + error)
    (t : streamDescription) (n : nat) (es : list event) (s : outcome chan_state)
    (Hflat : flat t) (Hknown : Forall (event_known t) es)
    (Hrun : run (step convertPayload) (Ok (chan_init (Some t) n)) es = Some s) :
  exists c, s = Ok c /\ rxTree (rx_of c) = Some t /\
    (checking c = [] ->
     detached c = true <-> exists res, res ∈ pushed c /\ final t res = true).
Proof.
  destruct (flat_run _ _ _ _ _ Hflat Hknown Hrun) as (c & -> & Ht & _ & chk & Hp & Hd).
  exists c. split_and!; [done..|]. intros Hc. rewrite Hc in Hp. cbn in Hp. rewrite Hd.
  by setoid_rewrite Hp.
Qed.

Lemma flat_channel_safe_witness :
  match valueOrError with
  | Some t => exists c, run (step sample_codec) (Ok (chan_init (Some t) 1))
      [Push (mkRes [] 0 None); CheckTree 0] = Some (Ok c) /\ rxTree (rx_of c) = Some t
  | None => False
  end.
Proof.
  destruct valueOrError as [t|] eqn:Hv; [|discriminate].
  destruct (run (step sample_codec) (Ok (chan_init (Some t) 1))
    [Push (mkRes [] 0 None); CheckTree 0]) as [s|] eqn:E.
  - destruct (flat_channel_safe sample_codec t 1 [Push (mkRes [] 0 None); CheckTree 0] s (valueOrError_flat t Hv)
      ltac:(injection Hv as <-; repeat constructor; by eexists) E) as (c & -> & Ht & _).
    by exists c.
  - injection Hv as <-. vm_compute in E. discriminate.
Defined.

(** On a tree with a deeper level, [push] looks its message up at
    the position of the client, not of the stream: two messages that follow the
    tree make it panic when the client has not yet taken the first one, although
    they are delivered when it has. *)
Theorem push_ahead_of_get_panics (convertPayload : list value -> (Z * Z * string) + error)
    (t d : streamDescription) (i i2 : StreamDescriptionItem) (r1 r2 : serviceRes)
    (Hi : tree_lookup t (method r1) = Some i) (Hd : item_description i = Some d)
    (Hi2 : tree_lookup d (method r2) = Some i2) (Hno : tree_lookup t (method r2) = None) :
  (exists p, walk t [method r1; method r2] = Some p) /\
  run (step convertPayload) (Ok (chan_init (Some t) 1))
    [Push r1; CheckTree 0; Push r2; CheckTree 0] = Some Panic /\
  exists c, run (step convertPayload) (Ok (chan_init (Some t) 1))
    [Push r1; CheckTree 0; GetStart 0; FastPath 0; Finish 0; Push r2; CheckTree 0] = Some (Ok c).
Proof.
  assert (Hsz : size (sd_tree d) <> 0).
  { apply tree_lookup_Some in Hi2. intros Hsz. apply map_size_empty_inv in Hsz.
    by rewrite Hsz, lookup_empty in Hi2. }
  split_and!.
  - cbn. rewrite Hi, Hd, (decide_False (P := size (sd_tree d) = 0)) by done. cbn. rewrite Hi2.
    destruct (item_description i2) as [d2|]; [case_decide|]; eauto.
  - cbn. unfold push_detaches. cbn. rewrite Hi. cbn. by rewrite Hno.
  - cbn. unfold push_detaches, get_finish, advance. cbn. rewrite Hi. cbn. rewrite Hi. cbn.
    rewrite Hd. cbn. rewrite decide_False by done. cbn.
    assert (Hadv : rxTree (advance (Some d) (mkRx None (Some t) [] false)) = Some d).
    { unfold advance. cbn. by rewrite decide_False by done. }
    unfold push_detaches. destruct (push_enqueue_pos r2
      (advance (Some d) (mkRx None (Some t) [] false))) as [-> _].
    rewrite Hadv, Hi2. by eexists.
Qed.

Lemma push_ahead_of_get_panics_witness :
  run (step sample_codec) (Ok (chan_init (Some (SD {[ 0%Z := Some (SDItem "open"
      (Some (SD {[ 5%Z := Some (SDItem "data" None) ]}))) ]})) 1))
    [Push (mkRes [] 0 None); CheckTree 0; Push (mkRes [] 5 None); CheckTree 0] = Some Panic.
Proof.
  refine (proj1 (proj2 (push_ahead_of_get_panics sample_codec _ _ _ _
    (mkRes [] 0 None) (mkRes [] 5 None) _ _ _ _))); reflexivity.
Defined.

(** C39 (type): whatever calls a client makes on a channel, the messages
    [tx] sends carry the channel's session and headers and follow a path of the
    downstream tree; nothing is sent after a final message, and a well-formed
    tree never makes it panic. *)
Theorem tx_follows_tree (range : streamDescription -> list (Z * option StreamDescriptionItem))
    (Hrange : forall s, range s ≡ₚ map_to_list (sd_tree s))
    (t : streamDescription) (id : Z) (hs : list value) (calls : list (string * list value))
    (Hwf : sd_wf t) :
  exists t' tr' ms, call_all range calls (mkTx (Some t) id false hs) = Ok (t', ms) /\
    walk t (msg_type <$> ms) = Some (tr', tx_done t') /\
    Forall (fun m => msg_session m = id /\ Headers m = hs) ms.
Proof. by apply (call_all_walk range Hrange calls (mkTx (Some t) id false hs)). Qed.

Lemma tx_follows_tree_witness :
  match valueOrError with
  | Some t => exists t' tr' ms,
      call_all (fun s => map_to_list (sd_tree s)) [("value", []); ("value", [])]
        (mkTx (Some t) 7 false []) = Ok (t', ms) /\
      walk t (msg_type <$> ms) = Some (tr', tx_done t')
  | None => False
  end.
Proof.
  destruct valueOrError as [t|] eqn:Hv; [|discriminate].
  destruct (tx_follows_tree (fun s => map_to_list (sd_tree s)) (fun s => Permutation_refl _)
    t 7 [] [("value", []); ("value", [])] (valueOrError_wf t Hv)) as (t' & tr' & ms & H1 & H2 & _).
  by exists t', tr', ms.
Defined.
