(* ===== verification/Service.v ===== *)
(** * cocaine12/service.go, cocaine12/locator.go and cocaine12/serviceinfo.go

    A [Service] multiplexes channels over a connection: [call] opens a session
    for a channel, the loop hands the received messages to the channels,
    [Reconnect] replaces the connection. The operations are whole-call steps;
    what their locks have to guarantee is in Locking.v. Connections, name
    resolution and map orders are the environment's choice. *)
From S2P Require Import Prelude GoTypes Headers Dispatch Sessions Channel.
From Stdlib Require Import ZArith Lia.

Open Scope go_scope.

(** ** Endpoints and connections *)

Record EndpointItem : Type := mkEndpoint {
  IP : string;
  Port : Z
}.

#[export] Instance EndpointItem_eq_dec : EqDecision EndpointItem.
Proof. solve_decision. Defined.

(** [net.JoinHostPort]: a host with a colon is bracketed. *)
Definition has_colon (host : string) : bool :=
  bool_decide (Ascii.ascii_of_nat 58 ∈ String.list_ascii_of_string host).
Definition JoinHostPort (host port : string) : string :=
  if has_colon host then "[" +:+ host +:+ "]:" +:+ port else host +:+ ":" +:+ port.

Definition EndpointItem_String (e : EndpointItem) : string := JoinHostPort (IP e) (pretty (Port e)).

(** [MultiConnectionError]; [text] is the [Error()] of the wrapped errors. *)
Definition connection_error (e : EndpointItem) (err : error) : string * Z * error :=
  (IP e, Port e, err).

Definition MultiConnectionError_Error (text : error -> string)
    (m : list (string * Z * error)) : string :=
  foldl (fun b '(ip, port, err) =>
    b +:+ EndpointItem_String (mkEndpoint ip port) +:+ ": " +:+ text err +:+ " ") "" m.

Section Dial.
(** [newAsyncConnection("tcp", address, 1s)] *)
Context {sock : Type} (dial : string -> sock + error).

Fixpoint createIO_loop (endpoints : list EndpointItem) (mErr : list (string * Z * error))
    : sock + error :=
  match endpoints with
  | [] => inr (MultiConnectionError mErr)
  | endpoint :: endpoints =>
    match dial (EndpointItem_String endpoint) with
    | inr err => createIO_loop endpoints (mErr ++ [connection_error endpoint err])
    | inl s => inl s
    end
  end.

Definition serviceCreateIO (endpoints : list EndpointItem) : sock + error :=
  match endpoints with
  | [] => inr ErrZeroEndpoints
  | _ => createIO_loop endpoints []
  end.

(** The connection loop of [NewLocator]: the variables [sock] and [err] after
    it, [err] being the one of the last attempt. *)
Fixpoint locator_loop (endpoints : list string) (err : option error)
    : option sock * option error :=
  match endpoints with
  | [] => (None, err)
  | endpoint :: endpoints =>
    match dial endpoint with
    | inr e => locator_loop endpoints (Some e)
    | inl s => (Some s, None)
    end
  end.

(** [NewLocator]; a nil socket with a nil error makes the loop of the new
    service dereference nil. *)
Definition NewLocator_sock (locators endpoints : list string) : outcome (sock + error) :=
  let endpoints := match endpoints with [] => locators | _ => endpoints end in
  match locator_loop endpoints None with
  | (_, Some err) => Ok (inr err)
  | (Some s, None) => Ok (inl s)
  | (None, None) => Panic
  end.
End Dial.

(** ** The service *)

(** A connection, as the service uses it. *)
Record sio : Type := mkSio {
  sent : list Message;
  io_closed : bool;      (* IsClosed() is closed *)
  close_called : bool    (* Close() was called: calling it again panics *)
}.

Definition new_sio : sio := mkSio [] false false.

Definition io_Close (c : sio) : outcome sio :=
  if close_called c then Panic else Ok (mkSio (sent c) true true).

(** [Send]: when the connection is closed the message may be dropped. *)
Definition io_Send (accepted : bool) (m : Message) (c : sio) : sio :=
  if accepted then mkSio (sent c ++ [m]) (io_closed c) (close_called c) else c.

Definition send_ready (accepted : bool) (c : sio) : bool := accepted || io_closed c.

(** The channel a call returns; the service keeps a pointer to it, an index of
    [channels]. [ch_net] records what the loop pushed. *)
Record channel : Type := mkChannel {
  ch_rx : rx;
  ch_tx : tx;
  ch_net : list serviceRes
}.

Definition ch_id (c : channel) : Z := tx_id (ch_tx c).

Record Service : Type := mkService {
  socketIO : sio;
  API : gmap Z dispatchItem;
  sessions : V12.sessions nat;
  channels : list channel;
  stop_closed : bool;
  name : string;
  epoch : Z;
  received : list Message     (* by the loop, in order *)
}.

Definition set_io (c : sio) (s : Service) : Service :=
  mkService c (API s) (sessions s) (channels s) (stop_closed s) (name s) (epoch s) (received s).
Definition set_sessions (t : V12.sessions nat) (s : Service) : Service :=
  mkService (socketIO s) (API s) t (channels s) (stop_closed s) (name s) (epoch s) (received s).
Definition set_channels (l : list channel) (s : Service) : Service :=
  mkService (socketIO s) (API s) (sessions s) l (stop_closed s) (name s) (epoch s) (received s).
Definition set_stop (b : bool) (s : Service) : Service :=
  mkService (socketIO s) (API s) (sessions s) (channels s) b (name s) (epoch s) (received s).
Definition set_epoch (e : Z) (s : Service) : Service :=
  mkService (socketIO s) (API s) (sessions s) (channels s) (stop_closed s) (name s) e (received s).
Definition set_received (l : list Message) (s : Service) : Service :=
  mkService (socketIO s) (API s) (sessions s) (channels s) (stop_closed s) (name s) (epoch s) l.

(** [NewService] and [NewLocator] once they are connected. *)
Definition new_Service (api : gmap Z dispatchItem) (name : string) : Service :=
  mkService new_sio api V12.newSessions [] false name 0 [].

Definition disconnected (s : Service) : bool := io_closed (socketIO s).

Definition sendMsg (accepted : bool) (m : Message) (s : Service) : Service :=
  set_io (io_Send accepted m (socketIO s)) s.

(** [ch.push(res)] through the session table: [rx.push], then [Detach] when it
    says so. [net] is what to record in [ch_net]. *)
Definition push_session (id : Z) (res : serviceRes) (net : list serviceRes) (s : Service)
    : outcome Service :=
  match V12.Get id (sessions s) with
  | None => Ok s
  | Some p =>
    match channels s !! p with
    | None => Panic
    | Some ch =>
      let r := push_enqueue res (ch_rx ch) in
      let* d := push_detaches res r in
      let s := set_channels (<[p := mkChannel r (ch_tx ch) (ch_net ch ++ net)]> (channels s)) s in
      Ok (if d then set_sessions (V12.Detach (ch_id ch) (sessions s)) s else s)
    end
  end.

Definition res_of (m : Message) : serviceRes := mkRes (Payload m) (msg_type m) None.

(** One iteration of [loop]. *)
Definition loop_recv (m : Message) (s : Service) : outcome Service :=
  push_session (msg_session m) (res_of m) [res_of m] (set_received (received s ++ [m]) s).

Definition ErrDisconnected : Z := -100.
Definition disconnected_res : serviceRes :=
  mkRes [] 1 (Some (ServiceError ErrDisconnected "Disconnected")).

(** [pushDisconnectedError] over the keys, in the order [Keys] returned them. *)
Fixpoint pushDisconnectedError (keys : list Z) (s : Service) : outcome Service :=
  match keys with
  | [] => Ok s
  | key :: keys =>
    let* s := push_session key disconnected_res [] s in pushDisconnectedError keys s
  end.

(** The end of [loop], of the goroutine started in [ep]. *)
Definition loop_end (ep : Z) (keys : list Z) (s : Service) : outcome Service :=
  if decide (ep = epoch s) then pushDisconnectedError keys s else Ok s.

(** [close] *)
Definition close (s : Service) : outcome Service :=
  if stop_closed s then Panic
  else let* c := io_Close (socketIO s) in Ok (set_io c (set_stop true s)).

Definition Close (s : Service) : outcome Service := close s.

(** [Reconnect]; [conn] is the outcome of [serviceResolve] and
    [serviceCreateIO]. *)
Definition Reconnect (force : bool) (keys : list Z) (conn : unit + error) (s : Service)
    : outcome (Service * option error) :=
  if negb force && negb (disconnected s) then Ok (s, None)
  else
    let* s := pushDisconnectedError keys s in
    match conn with
    | inr err => Ok (s, Some err)
    | inl _ =>
      let* s := close s in
      let s := set_stop false s in
      let s := set_epoch (epoch s + 1)%Z s in
      Ok (set_io new_sio s, None)
    end.

(** [call]: the order is the one in which [range] visits [API]; the trace is
    the span of the context. The result is the channel's index. *)
Definition call (order : list (Z * dispatchItem)) (method : string) (args : list value)
    (trace : option TraceInfo) (accepted : bool) (s : Service) : Service * (nat + error) :=
  match MethodByName order method with
  | (_, Some err) => (s, inr err)
  | (methodNum, None) =>
    let headers := match trace with Some t => (traceInfoToHeaders t).1 | None => [] end in
    let item := dispatch_lookup (API s) methodNum in
    let p := length (channels s) in
    let (t, id) := V12.Attach p (sessions s) in
    let ch := mkChannel (new_rx (Upstream item)) (mkTx (Downstream item) id false headers) [] in
    let s := set_channels (channels s ++ [ch]) (set_sessions t s) in
    (sendMsg accepted (mkMessage (mkInfo id methodNum) args headers) s, inl p)
  end.

(** [Call]: reconnects a disconnected service first. *)
Definition Call (keys : list Z) (conn : unit + error) (order : list (Z * dispatchItem))
    (method : string) (args : list value) (trace : option TraceInfo) (accepted : bool)
    (s : Service) : outcome (Service * (nat + error)) :=
  if disconnected s then
    let* '(s, err) := Reconnect false keys conn s in
    match err with
    | Some err => Ok (s, inr err)
    | None => Ok (call order method args trace accepted s)
    end
  else Ok (call order method args trace accepted s).

(** A client's [Get] on the channel [p] when a result is pending: the fast path
    or the refill followed by the receive. *)
Definition next_result (r : rx) : option (serviceRes * rx) :=
  match pushBuffer r, queue r with
  | Some res, q => Some (res, mkRx None (rxTree r) q (done r))
  | None, res :: q => Some (res, mkRx None (rxTree r) q (done r))
  | None, [] => None
  end.

(** ** The service and its clients as a transition system *)
Section System.
Context (convertPayload : list value -> (Z * Z * string) + error).
(** The orders in which [range] visits a tree and a method table. *)
Context (range : streamDescription -> list (Z * option StreamDescriptionItem)).
Context (range_API : gmap Z dispatchItem -> list (Z * dispatchItem)).

Inductive event : Type :=
| ERecv (m : Message)
| ELoopEnd (ep : Z) (keys : list Z)
| ECall (keys : list Z) (conn : unit + error) (method : string) (args : list value)
    (trace : option TraceInfo) (accepted : bool)
| ETxCall (p : nat) (method : string) (args : list value) (accepted : bool)
| EGet (p : nat)
| EReconnect (force : bool) (keys : list Z) (conn : unit + error)
| EConnLost
| EClose.

(** The keys of the table, in any order. *)
Definition keys_ok (keys : list Z) (s : Service) : bool :=
  bool_decide (keys ≡ₚ (map_to_list (V12.links (sessions s))).*1).

Definition tx_call (p : nat) (method : string) (args : list value) (accepted : bool)
    (s : Service) : option (outcome Service) :=
  match channels s !! p with
  | None => None
  | Some ch =>
    if send_ready accepted (socketIO s) then
      Some (let* '(t, m, _) := Channel.Call range method args (ch_tx ch) in
            let s := set_channels (<[p := mkChannel (ch_rx ch) t (ch_net ch)]> (channels s)) s in
            Ok (match m with Some m => sendMsg accepted m s | None => s end))
    else None
  end.

Definition rx_get (p : nat) (s : Service) : option (outcome Service) :=
  match channels s !! p with
  | None => None
  | Some ch =>
    if Closed (ch_rx ch) then Some (Ok s)
    else
      match next_result (ch_rx ch) with
      | None => None
      | Some (res, r) =>
        Some (let* '(r, _) := get_finish convertPayload res r in
              Ok (set_channels (<[p := mkChannel r (ch_tx ch) (ch_net ch)]> (channels s)) s))
      end
  end.

Definition step_ok (s : Service) (e : event) : option (outcome Service) :=
  match e with
  | ERecv m => Some (loop_recv m s)
  | ELoopEnd ep keys => if keys_ok keys s then Some (loop_end ep keys s) else None
  | ECall keys conn method args trace accepted =>
    if keys_ok keys s then
      Some (let* '(s, _) := Call keys conn (range_API (API s)) method args trace accepted s in
            Ok s)
    else None
  | ETxCall p method args accepted => tx_call p method args accepted s
  | EGet p => rx_get p s
  | EReconnect force keys conn =>
    if keys_ok keys s then Some (let* '(s, _) := Reconnect force keys conn s in Ok s) else None
  | EConnLost => Some (Ok (set_io (mkSio (sent (socketIO s)) true (close_called (socketIO s))) s))
  | EClose => Some (Close s)
  end.

Definition step (o : outcome Service) (e : event) : option (outcome Service) :=
  match o with
  | Panic => None
  | Ok s => step_ok s e
  end.
End System.

(** ** Lemmas *)

Definition links (s : Service) : gmap Z nat := V12.links (sessions s).

(** What the loop gave a channel: the messages of its session in one period. *)
Definition net_ok (s : Service) (p : nat) (ch : channel) : Prop :=
  exists pre mid post, received s = pre ++ mid ++ post /\
    ch_net ch = res_of <$> filter (fun m => msg_session m = ch_id ch) mid /\
    (links s !! ch_id ch = Some p -> post = []).

(** The channel [p] has the session [p + 2], and the table points to channels
    of their sessions. *)
Record svc_wf (s : Service) : Prop := {
  wf_counter : V12.counter (sessions s) = (1 + Z.of_nat (length (channels s)))%Z;
  wf_ids : forall p ch, channels s !! p = Some ch -> ch_id ch = (2 + Z.of_nat p)%Z;
  wf_links : forall id p, links s !! id = Some p ->
    exists ch, channels s !! p = Some ch /\ ch_id ch = id
}.

Definition svc_ok (s : Service) : Prop :=
  svc_wf s /\ forall p ch, channels s !! p = Some ch -> net_ok s p ch.

(** Everything but the receiving sides and the table. *)
Definition same_core (s s' : Service) : Prop :=
  socketIO s' = socketIO s /\ API s' = API s /\ stop_closed s' = stop_closed s /\
  name s' = name s /\ epoch s' = epoch s /\ received s' = received s /\
  V12.counter (sessions s') = V12.counter (sessions s) /\
  length (channels s') = length (channels s).

Lemma same_core_trans s1 s2 s3 : same_core s1 s2 -> same_core s2 s3 -> same_core s1 s3.
Proof. unfold same_core. intuition congruence. Qed.

Lemma svc_wf_frame s s' :
  svc_wf s -> channels s' = channels s -> sessions s' = sessions s -> svc_wf s'.
Proof. intros [] Hc Hs. split; unfold links; rewrite ?Hc, ?Hs; done. Qed.

Lemma push_session_none id res net s :
  links s !! id = None -> push_session id res net s = Ok s.
Proof. intros Hl. unfold push_session, V12.Get. fold (links s). by rewrite Hl. Qed.

(** The effect of a push on an attached session. *)
Lemma push_session_attached id res net s s' p ch :
  svc_wf s -> links s !! id = Some p -> channels s !! p = Some ch ->
  push_session id res net s = Ok s' ->
  exists d, push_detaches res (push_enqueue res (ch_rx ch)) = Ok d /\
    same_core s s' /\
    channels s' = <[p := mkChannel (push_enqueue res (ch_rx ch)) (ch_tx ch) (ch_net ch ++ net)]>
      (channels s) /\
    links s' = if d then delete id (links s) else links s.
Proof.
  intros Hwf Hl Hp. unfold push_session, V12.Get. fold (links s). rewrite Hl, Hp.
  intros H. apply outcome_bind_ok in H as (d & Hd & [= <-]). exists d.
  destruct (wf_links _ Hwf id p Hl) as (ch' & Hp' & Hid). rewrite Hp in Hp'.
  injection Hp' as <-. rewrite Hid.
  destruct d; split_and!; try done; split_and!; try done; cbn; by rewrite length_insert.
Qed.

(** What a push does to the channels and the table. *)
Lemma push_session_effect id res net s s' :
  svc_wf s -> push_session id res net s = Ok s' ->
  same_core s s' /\
  (forall i q, links s' !! i = Some q -> links s !! i = Some q) /\
  forall q c', channels s' !! q = Some c' ->
    exists c, channels s !! q = Some c /\ ch_tx c' = ch_tx c /\
      ch_net c' = ch_net c ++ (if decide (links s !! id = Some q) then net else []).
Proof.
  intros Hwf Hs. destruct (links s !! id) as [p|] eqn:Hl; cycle 1.
  { rewrite push_session_none in Hs by done. injection Hs as <-.
    split_and!; [by split_and!|done|]. intros q c Hq. exists c. by rewrite app_nil_r. }
  destruct (wf_links _ Hwf id p Hl) as (ch & Hp & Hid).
  destruct (push_session_attached _ _ _ _ _ _ _ Hwf Hl Hp Hs) as (d & _ & Hcore & Hch & Hlinks).
  split_and!; [done| |].
  - intros i q. rewrite Hlinks. destruct d; [|done]. rewrite lookup_delete_Some. tauto.
  - intros q c'. rewrite Hch, list_lookup_insert_Some. intros [(<- & <- & _)|[Hne Hq]].
    + exists ch. by rewrite decide_True.
    + exists c'. rewrite decide_False by congruence. by rewrite app_nil_r.
Qed.

Lemma push_session_wf id res net s s' :
  svc_wf s -> push_session id res net s = Ok s' -> svc_wf s'.
Proof.
  intros Hwf Hs. destruct (push_session_effect _ _ _ _ _ Hwf Hs) as (Hcore & Hsub & Hch).
  destruct Hcore as (_ & _ & _ & _ & _ & _ & Hcnt & Hlen). split.
  - by rewrite Hcnt, Hlen, (wf_counter _ Hwf).
  - intros q c' Hq. destruct (Hch q c' Hq) as (c & Hc & Htx & _).
    unfold ch_id. rewrite Htx. by apply (wf_ids _ Hwf q c).
  - intros i q Hi. destruct (wf_links _ Hwf i q (Hsub i q Hi)) as (c & Hc & Hci).
    assert (Hlt : q < length (channels s')) by (rewrite Hlen; by eapply lookup_lt_Some).
    destruct (lookup_lt_is_Some_2 _ _ Hlt) as [c' Hc'].
    destruct (Hch q c' Hc') as (c2 & Hc2 & Htx & _). rewrite Hc in Hc2. injection Hc2 as <-.
    exists c'. split; [done|]. unfold ch_id. by rewrite Htx.
Qed.

(** The channels of the services the loop never pushed anything else to. *)
Lemma pushDisconnected_ok keys s s' :
  svc_ok s -> pushDisconnectedError keys s = Ok s' -> svc_ok s' /\ same_core s s'.
Proof.
  revert s. induction keys as [|key keys IH]; intros s Hok Hs; cbn in Hs.
  { injection Hs as <-. by split_and!. }
  apply outcome_bind_ok in Hs as (s1 & Hs1 & Hs). destruct Hok as [Hwf Hnet].
  destruct (push_session_effect _ _ _ _ _ Hwf Hs1) as (Hc1 & Hsub & Hch).
  destruct (IH s1) as (Hok2 & Hc2); [|done|split; [done|by eapply same_core_trans]].
  split; [by eapply push_session_wf|]. intros p c' Hp.
  destruct (Hch p c' Hp) as (c & Hc & Htx & Hn).
  destruct (Hnet p c Hc) as (pre & mid & post & Hr & Hm & Hpost).
  destruct Hc1 as (_ & _ & _ & _ & _ & Hrec & _).
  exists pre, mid, post. unfold ch_id. rewrite Hrec, Htx, Hn.
  replace (if decide _ then [] else []) with (@nil serviceRes) by by case_decide.
  rewrite app_nil_r. split_and!; [done..|]. intros Hl. by apply Hpost, Hsub.
Qed.

(** A received message: the attached channel of its session gets it. *)
Lemma loop_recv_ok m s s' :
  svc_ok s -> loop_recv m s = Ok s' -> svc_ok s' /\ length (channels s') = length (channels s).
Proof.
  intros [Hwf Hnet] Hs. unfold loop_recv in Hs.
  assert (Hwf0 : svc_wf (set_received (received s ++ [m]) s)) by by eapply svc_wf_frame.
  destruct (push_session_effect _ _ _ _ _ Hwf0 Hs) as (Hcore & Hsub & Hch).
  destruct Hcore as (_ & _ & _ & _ & _ & Hrec & _ & Hlen). split; [|done].
  split; [by eapply push_session_wf|]. intros p c' Hp.
  destruct (Hch p c' Hp) as (c & Hc & Htx & Hn). clear Hch.
  destruct (Hnet p c Hc) as (pre & mid & post & Hr & Hm & Hpost).
  unfold net_ok, ch_id. rewrite Hrec, Htx, Hn. cbn. fold (ch_id c). rewrite Hr.
  change (links (set_received _ s)) with (links s) in *.
  assert (Hid : forall i, links s !! i = Some p -> ch_id c = i).
  { intros i Hi. destruct (wf_links _ Hwf i p Hi) as (c2 & Hc2 & <-).
    cbn in Hc. rewrite Hc in Hc2. by injection Hc2 as <-. }
  case_decide as Hl.
  - pose proof (Hid _ Hl) as He. rewrite <- He in Hl. rewrite (Hpost Hl), app_nil_r.
    exists pre, (mid ++ [m]), []. rewrite app_nil_r. split_and!; [by rewrite (assoc_L (++))| |done].
    by rewrite filter_app, filter_cons_True, filter_nil, fmap_app, Hm by done.
  - rewrite app_nil_r. destruct (decide (links s !! ch_id c = Some p)) as [Hl2|Hl2].
    + rewrite (Hpost Hl2), app_nil_r. exists pre, (mid ++ [m]), [].
      rewrite app_nil_r. split_and!; [by rewrite (assoc_L (++))| |done].
      rewrite filter_app, filter_cons_False, filter_nil, app_nil_r by congruence. done.
    + exists pre, mid, (post ++ [m]). split_and!; [by rewrite <- !(assoc_L (++))|done|].
      intros Hl3. by destruct Hl2; apply Hsub.
Qed.

Lemma svc_ok_frame s s' :
  svc_ok s -> channels s' = channels s -> sessions s' = sessions s -> received s' = received s ->
  svc_ok s'.
Proof.
  intros [Hwf Hnet] Hc Hs Hr. split; [by eapply svc_wf_frame|].
  unfold net_ok, links. rewrite Hc, Hs, Hr. exact Hnet.
Qed.

(** A client's operation on its channel. *)
Lemma svc_ok_update p ch ch' s :
  svc_ok s -> channels s !! p = Some ch -> ch_id ch' = ch_id ch -> ch_net ch' = ch_net ch ->
  svc_ok (set_channels (<[p := ch']> (channels s)) s).
Proof.
  intros [[Hcnt Hids Hlinks] Hnet] Hp Hid Hn.
  assert (Hget : forall q c', <[p := ch']> (channels s) !! q = Some c' ->
    exists c, channels s !! q = Some c /\ ch_id c' = ch_id c /\ ch_net c' = ch_net c).
  { intros q c'. rewrite list_lookup_insert_Some.
    intros [(<- & <- & _)|[_ Hq]]; [by exists ch|by exists c']. }
  split; [split|].
  - cbn. by rewrite length_insert.
  - intros q c' Hq. destruct (Hget q c' Hq) as (c & Hc & -> & _). by apply Hids.
  - intros i q Hi. destruct (Hlinks i q Hi) as (c & Hc & Hci). cbn.
    destruct (decide (p = q)) as [<-|Hne].
    + rewrite list_lookup_insert_eq by (by eapply lookup_lt_Some).
      exists ch'. split; [done|]. rewrite Hid. by simplify_eq.
    + rewrite list_lookup_insert_ne by done. by exists c.
  - intros q c' Hq. destruct (Hget q c' Hq) as (c & Hc & Hci & Hcn).
    destruct (Hnet q c Hc) as (pre & mid & post & ?).
    exists pre, mid, post. by rewrite Hci, Hcn.
Qed.

Lemma close_inv s s' :
  close s = Ok s' ->
  stop_closed s = false /\ channels s' = channels s /\ sessions s' = sessions s /\
  received s' = received s /\ stop_closed s' = true /\ API s' = API s /\ epoch s' = epoch s /\
  io_closed (socketIO s') = true /\ close_called (socketIO s') = true.
Proof.
  unfold close. destruct (stop_closed s); [done|]. intros H.
  apply outcome_bind_ok in H as (c & Hc & [= <-]). unfold io_Close in Hc.
  destruct (close_called _); [done|]. by injection Hc as <-.
Qed.

Lemma Reconnect_inv force keys conn s s' err :
  Reconnect force keys conn s = Ok (s', err) ->
  (s' = s /\ force = false /\ disconnected s = false /\ err = None) \/
  exists s1, pushDisconnectedError keys s = Ok s1 /\
    ((exists e, conn = inr e /\ err = Some e /\ s' = s1) \/
     (conn = inl () /\ err = None /\ stop_closed s1 = false /\ channels s' = channels s1 /\
      sessions s' = sessions s1 /\ received s' = received s1 /\ API s' = API s1 /\
      epoch s' = (epoch s1 + 1)%Z /\ stop_closed s' = false /\ socketIO s' = new_sio)).
Proof.
  unfold Reconnect. destruct (negb force && negb (disconnected s)) eqn:Hf.
  { intros [= <- <-]. left. apply andb_true_iff in Hf as [Hf Hd].
    by destruct force, (disconnected s). }
  intros H. apply outcome_bind_ok in H as (s1 & Hs1 & H). right. exists s1. split; [done|].
  destruct conn as [[]|e].
  - apply outcome_bind_ok in H as (s2 & Hs2 & [= <- <-]).
    destruct (close_inv _ _ Hs2) as (? & ? & ? & ? & ? & ? & He & _).
    right. cbn. rewrite He. by split_and!.
  - injection H as <- <-. left. by exists e.
Qed.

Lemma Reconnect_ok force keys conn s s' err :
  svc_ok s -> Reconnect force keys conn s = Ok (s', err) ->
  svc_ok s' /\ length (channels s') = length (channels s).
Proof.
  intros Hok Hr. destruct (Reconnect_inv _ _ _ _ _ _ Hr) as [(-> & _)|(s1 & Hs1 & Hcase)]; [done|].
  destruct (pushDisconnected_ok _ _ _ Hok Hs1) as [Hok1 (_ & _ & _ & _ & _ & _ & _ & Hlen)].
  destruct Hcase as [(e & _ & _ & ->)|(_ & _ & _ & Hc & Hs & Hrec & _)]; [done|].
  split; [by eapply svc_ok_frame|]. by rewrite Hc.
Qed.

(** The table has room for one more session. *)
Definition svc_room (s : Service) : Prop :=
  (2 + Z.of_nat (length (channels s)) < two64)%Z.

Lemma call_effect order method args trace accepted s s' r :
  svc_ok s -> svc_room s -> call order method args trace accepted s = (s', r) ->
  (exists n err, MethodByName order method = (n, Some err) /\ s' = s /\ r = inr err) \/
  (exists n ch, MethodByName order method = (n, None) /\ r = inl (length (channels s)) /\
    links s !! ch_id ch = None /\
    channels s' = channels s ++ [ch] /\ links s' = <[ch_id ch := length (channels s)]> (links s) /\
    ch_id ch = (2 + Z.of_nat (length (channels s)))%Z /\
    V12.counter (sessions s') = ch_id ch /\ received s' = received s /\ ch_net ch = [] /\
    ch_rx ch = new_rx (Upstream (dispatch_lookup (API s) n)) /\
    txTree (ch_tx ch) = Downstream (dispatch_lookup (API s) n) /\ tx_done (ch_tx ch) = false /\
    socketIO s' = io_Send accepted (mkMessage (mkInfo (ch_id ch) n) args (headers (ch_tx ch)))
      (socketIO s)).
Proof.
  intros [Hwf _] Hroom. unfold call. destruct (MethodByName order method) as [n [err|]].
  { intros [= <- <-]. left. by exists n, err. }
  intros [= <- <-]. right. exists n. eexists.
  assert (Hid : wrap64 (V12.counter (sessions s) + 1) = (2 + Z.of_nat (length (channels s)))%Z).
  { rewrite (wf_counter _ Hwf), wrap64_small; [lia|]. unfold svc_room, is_u64 in *. lia. }
  split_and!; try done.
  cbn. rewrite Hid. destruct (links s !! _) as [p|] eqn:Hl; [|done].
  destruct (wf_links _ Hwf _ _ Hl) as (c & Hc & Hci).
  rewrite (wf_ids _ Hwf p c Hc) in Hci. apply lookup_lt_Some in Hc. lia.
Qed.

Lemma call_ok order method args trace accepted s s' r :
  svc_ok s -> svc_room s -> call order method args trace accepted s = (s', r) ->
  svc_ok s' /\ length (channels s') <= S (length (channels s)).
Proof.
  intros Hok Hroom Hc.
  destruct (call_effect _ _ _ _ _ _ _ _ Hok Hroom Hc) as [(n & err & _ & -> & _)|
    (n & ch & _ & _ & Hfree & Hch & Hl & Hid & Hcnt & Hrec & Hnet & _)]; [by split; [|lia]|].
  destruct Hok as [[Hcnt0 Hids Hlinks] Hnets]. rewrite Hch, length_app. cbn. split; [|lia].
  split; [split|].
  - rewrite Hcnt, Hch, Hid, length_app. cbn. lia.
  - intros p c. rewrite Hch. intros [Hp|[Hle Hp]]%lookup_app_Some; [by apply Hids|].
    apply list_lookup_singleton_Some in Hp as [Hp <-]. rewrite Hid. lia.
  - intros i p. rewrite Hl, Hch. intros [(<- & <-)|[Hne Hi]]%lookup_insert_Some.
    + exists ch. split; [|done]. by rewrite lookup_app_r, Nat.sub_diag.
    + destruct (Hlinks i p Hi) as (c & Hc' & Hci). exists c. split; [|done].
      by apply lookup_app_l_Some.
  - intros p c. rewrite Hch. intros [Hp|[Hle Hp]]%lookup_app_Some.
    + destruct (Hnets p c Hp) as (pre & mid & post & Hr & Hn & Hpost).
      exists pre, mid, post. rewrite Hrec, Hl. split_and!; [done..|].
      rewrite lookup_insert_ne; [done|]. rewrite (Hids p c Hp), Hid.
      apply lookup_lt_Some in Hp. lia.
    + apply list_lookup_singleton_Some in Hp as [Hp <-].
      exists (received s), [], []. rewrite Hrec, Hnet, !app_nil_r. by split_and!.
Qed.

Lemma Call_tx_id range method args t t' m err :
  Channel.Call range method args t = Ok (t', m, err) -> tx_id t' = tx_id t.
Proof.
  unfold Channel.Call. destruct (tx_done t); [by intros [= <- _ _]|].
  intros H. apply outcome_bind_ok in H as ([n [e|]] & _ & H); [by injection H as <- _ _|].
  destruct (txTree t) as [tr|]; [|done]. destruct (tree_lookup tr n) as [i|]; [|done].
  injection H as <- _ _. by destruct (Type_ (item_description i)).
Qed.

Section SystemLemmas.
Context (convertPayload : list value -> (Z * Z * string) + error).
Context (range : streamDescription -> list (Z * option StreamDescriptionItem)).
Context (range_API : gmap Z dispatchItem -> list (Z * dispatchItem)).
#[local] Abbreviation step := (step convertPayload range range_API).
#[local] Abbreviation step_ok := (step_ok convertPayload range range_API).

Lemma svc_step s e s' :
  svc_ok s -> svc_room s -> step_ok s e = Some (Ok s') ->
  svc_ok s' /\ length (channels s') <= S (length (channels s)).
Proof.
  intros Hok Hroom Hs.
  destruct e as [m|ep keys|keys conn method args trace acc|p method args acc|p|force keys conn| |];
    cbn in Hs.
  - injection Hs as Hs. destruct (loop_recv_ok _ _ _ Hok Hs) as [? ->]. by split; [|lia].
  - destruct (keys_ok keys s); [|done]. injection Hs as Hs. unfold loop_end in Hs.
    case_decide; [|injection Hs as <-; by split; [|lia]].
    destruct (pushDisconnected_ok _ _ _ Hok Hs) as [? (_ & _ & _ & _ & _ & _ & _ & ->)].
    by split; [|lia].
  - destruct (keys_ok keys s); [|done]. injection Hs as Hs.
    apply outcome_bind_ok in Hs as ([s1 r] & Hs & [= <-]). unfold Call in Hs.
    destruct (disconnected s); [|injection Hs as Hs; by eapply call_ok].
    apply outcome_bind_ok in Hs as ([s2 err] & Hr & Hs).
    destruct (Reconnect_ok _ _ _ _ _ _ Hok Hr) as [Hok2 Hlen2].
    destruct err as [err|].
    { injection Hs as <- _. rewrite Hlen2. by split; [|lia]. }
    injection Hs as Hs. rewrite <- Hlen2. eapply call_ok; [done| |done].
    unfold svc_room. by rewrite Hlen2.
  - unfold tx_call in Hs. destruct (channels s !! p) as [ch|] eqn:Hp; [|done].
    destruct (send_ready acc (socketIO s)); [|done]. injection Hs as Hs.
    apply outcome_bind_ok in Hs as ([[t m] err] & Hc & [= <-]).
    assert (Hu : svc_ok (set_channels (<[p := mkChannel (ch_rx ch) t (ch_net ch)]> (channels s)) s)).
    { apply (svc_ok_update p ch); try done. by apply Call_tx_id in Hc. }
    split; [destruct m; [by eapply svc_ok_frame|done]|].
    destruct m; cbn; rewrite length_insert; lia.
  - unfold rx_get in Hs. destruct (channels s !! p) as [ch|] eqn:Hp; [|done].
    destruct (Closed (ch_rx ch)); [injection Hs as <-; by split; [|lia]|].
    destruct (next_result (ch_rx ch)) as [[res r]|]; [|done]. injection Hs as Hs.
    apply outcome_bind_ok in Hs as ([r2 x] & _ & [= <-]).
    split; [by apply (svc_ok_update p ch)|]. cbn. rewrite length_insert. lia.
  - destruct (keys_ok keys s); [|done]. injection Hs as Hs.
    apply outcome_bind_ok in Hs as ([s1 err] & Hr & [= <-]).
    destruct (Reconnect_ok _ _ _ _ _ _ Hok Hr) as [? ->]. by split; [|lia].
  - injection Hs as <-. split; [by eapply svc_ok_frame|]. cbn. lia.
  - injection Hs as Hs. unfold Close in Hs.
    destruct (close_inv _ _ Hs) as (_ & Hc & Hse & Hr & _).
    split; [by eapply svc_ok_frame|]. rewrite Hc. lia.
Qed.

Lemma svc_run api nm es s :
  (2 + Z.of_nat (length es) < two64)%Z ->
  run step (Ok (new_Service api nm)) es = Some (Ok s) ->
  svc_ok s /\ length (channels s) <= length es.
Proof.
  revert s. induction es as [|e es IH] using rev_ind; intros s Hlen Hrun.
  { injection Hrun as <-. split; [split; [split|]|done]; done. }
  rewrite length_app in *. cbn in Hlen. apply run_snoc in Hrun as ([s1|] & Hrun & Hs); [|done].
  destruct (IH s1) as [Hok1 Hl1]; [lia|done|]. cbn in Hs.
  destruct (svc_step s1 e s Hok1) as [Hok Hl]; [unfold svc_room; lia|done|].
  split; [done|]. cbn. lia.
Qed.
End SystemLemmas.

(** The results a channel holds for its clients. *)
Definition pending (r : rx) : list serviceRes := opt_list (pushBuffer r) ++ queue r.

Lemma pending_push res r : pending (push_enqueue res r) = pending r ++ [res].
Proof. unfold pending. by rewrite push_enqueue_fifo, (assoc_L (++)). Qed.

(** Every attached session of [keys] gets exactly one disconnection error. *)
Lemma pushDisconnected_pending keys s s' :
  svc_wf s -> NoDup keys -> pushDisconnectedError keys s = Ok s' ->
  forall p ch, channels s !! p = Some ch ->
    exists ch', channels s' !! p = Some ch' /\
      pending (ch_rx ch') = pending (ch_rx ch) ++
        (if decide (links s !! ch_id ch = Some p /\ ch_id ch ∈ keys)
         then [disconnected_res] else []).
Proof.
  revert s. induction keys as [|key keys IH]; intros s Hwf Hnd Hs p ch Hp; cbn in Hs.
  { injection Hs as <-. exists ch. split; [done|].
    rewrite decide_False by (intros [_ ?%elem_of_nil]; done). by rewrite app_nil_r. }
  apply NoDup_cons in Hnd as [Hnin Hnd].
  apply outcome_bind_ok in Hs as (s1 & Hs1 & Hs).
  pose proof (push_session_wf _ _ _ _ _ Hwf Hs1) as Hwf1.
  destruct (links s !! key) as [q|] eqn:Hl; cycle 1.
  { rewrite push_session_none in Hs1 by done. injection Hs1 as <-.
    destruct (IH s Hwf Hnd Hs p ch Hp) as (ch' & Hp' & Hpend). exists ch'. split; [done|].
    rewrite Hpend. f_equal. apply decide_ext. rewrite elem_of_cons. split; [tauto|].
    intros [Hl2 [<-|?]]; [congruence|done]. }
  destruct (wf_links _ Hwf key q Hl) as (cq & Hq & Hid).
  destruct (push_session_attached _ _ _ _ _ _ _ Hwf Hl Hq Hs1) as (d & _ & _ & Hch & Hlinks).
  destruct (decide (q = p)) as [->|Hne].
  - rewrite Hq in Hp. injection Hp as ->.
    destruct (IH s1 Hwf1 Hnd Hs p (mkChannel (push_enqueue disconnected_res (ch_rx ch))
      (ch_tx ch) (ch_net ch ++ []))) as (ch' & Hp' & Hpend).
    { rewrite Hch. apply list_lookup_insert_eq. by eapply lookup_lt_Some. }
    change (ch_id (mkChannel _ (ch_tx ch) _)) with (ch_id ch) in Hpend.
    exists ch'. split; [done|]. cbn in Hpend. rewrite Hpend, pending_push.
    rewrite decide_False by (rewrite Hid; tauto).
    rewrite decide_True by (rewrite Hid, Hl; set_solver). by rewrite app_nil_r.
  - destruct (IH s1 Hwf1 Hnd Hs p ch) as (ch' & Hp' & Hpend).
    { rewrite Hch, list_lookup_insert_ne by done. done. }
    exists ch'. split; [done|]. rewrite Hpend. f_equal. apply decide_ext.
    assert (Hch_ne : ch_id ch <> key).
    { rewrite <- Hid, (wf_ids _ Hwf _ _ Hp), (wf_ids _ Hwf _ _ Hq). lia. }
    assert (Hl1 : links s1 !! ch_id ch = links s !! ch_id ch).
    { rewrite Hlinks. destruct d; [|done]. by rewrite lookup_delete_ne. }
    rewrite Hl1, elem_of_cons. naive_solver.
Qed.

Lemma keys_ok_spec keys s :
  keys_ok keys s = true -> NoDup keys /\ forall id, id ∈ keys <-> is_Some (links s !! id).
Proof.
  unfold keys_ok. rewrite bool_decide_eq_true. intros Hp. split.
  - rewrite Hp. apply NoDup_fst_map_to_list.
  - intros id. rewrite Hp. unfold links. split.
    + intros ([i p] & -> & Hin)%list_elem_of_fmap. apply elem_of_map_to_list in Hin. by exists p.
    + intros [p Hl]. apply list_elem_of_fmap. exists (id, p). by rewrite elem_of_map_to_list.
Qed.

(** ** Properties *)

(** C7 (invariant): in any run of a service - calls, further messages, gets,
    reconnections, closings, in any order - the session table binds each id to
    the channel of that id, ids are never reused, also across reconnections, and
    the loop gave each channel exactly the messages of its own session received
    in one period, in order, up to now while the channel is attached. *)
Theorem service_demultiplexes (convertPayload : list value -> (Z * Z * string) + error)
    (range : streamDescription -> list (Z * option StreamDescriptionItem))
    (range_API : gmap Z dispatchItem -> list (Z * dispatchItem))
    (api : gmap Z dispatchItem) (nm : string) (es : list event) (s : Service)
    (Hlen : (2 + Z.of_nat (length es) < two64)%Z)
    (Hrun : run (step convertPayload range range_API) (Ok (new_Service api nm)) es = Some (Ok s)) :
  (forall id p, links s !! id = Some p ->
     exists ch, channels s !! p = Some ch /\ ch_id ch = id) /\
  (forall p ch, channels s !! p = Some ch -> ch_id ch = (2 + Z.of_nat p)%Z) /\
  forall p ch, channels s !! p = Some ch ->
    exists pre mid post, received s = pre ++ mid ++ post /\
      ch_net ch = res_of <$> filter (fun m => msg_session m = ch_id ch) mid /\
      (links s !! ch_id ch = Some p -> post = []).
Proof.
  destruct (svc_run _ _ _ _ _ _ _ Hlen Hrun) as [[[_ Hids Hlinks] Hnet] _]. by split_and!.
Qed.

(** The method table of the examples. *)
Definition sample_API : gmap Z dispatchItem :=
  {[ 0%Z := mkDispatchItem "get" emptyDescription valueOrError ]}.

Definition sample_range (t : streamDescription) : list (Z * option StreamDescriptionItem) :=
  map_to_list (sd_tree t).
Definition sample_range_API (m : gmap Z dispatchItem) : list (Z * dispatchItem) := map_to_list m.

Ltac run_service E :=
  match goal with |- context [run ?st ?o ?es] =>
    destruct (run st o es) as [[s|]|] eqn:E; [|vm_compute in E; discriminate..]
  end.

Lemma service_demultiplexes_witness :
  match run (step sample_codec sample_range sample_range_API)
    (Ok (new_Service sample_API "s"))
    [ECall [] (inl ()) "get" [] None true; ERecv (mkMessage (mkInfo 5 0) [] []);
     ERecv (mkMessage (mkInfo 2 0) [VNil] []); ERecv (mkMessage (mkInfo 2 0) [] [])] with
  | Some (Ok s) => forall ch, channels s !! 0 = Some ch -> ch_id ch = 2%Z
  | _ => False
  end.
Proof.
  run_service E. intros ch Hc.
  refine (proj1 (proj2 (service_demultiplexes sample_codec sample_range sample_range_API sample_API "s" _ s _ E)) 0 ch Hc).
  vm_compute. reflexivity.
Defined.

(** A [call] of a method the table does not have changes
    nothing and fails with [MethodByName]'s error; otherwise it binds a session
    id above all earlier ones, and free, to a new channel at the roots of the
    method's trees, and sends one message of that session, the method's number
    and the arguments, with the tracing headers of the context. *)
Theorem call_opens_session (convertPayload : list value -> (Z * Z * string) + error)
    (range : streamDescription -> list (Z * option StreamDescriptionItem))
    (range_API : gmap Z dispatchItem -> list (Z * dispatchItem))
    (api : gmap Z dispatchItem) (nm : string) (es : list event) (s : Service)
    (order : list (Z * dispatchItem)) (method : string) (args : list value)
    (trace : option TraceInfo)
    (Hlen : (2 + Z.of_nat (length es) < two64)%Z)
    (Hrun : run (step convertPayload range range_API) (Ok (new_Service api nm)) es = Some (Ok s)) :
  let (s', r) := call order method args trace true s in
  match MethodByName order method with
  | (_, Some err) => s' = s /\ r = inr err
  | (n, None) =>
    let item := dispatch_lookup (API s) n in
    let hs := match trace with Some t => (traceInfoToHeaders t).1 | None => [] end in
    exists ch, r = inl (length (channels s)) /\ channels s' = channels s ++ [ch] /\
      links s !! ch_id ch = None /\ links s' !! ch_id ch = Some (length (channels s)) /\
      Forall (fun c => ch_id c < ch_id ch)%Z (channels s) /\
      ch_rx ch = new_rx (Upstream item) /\
      ch_tx ch = mkTx (Downstream item) (ch_id ch) false hs /\
      sent (socketIO s') = sent (socketIO s) ++ [mkMessage (mkInfo (ch_id ch) n) args hs]
  end.
Proof.
  destruct (svc_run _ _ _ _ _ _ _ Hlen Hrun) as [Hok Hl].
  assert (Hroom : svc_room s) by (unfold svc_room; lia).
  destruct (call order method args trace true s) as [s' r] eqn:Hc.
  pose proof (call_effect _ _ _ _ _ _ _ _ Hok Hroom Hc) as He.
  unfold call in Hc. destruct (MethodByName order method) as [n [err|]].
  { by injection Hc as <- <-. }
  destruct He as [(n' & err & [= ] & _)|(n' & ch & [= <-] & -> & Hfree & Hch & Hlinks & Hid & _ & _ &
    Hnet & Hrx & Htr & Hd & Hio)].
  exists ch. rewrite Hlinks, lookup_insert_eq, Hio. split_and!; try done.
  - apply Forall_lookup. intros p c Hp. rewrite Hid, (wf_ids _ (proj1 Hok) p c Hp).
    apply lookup_lt_Some in Hp. lia.
  - injection Hc as <-. cbn in Hch. apply app_inv_head in Hch. by injection Hch as <-.
  - injection Hc as <-. cbn in Hch. apply app_inv_head in Hch. by injection Hch as <-.
Qed.

Lemma call_opens_session_witness :
  let (s', r) := call (map_to_list sample_API) "get" [VString "x"] None true
    (new_Service sample_API "s") in r = inl 0.
Proof.
  pose proof (call_opens_session sample_codec sample_range sample_range_API sample_API "s" [] (new_Service sample_API "s")
    (map_to_list sample_API) "get" [VString "x"] None ltac:(vm_compute; reflexivity) eq_refl) as H.
  destruct (call _ _ _ _ _ _) as [s' r]. vm_compute in H.
  destruct H as (ch & Hr & _). exact Hr.
Defined.

(** A successful [Reconnect] of a disconnected service (or a
    forced one) pushes one [ErrDisconnected] to every attached channel and
    nothing to the others, installs a fresh connection in the next epoch, and
    keeps the method table and the session counter. *)
Theorem reconnect_notifies (convertPayload : list value -> (Z * Z * string) + error)
    (range : streamDescription -> list (Z * option StreamDescriptionItem))
    (range_API : gmap Z dispatchItem -> list (Z * dispatchItem))
    (api : gmap Z dispatchItem) (nm : string) (es : list event) (s s' : Service)
    (force : bool) (keys : list Z) (err : option error)
    (Hlen : (2 + Z.of_nat (length es) < two64)%Z)
    (Hrun : run (step convertPayload range range_API) (Ok (new_Service api nm)) es = Some (Ok s))
    (Hdis : force || disconnected s = true) (Hkeys : keys_ok keys s = true)
    (Hrec : Reconnect force keys (inl ()) s = Ok (s', err)) :
  err = None /\ disconnected s' = false /\ epoch s' = (epoch s + 1)%Z /\ API s' = API s /\
  V12.counter (sessions s') = V12.counter (sessions s) /\
  forall p ch, channels s !! p = Some ch ->
    exists ch', channels s' !! p = Some ch' /\
      pending (ch_rx ch') = pending (ch_rx ch) ++
        (if decide (links s !! ch_id ch = Some p) then [disconnected_res] else []).
Proof.
  destruct (svc_run _ _ _ _ _ _ _ Hlen Hrun) as [Hok _].
  destruct (keys_ok_spec _ _ Hkeys) as [Hnd Hin].
  destruct (Reconnect_inv _ _ _ _ _ _ Hrec) as [(_ & -> & Hd & _)|(s1 & Hs1 & Hcase)].
  { by rewrite Hd in Hdis. }
  destruct Hcase as [(e & [=] & _)|(_ & -> & _ & Hc & Hse & _ & HA & He & _ & Hio)].
  destruct (pushDisconnected_ok _ _ _ Hok Hs1) as [_ (_ & HA1 & _ & _ & He1 & _ & Hcnt & _)].
  unfold disconnected. rewrite Hio, He, He1, HA, HA1, Hse, Hcnt. split_and!; try done.
  intros p ch Hp. rewrite Hc.
  destruct (pushDisconnected_pending keys s s1 (proj1 Hok) Hnd Hs1 p ch Hp) as (ch' & Hp' & Hpend).
  exists ch'. split; [done|]. rewrite Hpend. f_equal. apply decide_ext. rewrite Hin.
  split; [tauto|]. intros Hl. rewrite Hl. by split.
Qed.

Lemma reconnect_notifies_witness :
  match run (step sample_codec sample_range sample_range_API)
    (Ok (new_Service sample_API "s"))
    [ECall [] (inl ()) "get" [] None true; EConnLost] with
  | Some (Ok s) =>
    match Reconnect false [2%Z] (inl ()) s with
    | Ok (s', err) => epoch s' = 1%Z
    | Panic => False
    end
  | _ => False
  end.
Proof.
  run_service E.
  destruct (Reconnect false [2%Z] (inl ()) s) as [[s' err]|] eqn:Hr.
  - edestruct (reconnect_notifies sample_codec sample_range sample_range_API sample_API "s"
      [ECall [] (inl ()) "get" [] None true; EConnLost] s s' false [2%Z] err)
      as (_ & _ & He & _); [|exact E|..].
    + vm_compute. reflexivity.
    + vm_compute in E. by injection E as <-.
    + vm_compute in E. injection E as <-. vm_compute. reflexivity.
    + exact Hr.
    + rewrite He. vm_compute in E. by injection E as <-.
  - vm_compute in E. injection E as <-. vm_compute in Hr. discriminate.
Defined.

(** A service cannot be used after [Close]: a second [Close]
    panics, and a [Call], finding the service disconnected, reconnects it, which
    closes the already closed [stop] channel. *)
Theorem call_after_close_panics (s s' : Service) (keys : list Z)
    (order : list (Z * dispatchItem)) (method : string) (args : list value)
    (trace : option TraceInfo) (accepted : bool)
    (Hclose : Close s = Ok s') (Hok : svc_ok s) :
  Close s' = Panic /\ Call keys (inl ()) order method args trace accepted s' = Panic.
Proof.
  destruct (close_inv _ _ Hclose) as (_ & Hc & Hse & Hr & Hst & _ & _ & Hio & _).
  split; [unfold Close, close; by rewrite Hst|].
  unfold Call, disconnected, Reconnect. rewrite Hio. cbn. unfold disconnected. rewrite Hio. cbn.
  destruct (pushDisconnectedError keys s') as [s1|] eqn:Hs1; [|done]. cbn.
  assert (Hok' : svc_ok s') by by eapply svc_ok_frame.
  destruct (pushDisconnected_ok _ _ _ Hok' Hs1) as [_ (_ & _ & Hst1 & _)].
  unfold close. by rewrite Hst1, Hst.
Qed.

Lemma call_after_close_panics_witness :
  Call [] (inl ()) (map_to_list sample_API) "get" [] None true
    (set_io (mkSio [] true true) (set_stop true (new_Service sample_API "s"))) = Panic.
Proof.
  refine (proj2 (call_after_close_panics (new_Service sample_API "s") _ [] _ "get" [] None true
    eq_refl _)).
  split; [split|]; done.
Defined.

(** The error pushed to the open channels of a lost connection has
    the message type 1; a channel whose upstream tree has no entry 1, such as
    one whose method sends nothing back, makes the loop of the service panic. *)
Theorem disconnect_panics_on_mute_method (convertPayload : list value -> (Z * Z * string) + error)
    (range : streamDescription -> list (Z * option StreamDescriptionItem))
    (range_API : gmap Z dispatchItem -> list (Z * dispatchItem))
    (api : gmap Z dispatchItem) (nm method : string) (args : list value) (n : Z)
    (t : streamDescription)
    (Hname : MethodByName (range_API api) method = (n, None))
    (Hup : Upstream (dispatch_lookup api n) = Some t) (Hmute : tree_lookup t 1 = None) :
  run (step convertPayload range range_API) (Ok (new_Service api nm))
    [ECall [] (inl ()) method args None true; EConnLost; ELoopEnd 0 [2%Z]] = Some Panic.
Proof.
  cbn. unfold keys_ok, Call, call. cbn. rewrite Hname. cbn.
  rewrite bool_decide_eq_true_2 by done. cbn. unfold keys_ok. cbn.
  rewrite bool_decide_eq_true_2 by (vm_compute; reflexivity).
  unfold loop_end. rewrite decide_True by done. cbn. unfold push_session, V12.Get. cbn.
  change (wrap64 (1 + 1)) with 2%Z. rewrite lookup_insert_eq. cbn.
  unfold push_detaches. cbn. rewrite Hup. cbn. by rewrite Hmute.
Qed.

Lemma disconnect_panics_on_mute_method_witness :
  run (step sample_codec sample_range sample_range_API)
    (Ok (new_Service {[ 0%Z := mkDispatchItem "emit" emptyDescription emptyDescription ]} "logging"))
    [ECall [] (inl ()) "emit" [VString "hello"] None true; EConnLost; ELoopEnd 0 [2%Z]] = Some Panic.
Proof.
  refine (disconnect_panics_on_mute_method sample_codec sample_range sample_range_API _ "logging"
    "emit" _ 0 (SD ∅) _ _ _); vm_compute; reflexivity.
Defined.

(** [serviceCreateIO] connects to the first endpoint that
    accepts a connection, trying them in order; when none does it returns the
    errors of all of them, in that order, and without endpoints it returns
    [ErrZeroEndpoints]. *)
Theorem serviceCreateIO_first {sock : Type} (dial : string -> sock + error)
    (endpoints : list EndpointItem) :
  match serviceCreateIO dial endpoints with
  | inl s => exists tried e rest, endpoints = tried ++ e :: rest /\
      dial (EndpointItem_String e) = inl s /\
      Forall (fun e => exists err, dial (EndpointItem_String e) = inr err) tried
  | inr err =>
    (endpoints = [] /\ err = ErrZeroEndpoints) \/
    (endpoints <> [] /\ exists errs, length errs = length endpoints /\
       err = MultiConnectionError (zip_with connection_error endpoints errs) /\
       Forall2 (fun e er => dial (EndpointItem_String e) = inr er) endpoints errs)
  end.
Proof.
  unfold serviceCreateIO. destruct endpoints as [|e0 rest0]; [by left|].
  assert (Hloop : forall l mErr,
    match createIO_loop dial l mErr with
    | inl s => exists tried e rest, l = tried ++ e :: rest /\
        dial (EndpointItem_String e) = inl s /\
        Forall (fun e => exists err, dial (EndpointItem_String e) = inr err) tried
    | inr err => exists errs, length errs = length l /\
        err = MultiConnectionError (mErr ++ zip_with connection_error l errs) /\
        Forall2 (fun e er => dial (EndpointItem_String e) = inr er) l errs
    end).
  { induction l as [|e l IH]; intros mErr; cbn.
    { exists []. by rewrite app_nil_r. }
    destruct (dial (EndpointItem_String e)) as [s|er] eqn:Hd; [by exists [], e, l|].
    specialize (IH (mErr ++ [connection_error e er])).
    destruct (createIO_loop dial l _) as [s|err].
    - destruct IH as (tried & e2 & rest & -> & He & Ht). exists (e :: tried), e2, rest.
      split_and!; [done..|]. constructor; [by exists er|done].
    - destruct IH as (errs & Hlen & -> & Hall). exists (er :: errs). cbn.
      rewrite Hlen, <- (assoc_L (++)). split_and!; [done..|]. by constructor. }
  specialize (Hloop (e0 :: rest0) []).
  destruct (createIO_loop dial (e0 :: rest0) []) as [s|err]; [done|]. right. by split.
Qed.
