(* ===== verification/Client.v ===== *)
(** * A client: the service of Service.v over its connections

    The sockets that a [Service] (cocaine12/service.go) had and has, the goroutines
    [loop] that read them, and the users of the service. What Service.v takes as its
    environment - which messages arrive, that the connection is lost, that a loop
    ends - is here what the sockets do. [go service.loop()] starts a goroutine that
    reads [service.epoch] and [service.socketIO] later and without the lock of
    [Reconnect]: each of these reads is a step. *)
From S2P Require Import Prelude GoTypes Buffers Connection Dispatch Sessions Channel Service.
From S2P Require Socket.
From Stdlib Require Import ZArith Lia.

Open Scope stdpp_scope.

(** ** Definitions *)

(** A goroutine [loop]. *)
Inductive service_loop : Type :=
| LoopStarting
| LoopEpoch (ep : Z)                              (* epoch := service.epoch *)
| LoopReading (ep : Z) (k : nat)                  (* ranging over Read() of connection [k] *)
| LoopHolding (ep : Z) (k : nat) (data : Message) (* it received [data] *)
| LoopDone.

(** [history] is what was sent on the connections before the current one, [ranged]
    the connections that a loop began to read, [pushed] what the loops handed to
    their sessions. *)
Record client : Type := mkClient {
  service : Service;
  conns : list sock;     (* the last one is service.socketIO *)
  loops : list service_loop;
  history : list (list Message);
  ranged : list nat;
  pushed : list (nat * Message)
}.

Definition new_client (api : gmap Z dispatchItem) (nm : string) : client :=
  mkClient (new_Service api nm) [Socket.newAsyncRW] [LoopStarting] [] [] [].

Definition current (c : client) : nat := length (history c).

Inductive client_event : Type :=
| Network (k : nat) (e : sock_event)   (* the goroutines of a connection *)
| Starts (j : nat)
| Ranges (j : nat)
| Receives (j : nat)
| Pushes (j : nat)
| Ends (j : nat) (keys : list Z)
| User (e : Service.event).

Definition is_user (e : Service.event) : bool :=
  match e with ERecv _ | ELoopEnd _ _ | EConnLost => false | _ => true end.

(** A message that was not accepted was dropped since the connection is closed; a
    call that reconnects may find the new connection closed as well. *)
Definition sent_or_closed (e : Service.event) (s s' : Service) : bool :=
  match e with
  | ECall _ _ _ _ _ accepted | ETxCall _ _ _ accepted =>
    send_ready accepted (socketIO s') || bool_decide (epoch s' <> epoch s)
  | _ => true
  end.

(** [IsClosed()] of the current connection. *)
Definition observe_closed (s : Service) (k : sock) : Service :=
  set_io (mkSio (sent (socketIO s)) (Socket.closed k) (close_called (socketIO s))) s.

(** What a call does with the current connection. *)
Definition user_conn_events (s s' : Service) : list sock_event :=
  map Socket.Send (drop (length (sent (socketIO s))) (sent (socketIO s'))) ++
  (if bool_decide (close_called (socketIO s') = close_called (socketIO s)) then [] else [Socket.CloseCall]).

Section Client.
Context (convertPayload : list value -> (Z * Z * string) + error).
Context (range : streamDescription -> list (Z * option StreamDescriptionItem)).
Context (range_API : gmap Z dispatchItem -> list (Z * dispatchItem)).
#[local] Abbreviation step_ok := (Service.step_ok convertPayload range range_API).

Definition set_service (s : Service) (c : client) : client :=
  mkClient s (conns c) (loops c) (history c) (ranged c) (pushed c).
Definition set_conn (k : nat) (s : sock) (c : client) : client :=
  mkClient (service c) (<[k := s]> (conns c)) (loops c) (history c) (ranged c) (pushed c).
Definition set_loop (j : nat) (l : service_loop) (c : client) : client :=
  mkClient (service c) (conns c) (<[j := l]> (loops c)) (history c) (ranged c) (pushed c).

(** A step of connection [k] that is not a call of the service. *)
Definition network_step (k : nat) (e : sock_event) (c : client) : option (outcome client) :=
  match conns c !! k with
  | None => None
  | Some s =>
    match Socket.sock_step s e with
    | Some (Ok s') =>
      let c := set_conn k s' c in
      Some (Ok (if decide (k = current c) then set_service (observe_closed (service c) s') c else c))
    | Some Panic => Some Panic
    | None => None
    end
  end.

Definition client_loop_step (e : client_event) (j : nat) (l : service_loop) (c : client) : option (outcome client) :=
  match e, l with
  | Starts _, LoopStarting => Some (Ok (set_loop j (LoopEpoch (epoch (service c))) c))
  | Ranges _, LoopEpoch ep =>
    Some (Ok (mkClient (service c) (conns c) (<[j := LoopReading ep (current c)]> (loops c)) (history c)
      (ranged c ++ [current c]) (pushed c)))
  | Receives _, LoopReading ep k =>
    match conns c !! k with
    | None => None
    | Some s =>
      match Socket.first_pending (Socket.downstream s), Socket.sock_step s Socket.Receive with
      | Some m, Some (Ok s') => Some (Ok (set_loop j (LoopHolding ep k m) (set_conn k s' c)))
      | _, _ => None
      end
    end
  | Pushes _, LoopHolding ep k m =>
    match loop_recv m (service c) with
    | Ok s =>
      Some (Ok (mkClient s (conns c) (<[j := LoopReading ep k]> (loops c)) (history c) (ranged c)
        (pushed c ++ [(k, m)])))
    | Panic => Some Panic
    end
  | Ends _ keys, LoopReading ep k =>
    match conns c !! k with
    | None => None
    | Some s =>
      if Socket.buffer_returned (Socket.downstream s) then
        match step_ok (service c) (ELoopEnd ep keys) with
        | Some (Ok s) => Some (Ok (set_loop j LoopDone (set_service s c)))
        | Some Panic => Some Panic
        | None => None
        end
      else None
    end
  | _, _ => None
  end.

(** A call of a user: on the current connection, or it closes that one and goes on
    over a new one. *)
Definition user_step (e : Service.event) (c : client) : option (outcome client) :=
  if is_user e then
    match conns c !! current c, step_ok (service c) e with
    | Some s, Some (Ok s') =>
      if negb (sent_or_closed e (service c) s') then None
      else if decide (epoch s' = epoch (service c)) then
        match run Socket.step (Ok s) (user_conn_events (service c) s') with
        | Some (Ok s1) =>
          Some (Ok (set_service (observe_closed s' s1) (set_conn (current c) s1 c)))
        | Some Panic => Some Panic
        | None => None
        end
      else
        match Socket.Close s, run Socket.step (Ok Socket.newAsyncRW) (user_conn_events (set_io new_sio s') s') with
        | Ok s0, Some (Ok s1) =>
          Some (Ok (mkClient (observe_closed s' s1) (<[current c := s0]> (conns c) ++ [s1])
            (loops c ++ [LoopStarting]) (history c ++ [sent (socketIO (service c))]) (ranged c) (pushed c)))
        | Ok _, Some Panic | Panic, _ => Some Panic
        | Ok _, None => None
        end
    | Some _, Some Panic => Some Panic
    | _, _ => None
    end
  else None.

Definition client_ok (c : client) (e : client_event) : option (outcome client) :=
  match e with
  | Network k e => if is_internal e then network_step k e c else None
  | User e => user_step e c
  | Starts j | Ranges j | Receives j | Pushes j | Ends j _ =>
    match loops c !! j with
    | Some l => client_loop_step e j l c
    | None => None
    end
  end.

Definition client_step (o : outcome client) (e : client_event) : option (outcome client) :=
  match o with
  | Panic => None
  | Ok c => client_ok c e
  end.
End Client.

(** ** Specification *)

(** What the network delivers on connection [k]. *)
Definition arrives (k : nat) (es : list client_event) : list Message :=
  Socket.decoded (omap (fun e =>
    match e with Network k' e => if decide (k' = k) then Some e else None | _ => None end) es).

(** What the service sent on it. *)
Definition sent_on (k : nat) (c : client) : list Message :=
  default [] ((history c ++ [sent (socketIO (service c))]) !! k).

(** What its loops pushed, and what they hold. *)
Definition pushed_on (k : nat) (l : list (nat * Message)) : list Message := (filter (fun p => p.1 = k) l).*2.
Definition held (k : nat) (l : service_loop) : list Message :=
  match l with LoopHolding _ k' m => if decide (k' = k) then [m] else [] | _ => [] end.
Definition held_on (k : nat) (ls : list service_loop) : list Message := concat (map (held k) ls).

Definition reads (k : nat) (l : service_loop) : bool :=
  match l with LoopReading _ k' | LoopHolding _ k' _ => bool_decide (k' = k) | _ => false end.
Definition readers (k : nat) (ls : list service_loop) : nat := length (List.filter (reads k) ls).
Definition times (k : nat) (l : list nat) : nat := length (filter (eq k) l).

(** ** Lemmas: the loops of a connection *)

Lemma loops_split {A} (l : list A) j a :
  l !! j = Some a -> l = take j l ++ a :: drop (S j) l.
Proof. intros H. by rewrite take_drop_middle. Qed.

Lemma loops_set {A} (l : list A) j a b :
  l !! j = Some a -> <[j:=b]> l = take j l ++ b :: drop (S j) l.
Proof. intros H. apply insert_take_drop. by eapply lookup_lt_Some. Qed.

Lemma held_on_split k ls j l :
  ls !! j = Some l -> held_on k ls = held_on k (take j ls) ++ held k l ++ held_on k (drop (S j) ls).
Proof.
  intros H. unfold held_on. rewrite (loops_split _ _ _ H) at 1. by rewrite map_app, concat_app.
Qed.

Lemma held_on_set k ls j l l' :
  ls !! j = Some l -> held_on k (<[j:=l']> ls) = held_on k (take j ls) ++ held k l' ++ held_on k (drop (S j) ls).
Proof. intros H. unfold held_on. by rewrite (loops_set _ _ _ _ H), map_app, concat_app. Qed.

Lemma readers_split k ls j l :
  ls !! j = Some l ->
  readers k ls = readers k (take j ls) + (if reads k l then 1 else 0) + readers k (drop (S j) ls).
Proof.
  intros H. unfold readers. rewrite (loops_split _ _ _ H) at 1. rewrite List.filter_app, length_app. cbn.
  destruct (reads k l); cbn; lia.
Qed.

Lemma readers_set k ls j l l' :
  ls !! j = Some l ->
  readers k (<[j:=l']> ls) = readers k (take j ls) + (if reads k l' then 1 else 0) + readers k (drop (S j) ls).
Proof.
  intros H. unfold readers. rewrite (loops_set _ _ _ _ H), List.filter_app, length_app. cbn.
  destruct (reads k l'); cbn; lia.
Qed.

(** Nobody else holds a message of a connection that one loop reads. *)
Lemma readers_none k ls : readers k ls = 0 -> held_on k ls = [].
Proof.
  unfold readers, held_on. induction ls as [|l ls IH]; [done|]. cbn. destruct (reads k l) eqn:Hr; [done|].
  intros H. rewrite (IH H), app_nil_r. destruct l as [| | |ep k' m|]; try done. cbn in *.
  by case_decide; [subst; rewrite bool_decide_eq_true_2 in Hr|].
Qed.

Lemma held_alone k ls j l :
  ls !! j = Some l -> reads k l = true -> readers k ls <= 1 ->
  held_on k (take j ls) = [] /\ held_on k (drop (S j) ls) = [].
Proof.
  intros H Hr Hle. rewrite (readers_split _ _ _ _ H), Hr in Hle. split; apply readers_none; lia.
Qed.

(** ** Lemmas: the service's part *)

(** What a step of the service does to its connection. *)
Record io_step (s s' : Service) : Prop := {
  io_epoch : epoch s' = epoch s;
  io_sent : exists ms, sent (socketIO s') = sent (socketIO s) ++ ms;
  io_close : close_called (socketIO s') = close_called (socketIO s) /\
      io_closed (socketIO s') = io_closed (socketIO s) \/
    close_called (socketIO s) = false /\ close_called (socketIO s') = true /\
      io_closed (socketIO s') = true
}.
Definition io_new (s s' : Service) : Prop :=
  epoch s' <> epoch s /\ close_called (socketIO s) = false /\
  close_called (socketIO s') = false /\ io_closed (socketIO s') = false.

Lemma io_step_same s s' : epoch s' = epoch s -> socketIO s' = socketIO s -> io_step s s'.
Proof. intros He Hio. split; rewrite ?Hio; auto. exists []. by rewrite app_nil_r. Qed.

Lemma same_core_io s s' : same_core s s' -> io_step s s' /\ received s' = received s.
Proof. intros (Hio & _ & _ & _ & He & Hr & _). split; [by apply io_step_same|done]. Qed.

Lemma sendMsg_io accepted m s s1 :
  io_step s1 s -> io_step s1 (sendMsg accepted m s).
Proof.
  intros [He [ms Hm] Hc]. destruct accepted; split; cbn; try done; [|by eauto].
  exists (ms ++ [m]). by rewrite Hm, (assoc_L (++)).
Qed.

Lemma call_io order method args trace accepted s s' r :
  call order method args trace accepted s = (s', r) ->
  io_step s s' /\ received s' = received s /\
  close_called (socketIO s') = close_called (socketIO s) /\ io_closed (socketIO s') = io_closed (socketIO s).
Proof.
  unfold call. destruct (MethodByName order method) as [n [err|]].
  { intros [= <- _]. split; [by apply io_step_same|done]. }
  intros [= <- _]. split; [|by destruct accepted]. apply sendMsg_io. by apply io_step_same.
Qed.

Lemma Reconnect_io force keys conn s s' err :
  svc_ok s -> Reconnect force keys conn s = Ok (s', err) ->
  received s' = received s /\ (io_step s s' /\ (err <> None \/ s' = s) \/ io_new s s' /\ err = None).
Proof.
  intros Hok H. unfold Reconnect in H. destruct (negb force && negb (disconnected s)).
  { injection H as <- <-. split; [done|]. left. split; [by apply io_step_same|by right]. }
  apply outcome_bind_ok in H as (s1 & Hs1 & H). destruct (pushDisconnected_ok _ _ _ Hok Hs1) as [_ Hcore].
  destruct (same_core_io _ _ Hcore) as [Hio Hr]. destruct conn as [[]|e].
  - apply outcome_bind_ok in H as (s2 & Hs2 & [= <- <-]).
    destruct (close_inv _ _ Hs2) as (_ & _ & _ & Hr2 & _ & _ & He2 & _). split; [by rewrite <- Hr, <- Hr2|]. right.
    split; [|done]. split; cbn; [rewrite He2, (io_epoch _ _ Hio); lia|].
    split; [|done]. unfold close in Hs2. destruct (Service.stop_closed s1); [done|].
    apply outcome_bind_ok in Hs2 as (c & Hc & _). unfold io_Close in Hc.
    destruct Hcore as (Hsio & _). rewrite Hsio in Hc. by destruct (close_called (socketIO s)).
  - injection H as <- <-. split; [done|]. left. split; [done|by left].
Qed.

(** The calls of users. *)
Lemma user_io convertPayload range range_API s e s' :
  svc_ok s -> is_user e = true -> Service.step_ok convertPayload range range_API s e = Some (Ok s') ->
  received s' = received s /\ (io_step s s' \/ io_new s s').
Proof.
  intros Hok Hu Hs.
  destruct e as [m|ep keys|keys conn method args trace acc|p method args acc|p|force keys conn| |]; try done;
    cbn in Hs.
  - destruct (keys_ok keys s); [|done]. injection Hs as Hs.
    apply outcome_bind_ok in Hs as ([s1 r] & Hs & [= <-]). unfold Call in Hs.
    destruct (disconnected s); [|injection Hs as Hs; destruct (call_io _ _ _ _ _ _ _ _ Hs) as (? & ? & _); auto].
    apply outcome_bind_ok in Hs as ([s2 err] & Hr & Hs).
    destruct (Reconnect_io _ _ _ _ _ _ Hok Hr) as [Hrec Hcase].
    destruct err as [err|].
    + injection Hs as <- _. split; [done|]. destruct Hcase as [[? _]|[_ ?]]; [by left|done].
    + injection Hs as Hs. destruct (call_io _ _ _ _ _ _ _ _ Hs) as (Hio & Hrec' & Hcc & Hic).
      split; [by rewrite Hrec'|]. destruct Hcase as [[_ [?| ->]]|[(Hne & Hc & Hc2 & Hc3) _]]; [done|by left|right].
      unfold io_new. by rewrite (io_epoch _ _ Hio), Hcc, Hic.
  - unfold tx_call in Hs. destruct (channels s !! p) as [ch|] eqn:Hp; [|done].
    destruct (send_ready acc (socketIO s)); [|done]. injection Hs as Hs.
    apply outcome_bind_ok in Hs as ([[t m] err] & _ & [= <-]).
    destruct m; [|split; [done|left; by apply io_step_same]].
    split; [by destruct acc|]. left. apply sendMsg_io. by apply io_step_same.
  - unfold rx_get in Hs. destruct (channels s !! p) as [ch|] eqn:Hp; [|done].
    destruct (Closed (ch_rx ch)); [injection Hs as <-; split; [done|left; by apply io_step_same]|].
    destruct (next_result (ch_rx ch)) as [[res r]|]; [|done]. injection Hs as Hs.
    apply outcome_bind_ok in Hs as ([r2 x] & _ & [= <-]). split; [done|left; by apply io_step_same].
  - destruct (keys_ok keys s); [|done]. injection Hs as Hs.
    apply outcome_bind_ok in Hs as ([s1 err] & Hr & [= <-]).
    destruct (Reconnect_io _ _ _ _ _ _ Hok Hr) as [? [[? _]|[? _]]]; auto.
  - injection Hs as Hs. unfold Close, close in Hs. destruct (Service.stop_closed s); [done|].
    apply outcome_bind_ok in Hs as (c & Hc & [= <-]). unfold io_Close in Hc.
    destruct (close_called (socketIO s)) eqn:Hcc; [done|]. injection Hc as <-. split; [done|]. left.
    split; cbn; [done| |by right]. exists []. by rewrite app_nil_r.
Qed.

(** The end of a loop. *)
Lemma loop_end_io convertPayload range range_API s ep keys s' :
  svc_ok s -> Service.step_ok convertPayload range range_API s (ELoopEnd ep keys) = Some (Ok s') ->
  socketIO s' = socketIO s /\ epoch s' = epoch s /\ received s' = received s.
Proof.
  intros Hok Hs. cbn in Hs. destruct (keys_ok keys s); [|done]. injection Hs as Hs. unfold loop_end in Hs.
  case_decide; [|by injection Hs as <-].
  by destruct (pushDisconnected_ok _ _ _ Hok Hs) as [_ (? & _ & _ & _ & ? & ? & _)].
Qed.

Lemma loop_recv_io m s s' :
  svc_ok s -> loop_recv m s = Ok s' ->
  socketIO s' = socketIO s /\ epoch s' = epoch s /\ received s' = received s ++ [m].
Proof.
  intros [Hwf _] Hs. unfold loop_recv in Hs.
  assert (Hwf0 : svc_wf (set_received (received s ++ [m]) s)) by by eapply svc_wf_frame.
  by destruct (push_session_effect _ _ _ _ _ Hwf0 Hs) as ((? & _ & _ & _ & ? & ? & _) & _).
Qed.

(** ** Lemmas: the connection's part *)

(** A run of a connection: what it carried, whether [Close] was called, what the
    network delivered, and what the loops received, pushed and hold - in order when
    [once] says that one loop reads it. *)
Definition conn_ok (sent : list Message) (called : bool) (net pushed held : list Message) (once : Prop)
    (s : sock) : Prop :=
  exists ses, run Socket.step (Ok Socket.newAsyncRW) ses = Some (Ok s) /\
    Socket.accepted ses = sent /\ existsb Socket.is_CloseCall ses = called /\ Socket.decoded ses = net /\
    Socket.received (Ok Socket.newAsyncRW) ses ≡ₚ pushed ++ held /\
    (once -> Socket.received (Ok Socket.newAsyncRW) ses = pushed ++ held).

Lemma conn_ok_weaken sent called net pushed held (once once' : Prop) s :
  (once' -> once) -> conn_ok sent called net pushed held once s ->
  conn_ok sent called net pushed held once' s.
Proof. intros Ho (ses & H1 & H2 & H3 & H4 & H5 & H6). exists ses. split_and!; auto. Qed.

(** The connection goes on with [es], of which [r] is received. *)
Lemma conn_ok_more sent called net pushed held once s es s' pushed' held' (once' : Prop) :
  conn_ok sent called net pushed held once s -> run Socket.step (Ok s) es = Some (Ok s') ->
  pushed ++ held ++ Socket.received (Ok s) es ≡ₚ pushed' ++ held' ->
  (once' -> once /\ pushed ++ held ++ Socket.received (Ok s) es = pushed' ++ held') ->
  conn_ok (sent ++ Socket.accepted es) (called || existsb Socket.is_CloseCall es)
    (net ++ Socket.decoded es) pushed' held' once' s'.
Proof.
  intros (ses & Hrun & <- & <- & <- & Hp & Ho) Hes Hp' Ho'. exists (ses ++ es).
  rewrite run_app, Hrun, accepted_app, existsb_app, decoded_app, (received_app _ _ _ _ Hrun).
  split_and!; try done.
  - by rewrite Hp, <- (assoc_L (++)).
  - intros H. destruct (Ho' H) as [H1 H2]. by rewrite (Ho H1), <- (assoc_L (++)).
Qed.

Lemma conn_ok_internal sent called net pushed held once s e o :
  conn_ok sent called net pushed held once s -> is_internal e = true -> Socket.sock_step s e = Some o ->
  exists s', o = Ok s' /\ (Socket.closed s = true -> Socket.closed s' = true) /\
    conn_ok sent called (net ++ Socket.decoded [e]) pushed held once s'.
Proof.
  intros Hok Hi Hs. destruct (internal_step _ _ _ Hi Hs) as (s' & -> & Ha & Hr & Hc & Hcl & _).
  exists s'. split; [done|]. split; [done|].
  assert (Hrun : run Socket.step (Ok s) [e] = Some (Ok s')) by (cbn; by rewrite Hs).
  pose proof (conn_ok_more _ _ _ _ _ _ _ _ _ pushed held once Hok Hrun) as H.
  rewrite Ha, Hr in H. cbn [existsb] in H. rewrite Hc, !app_nil_r, !orb_false_r in H. by apply H.
Qed.

Lemma conn_ok_receive sent called net pushed held once s m s' held' (once' : Prop) :
  conn_ok sent called net pushed held once s ->
  Socket.first_pending (Socket.downstream s) = Some m ->
  Socket.sock_step s Socket.Receive = Some (Ok s') ->
  held' ≡ₚ held ++ [m] -> (once' -> once /\ held' = held ++ [m]) ->
  conn_ok sent called net pushed held' once' s' /\ Socket.closed s' = Socket.closed s.
Proof.
  intros Hok Hm Hs Hp Ho.
  assert (Hrun : run Socket.step (Ok s) [Socket.Receive] = Some (Ok s')) by (cbn [run Socket.step]; by rewrite Hs).
  destruct (receive_run _ _ Hrun) as (s1 & [= <-] & Hr & Hc & _). split; [|done].
  pose proof (conn_ok_more _ _ _ _ _ _ _ _ _ pushed held' once' Hok Hrun) as H.
  rewrite Hr, Hm in H. cbn in H. rewrite !app_nil_r, orb_false_r in H. apply H.
  - by rewrite Hp.
  - intros H'. destruct (Ho H') as [? ->]. done.
Qed.

Lemma conn_ok_push sent called net pushed held once s m held' (once' : Prop) :
  conn_ok sent called net pushed held once s -> held ≡ₚ m :: held' ->
  (once' -> once /\ held = m :: held') ->
  conn_ok sent called net (pushed ++ [m]) held' once' s.
Proof.
  intros (ses & H1 & H2 & H3 & H4 & H5 & H6) Hp Ho. exists ses. rewrite <- (assoc_L (++)).
  split_and!; try done; [by rewrite H5, Hp|]. intros H. destruct (Ho H) as [H' ->]. by apply H6.
Qed.

Lemma conn_ok_close sent net pushed held once s s' :
  conn_ok sent false net pushed held once s -> Socket.Close s = Ok s' ->
  conn_ok sent true net pushed held once s'.
Proof.
  intros Hok Hc.
  assert (Hrun : run Socket.step (Ok s) [Socket.CloseCall] = Some (Ok s')) by (cbn [run Socket.step Socket.sock_step]; by rewrite Hc).
  pose proof (conn_ok_more _ _ _ _ _ _ _ _ _ pushed held once Hok Hrun) as H.
  assert (Hrec : Socket.received (Ok s) [Socket.CloseCall] = []).
  { cbn [Socket.received]. by destruct (Socket.step (Ok s) Socket.CloseCall). }
  rewrite Hrec in H. cbn in H. rewrite !app_nil_r in H. by apply H.
Qed.

Lemma user_events_run s s' (k : sock) sent0 net pushed held once o :
  io_step s s' -> conn_ok sent0 (close_called (socketIO s)) net pushed held once k ->
  Socket.closed k = io_closed (socketIO s) -> sent0 = sent (socketIO s) ->
  run Socket.step (Ok k) (user_conn_events s s') = Some o ->
  exists k', o = Ok k' /\ Socket.closed k' = io_closed (socketIO s') /\
    conn_ok (sent (socketIO s')) (close_called (socketIO s')) net pushed held once k'.
Proof.
  intros [_ [ms Hms] Hcl] Hok Hc -> Hrun. unfold user_conn_events in Hrun. rewrite Hms, drop_app_length in Hrun.
  rewrite run_app in Hrun. destruct (run Socket.step (Ok k) (map Socket.Send ms)) as [o1|] eqn:Hr1; [|done].
  destruct (sends_run _ _ _ Hr1) as (k1 & -> & Hrec & Hck & _).
  assert (Hdec : Socket.decoded (map Socket.Send ms) = []) by (clear; by induction ms).
  assert (Hok1 : conn_ok (sent (socketIO s')) (close_called (socketIO s)) net pushed held once k1).
  { pose proof (conn_ok_more _ _ _ _ _ _ _ _ _ pushed held once Hok Hr1) as H.
    rewrite Hrec, sends_accepted, sends_close, Hdec, !app_nil_r, orb_false_r in H. rewrite Hms. by apply H. }
  destruct Hcl as [[Hcc Hic]|(Hcc & Hcc' & Hic)].
  - rewrite bool_decide_eq_true_2 in Hrun by done. injection Hrun as <-. exists k1. rewrite Hcc, Hic, Hck. done.
  - rewrite bool_decide_eq_false_2 in Hrun by congruence. rewrite Hcc in Hok1.
    pose proof Hok1 as (ses & Hses & _ & Hex & _).
    destruct (close_run _ _ _ Hses Hex Hrun) as (k' & -> & Hck' & _). exists k'. rewrite Hcc', Hic.
    split; [done|]. split; [done|].
    apply (conn_ok_close _ _ _ _ _ _ _ Hok1). cbn in Hrun |- *. by injection Hrun.
Qed.

(** ** Lemmas: runs of a client *)

Lemma arrives_snoc k es e :
  arrives k (es ++ [e]) = arrives k es ++
    match e with Network k' e => if decide (k' = k) then Socket.decoded [e] else [] | _ => [] end.
Proof.
  unfold arrives. rewrite omap_app, decoded_app. f_equal.
  destruct e as [k' e| | | | | |]; try done. cbn. by case_decide.
Qed.

Lemma times_one k x : times k [x] = if decide (k = x) then 1 else 0.
Proof. unfold times. rewrite filter_cons, filter_nil. by case_decide. Qed.

Lemma pushed_snoc k l x m : pushed_on k (l ++ [(x, m)]) = pushed_on k l ++ (if decide (x = k) then [m] else []).
Proof. unfold pushed_on. rewrite filter_app, fmap_app, filter_cons, filter_nil. cbn. by case_decide. Qed.

(** The calls of [Close] on connection [k]: an old one is closed. *)
Definition was_closed (k : nat) (c : client) : bool :=
  bool_decide (k <> current c) || close_called (socketIO (service c)).

Section ClientLemmas.
Context (convertPayload : list value -> (Z * Z * string) + error).
Context (range : streamDescription -> list (Z * option StreamDescriptionItem)).
Context (range_API : gmap Z dispatchItem -> list (Z * dispatchItem)).
Context (api : gmap Z dispatchItem) (nm : string).
#[local] Abbreviation svc_step := (Service.step convertPayload range range_API).
#[local] Abbreviation step_ok := (Service.step_ok convertPayload range range_API).
#[local] Abbreviation client_ok := (client_ok convertPayload range range_API).
#[local] Abbreviation client_step := (client_step convertPayload range range_API).

Record client_inv (es : list client_event) (c : client) : Prop := {
  ci_service : exists ves, run svc_step (Ok (new_Service api nm)) ves = Some (Ok (service c)) /\
    length ves <= length es;
  ci_received : received (service c) = (pushed c).*2;
  ci_length : length (conns c) = S (current c);
  ci_closed : forall s, conns c !! current c = Some s -> Socket.closed s = io_closed (socketIO (service c));
  ci_conns : forall k s, conns c !! k = Some s ->
    conn_ok (sent_on k c) (was_closed k c) (arrives k es) (pushed_on k (pushed c)) (held_on k (loops c))
      (times k (ranged c) <= 1) s;
  ci_readers : forall k, readers k (loops c) <= times k (ranged c);
  ci_future : forall k, length (conns c) <= k ->
    arrives k es = [] /\ pushed_on k (pushed c) = [] /\ times k (ranged c) = 0
}.

Lemma client_init : client_inv [] (new_client api nm).
Proof.
  split; try done.
  - by exists [].
  - intros s [= <-]. done.
  - intros [|k] s Hs; [|done]. injection Hs as <-. exists []. by split_and!.
Qed.

Lemma svc_fine es c : (2 + Z.of_nat (length es) < two64)%Z -> client_inv es c -> svc_ok (service c).
Proof.
  intros Hlen [(ves & Hrun & Hle) _ _ _ _ _ _]. eapply svc_run; [|exact Hrun]. lia.
Qed.

(** One more event of the service, or none. *)
Lemma service_more es c s e ves :
  client_inv es c -> run svc_step (Ok (service c)) ves = Some (Ok s) -> length ves <= 1 ->
  exists ves', run svc_step (Ok (new_Service api nm)) ves' = Some (Ok s) /\ length ves' <= length (es ++ [e]).
Proof.
  intros [(ves0 & Hrun & Hle) _ _ _ _ _ _] Hs Hl. exists (ves0 ++ ves). rewrite run_app, Hrun. split; [done|].
  rewrite !length_app. cbn. lia.
Qed.

Lemma observe_closed_same s (k : sock) : Socket.closed k = io_closed (socketIO s) -> observe_closed s k = s.
Proof. intros H. unfold observe_closed. rewrite H. by destruct s as [[] ? ? ? ? ? ? ?]. Qed.

Lemma network_inv es c k e o :
  client_inv es c -> is_internal e = true -> network_step k e c = Some o ->
  exists c', o = Ok c' /\ client_inv (es ++ [Network k e]) c'.
Proof.
  intros Hinv Hi Hs. pose proof Hinv as [Hsvc Hrec Hlen Hcl Hco Hrd Hfu]. unfold network_step in Hs.
  destruct (conns c !! k) as [s|] eqn:Hk; [|done].
  destruct (Socket.sock_step s e) as [o1|] eqn:Hse; [|done].
  destruct (conn_ok_internal _ _ _ _ _ _ _ _ _ (Hco k s Hk) Hi Hse) as (s' & -> & Hmono & Hok').
  injection Hs as <-. eexists. split; [done|].
  assert (Hcs : forall i t, <[k:=s']> (conns c) !! i = Some t ->
    conn_ok (sent_on i c) (was_closed i c) (arrives i (es ++ [Network k e])) (pushed_on i (pushed c))
      (held_on i (loops c)) (times i (ranged c) <= 1) t).
  { intros i t Hi'. rewrite arrives_snoc. apply list_lookup_insert_Some in Hi' as [(<- & <- & _)|[Hne Hi']].
    - by rewrite decide_True.
    - rewrite decide_False by done. rewrite app_nil_r. by apply Hco. }
  change (current (set_conn k s' c)) with (current c).
  assert (Hfu' : forall i, length (<[k:=s']> (conns c)) <= i ->
    arrives i (es ++ [Network k e]) = [] /\ pushed_on i (pushed c) = [] /\ times i (ranged c) = 0).
  { intros i. rewrite length_insert. intros Hle. rewrite arrives_snoc, decide_False; [|intros <-; apply lookup_lt_Some in Hk; lia].
    rewrite app_nil_r. by apply Hfu. }
  case_decide as Hcur; split; cbn [service conns loops history ranged pushed set_service set_conn]; try done.
  - assert (Hv : exists ves, run svc_step (Ok (service c)) ves = Some (Ok (observe_closed (service c) s')) /\ length ves <= 1).
    { destruct (Socket.closed s') eqn:Hc'.
      - exists [EConnLost]. cbn. unfold observe_closed. by rewrite Hc'.
      - exists []. rewrite observe_closed_same; [split; [done|cbn; lia]|]. rewrite Hc'. subst k. rewrite <- (Hcl s Hk).
        destruct (Socket.closed s); [by specialize (Hmono eq_refl)|done]. }
    destruct Hv as (ves & Hves & Hle). by eapply service_more.
  - cbn. by rewrite length_insert.
  - intros t. cbn. subst k. unfold current in *. cbn in *.
    rewrite list_lookup_insert_eq by (by eapply lookup_lt_Some). by intros [= <-].
  - destruct Hsvc as (ves & Hrun & Hle). exists ves. split; [done|]. rewrite length_app. lia.
  - by rewrite length_insert.
  - intros t. unfold current in *. cbn in *. rewrite list_lookup_insert_ne by done. apply Hcl.
Qed.
(** A step of loop [j] that leaves the connections: what it changes of the loops, of
    [ranged] and of [pushed] agrees. *)
Lemma loop_inv es c j e s l' ranged' pushed' :
  client_inv es c -> (forall k, arrives k [e] = []) ->
  (exists ves, run svc_step (Ok (service c)) ves = Some (Ok s) /\ length ves <= 1) ->
  socketIO s = socketIO (service c) -> received s = pushed'.*2 ->
  (forall k t, conns c !! k = Some t ->
     conn_ok (sent_on k c) (was_closed k c) (arrives k es) (pushed_on k pushed')
       (held_on k (<[j:=l']> (loops c))) (times k ranged' <= 1) t) ->
  (forall k, readers k (<[j:=l']> (loops c)) <= times k ranged') ->
  (forall k, length (conns c) <= k -> pushed_on k pushed' = [] /\ times k ranged' = 0) ->
  client_inv (es ++ [e]) (mkClient s (conns c) (<[j:=l']> (loops c)) (history c) ranged' pushed').
Proof.
  intros Hinv Ha (ves & Hves & Hle) Hio Hr Hco Hrd Hnew. pose proof Hinv as [Hsvc Hrec Hlen Hcl _ _ Hfu].
  assert (Hak : forall k, arrives k (es ++ [e]) = arrives k es).
  { intros k. specialize (Ha k). unfold arrives in *. by rewrite omap_app, decoded_app, Ha, app_nil_r. }
  split; cbn [service conns loops history ranged pushed]; try done.
  - by eapply service_more.
  - intros t Ht. unfold current in *. cbn in Ht. rewrite Hio. by apply Hcl.
  - intros k t Ht. rewrite Hak. unfold sent_on, was_closed, current in *. cbn. rewrite Hio. by apply Hco.
  - intros k Hk. rewrite Hak. split; [by apply Hfu|by apply Hnew].
Qed.

(** A loop that goes from one state to another without a message. *)
Lemma idle_inv es c j e s l l' x :
  client_inv es c -> loops c !! j = Some l -> (forall k, arrives k [e] = []) ->
  (exists ves, run svc_step (Ok (service c)) ves = Some (Ok s) /\ length ves <= 1) ->
  socketIO s = socketIO (service c) -> received s = received (service c) ->
  (forall k, held k l = [] /\ held k l' = []) ->
  (forall k, (if reads k l' then 1 else 0) <= (if reads k l then 1 else 0) + times k x) ->
  (forall k, length (conns c) <= k -> times k x = 0) ->
  client_inv (es ++ [e]) (mkClient s (conns c) (<[j:=l']> (loops c)) (history c) (ranged c ++ x) (pushed c)).
Proof.
  intros Hinv Hj Ha Hves Hio Hr Hh Hreads Hx. pose proof Hinv as [Hsvc Hrec Hlen Hcl Hco Hrd Hfu].
  assert (Ht : forall k, times k (ranged c ++ x) = times k (ranged c) + times k x).
  { intros k. unfold times. by rewrite filter_app, length_app. }
  apply loop_inv; try done.
  - by rewrite Hr.
  - intros k t Hk. destruct (Hh k) as [H1 H2]. rewrite (held_on_set _ _ _ _ _ Hj), H2.
    pose proof (Hco k t Hk) as Hok. rewrite (held_on_split _ _ _ _ Hj), H1 in Hok.
    eapply conn_ok_weaken; [|exact Hok]. rewrite Ht. lia.
  - intros k. rewrite Ht, (readers_set _ _ _ _ _ Hj). specialize (Hreads k). specialize (Hrd k).
    rewrite (readers_split _ _ _ _ Hj) in Hrd. lia.
  - intros k Hk. rewrite Ht, (Hx k Hk). destruct (Hfu k Hk) as (_ & ? & ->). done.
Qed.

(** A loop receives a message of its connection. *)
Lemma client_receive_inv es c j ep k m s s' :
  client_inv es c -> loops c !! j = Some (LoopReading ep k) -> conns c !! k = Some s ->
  Socket.first_pending (Socket.downstream s) = Some m ->
  Socket.sock_step s Socket.Receive = Some (Ok s') ->
  client_inv (es ++ [Receives j]) (set_loop j (LoopHolding ep k m) (set_conn k s' c)).
Proof.
  intros Hinv Hj Hk Hm Hs. pose proof Hinv as [Hsvc Hrec Hlen Hcl Hco Hrd Hfu].
  assert (Hheld : held_on k (<[j:=LoopHolding ep k m]> (loops c)) =
    held_on k (take j (loops c)) ++ [m] ++ held_on k (drop (S j) (loops c))).
  { rewrite (held_on_set _ _ _ _ _ Hj). cbn. by rewrite decide_True. }
  assert (Hold : held_on k (loops c) = held_on k (take j (loops c)) ++ held_on k (drop (S j) (loops c)))
    by apply (held_on_split _ _ _ _ Hj).
  destruct (conn_ok_receive _ _ _ _ _ _ _ _ _ (held_on k (<[j:=LoopHolding ep k m]> (loops c)))
    (times k (ranged c) <= 1) (Hco k s Hk) Hm Hs) as [Hok Hsc].
  { rewrite Hheld, Hold, <- (assoc_L (++)). f_equiv. apply Permutation_app_comm. }
  { intros Hle. split; [done|]. rewrite Hheld, Hold.
    destruct (held_alone k (loops c) j _ Hj) as [-> ->]; [cbn; by apply bool_decide_eq_true|specialize (Hrd k); lia|].
    done. }
  assert (Hread : forall i, readers i (<[j:=LoopHolding ep k m]> (loops c)) = readers i (loops c)).
  { intros i. by rewrite (readers_set _ _ _ _ _ Hj), (readers_split _ _ _ _ Hj). }
  split; cbn [service conns loops history ranged pushed set_loop set_conn]; try done.
  - destruct Hsvc as (ves & Hrun & Hle). exists ves. rewrite length_app. split; [done|lia].
  - by rewrite length_insert.
  - intros t Ht. unfold current in *. cbn in Ht.
    apply list_lookup_insert_Some in Ht as [(-> & <- & _)|[Hne Ht]]; [|by apply Hcl]. rewrite Hsc. by apply Hcl.
  - intros i t Hi. rewrite arrives_snoc, app_nil_r.
    apply list_lookup_insert_Some in Hi as [(<- & <- & _)|[Hne Hi]]; [exact Hok|].
    replace (held_on i (<[j:=LoopHolding ep k m]> (loops c))) with (held_on i (loops c)); [by apply Hco|].
    rewrite (held_on_set _ _ _ _ _ Hj), (held_on_split _ _ _ _ Hj). cbn. by rewrite decide_False.
  - intros i. rewrite Hread. apply Hrd.
  - intros i. rewrite length_insert, arrives_snoc, app_nil_r. apply Hfu.
Qed.

(** A loop pushes the message it holds. *)
Lemma push_inv es c j ep k m s :
  client_inv es c -> loops c !! j = Some (LoopHolding ep k m) -> svc_ok (service c) ->
  loop_recv m (service c) = Ok s ->
  client_inv (es ++ [Pushes j])
    (mkClient s (conns c) (<[j := LoopReading ep k]> (loops c)) (history c) (ranged c) (pushed c ++ [(k, m)])).
Proof.
  intros Hinv Hj Hsok Hs. pose proof Hinv as [Hsvc Hrec Hlen Hcl Hco Hrd Hfu].
  destruct (loop_recv_io _ _ _ Hsok Hs) as (Hio & _ & Hr).
  apply loop_inv; try done.
  - exists [ERecv m]. split; [cbn; by rewrite Hs|cbn; lia].
  - rewrite Hr, Hrec, fmap_app. done.
  - intros i t Hi. pose proof (Hco i t Hi) as Hok. rewrite pushed_snoc, (held_on_set _ _ _ _ _ Hj).
    rewrite (held_on_split _ _ _ _ Hj) in Hok. cbn [held] in *. case_decide as Hki.
    + subst i. eapply conn_ok_push; [exact Hok| |].
      * by rewrite Permutation_app_comm, <- (assoc_L (++)), (Permutation_app_comm (held_on k (drop _ _))).
      * intros Hle. split; [done|].
        destruct (held_alone k (loops c) j _ Hj) as [-> ->]; [cbn; by apply bool_decide_eq_true|specialize (Hrd k); lia|].
        done.
    + rewrite app_nil_r. exact Hok.
  - intros i. specialize (Hrd i). rewrite (readers_split _ _ _ _ Hj) in Hrd. by rewrite (readers_set _ _ _ _ _ Hj).
  - intros i Hi. destruct (Hfu i Hi) as (_ & Hpu & Hti). split; [|done]. rewrite pushed_snoc, Hpu, decide_False; [done|].
    intros <-. specialize (Hrd k). rewrite (readers_split _ _ _ _ Hj) in Hrd. cbn in Hrd.
    rewrite bool_decide_eq_true_2 in Hrd by done. lia.
Qed.

Lemma user_keep es c e s s' o :
  client_inv es c -> io_step (service c) s' -> received s' = received (service c) ->
  step_ok (service c) e = Some (Ok s') -> conns c !! current c = Some s ->
  run Socket.step (Ok s) (user_conn_events (service c) s') = Some o ->
  exists s1, o = Ok s1 /\
    client_inv (es ++ [User e]) (set_service (observe_closed s' s1) (set_conn (current c) s1 c)).
Proof.
  intros Hinv Hio Hr He Hk Hrun. pose proof Hinv as [Hsvc Hrec Hlen Hcl Hco Hrd Hfu].
  pose proof (Hco _ _ Hk) as Hok. unfold was_closed in Hok.
  rewrite bool_decide_eq_false_2 in Hok by (intros H; by apply H).
  assert (Hso : sent_on (current c) c = sent (socketIO (service c))).
  { unfold sent_on, current. by rewrite lookup_app_r, Nat.sub_diag. }
  destruct (user_events_run _ _ _ _ _ _ _ _ _ Hio Hok (Hcl s Hk) Hso Hrun) as (s1 & -> & Hc1 & Hok1).
  exists s1. split; [done|]. rewrite (observe_closed_same _ _ Hc1).
  split; cbn [service conns loops history ranged pushed set_service set_conn]; try done.
  - eapply (service_more _ _ _ _ [e]); [done| |cbn; lia]. cbn. by rewrite He.
  - by rewrite Hr.
  - by rewrite length_insert.
  - intros t Ht. unfold current in *. cbn in Ht.
    rewrite list_lookup_insert_eq in Ht by (by eapply lookup_lt_Some). by injection Ht as <-.
  - intros i t Hi. rewrite arrives_snoc, app_nil_r. unfold was_closed, sent_on, current in *. cbn.
    apply list_lookup_insert_Some in Hi as [(<- & <- & _)|[Hne Hi]].
    + rewrite lookup_app_r, Nat.sub_diag, bool_decide_eq_false_2 by (auto; intros H; by apply H). exact Hok1.
    + pose proof (Hco i t Hi) as H. rewrite bool_decide_eq_true_2 in H |- * by done.
      assert (i < length (history c)) by (apply lookup_lt_Some in Hi; unfold current in Hlen; lia).
      rewrite lookup_app_l in H |- * by done. exact H.
  - intros i. rewrite length_insert, arrives_snoc, app_nil_r. apply Hfu.
Qed.

Lemma user_new es c e s s' s0 o :
  client_inv es c -> io_new (service c) s' -> received s' = received (service c) ->
  step_ok (service c) e = Some (Ok s') -> conns c !! current c = Some s -> Socket.Close s = Ok s0 ->
  run Socket.step (Ok Socket.newAsyncRW) (user_conn_events (set_io new_sio s') s') = Some o ->
  exists s1, o = Ok s1 /\
    client_inv (es ++ [User e])
      (mkClient (observe_closed s' s1) (<[current c := s0]> (conns c) ++ [s1]) (loops c ++ [LoopStarting])
        (history c ++ [sent (socketIO (service c))]) (ranged c) (pushed c)).
Proof.
  intros Hinv (_ & Hcc & Hcc' & Hic') Hr He Hk Hclose Hrun. pose proof Hinv as [Hsvc Hrec Hlen Hcl Hco Hrd Hfu].
  assert (Hio : io_step (set_io new_sio s') s').
  { split; cbn; [done| |left; by rewrite Hcc', Hic']. by exists (sent (socketIO s')). }
  destruct (user_events_run (set_io new_sio s') s' Socket.newAsyncRW [] [] [] [] True o)
    as (s1 & -> & Hc1 & Hok1); try done; [by exists []; split_and!|].
  exists s1. split; [done|]. rewrite (observe_closed_same _ _ Hc1).
  assert (Hheld : forall i, held_on i (loops c ++ [LoopStarting]) = held_on i (loops c)).
  { intros i. unfold held_on. by rewrite map_app, concat_app, app_nil_r. }
  assert (Hread : forall i, readers i (loops c ++ [LoopStarting]) = readers i (loops c)).
  { intros i. unfold readers. by rewrite List.filter_app, length_app, Nat.add_0_r. }
  assert (Hnew : forall i t, (<[current c := s0]> (conns c) ++ [s1]) !! i = Some t ->
    i < current c /\ conns c !! i = Some t \/ i = current c /\ t = s0 \/ i = S (current c) /\ t = s1).
  { intros i t [Hi|[Hle Hi]]%lookup_app_Some.
    - apply list_lookup_insert_Some in Hi as [(<- & <- & _)|[Hne Hi]]; [by right; left|left].
      split; [|done]. apply lookup_lt_Some in Hi. lia.
    - right. right. apply list_lookup_singleton_Some in Hi as [Hi <-]. rewrite length_insert in *. split; [lia|done]. }
  split; cbn [service conns loops history ranged pushed].
  - eapply (service_more _ _ _ _ [e]); [done| |cbn; lia]. cbn. by rewrite He.
  - by rewrite Hr.
  - unfold current in *. cbn. rewrite !length_app, length_insert. cbn. lia.
  - intros t. unfold current in *. cbn. rewrite length_app. cbn. rewrite Nat.add_1_r. intros Ht.
    destruct (Hnew _ _ Ht) as [[? _]|[[? _]|[_ ->]]]; [lia|lia|done].
  - intros i t Hi. rewrite arrives_snoc, app_nil_r, Hheld. destruct (Hnew i t Hi) as [[Hlt Hi']|[[-> ->]|[-> ->]]].
    + pose proof (Hco i t Hi') as H. unfold was_closed, sent_on, current in *. cbn.
      rewrite bool_decide_eq_true_2 in H by lia. rewrite length_app, bool_decide_eq_true_2 by (cbn; lia).
      rewrite lookup_app_l in H by done. rewrite lookup_app_l by (rewrite length_app; cbn; lia).
      rewrite lookup_app_l by done. exact H.
    + pose proof (Hco _ _ Hk) as H. unfold was_closed, sent_on, current in *. cbn.
      rewrite length_app, bool_decide_eq_true_2 by (cbn; lia). rewrite lookup_app_l by (rewrite length_app; cbn; lia).
      rewrite bool_decide_eq_false_2, Hcc in H by (intros Hn; by apply Hn).
      pose proof (conn_ok_close _ _ _ _ _ _ _ H Hclose) as H'. by rewrite lookup_app_r, Nat.sub_diag in H' |- * by done.
    + destruct (Hfu (S (current c))) as (-> & -> & Ht); [lia|].
      pose proof (Hrd (S (current c))) as Hrn. rewrite Ht in Hrn. rewrite (readers_none (S (current c))) by lia.
      unfold was_closed, sent_on, current in *. cbn. rewrite length_app, bool_decide_eq_false_2 by (cbn; lia).
      rewrite lookup_app_r by (rewrite length_app; cbn; lia). rewrite length_app. cbn.
      replace (S (length (history c)) - (length (history c) + 1)) with 0 by lia.
      eapply conn_ok_weaken; [|exact Hok1]. done.
  - intros i. rewrite Hread. apply Hrd.
  - intros i. rewrite length_app, length_insert, arrives_snoc, app_nil_r. cbn. intros Hle. apply Hfu. lia.
Qed.

Lemma user_inv es c e o :
  client_inv es c -> svc_ok (service c) -> user_step convertPayload range range_API e c = Some o ->
  match o with
  | Ok c' => client_inv (es ++ [User e]) c'
  | Panic => step_ok (service c) e = Some Panic
  end.
Proof.
  intros Hinv Hok Hs. unfold user_step in Hs. destruct (is_user e) eqn:Hu; [|done].
  destruct (conns c !! current c) as [s|] eqn:Hk; [|done].
  destruct (step_ok (service c) e) as [[s'|]|] eqn:He; [|by injection Hs as <-|done].
  destruct (negb _); [done|]. destruct (user_io _ _ _ _ _ _ Hok Hu He) as [Hr Hcase].
  case_decide as Hep.
  - destruct Hcase as [Hio|[Hne _]]; [|done].
    destruct (run Socket.step (Ok s) _) as [o1|] eqn:Hrun; [|done].
    destruct (user_keep _ _ _ _ _ _ Hinv Hio Hr He Hk Hrun) as (s1 & -> & Hinv'). by injection Hs as <-.
  - destruct Hcase as [Hio|Hio]; [by destruct (Hep (io_epoch _ _ Hio))|].
    destruct (Socket.Close s) as [s0|] eqn:Hclose.
    + destruct (run Socket.step (Ok Socket.newAsyncRW) _) as [o1|] eqn:Hrun; [|done].
      destruct (user_new _ _ _ _ _ _ _ Hinv Hio Hr He Hk Hclose Hrun) as (s1 & -> & Hinv'). by injection Hs as <-.
    + destruct (ci_conns _ _ Hinv _ _ Hk) as (ses & Hses & _ & Hcl & _).
      destruct (Socket.socket_shutdown ses s Hses) as (_ & _ & [Hp _]). rewrite (Hp Hclose) in Hcl.
      destruct Hio as (_ & Hcc & _). unfold was_closed in Hcl. rewrite Hcc, bool_decide_eq_false_2 in Hcl; [done|].
      intros H. by apply H.
Qed.

(** A step of a client; only its service panics. *)
Lemma client_inv_step es c e o :
  client_inv es c -> svc_ok (service c) -> client_ok c e = Some o ->
  match o with
  | Ok c' => client_inv (es ++ [e]) c'
  | Panic => exists e', step_ok (service c) e' = Some Panic
  end.
Proof.
  intros Hinv Hok Hs. destruct e as [k e|j|j|j|j|j keys|e]; cbn [Client.client_ok] in Hs.
  - destruct (is_internal e) eqn:Hi; [|done]. by destruct (network_inv _ _ _ _ _ Hinv Hi Hs) as (c' & -> & ?).
  - destruct (loops c !! j) as [[| | | |]|] eqn:Hj; try done. injection Hs as <-.
    pose proof (idle_inv _ _ _ (Starts j) (service c) _ (LoopEpoch (epoch (service c))) [] Hinv Hj) as H.
    rewrite app_nil_r in H. apply H; try done. exists []. split; [done|cbn; lia].
  - destruct (loops c !! j) as [[|ep| | |]|] eqn:Hj; try done. injection Hs as <-.
    eapply idle_inv; [done|exact Hj|done|by exists []; split; [|cbn; lia]|done|done|done|..].
    + intros k. rewrite times_one. cbn. case_bool_decide as H; [|lia]. subst k. rewrite decide_True by done. lia.
    + intros k Hk. rewrite times_one, decide_False; [done|]. intros ->.
      rewrite (ci_length _ _ Hinv) in Hk. lia.
  - destruct (loops c !! j) as [[| |ep k| |]|] eqn:Hj; try done. cbn [client_loop_step] in Hs.
    destruct (conns c !! k) as [s|] eqn:Hk; [|done].
    destruct (Socket.first_pending _) as [m|] eqn:Hm; [|done].
    destruct (Socket.sock_step _ _) as [[s'|]|] eqn:Hr; try done. injection Hs as <-. by eapply client_receive_inv.
  - destruct (loops c !! j) as [[| | |ep k m|]|] eqn:Hj; try done. cbn [client_loop_step] in Hs.
    destruct (loop_recv m (service c)) as [s|] eqn:Hr.
    + injection Hs as <-. by eapply push_inv.
    + injection Hs as <-. exists (ERecv m). cbn. by rewrite Hr.
  - destruct (loops c !! j) as [[| |ep k| |]|] eqn:Hj; try done. cbn [client_loop_step] in Hs.
    destruct (conns c !! k) as [s|]; [|done]. destruct (Socket.buffer_returned _); [|done].
    destruct (step_ok (service c) _) as [[s'|]|] eqn:He; [|by injection Hs as <-; eexists|done].
    destruct (loop_end_io _ _ _ _ _ _ _ Hok He) as (Hio & _ & Hr). injection Hs as <-.
    pose proof (idle_inv _ _ _ (Ends j keys) s' _ LoopDone [] Hinv Hj) as H.
    rewrite app_nil_r in H. apply H; try done.
    + exists [ELoopEnd ep keys]. split; [|cbn; lia]. cbn [run Service.step]. by rewrite He.
    + intros i. cbn. lia.
  - pose proof (user_inv _ _ _ _ Hinv Hok Hs) as H. destruct o; [done|by exists e].
Qed.

Lemma client_run es o :
  (2 + Z.of_nat (length es) < two64)%Z -> run client_step (Ok (new_client api nm)) es = Some o ->
  match o with
  | Ok c => client_inv es c
  | Panic => exists ves e', run svc_step (Ok (new_Service api nm)) (ves ++ [e']) = Some Panic
  end.
Proof.
  revert o. induction es as [|e es IH] using rev_ind; intros o Hlen Hrun; [injection Hrun as <-; apply client_init|].
  rewrite length_app in Hlen. cbn in Hlen. apply run_snoc in Hrun as ([c|] & Hrun & Hs); [|done].
  pose proof (IH (Ok c) ltac:(lia) Hrun) as Hinv. cbn in Hinv.
  assert (Hok : svc_ok (service c)) by (eapply svc_fine; [|exact Hinv]; lia).
  pose proof (client_inv_step _ _ _ _ Hinv Hok Hs) as H. destruct o; [exact H|].
  destruct H as [e' He']. destruct (ci_service _ _ Hinv) as (ves & Hves & _). exists ves, e'.
  rewrite run_app, Hves. cbn [run Service.step]. by rewrite He'.
Qed.
End ClientLemmas.

(** The messages of a session. *)
Definition session_of (id : Z) (ms : list Message) : list Message := filter (fun m => msg_session m = id) ms.

Lemma conn_ok_order sent called net pushed held once s :
  conn_ok sent called net pushed held once s ->
  (exists unsent, sent = Socket.wire s ++ unsent /\
     (Socket.writer s = Socket.WriterRunning -> unsent = Socket.up_pending s)) /\
  exists got, net = got ++ Socket.down_pending s ++ Socket.in_hand s /\
    got ≡ₚ pushed ++ held /\ (once -> got = pushed ++ held).
Proof.
  intros (ses & Hrun & <- & _ & <- & Hp & Ho). split.
  - destruct (Socket.write_run ses [] Socket.newAsyncRW s) as (unsent & Hun & Hwr); [by exists []|done|].
    by exists unsent.
  - pose proof (Socket.read_run ses Socket.newAsyncRW s Hrun) as Hr. eexists. split; [symmetry; exact Hr|done].
Qed.

(** What was pushed of a session that only connection [k] carries. *)
Lemma pushed_session k id l :
  (forall k' m, (k', m) ∈ l -> k' <> k -> msg_session m <> id) ->
  session_of id l.*2 = session_of id (pushed_on k l).
Proof.
  intros H. induction l as [|[k' m] l IH]; [done|]. unfold session_of, pushed_on in *. cbn [fmap list_fmap fst snd].
  rewrite !filter_cons. cbn [fst]. assert (IH' := IH ltac:(intros k2 m2 Hin; apply H; set_solver)).
  destruct (decide (k' = k)) as [->|Hne].
  - cbn [fmap list_fmap snd]. rewrite filter_cons. cbn [snd]. case_decide; [f_equal|]; exact IH'.
  - rewrite decide_False; [exact IH'|]. apply (H k' m); [set_solver|done].
Qed.

Lemma pushed_arrived convertPayload range range_API api nm es c k m :
  client_inv convertPayload range range_API api nm es c -> (k, m) ∈ pushed c -> m ∈ arrives k es.
Proof.
  intros Hinv Hin.
  assert (Hp : m ∈ pushed_on k (pushed c)).
  { unfold pushed_on. apply list_elem_of_fmap. exists (k, m). split; [done|]. by apply list_elem_of_filter. }
  destruct (conns c !! k) as [s|] eqn:Hk.
  - destruct (conn_ok_order _ _ _ _ _ _ _ (ci_conns _ _ _ _ _ _ _ Hinv k s Hk)) as (_ & got & -> & Hgot & _).
    rewrite elem_of_app, Hgot, elem_of_app. auto.
  - destruct (ci_future _ _ _ _ _ _ _ Hinv k) as (_ & Hnil & _); [by apply lookup_ge_None|].
    rewrite Hnil in Hp. by apply elem_of_nil in Hp.
Qed.

(** What a channel got of a session that one connection, read by one loop, carries. *)
Lemma channel_part convertPayload range range_API api nm es c p ch k s :
  client_inv convertPayload range range_API api nm es c -> svc_ok (service c) ->
  channels (service c) !! p = Some ch -> conns c !! k = Some s -> times k (ranged c) <= 1 ->
  (forall k' m, k' <> k -> m ∈ arrives k' es -> msg_session m <> ch_id ch) ->
  exists pre mid post, session_of (ch_id ch) (arrives k es) = pre ++ mid ++ post /\
    ch_net ch = res_of <$> mid /\
    (links (service c) !! ch_id ch = Some p ->
       post = session_of (ch_id ch) (held_on k (loops c) ++ Socket.down_pending s ++ Socket.in_hand s)).
Proof.
  intros Hinv [_ Hnet] Hp Hk Honce Hother.
  destruct (Hnet p ch Hp) as (pre & mid & post & Hsplit & Hch & Hpost).
  destruct (conn_ok_order _ _ _ _ _ _ _ (ci_conns _ _ _ _ _ _ _ Hinv k s Hk)) as (_ & got & Harr & _ & Hgot).
  specialize (Hgot Honce).
  set (rest := session_of (ch_id ch) (held_on k (loops c) ++ Socket.down_pending s ++ Socket.in_hand s)).
  assert (Hpush : session_of (ch_id ch) (pushed_on k (pushed c)) =
    session_of (ch_id ch) pre ++ session_of (ch_id ch) mid ++ session_of (ch_id ch) post).
  { rewrite <- (pushed_session k), <- (ci_received _ _ _ _ _ _ _ Hinv), Hsplit.
    - unfold session_of. by rewrite !filter_app.
    - intros k' m Hin Hne. eapply Hother; [exact Hne|]. by eapply pushed_arrived. }
  exists (session_of (ch_id ch) pre), (session_of (ch_id ch) mid), (session_of (ch_id ch) post ++ rest).
  split; [|split; [exact Hch|]].
  - rewrite Harr, Hgot, <- (assoc_L (++) (pushed_on _ _)). unfold session_of at 1. rewrite filter_app.
    fold (session_of (ch_id ch) (pushed_on k (pushed c))). rewrite Hpush, <- !(assoc_L (++)). done.
  - intros Hatt. by rewrite (Hpost Hatt).
Qed.

(** ** Property *)

(** C8 (refinement): in every run of a client - users, loops, the goroutines of each
    connection and the network in any order - the service is one of Service.v, and
    the client panics only as the service does. Each connection carries, in order,
    what the service sent while it was the current one. What arrived on a connection
    is, in order, pushed, in the hand of a loop, or still in the socket; nothing is
    lost or duplicated, and the order of pushing is that of arrival when one loop
    reads the connection. So a channel whose session one such connection alone
    carries gets a contiguous part of the messages that arrived for it, of which, while
    it is attached, only those in a hand or in the socket are missing at the end. *)
Theorem client_delivers (convertPayload : list value -> (Z * Z * string) + error)
    (range : streamDescription -> list (Z * option StreamDescriptionItem))
    (range_API : gmap Z dispatchItem -> list (Z * dispatchItem))
    (api : gmap Z dispatchItem) (nm : string) (es : list client_event) (o : outcome client)
    (Hlen : (2 + Z.of_nat (length es) < two64)%Z)
    (Hrun : run (client_step convertPayload range range_API) (Ok (new_client api nm)) es = Some o) :
  let svc_step := Service.step convertPayload range range_API in
  match o with
  | Panic => exists ves e, run svc_step (Ok (new_Service api nm)) (ves ++ [e]) = Some Panic
  | Ok c =>
    (exists ves, run svc_step (Ok (new_Service api nm)) ves = Some (Ok (service c))) /\
    length (conns c) = S (length (history c)) /\
    (forall k s, conns c !! k = Some s ->
       (exists unsent, sent_on k c = Socket.wire s ++ unsent /\
          (Socket.writer s = Socket.WriterRunning -> unsent = Socket.up_pending s)) /\
       exists got, arrives k es = got ++ Socket.down_pending s ++ Socket.in_hand s /\
         got ≡ₚ pushed_on k (pushed c) ++ held_on k (loops c) /\
         (times k (ranged c) <= 1 -> got = pushed_on k (pushed c) ++ held_on k (loops c))) /\
    forall p ch k s, channels (service c) !! p = Some ch -> conns c !! k = Some s ->
      times k (ranged c) <= 1 ->
      (forall k' m, k' <> k -> m ∈ arrives k' es -> msg_session m <> ch_id ch) ->
      exists pre mid post, session_of (ch_id ch) (arrives k es) = pre ++ mid ++ post /\
        ch_net ch = res_of <$> mid /\
        (links (service c) !! ch_id ch = Some p ->
           post = session_of (ch_id ch) (held_on k (loops c) ++ Socket.down_pending s ++ Socket.in_hand s))
  end.
Proof.
  intros svc_step. pose proof (client_run _ _ _ _ _ _ _ Hlen Hrun) as Hinv. destruct o as [c|]; [|exact Hinv].
  split; [destruct (ci_service _ _ _ _ _ _ _ Hinv) as (ves & Hves & _); by exists ves|].
  split; [apply (ci_length _ _ _ _ _ _ _ Hinv)|]. split.
  - intros k s Hk. by eapply conn_ok_order, (ci_conns _ _ _ _ _ _ _ Hinv).
  - intros p ch k s Hp Hk Honce. eapply channel_part; [done| |done..]. by eapply svc_fine.
Qed.

(** ** Witness: a call, its message written, and its result *)
Definition sample_arrival (k : nat) (m : Message) : list client_event :=
  [Network k (Socket.ReadOk m); Network k Socket.ReadPush].
Definition sample_call : client_event := User (ECall [] (inl ()) "get" [VString "key"] None true).
Definition sample_client : list client_event :=
  [Starts 0; Ranges 0; sample_call; Network 0 Socket.WriteOk] ++
  sample_arrival 0 (mkMessage (mkInfo 2 0) [VNil] []) ++
  [Receives 0; Pushes 0].

Lemma client_delivers_witness :
  match run (client_step sample_codec sample_range sample_range_API) (Ok (new_client sample_API "s")) sample_client with
  | Some (Ok c) => exists s ch, conns c !! 0 = Some s /\ channels (service c) !! 0 = Some ch /\
      (exists unsent, sent_on 0 c = Socket.wire s ++ unsent) /\
      exists pre mid post, [mkMessage (mkInfo 2 0) [VNil] []] = pre ++ mid ++ post /\ ch_net ch = res_of <$> mid
  | _ => False
  end.
Proof.
  destruct (run _ _ _) as [[c|]|] eqn:Hrun; [|vm_compute in Hrun; discriminate..].
  pose proof (client_delivers sample_codec sample_range sample_range_API sample_API "s" sample_client (Ok c)
    ltac:(vm_compute; reflexivity) Hrun) as (_ & _ & Hconn & Hch).
  assert (Hc : exists s ch, conns c !! 0 = Some s /\ channels (service c) !! 0 = Some ch /\ ch_id ch = 2%Z /\
    times 0 (ranged c) <= 1).
  { vm_compute in Hrun. injection Hrun as <-. do 2 eexists. split; [reflexivity|]. split; [reflexivity|].
    split; [reflexivity|]. vm_compute. lia. }
  destruct Hc as (s & ch & Hs & Hp & Hid & Ht). exists s, ch. split; [exact Hs|]. split; [exact Hp|].
  split; [destruct (Hconn 0 s Hs) as ((unsent & Hu & _) & _); by exists unsent|].
  destruct (Hch 0 ch 0 s Hp Hs Ht) as (pre & mid & post & H1 & H2 & _).
  { intros k' m Hne Hin. destruct k' as [|k']; [done|].
    assert (Hnil : arrives (S k') sample_client = []) by reflexivity. rewrite Hnil in Hin. by apply elem_of_nil in Hin. }
  exists pre, mid, post. split; [|exact H2]. rewrite <- H1, Hid. reflexivity.
Defined.

(** Two reconnections before the loop of the first one has read [service.epoch] and
    [service.socketIO]: both loops read the second connection, and what arrives there
    can be pushed in the other order - here the channel of a call gets the second of
    its messages and loses the first. *)
Theorem late_loops_reorder :
  let a := mkMessage (mkInfo 2 0) [VString "first"] [] in
  let b := mkMessage (mkInfo 2 0) [VString "second"] [] in
  let es := [Starts 0; Ranges 0; User (EReconnect true [] (inl ())); User (EReconnect true [] (inl ()));
             Starts 1; Starts 2; Ranges 1; Ranges 2; sample_call] ++ sample_arrival 2 a ++ sample_arrival 2 b ++
            [Receives 1; Receives 2; Pushes 2; Pushes 1] in
  match run (client_step sample_codec sample_range sample_range_API) (Ok (new_client sample_API "s")) es with
  | Some (Ok c) => arrives 2 es = [a; b] /\ received (service c) = [b; a] /\ ranged c = [0; 2; 2] /\
      ch_net <$> channels (service c) !! 0 = Some [res_of b]
  | _ => False
  end.
Proof. vm_compute. done. Qed.
