(* ===== verification/ClientProgress.v ===== *)
(** * Progress of a client over its connection

    While its current connection is open, a client of Client.v can always go on
    without the network until everything that arrived is handed to its sessions and
    everything that was sent is on the connection: a loop that reads the connection
    is always there. *)
From S2P Require Import Prelude GoTypes Buffers Connection Dispatch Sessions Channel Service Client.
From S2P Require Socket.
From Stdlib Require Import ZArith Lia.

Open Scope stdpp_scope.

(** ** Specification *)

(** Events of the client's own goroutines. *)
Definition quiet (e : client_event) : bool :=
  match e with
  | Network _ (Socket.WriteOk | Socket.ReadPush) | Starts _ | Ranges _ | Receives _ | Pushes _ => true
  | _ => false
  end.

(** A message that [push] can take: the tree of its channel has its type. *)
Definition fits (s : Service) (m : Message) : Prop :=
  forall p ch, links s !! msg_session m = Some p -> channels s !! p = Some ch ->
    exists d, push_detaches (res_of m) (ch_rx ch) = Ok d.

(** What the loops hold, of all connections. *)
Definition held_all (ls : list service_loop) : list Message :=
  concat (map (fun l => match l with LoopHolding _ _ m => [m] | _ => [] end) ls).

(** ** Lemmas: pushes *)

Lemma push_tree res r : rxTree (push_enqueue res r) = rxTree r.
Proof. unfold push_enqueue, move_first. cbn. by destruct (pushBuffer r), (queue r ++ [res]). Qed.

Lemma fits_push m s :
  svc_wf s -> fits s m -> exists s', loop_recv m s = Ok s'.
Proof.
  intros Hwf Hf. unfold loop_recv, push_session, V12.Get. cbn.
  destruct (V12.links (sessions s) !! msg_session m) as [p|] eqn:Hl; [|by eexists].
  destruct (wf_links _ Hwf _ _ Hl) as (ch & Hp & _). rewrite Hp.
  destruct (Hf p ch Hl Hp) as [d Hd]. unfold push_detaches in *. rewrite push_tree, Hd. cbn. by eexists.
Qed.

Lemma fits_keep m s s' m' : svc_wf s -> loop_recv m s = Ok s' -> fits s m' -> fits s' m'.
Proof.
  intros Hwf Hs Hf p ch Hl Hp. unfold loop_recv in Hs.
  set (s0 := set_received (received s ++ [m]) s) in *.
  assert (Hwf0 : svc_wf s0) by by eapply svc_wf_frame.
  destruct (push_session_effect _ _ _ _ _ Hwf0 Hs) as (_ & Hsub & _). specialize (Hsub _ _ Hl).
  destruct (links s0 !! msg_session m) as [q|] eqn:Hq.
  - destruct (wf_links _ Hwf0 _ _ Hq) as (cq & Hcq & _).
    destruct (push_session_attached _ _ _ _ _ _ _ Hwf0 Hq Hcq Hs) as (d & _ & _ & Hch & _).
    rewrite Hch in Hp. apply list_lookup_insert_Some in Hp as [(<- & <- & _)|[_ Hp]]; [|by apply (Hf p ch)].
    destruct (Hf q cq Hsub Hcq) as [d' Hd']. exists d'. unfold push_detaches in *. cbn. by rewrite push_tree.
  - rewrite push_session_none in Hs by done. injection Hs as <-. by apply (Hf p ch).
Qed.

(** ** Lemmas: the loop of the current connection *)

Lemma returned_step (s : sock) e s' :
  Socket.sock_step s e = Some (Ok s') -> Socket.buffer_returned (Socket.downstream s) = true ->
  Socket.buffer_returned (Socket.downstream s') = true.
Proof.
  intros Hs Hr. destruct (is_internal e) eqn:Hi.
  - destruct (internal_step _ _ _ Hi Hs) as (s1 & [= <-] & _ & _ & _ & _ & Hk). by apply Hk.
  - assert (Hrun : run Socket.step (Ok s) [e] = Some (Ok s')) by (cbn [run Socket.step]; by rewrite Hs).
    destruct e; try done.
    + destruct (sends_run s [m] _ Hrun) as (s1 & [= <-] & _ & _ & ->). done.
    + cbn in Hs. unfold Socket.ok_if in Hs. case_match; [|done]. by injection Hs as <-.
    + destruct (receive_run _ _ Hrun) as (s1 & [= <-] & _ & _ & Hk). by apply Hk.
    + injection Hs as Hs. by destruct (Socket.Close_inv _ _ Hs) as (_ & _ & -> & _).
Qed.

Lemma returned_run es (s : sock) s' :
  run Socket.step (Ok s) es = Some (Ok s') -> Socket.buffer_returned (Socket.downstream s) = true ->
  Socket.buffer_returned (Socket.downstream s') = true.
Proof.
  revert s. induction es as [|e es IH]; intros s Hrun Hr; [by injection Hrun as <-|].
  cbn [run] in Hrun. destruct (Socket.step (Ok s) e) as [[s1|]|] eqn:He; [|by destruct es|done].
  eapply IH; [exact Hrun|]. by eapply returned_step.
Qed.

(** The last loop reads the current connection, or will, or has read all of it. *)
Record reader_ok (c : client) : Prop := {
  ro_loops : length (loops c) = S (current c);
  ro_conns : length (conns c) = S (current c);
  ro_reader : match loops c !! current c with
    | Some (LoopReading _ k | LoopHolding _ k _) => k = current c
    | Some LoopDone => forall s, conns c !! current c = Some s ->
        Socket.buffer_returned (Socket.downstream s) = true
    | _ => True
    end
}.

Lemma reader_conn c k s s' sv :
  reader_ok c -> conns c !! k = Some s ->
  (Socket.buffer_returned (Socket.downstream s) = true ->
     Socket.buffer_returned (Socket.downstream s') = true) ->
  reader_ok (mkClient sv (<[k:=s']> (conns c)) (loops c) (history c) (ranged c) (pushed c)).
Proof.
  intros [Hl Hc Hr] Hk Hret. split; unfold current in *; cbn; rewrite ?length_insert; try done.
  destruct (loops c !! length (history c)) as [[| | | |]|]; try done.
  intros t Ht. apply list_lookup_insert_Some in Ht as [(-> & <- & _)|[_ Ht]]; [|by apply Hr].
  apply Hret. by apply Hr.
Qed.

Lemma reader_loop c j l l' sv rg pu :
  reader_ok c -> loops c !! j = Some l ->
  match l' with
  | LoopReading _ k | LoopHolding _ k _ =>
    k = current c \/ match l with LoopReading _ k' | LoopHolding _ k' _ => k' = k | _ => False end
  | LoopDone => match l with
    | LoopReading _ k => forall s, conns c !! k = Some s -> Socket.buffer_returned (Socket.downstream s) = true
    | _ => False
    end
  | _ => True
  end ->
  reader_ok (mkClient sv (conns c) (<[j:=l']> (loops c)) (history c) rg pu).
Proof.
  intros [Hl Hc Hr] Hj Hl'. split; unfold current in *; cbn; rewrite ?length_insert; try done.
  destruct (decide (j = length (history c))) as [->|Hne].
  - rewrite list_lookup_insert_eq by (by eapply lookup_lt_Some). rewrite Hj in Hr.
    destruct l', l; try done; naive_solver.
  - by rewrite list_lookup_insert_ne.
Qed.

Section Progress.
Context (convertPayload : list value -> (Z * Z * string) + error).
Context (range : streamDescription -> list (Z * option StreamDescriptionItem)).
Context (range_API : gmap Z dispatchItem -> list (Z * dispatchItem)).
Context (api : gmap Z dispatchItem) (nm : string).
#[local] Abbreviation client_ok := (client_ok convertPayload range range_API).
#[local] Abbreviation client_step := (client_step convertPayload range range_API).
#[local] Abbreviation client_inv := (client_inv convertPayload range range_API api nm).

Lemma reader_step c e c' : reader_ok c -> client_ok c e = Some (Ok c') -> reader_ok c'.
Proof.
  intros Hr Hs. destruct e as [k e|j|j|j|j|j keys|e]; cbn [Client.client_ok] in Hs.
  - destruct (is_internal e) eqn:Hi; [|done]. unfold network_step in Hs.
    destruct (conns c !! k) as [s|] eqn:Hk; [|done].
    destruct (Socket.sock_step s e) as [[s'|]|] eqn:He; try done. injection Hs as <-.
    case_decide; apply (reader_conn c k s); try done; by apply (returned_step _ e).
  - destruct (loops c !! j) as [[| | | |]|] eqn:Hj; try done. injection Hs as <-. by eapply reader_loop.
  - destruct (loops c !! j) as [[| | | |]|] eqn:Hj; try done. injection Hs as <-.
    eapply reader_loop; [done|done|]. by left.
  - destruct (loops c !! j) as [[| |ep k| |]|] eqn:Hj; try done. cbn [client_loop_step] in Hs.
    destruct (conns c !! k) as [s|] eqn:Hk; [|done]. destruct (Socket.first_pending _) as [m|]; [|done].
    destruct (Socket.sock_step _ _) as [[s'|]|] eqn:He; try done. injection Hs as <-.
    pose proof (reader_conn c k s s' (service c) Hr Hk (returned_step _ _ _ He)) as Hr1.
    refine (reader_loop _ j (LoopReading ep k) _ _ _ _ Hr1 Hj _). by right.
  - destruct (loops c !! j) as [[| | |ep k m|]|] eqn:Hj; try done. cbn [client_loop_step] in Hs.
    destruct (loop_recv m (service c)) as [s|]; [|done]. injection Hs as <-.
    eapply reader_loop; [done|exact Hj|]. by right.
  - destruct (loops c !! j) as [[| |ep k| |]|] eqn:Hj; try done. cbn [client_loop_step] in Hs.
    destruct (conns c !! k) as [s|] eqn:Hk; [|done]. destruct (Socket.buffer_returned _) eqn:Hret; [|done].
    destruct (Service.step_ok _ _ _ _ _) as [[s'|]|]; try done. injection Hs as <-.
    refine (reader_loop _ j (LoopReading ep k) _ _ _ _ Hr Hj _). intros t Ht. by simplify_eq.
  - unfold user_step in Hs. destruct (is_user e); [|done].
    destruct (conns c !! current c) as [s|] eqn:Hk; [|done].
    destruct (Service.step_ok _ _ _ _ e) as [[s'|]|]; try done. destruct (negb _); [done|].
    case_decide.
    + destruct (run _ (Ok s) _) as [[s1|]|] eqn:Hrun; try done. injection Hs as <-.
      apply (reader_conn c (current c) s); [done|done|]. by apply (returned_run _ _ _ Hrun).
    + destruct (Socket.Close s); [|done]. destruct (run _ _ _) as [[s1|]|]; try done. injection Hs as <-.
      destruct Hr as [Hl Hc _]. split; unfold current in *; cbn; rewrite !length_app, ?length_insert; cbn; [lia|lia|].
      rewrite lookup_app_r by lia. by replace (_ - _) with 0 by lia.
Qed.

Lemma reader_run es c : run client_step (Ok (new_client api nm)) es = Some (Ok c) -> reader_ok c.
Proof.
  revert c. induction es as [|e es IH] using rev_ind; intros c Hrun; [by injection Hrun as <-|].
  apply run_snoc in Hrun as ([c1|] & Hrun & Hs); [|done]. eapply reader_step, Hs. by apply IH.
Qed.
(** ** Lemmas: quiet steps *)

(** A client whose current connection is open. *)
Record going (es : list client_event) (c : client) : Prop := {
  g_inv : client_inv es c;
  g_service : svc_ok (service c);
  g_reader : reader_ok c;
  g_open : io_closed (socketIO (service c)) = false
}.

(** What quiet steps keep. *)
Record keeps (c c' : client) : Prop := {
  k_history : history c' = history c;
  k_io : socketIO (service c') = socketIO (service c);
  k_fits : forall m, fits (service c) m -> fits (service c') m
}.

Lemma keeps_refl c : keeps c c.
Proof. by split. Qed.

Lemma keeps_trans c1 c2 c3 : keeps c1 c2 -> keeps c2 c3 -> keeps c1 c3.
Proof. intros [] []. split; [congruence|congruence|auto]. Qed.

Lemma going_conn es c : going es c -> exists s, conns c !! current c = Some s /\ conn_open s.
Proof.
  intros [Hinv _ [_ Hlen _] Ho].
  destruct (lookup_lt_is_Some_2 (conns c) (current c)) as [s Hs]; [rewrite Hlen; unfold current; lia|].
  exists s. split; [done|]. destruct (ci_conns _ _ _ _ _ _ _ Hinv _ _ Hs) as (ses & Hrun & _).
  apply (conn_open_run ses); [done|]. by rewrite (ci_closed _ _ _ _ _ _ _ Hinv s Hs).
Qed.

(** The service changes by pushes only. *)
Lemma quiet_service es c e c' :
  going es c -> quiet e = true -> client_ok c e = Some (Ok c') ->
  history c' = history c /\
  (service c' = service c \/ exists m, loop_recv m (service c) = Ok (service c')).
Proof.
  intros [Hinv _ _ _] Hq Hs. destruct e as [k e|j|j|j|j|j keys|e]; try done; cbn [Client.client_ok] in Hs.
  - assert (Hc : forall s s', Socket.sock_step s e = Some (Ok s') -> Socket.closed s' = Socket.closed s).
    { intros s s'. destruct e; try done; cbn; unfold Socket.ok_if; repeat case_match; try done;
        intros (? & Hm & [= ->])%fmap_Some; 
        repeat (apply fmap_Some in Hm as (? & Hm & ->)); done. }
    destruct (is_internal e); [|done]. unfold network_step in Hs.
    destruct (conns c !! k) as [s|] eqn:Hk; [|done].
    destruct (Socket.sock_step s e) as [[s'|]|] eqn:He; try done. injection Hs as <-. split; [by case_decide|]. left.
    change (current (set_conn k s' c)) with (current c). case_decide; [subst k|done].
    apply observe_closed_same. by rewrite (Hc _ _ He), (ci_closed _ _ _ _ _ _ _ Hinv s Hk).
  - destruct (loops c !! j) as [[| | | |]|]; try done. injection Hs as <-. auto.
  - destruct (loops c !! j) as [[| | | |]|]; try done. injection Hs as <-. auto.
  - destruct (loops c !! j) as [[| |ep k| |]|]; try done. cbn [client_loop_step] in Hs. repeat case_match; try done.
    injection Hs as <-. auto.
  - destruct (loops c !! j) as [[| | |ep k m|]|]; try done. cbn [client_loop_step] in Hs.
    destruct (loop_recv m (service c)) as [s|] eqn:Hr; [|done]. injection Hs as <-. eauto.
Qed.

Lemma quiet_step es c e c' :
  going es c -> quiet e = true -> client_ok c e = Some (Ok c') -> going (es ++ [e]) c' /\ keeps c c'.
Proof.
  intros Hg Hq Hs. destruct (quiet_service _ _ _ _ Hg Hq Hs) as [Hh Hsv]. destruct Hg as [Hinv Hok Hr Ho].
  pose proof (client_inv_step _ _ _ _ _ _ _ _ _ Hinv Hok Hs) as Hinv'. cbn in Hinv'.
  pose proof (reader_step _ _ _ Hr Hs) as Hr'. destruct Hsv as [Hsv|[m Hm]].
  - split; [split; by rewrite ?Hsv|split; by rewrite ?Hsv].
  - destruct (loop_recv_io _ _ _ Hok Hm) as (Hio & _ & _).
    split; [split; try done; [by eapply loop_recv_ok|by rewrite Hio]|].
    split; [done|done|]. intros m'. apply (fits_keep m); [apply Hok|done].
Qed.

(** A run of quiet steps to a state with [P]. *)
Definition comes (es : list client_event) (c : client) (P : client -> Prop) : Prop :=
  exists es' c', forallb quiet es' = true /\ run client_step (Ok c) es' = Some (Ok c') /\
    going (es ++ es') c' /\ keeps c c' /\ P c'.

Lemma comes_here es c (P : client -> Prop) : going es c -> P c -> comes es c P.
Proof. intros Hg HP. exists [], c. rewrite app_nil_r. by split_and!. Qed.

Lemma comes_first es c e c' P :
  going es c -> quiet e = true -> client_ok c e = Some (Ok c') ->
  (going (es ++ [e]) c' -> keeps c c' -> comes (es ++ [e]) c' P) -> comes es c P.
Proof.
  intros Hg Hq Hs Hk. destruct (quiet_step _ _ _ _ Hg Hq Hs) as [Hg' Hk'].
  destruct (Hk Hg' Hk') as (es' & c2 & Hq' & Hrun & Hg2 & Hk2 & HP). exists (e :: es'), c2.
  split_and!; [by cbn; rewrite Hq, Hq'|cbn [run Client.client_step]; by rewrite Hs| |by eapply keeps_trans|done].
  by rewrite <- (assoc_L (++)) in Hg2.
Qed.

Lemma comes_then es c P Q :
  comes es c P ->
  (forall es' c', going es' c' -> keeps c c' -> P c' -> comes es' c' Q) -> comes es c Q.
Proof.
  intros (es1 & c1 & Hq1 & Hr1 & Hg1 & Hk1 & HP) HQ.
  destruct (HQ _ _ Hg1 Hk1 HP) as (es2 & c2 & Hq2 & Hr2 & Hg2 & Hk2 & H2). exists (es1 ++ es2), c2.
  rewrite forallb_app, Hq1, Hq2, run_app, Hr1, (assoc_L (++)). split_and!; try done. by eapply keeps_trans.
Qed.
(** ** Lemmas: the loops let go of what they hold *)

Lemma held_all_set ls j ep k m :
  ls !! j = Some (LoopHolding ep k m) ->
  held_all ls = held_all (take j ls) ++ m :: held_all (drop (S j) ls) /\
  held_all (<[j:=LoopReading ep k]> ls) = held_all (take j ls) ++ held_all (drop (S j) ls).
Proof.
  intros Hj. unfold held_all. rewrite (loops_set _ _ _ _ Hj). rewrite (loops_split _ _ _ Hj) at 1.
  by rewrite !map_app, !concat_app.
Qed.

Lemma held_some ls : held_all ls <> [] -> exists j ep k m, ls !! j = Some (LoopHolding ep k m).
Proof.
  induction ls as [|l ls IH]; [done|]. unfold held_all in *. cbn. destruct l as [| | |ep k m|]; cbn; intros H;
    try (destruct (IH H) as (j & ep' & k' & m' & Hj); by exists (S j), ep', k', m').
  by exists 0, ep, k, m.
Qed.

Lemma held_none_on k ls : held_all ls = [] -> held_on k ls = [].
Proof.
  induction ls as [|l ls IH]; [done|]. unfold held_all, held_on in *. cbn.
  intros [H1 H2]%app_eq_nil. rewrite (IH H2), app_nil_r. by destruct l.
Qed.

(** One push. *)
Lemma push_one es c j ep k m (P : client -> Prop) :
  going es c -> loops c !! j = Some (LoopHolding ep k m) -> fits (service c) m ->
  (forall c', going (es ++ [Pushes j]) c' -> keeps c c' -> conns c' = conns c ->
     loops c' = <[j:=LoopReading ep k]> (loops c) -> comes (es ++ [Pushes j]) c' P) ->
  comes es c P.
Proof.
  intros Hg Hj Hf Hk. destruct (fits_push m (service c)) as [s Hs]; [apply (g_service _ _ Hg)|done|].
  eapply (comes_first _ _ (Pushes j)); [done|done|cbn [Client.client_ok]; rewrite Hj; cbn [client_loop_step]; by rewrite Hs|].
  intros Hg' Hk'. by apply Hk.
Qed.

Lemma push_held es c :
  going es c -> Forall (fits (service c)) (held_all (loops c)) ->
  comes es c (fun c' => held_all (loops c') = [] /\ conns c' = conns c).
Proof.
  remember (length (held_all (loops c))) as n eqn:Hn. revert es c Hn.
  induction n as [|n IH]; intros es c Hn Hg Hf; [apply comes_here; [done|by destruct (held_all (loops c))]|].
  destruct (held_some (loops c)) as (j & ep & k & m & Hj); [by destruct (held_all (loops c))|].
  destruct (held_all_set _ _ _ _ _ Hj) as [H1 H2]. rewrite H1 in Hf, Hn.
  apply Forall_app in Hf as [Hf1 [Hf2 Hf3]%Forall_cons]. rewrite length_app in Hn. cbn in Hn.
  eapply push_one; [done|exact Hj|done|]. intros c' Hg' Hk Hc Hl. rewrite <- Hc. apply IH; [|done|].
  - rewrite Hl, H2, length_app. lia.
  - rewrite Hl, H2. eapply Forall_impl; [apply Forall_app; by split|]. intros m'. apply (k_fits _ _ Hk).
Qed.

(** *** The loop of the current connection reads it *)

Definition at_work (c : client) : Prop :=
  held_all (loops c) = [] /\ exists ep, loops c !! current c = Some (LoopReading ep (current c)).

Lemma held_all_idle ls j l l' :
  ls !! j = Some l -> held_all ls = [] -> match l' with LoopHolding _ _ _ => False | _ => True end ->
  held_all (<[j:=l']> ls) = [].
Proof.
  intros Hj Hh Hl. unfold held_all in *. rewrite (loops_set _ _ _ _ Hj). rewrite (loops_split _ _ _ Hj) in Hh.
  rewrite map_app, concat_app in *. cbn in *. apply app_eq_nil in Hh as [-> [_ ->]%app_eq_nil]. by destruct l'.
Qed.

Lemma start_reading es c :
  going es c -> held_all (loops c) = [] -> comes es c (fun c' => at_work c' /\ conns c' = conns c).
Proof.
  intros Hg Hh. destruct (going_conn _ _ Hg) as (s & Hs & Ho). pose proof (g_reader _ _ Hg) as [Hl _ Hr].
  destruct (lookup_lt_is_Some_2 (loops c) (current c)) as [l Hj]; [rewrite Hl; unfold current; lia|]. rewrite Hj in Hr.
  assert (Hranges : forall es c ep, going es c -> held_all (loops c) = [] ->
    loops c !! current c = Some (LoopEpoch ep) -> comes es c (fun c' => at_work c' /\ conns c' = conns c)).
  { clear. intros es c ep Hg Hh Hj.
    eapply (comes_first _ _ (Ranges (current c))); [done|done|cbn [Client.client_ok]; by rewrite Hj|].
    intros Hg' Hk'. apply comes_here; [done|]. split; [|done]. split; [by eapply held_all_idle|].
    exists ep. unfold current in *. cbn. apply list_lookup_insert_eq. by eapply lookup_lt_Some. }
  destruct l as [|ep|ep k|ep k m|].
  - eapply (comes_first _ _ (Starts (current c))); [done|done|cbn [Client.client_ok]; by rewrite Hj|].
    intros Hg' Hk'. eapply (Hranges _ (set_loop _ _ c)); [done|by eapply held_all_idle|].
    unfold current in *. cbn. apply list_lookup_insert_eq. by eapply lookup_lt_Some.
  - by eapply Hranges.
  - subst k. apply comes_here; [done|]. split; [|done]. split; [done|by exists ep].
  - unfold held_all in Hh. rewrite (loops_split _ _ _ Hj), map_app, concat_app in Hh.
    by apply app_eq_nil in Hh as [_ [=]].
  - specialize (Hr s Hs). pose proof (open_not_returned _ (co_down _ Ho)) as Hn. cbn in Hr, Hn. congruence.
Qed.
(** *** The connection is emptied *)

(** The state of the current connection. *)
Definition conn_at (c : client) (s : sock) : Prop := conns c !! current c = Some s.

Lemma conn_at_set c k s s' sv ls h rg pu :
  conn_at c s -> k = current c -> length h = current c ->
  conn_at (mkClient sv (<[k:=s']> (conns c)) ls h rg pu) s'.
Proof.
  unfold conn_at, current. cbn. intros Hs -> ->. apply list_lookup_insert_eq. by eapply lookup_lt_Some.
Qed.

(** A step of the socket by itself. *)
Lemma socket_step es c s e s' (P : client -> Prop) :
  going es c -> conn_at c s -> quiet (Network (current c) e) = true -> is_internal e = true ->
  Socket.sock_step s e = Some (Ok s') ->
  (forall c', going (es ++ [Network (current c) e]) c' -> keeps c c' -> conn_at c' s' -> loops c' = loops c ->
     comes (es ++ [Network (current c) e]) c' P) ->
  comes es c P.
Proof.
  intros Hg Hs Hq Hi He Hk.
  eapply comes_first; [done|exact Hq| |].
  - cbn [Client.client_ok]. rewrite Hi. unfold network_step. by rewrite Hs, He.
  - intros Hg' Hk'. apply Hk; [done|done| |].
    + case_decide; by apply (conn_at_set c _ s).
    + by case_decide.
Qed.

Lemma drain_pending ms : forall es c s,
  going es c -> at_work c -> conn_at c s -> Socket.down_pending s = ms -> Forall (fits (service c)) ms ->
  comes es c (fun c' => at_work c' /\ exists s', conn_at c' s' /\ Socket.down_pending s' = [] /\
    Socket.in_hand s' = Socket.in_hand s).
Proof.
  induction ms as [|m ms IH]; intros es c s Hg Hw Hs Hp Hf.
  { apply comes_here; [done|]. split; [done|]. by exists s. }
  apply Forall_cons in Hf as [Hf Hfs]. destruct Hw as (Hh & ep & Hj).
  destruct (going_conn _ _ Hg) as (s0 & Hs0 & Ho). unfold conn_at in Hs. rewrite Hs in Hs0. injection Hs0 as <-.
  destruct (open_receive _ _ _ Ho Hp) as (s1 & He & Ho1 & Hp1 & Hh1 & Hfp).
  set (c1 := set_loop (current c) (LoopHolding ep (current c) m) (set_conn (current c) s1 c)).
  eapply (comes_first _ _ (Receives (current c)) c1); [done|done| |].
  { cbn [Client.client_ok]. rewrite Hj. cbn [client_loop_step]. rewrite Hs, Hfp, He. done. }
  intros Hg1 Hk1. assert (Hcur : current c1 = current c) by done.
  assert (Hj1 : loops c1 !! current c = Some (LoopHolding ep (current c) m)).
  { cbn. apply list_lookup_insert_eq. by eapply lookup_lt_Some. }
  eapply push_one; [done|exact Hj1|by apply (k_fits _ _ Hk1)|].
  intros c2 Hg2 Hk2 Hc2 Hl2. assert (Hcur2 : current c2 = current c) by (unfold current; by rewrite (k_history _ _ Hk2)).
  rewrite <- Hh1. apply IH; [done| | |done|].
  - split.
    + rewrite Hl2. unfold c1. cbn [loops set_loop set_conn]. rewrite list_insert_insert_eq.
      by eapply held_all_idle.
    + exists ep. rewrite Hcur2, Hl2. apply list_lookup_insert_eq. by eapply lookup_lt_Some.
  - unfold conn_at. rewrite Hcur2, Hc2. cbn. apply list_lookup_insert_eq. by eapply lookup_lt_Some.
  - eapply Forall_impl; [exact Hfs|]. intros m' H. by apply (k_fits _ _ Hk2), (k_fits _ _ Hk1).
Qed.
Lemma drain es c s :
  going es c -> at_work c -> conn_at c s -> Forall (fits (service c)) (down_left s) ->
  comes es c (fun c' => at_work c' /\ exists s', conn_at c' s' /\ down_left s' = []).
Proof.
  intros Hg Hw Hs Hf. destruct (going_conn _ _ Hg) as (s0 & Hs0 & Ho).
  assert (s0 = s) by (unfold conn_at in Hs; congruence). subst s0.
  assert (Hend : forall es c s, going es c -> at_work c -> conn_at c s -> Socket.in_hand s = [] ->
    Forall (fits (service c)) (Socket.down_pending s) ->
    comes es c (fun c' => at_work c' /\ exists s', conn_at c' s' /\ down_left s' = [])).
  { clear. intros es c s Hg Hw Hs Hh Hf. eapply comes_then; [by eapply drain_pending|].
    intros es' c' Hg' _ (Hw' & s' & Hs' & Hp' & Hh'). apply comes_here; [done|]. split; [done|].
    exists s'. split; [done|]. unfold down_left. by rewrite Hp', Hh', Hh. }
  destruct (Socket.in_hand s) as [|m l] eqn:Hin.
  - unfold down_left in Hf. rewrite Hin, app_nil_r in Hf. by eapply Hend.
  - assert (Hin' : Socket.in_hand s = [m]).
    { unfold Socket.in_hand in *. destruct (Socket.reader s); try done. by injection Hin as -> <-. }
    destruct (open_push _ _ Ho Hin') as (s1 & He & _ & Hp1 & Hh1).
    eapply (socket_step _ _ _ Socket.ReadPush); [done|exact Hs|done|done|exact He|].
    intros c1 Hg1 Hk1 Hs1 Hl1. eapply Hend; [done| |done|done|].
    + unfold at_work, current in *. rewrite Hl1, (k_history _ _ Hk1). exact Hw.
    + rewrite Hp1. unfold down_left in Hf. rewrite Hin' in Hf.
      eapply Forall_impl; [exact Hf|]. intros m'. apply (k_fits _ _ Hk1).
Qed.

Lemma flush_client ms : forall es c s,
  going es c -> at_work c -> conn_at c s -> up_left s = ms ->
  comes es c (fun c' => at_work c' /\ exists s', conn_at c' s' /\ up_left s' = [] /\ down_left s' = down_left s).
Proof.
  induction ms as [|m ms IH]; intros es c s Hg Hw Hs Hu.
  { apply comes_here; [done|]. split; [done|]. by exists s. }
  destruct (going_conn _ _ Hg) as (s0 & Hs0 & Ho). assert (s0 = s) by (unfold conn_at in Hs; congruence). subst s0.
  destruct (open_write _ _ _ Ho Hu) as (s1 & He & _ & Hu1 & Hd1).
  eapply (socket_step _ _ _ Socket.WriteOk); [done|exact Hs|done|done|exact He|].
  intros c1 Hg1 Hk1 Hs1 Hl1. rewrite <- Hd1. apply IH; [done| |done|done].
  unfold at_work, current in *. rewrite Hl1, (k_history _ _ Hk1). exact Hw.
Qed.

Lemma arrives_quiet k es es' : forallb quiet es' = true -> arrives k (es ++ es') = arrives k es.
Proof.
  induction es' as [|e es' IH] using rev_ind; intros Hq; [by rewrite app_nil_r|].
  rewrite forallb_app in Hq. apply andb_true_iff in Hq as [Hq He]. cbn in He. rewrite (assoc_L (++)), arrives_snoc, IH by done.
  destruct e as [k' e| | | | | |]; try done; try apply app_nil_r. destruct e; try done; case_decide; apply app_nil_r.
Qed.
End Progress.

(** ** Property *)

(** C9 (liveness): in every state that a run of a client reaches with an open current
    connection, its own goroutines can go on without the network and its users to a
    state in which the connection carries everything the service sent on it, and every
    message that arrived on it is pushed - in the order of arrival when one loop reads
    it, so an attached channel whose session it alone carries has got all that arrived
    since the session is open -, provided that the types of the messages still on their
    way are in the trees of their channels. There always is a loop that reads the
    connection, or is about to. *)
Theorem client_drains (convertPayload : list value -> (Z * Z * string) + error)
    (range : streamDescription -> list (Z * option StreamDescriptionItem))
    (range_API : gmap Z dispatchItem -> list (Z * dispatchItem))
    (api : gmap Z dispatchItem) (nm : string) (es : list client_event) (c : client)
    (Hlen : (2 + Z.of_nat (length es) < two64)%Z)
    (Hrun : run (client_step convertPayload range range_API) (Ok (new_client api nm)) es = Some (Ok c))
    (Hopen : io_closed (socketIO (service c)) = false)
    (Hfits : forall s, conns c !! current c = Some s ->
       Forall (fits (service c)) (held_all (loops c) ++ Socket.down_pending s ++ Socket.in_hand s)) :
  let k := current c in
  exists es' c' s, forallb quiet es' = true /\
    run (client_step convertPayload range range_API) (Ok c) es' = Some (Ok c') /\
    conns c' !! k = Some s /\ Socket.wire s = sent_on k c /\
    pushed_on k (pushed c') ≡ₚ arrives k es /\
    (times k (ranged c') <= 1 -> pushed_on k (pushed c') = arrives k es) /\
    forall p ch, channels (service c') !! p = Some ch -> times k (ranged c') <= 1 ->
      (forall k' m, k' <> k -> m ∈ arrives k' es -> msg_session m <> ch_id ch) ->
      links (service c') !! ch_id ch = Some p ->
      exists pre mid, session_of (ch_id ch) (arrives k es) = pre ++ mid /\ ch_net ch = res_of <$> mid.
Proof.
  intros k. pose proof (client_run _ _ _ _ _ _ _ Hlen Hrun) as Hinv. cbn in Hinv.
  assert (Hg : going convertPayload range range_API api nm es c).
  { split; [done|by eapply svc_fine|by eapply reader_run|done]. }
  destruct (going_conn _ _ _ _ _ _ _ Hg) as (s0 & Hs0 & _). specialize (Hfits s0 Hs0).
  apply Forall_app in Hfits as [Hheld Hdown].
  assert (Hcomes : comes convertPayload range range_API api nm es c (fun c' =>
    at_work c' /\ exists s, conn_at c' s /\ up_left s = [] /\ down_left s = [])).
  { eapply comes_then; [by apply push_held|]. intros es1 c1 Hg1 Hk1 [Hh1 Hc1].
    eapply comes_then; [by apply start_reading|]. intros es2 c2 Hg2 Hk2 [Hw2 Hc2].
    eapply comes_then; [apply (drain _ _ _ _ _ _ _ s0 Hg2 Hw2)|].
    - unfold conn_at, current. rewrite Hc2, Hc1, (k_history _ _ Hk2), (k_history _ _ Hk1). exact Hs0.
    - eapply Forall_impl; [exact Hdown|]. intros m H. by apply (k_fits _ _ Hk2), (k_fits _ _ Hk1).
    - intros es3 c3 Hg3 _ (Hw3 & s3 & Hs3 & Hd3). eapply comes_then; [by eapply flush_client|].
      intros es4 c4 Hg4 _ (Hw4 & s4 & Hs4 & Hu4 & Hd4). apply comes_here; [done|]. split; [done|].
      exists s4. by rewrite Hd4. }
  destruct Hcomes as (es' & c' & Hq & Hrun' & Hg' & Hk' & (Hh' & _) & s & Hs & Hu & Hd).
  assert (Hcur : current c' = k) by (unfold k, current; by rewrite (k_history _ _ Hk')).
  unfold conn_at in Hs. rewrite Hcur in Hs. exists es', c', s. split; [done|]. split; [done|]. split; [done|].
  pose proof (g_inv _ _ _ _ _ _ _ Hg') as Hinv'. pose proof (ci_conns _ _ _ _ _ _ _ Hinv' k s Hs) as Hok.
  destruct (conn_ok_order _ _ _ _ _ _ _ Hok) as ((unsent & Hsent & Hw) & got & Harr & Hgot & Hone).
  rewrite arrives_quiet in Harr by done. unfold down_left in Hd. rewrite Hd, app_nil_r in Harr. subst got.
  rewrite (held_none_on k _ Hh'), app_nil_r in Hgot, Hone. split.
  { destruct (going_conn _ _ _ _ _ _ _ Hg') as (s1 & Hs1 & Ho). rewrite Hcur, Hs in Hs1. injection Hs1 as <-.
    unfold up_left in Hu. rewrite (Hw (co_writer _ Ho)), Hu, app_nil_r in Hsent.
    unfold sent_on in *. by rewrite <- Hsent, (k_history _ _ Hk'), (k_io _ _ Hk'). }
  split; [done|]. split; [intros H; by rewrite Hone|]. intros p ch Hp Honce Hother Hatt.
  destruct (channel_part _ _ _ _ _ _ _ p ch k s Hinv' (g_service _ _ _ _ _ _ _ Hg') Hp Hs Honce)
    as (pre & mid & post & Hsp & Hnet & Hpost).
  { intros k' m. rewrite arrives_quiet by done. apply Hother. }
  rewrite (Hpost Hatt), (held_none_on k _ Hh'), Hd, arrives_quiet, app_nil_r in Hsp by done. by exists pre, mid.
Qed.

(** ** Witness: the result of a call is still in the socket, and its message not written *)
Definition sample_waiting : list client_event :=
  [Starts 0; sample_call; Network 0 (Socket.ReadOk (mkMessage (mkInfo 2 0) [VNil] []))].

Lemma client_drains_witness :
  match run (client_step sample_codec sample_range sample_range_API) (Ok (new_client sample_API "s")) sample_waiting with
  | Some (Ok c) => exists es' c' s, forallb quiet es' = true /\
      run (client_step sample_codec sample_range sample_range_API) (Ok c) es' = Some (Ok c') /\
      conns c' !! 0 = Some s /\ Socket.wire s = [mkMessage (mkInfo 2 0) [VString "key"] []] /\
      pushed_on 0 (pushed c') ≡ₚ [mkMessage (mkInfo 2 0) [VNil] []]
  | _ => False
  end.
Proof.
  destruct (run _ _ _) as [[c|]|] eqn:Hrun; [|vm_compute in Hrun; discriminate..].
  assert (Hc : io_closed (socketIO (service c)) = false /\ current c = 0 /\
    sent_on 0 c = [mkMessage (mkInfo 2 0) [VString "key"] []] /\
    (forall s, conns c !! current c = Some s ->
       Forall (fits (service c)) (held_all (loops c) ++ Socket.down_pending s ++ Socket.in_hand s))).
  { vm_compute in Hrun. injection Hrun as <-. split; [reflexivity|]. split; [reflexivity|]. split; [reflexivity|].
    intros s [= <-]. repeat constructor. intros p ch Hl Hp. destruct p as [|p]; [|by destruct p].
    injection Hp as <-. eexists. vm_compute. reflexivity. }
  destruct Hc as (Ho & Hcur & Hsent & Hf).
  destruct (client_drains sample_codec sample_range sample_range_API sample_API "s" sample_waiting c
    ltac:(vm_compute; reflexivity) Hrun Ho Hf) as (es' & c' & s & Hq & Hrun' & Hs & Hw & Hp & _).
  rewrite Hcur in Hs, Hw, Hp. exists es', c', s. split; [exact Hq|]. split; [exact Hrun'|]. split; [exact Hs|].
  split; [by rewrite Hw|exact Hp].
Defined.
