(* ===== verification/Resolver.v ===== *)
(** * The resolution of a name by a locator and the start of a service: locator.go,
    [serviceResolve] and [NewService] of service.go (cocaine12)

    A locator is a [Service] of Service.v with the methods of apilocator.go; the
    resolution is a call of it, the loop of that service over what the connection
    delivers, and one [Get]. The dialers and the codec are parameters. *)
From S2P Require Import Prelude GoTypes Dispatch Sessions Channel Service.
From Stdlib Require Import ZArith Lia.
From stdpp Require Import gmap.

Open Scope go_scope.

(** ** Definitions *)

Record ServiceInfo : Type := mkServiceInfo {
  Endpoints : list EndpointItem;
  Version : Z;
  info_API : gmap Z dispatchItem
}.

(** What can happen between the call of [resolve] and the end of its [Get]: the loop
    of the locator receives a message or ends with the connection, or the context of
    [Get] is done. *)
Inductive arrival : Type :=
| Arrives (m : Message)
| Ended
| CtxDone (reason : string).

Section Resolver.
(** [Extract] into a [ServiceInfo], and the decoding of an error message. *)
Context (decode_info : list value -> ServiceInfo + error).
Context (convertPayload : list value -> (Z * Z * string) + error).
(** The order in which [range] visits a method table. *)
Context (range_API : gmap Z dispatchItem -> list (Z * dispatchItem)).
(** [err.Error()] *)
Context (text : error -> string).

Definition new_locator : Service := new_Service newLocatorServiceInfo_API "locator".

(** The loop of the locator; it has one session, so the order of [Keys] is no
    matter. *)
Definition loop_arrival (a : arrival) (l : Service) : outcome Service :=
  match a with
  | Arrives m => loop_recv m l
  | Ended => loop_end (epoch l) ((map_to_list (V12.links (sessions l))).*1)
               (set_io (mkSio (sent (socketIO l)) true (close_called (socketIO l))) l)
  | CtxDone _ => Ok l
  end.

(** [channel.Get(ctx)] on the channel [p] while the loop of the service runs; [None]
    when it waits on. *)
Fixpoint channel_Get (p : nat) (arrivals : list arrival) (l : Service)
    : option (outcome (Service * (serviceRes + error))) :=
  match channels l !! p with
  | None => None
  | Some ch =>
    if Closed (ch_rx ch) then Some (Ok (l, inr ErrStreamIsClosed))
    else
      match next_result (ch_rx ch) with
      | Some (res, r) =>
        Some (let* '(r, (res, err)) := get_finish convertPayload res r in
              Ok (set_channels (<[p := mkChannel r (ch_tx ch) (ch_net ch)]> (channels l)) l,
                  match err with Some err => inr err | None => inl res end))
      | None =>
        match arrivals with
        | [] => None
        | CtxDone reason :: _ => Some (Ok (l, inr (CtxErr reason)))
        | a :: arrivals =>
          match loop_arrival a l with
          | Panic => Some Panic
          | Ok l => channel_Get p arrivals l
          end
        end
      end
  end.

(** [locator.Resolve], of a context without a trace. *)
Definition Resolve (name : string) (arrivals : list arrival) (l : Service)
    : option (outcome (Service * (ServiceInfo + error))) :=
  match Call [] (inl tt) (range_API (API l)) "resolve" [VString name] None true l with
  | Panic => Some Panic
  | Ok (l, inr err) => Some (Ok (l, inr err))
  | Ok (l, inl p) =>
    match channel_Get p arrivals l with
    | None => None
    | Some Panic => Some Panic
    | Some (Ok (l, inr err)) => Some (Ok (l, inr err))
    | Some (Ok (l, inl answer)) => Some (Ok (l, Extract decode_info answer))
    end
  end.

(** The dialer of a locator, with what its connection brings; the one of a service. *)
Context (dial_locator : string -> list arrival + error).
Context {sock : Type} (dial : string -> sock + error).

(** [serviceResolve], with the [Close] it defers; [locators] are the defaults. *)
Definition serviceResolve (locators endpoints : list string) (name : string)
    : option (outcome (ServiceInfo + error)) :=
  match NewLocator_sock dial_locator locators endpoints with
  | Panic => Some Panic
  | Ok (inr err) => Some (Ok (inr err))
  | Ok (inl arrivals) =>
    match Resolve name arrivals new_locator with
    | None => None
    | Some Panic => Some Panic
    | Some (Ok (l, info)) => Some (let* _ := io_Close (socketIO l) in Ok info)
    end
  end.

(** [NewService]: the service, its connection and what it was resolved to. *)
Definition NewService (locators endpoints : list string) (name : string)
    : option (outcome (Service * sock * ServiceInfo + error)) :=
  match serviceResolve locators endpoints name with
  | None => None
  | Some Panic => Some Panic
  | Some (Ok (inr err)) =>
    Some (Ok (inr (Errorf "Unable to resolve service %s: %v" [VString name; VString (text err)])))
  | Some (Ok (inl info)) =>
    match serviceCreateIO dial (Endpoints info) with
    | inr err =>
      Some (Ok (inr (Errorf "Unable to connect to service %s: %s" [VString name; VString (text err)])))
    | inl s => Some (Ok (inl (new_Service (info_API info) name, s, info)))
    end
  end.

(** ** Specification: the first arrival that concerns the resolution decides *)

Definition concerns (a : arrival) : bool :=
  match a with Arrives m => (msg_session m =? 2)%Z | _ => true end.

Definition resolved_by (a : arrival) : outcome (ServiceInfo + error) :=
  match a with
  | Arrives m =>
    if (msg_type m =? 0)%Z then Ok (decode_info (Payload m))
    else if (msg_type m =? 1)%Z then
      Ok (inr (match convertPayload (Payload m) with
               | inl (category, code, message) => ErrRequest message category code
               | inr err => err
               end))
    else Panic
  | Ended => Ok (inr (ServiceError ErrDisconnected "Disconnected"))
  | CtxDone reason => Ok (inr (CtxErr reason))
  end.

End Resolver.

(** ** Lemmas *)
Section Lemmas.
Context (decode_info : list value -> ServiceInfo + error).
Context (convertPayload : list value -> (Z * Z * string) + error).
Context (range_API : gmap Z dispatchItem -> list (Z * dispatchItem)).
#[local] Abbreviation channel_Get := (channel_Get convertPayload).
#[local] Abbreviation resolved_by := (resolved_by decode_info convertPayload).

(** The locator with its one call. *)
Definition called (name : string) (rec : list Message) : Service :=
  let item := dispatch_lookup newLocatorServiceInfo_API 0 in
  mkService (mkSio [mkMessage (mkInfo 2 0) [VString name] []] false false) newLocatorServiceInfo_API
    (V12.Attach 0 V12.newSessions).1 [mkChannel (new_rx (Upstream item)) (mkTx (Downstream item) 2 false []) []]
    false "locator" 0 rec.

Lemma resolve_call name : (forall api, range_API api ≡ₚ map_to_list api) ->
  Call [] (inl tt) (range_API newLocatorServiceInfo_API) "resolve" [VString name] None true new_locator =
    Ok (called name [], inl 0).
Proof.
  intros Hrange.
  assert (Hm : MethodByName (range_API newLocatorServiceInfo_API) "resolve" = (0%Z, None)).
  { pose proof (MethodByName_result (range_API newLocatorServiceInfo_API) "resolve") as Hr.
    pose proof (fun i a => elem_of_range _ _ i a (Hrange newLocatorServiceInfo_API)) as Hin.
    destruct (MethodByName _ _) as [n [err|]].
    - destruct Hr as (_ & _ & Hr).
      destruct (Hr 0%Z (mkDispatchItem "resolve" emptyDescription valueOrError)); [|done].
      by apply Hin.
    - destruct Hr as (item & Hi%Hin & Hn). unfold newLocatorServiceInfo_API in Hi.
      rewrite !lookup_insert_Some, lookup_singleton_Some in Hi. naive_solver. }
  unfold Call, call. cbn -[newLocatorServiceInfo_API MethodByName]. rewrite Hm. done.
Qed.

(** A locator whose call has got nothing yet. *)
Record waiting (l : Service) : Prop := {
  waiting_io : close_called (socketIO l) = false;
  waiting_link : V12.links (sessions l) = {[2%Z := 0]};
  waiting_channel : exists t, channels l = [mkChannel (new_rx valueOrError) t []]
}.

Lemma called_waiting name : waiting (called name []).
Proof. split; [done|done|by eexists]. Qed.

Lemma valueOrError_lookup treeMap k : valueOrError = Some treeMap ->
  tree_lookup treeMap k =
    if decide (k = 0%Z) then Some (SDItem "value" emptyDescription)
    else if decide (k = 1%Z) then Some (SDItem "error" emptyDescription) else None.
Proof.
  unfold valueOrError. intros [= <-]. unfold tree_lookup. cbn [sd_tree].
  case_decide as H0; [by subst k|]. rewrite lookup_insert_ne by done.
  case_decide as H1; [by subst k|]. by rewrite lookup_singleton_ne.
Qed.

(** A message of another session leaves only its trace. *)
Lemma recv_other l m :
  waiting l -> msg_session m <> 2%Z -> exists l', loop_recv m l = Ok l' /\ waiting l'.
Proof.
  intros Hl Hm. exists (set_received (received l ++ [m]) l). split; [|by destruct Hl].
  unfold loop_recv, push_session, V12.Get. cbn. rewrite (waiting_link _ Hl).
  by rewrite lookup_singleton_ne.
Qed.

(** What the loop pushes to the call. *)
Lemma push_waiting l res net : waiting l ->
  match push_session 2 res net l with
  | Ok l' => (method res = 0 \/ method res = 1)%Z /\ close_called (socketIO l') = false /\
      exists ch, channels l' !! 0 = Some ch /\ ch_rx ch = mkRx (Some res) valueOrError [] false
  | Panic => (method res <> 0 /\ method res <> 1)%Z
  end.
Proof.
  intros [Hio Hlink [t Hch]]. unfold push_session, V12.Get. rewrite Hlink, Hch.
  rewrite lookup_singleton_eq. cbn -[valueOrError]. unfold push_detaches. cbn -[valueOrError].
  destruct valueOrError as [treeMap|] eqn:Ht; [|done]. rewrite (valueOrError_lookup _ _ Ht).
  case_decide; [|case_decide; [|done]]; cbn; (split; [auto|]); (split; [done|]); eauto.
Qed.

(** The [Get] that takes it. *)
Lemma get_waiting l ch res arrivals :
  channels l !! 0 = Some ch -> ch_rx ch = mkRx (Some res) valueOrError [] false ->
  (method res = 0 \/ method res = 1)%Z ->
  exists l', socketIO l' = socketIO l /\
    channel_Get 0 arrivals l = Some (Ok (l',
      if decide (method res = 1%Z) then
        match Extract convertPayload res with
        | inr e => inr e
        | inl (category, code, message) => inl (setError (ErrRequest message category code) res)
        end
      else inl res)).
Proof.
  intros Hch Hrx Hm. unfold Resolver.channel_Get.
  destruct valueOrError as [treeMap|] eqn:Ht; [|done].
  assert (Hget : forall r, rxTree r = Some treeMap -> exists r',
    get_finish convertPayload res r = Ok (r',
      attach_error convertPayload (if decide (method res = 1%Z) then "error" else "value") res)).
  { intros r Hr. unfold get_finish. rewrite Hr, (valueOrError_lookup _ _ Ht).
    destruct Hm as [-> | ->]; by eexists. }
  destruct (Hget (mkRx None (Some treeMap) [] false) eq_refl) as [r' Hr'].
  destruct arrivals; rewrite Hch, Hrx; cbn -[get_finish]; rewrite Hr'; unfold attach_error;
    (destruct (decide (method res = 1%Z)); cbn;
      [destruct (Extract convertPayload res) as [[[category code] message]|err]|];
      (eexists; split; [|reflexivity]; done)).
Qed.

Lemma get_resolves arrivals : forall l, waiting l ->
  match channel_Get 0 arrivals l with
  | None => List.find concerns arrivals = None
  | Some Panic => exists a, List.find concerns arrivals = Some a /\ resolved_by a = Panic
  | Some (Ok (l, r)) => close_called (socketIO l) = false /\
      exists a, List.find concerns arrivals = Some a /\
        resolved_by a = Ok (match r with inl answer => Extract decode_info answer | inr err => inr err end)
  end.
Proof.
  assert (Hempty : forall arrivals l, waiting l -> channel_Get 0 arrivals l =
    match arrivals with
    | [] => None
    | CtxDone reason :: _ => Some (Ok (l, inr (CtxErr reason)))
    | a :: arrivals =>
      match loop_arrival a l with Panic => Some Panic | Ok l => channel_Get 0 arrivals l end
    end).
  { intros [|a l'] l [_ _ [t Ht]]; cbn; by rewrite Ht. }
  induction arrivals as [|a arrivals IH]; intros l Hl; rewrite Hempty by done; [done|].
  destruct a as [m| |reason]; cbn [List.find concerns loop_arrival].
  - destruct (msg_session m =? 2)%Z eqn:Hs.
    + apply Z.eqb_eq in Hs. unfold loop_recv. rewrite Hs.
      pose proof (push_waiting (set_received (received l ++ [m]) l) (res_of m) [res_of m]) as Hp.
      destruct (push_session _ _ _ _) as [l'|].
      * destruct Hp as (Hm & Hio & ch & Hch & Hrx); [by destruct Hl|].
        destruct (get_waiting l' ch (res_of m) arrivals Hch Hrx Hm) as (l2 & Hio2 & ->).
        rewrite Hio2. split; [done|]. exists (Arrives m). split; [done|]. cbn in Hm |- *.
        destruct Hm as [Hm|Hm]; rewrite Hm; cbn; [done|].
        by destruct (convertPayload (Payload m)) as [[[? ?] ?]|].
      * destruct Hp as [H0 H1]; [by destruct Hl|]. exists (Arrives m). split; [done|].
        cbn in *. by rewrite (proj2 (Z.eqb_neq _ _) H0), (proj2 (Z.eqb_neq _ _) H1).
    + apply Z.eqb_neq in Hs. destruct (recv_other l m Hl Hs) as (l' & -> & Hl'). by apply IH.
  - unfold loop_end. cbn [epoch set_io]. rewrite decide_True by done.
    rewrite (waiting_link _ Hl), map_to_list_singleton. cbn [fmap list_fmap fst pushDisconnectedError].
    set (l1 := set_io _ l). assert (Hl1 : waiting l1) by (by destruct Hl).
    pose proof (push_waiting l1 disconnected_res [] Hl1) as Hp.
    destruct (push_session _ _ _ _) as [l'|]; cbn; [|by destruct Hp as [_ []]].
    destruct Hp as (Hm & Hio & ch & Hch & Hrx).
    destruct (get_waiting l' ch disconnected_res arrivals Hch Hrx Hm) as (l2 & Hio2 & ->).
    rewrite Hio2. split; [done|]. by exists Ended.
  - split; [apply Hl|]. by exists (CtxDone reason).
Qed.
End Lemmas.

(** ** Properties *)


(** ** Witness

    A message of another session, then the answer; its first endpoint is down. *)
Definition sample_info : ServiceInfo :=
  mkServiceInfo [mkEndpoint "10.0.0.1" 80; mkEndpoint "10.0.0.2" 80] 1 ∅.

