(* ===== verification/Locking.v ===== *)
(** * The locks of cocaine12/service.go and cocaine12/clogger.go

    [Service] has an [RWMutex] for its connection and a mutex that keeps the
    order of new sessions; [cocaineLogger] has a mutex of its own. Each
    operation is written as the sequence of its synchronisations and of the
    accesses they protect, and threads running such operations interleave. *)
From S2P Require Import Prelude GoTypes ProtoV1.
From Stdlib Require Import ZArith Lia Sorting.Sorted.

(** ** Definitions *)

Inductive instr : Type :=
| IRLock           (* service.mutex.RLock() *)
| IRUnlock
| IAnnounce        (* service.mutex.Lock(): from now on new readers wait *)
| IAcquire         (* service.mutex.Lock() returns: the readers are gone *)
| IUnlock
| IMuLock          (* service.muKeepSessionOrder.Lock() *)
| IMuUnlock
| ILogLock         (* c.mu.Lock() of the logger *)
| ILogUnlock
| IAttach          (* service.sessions.Attach(&ch) *)
| INext            (* c.Service.sessions.Next() *)
| ISendNew         (* socketIO.Send of the message opening the session *)
| ISendOld.        (* socketIO.Send of a further message *)

#[export] Instance instr_eq_dec : EqDecision instr.
Proof. solve_decision. Defined.

(** [sendMsg] of a message opening a session, and of a further one. *)
Definition sendMsg_new : list instr := [IRLock; ISendNew; IRUnlock].
Definition sendMsg_old : list instr := [IRLock; ISendOld; IRUnlock].

(** [call]: the deferred unlocks run in the reverse order. *)
Definition call_prog : list instr :=
  [IRLock; IMuLock; IAttach] ++ sendMsg_new ++ [IMuUnlock; IRUnlock].

(** [Call] of a connected service. *)
Definition Call_prog : list instr := [IRLock; IRUnlock] ++ call_prog.

(** [tx.Call] of channel.go *)
Definition tx_prog : list instr := sendMsg_old.

(** [Reconnect], and the end of [loop]. *)
Definition writer_prog : list instr := [IAnnounce; IAcquire; IUnlock].

(** [Close] *)
Definition close_prog : list instr := [IRLock; IRUnlock].

(** [cocaineLogger.log] *)
Definition log_prog : list instr := [ILogLock; INext] ++ sendMsg_new ++ [ILogUnlock].

(** What a call does when it reconnects first. *)
Definition Call_reconnecting_prog : list instr :=
  [IRLock; IRUnlock] ++ writer_prog ++ call_prog.

(** Go's [RWMutex]: a waiting writer excludes new readers. *)
Inductive writer_phase : Type :=
| WNone
| WAnnounced
| WWriting.

Record shared : Type := mkShared {
  readers : nat;
  writer : writer_phase;
  mu : option nat;          (* the thread holding muKeepSessionOrder *)
  log_mu : option nat;
  counter : Z;              (* sessions.counter *)
  wire : list Z             (* the sessions opened on the connection, in order *)
}.

Record thread : Type := mkThread {
  code : list instr;
  pc : nat;
  reg : Z                   (* the session id it was given *)
}.

Record sys : Type := mkSys {
  sh : shared;
  threads : list thread
}.

Definition init (progs : list (list instr)) : sys :=
  mkSys (mkShared 0 WNone None None 1 []) ((fun p => mkThread p 0 0) <$> progs).

(** One instruction of the thread [i]; [None] when it has to wait. *)
Definition exec (i : nat) (ins : instr) (r : Z) (s : shared) : option (shared * Z) :=
  match ins with
  | IRLock =>
    match writer s with
    | WNone => Some (mkShared (S (readers s)) WNone (mu s) (log_mu s) (counter s) (wire s), r)
    | _ => None
    end
  | IRUnlock =>
    Some (mkShared (pred (readers s)) (writer s) (mu s) (log_mu s) (counter s) (wire s), r)
  | IAnnounce =>
    match writer s with
    | WNone => Some (mkShared (readers s) WAnnounced (mu s) (log_mu s) (counter s) (wire s), r)
    | _ => None
    end
  | IAcquire =>
    match writer s, readers s with
    | WAnnounced, O => Some (mkShared 0 WWriting (mu s) (log_mu s) (counter s) (wire s), r)
    | _, _ => None
    end
  | IUnlock => Some (mkShared (readers s) WNone (mu s) (log_mu s) (counter s) (wire s), r)
  | IMuLock =>
    match mu s with
    | None => Some (mkShared (readers s) (writer s) (Some i) (log_mu s) (counter s) (wire s), r)
    | Some _ => None
    end
  | IMuUnlock => Some (mkShared (readers s) (writer s) None (log_mu s) (counter s) (wire s), r)
  | ILogLock =>
    match log_mu s with
    | None => Some (mkShared (readers s) (writer s) (mu s) (Some i) (counter s) (wire s), r)
    | Some _ => None
    end
  | ILogUnlock => Some (mkShared (readers s) (writer s) (mu s) None (counter s) (wire s), r)
  | IAttach | INext =>
    let c := wrap64 (counter s + 1) in
    Some (mkShared (readers s) (writer s) (mu s) (log_mu s) c (wire s), c)
  | ISendNew =>
    Some (mkShared (readers s) (writer s) (mu s) (log_mu s) (counter s) (wire s ++ [r]), r)
  | ISendOld => Some (s, r)
  end.

Definition step (s : sys) (i : nat) : option sys :=
  match threads s !! i with
  | None => None
  | Some t =>
    match code t !! pc t with
    | None => None
    | Some ins =>
      match exec i ins (reg t) (sh s) with
      | None => None
      | Some (sh', r) => Some (mkSys sh' (<[i := mkThread (code t) (S (pc t)) r]> (threads s)))
      end
    end
  end.

Definition finished (t : thread) : bool := bool_decide (length (code t) <= pc t).

(** ** Lemmas: who holds the order mutex *)

(** The operations of a service that is not a logger's. *)
Definition client_progs : list (list instr) :=
  [call_prog; Call_prog; tx_prog; writer_prog; close_prog; Call_reconnecting_prog].

Definition count (ins : instr) (l : list instr) : nat := length (filter (fun x => x = ins) l).

Definition holds_mu (p : list instr) (k : nat) : bool :=
  bool_decide (count IMuUnlock (take k p) < count IMuLock (take k p)).
Definition attached (p : list instr) (k : nat) : bool :=
  bool_decide (count ISendNew (take k p) < count IAttach (take k p)).

(** What the position of a thread says about its next instruction. *)
Definition position_ok (p : list instr) (k : nat) : bool :=
  match p !! k with
  | None => negb (attached p k) && negb (holds_mu p k)
  | Some ins =>
    let h := holds_mu p k in let a := attached p k in
    let h' := holds_mu p (S k) in let a' := attached p (S k) in
    (negb a || h) &&
    match ins with
    | IMuLock => negb h && h' && negb a'
    | IMuUnlock => h && negb a && negb h' && negb a'
    | IAttach => h && negb a && h' && a'
    | ISendNew => h && a && h' && negb a'
    | INext | ILogLock | ILogUnlock => false
    | _ => eqb h h' && eqb a a'
    end
  end.

Lemma client_positions p k : p ∈ client_progs -> k <= length p -> position_ok p k = true.
Proof.
  assert (Hall : forallb (fun p => forallb (position_ok p) (seq 0 (S (length p)))) client_progs = true)
    by (vm_compute; reflexivity).
  rewrite forallb_forall in Hall. intros Hp Hk.
  apply list_elem_of_In in Hp. specialize (Hall p Hp). cbv beta in Hall.
  rewrite forallb_forall in Hall. apply Hall, in_seq. lia.
Qed.

Record order_inv (s : sys) : Prop := {
  oi_progs : Forall (fun t => code t ∈ client_progs /\ pc t <= length (code t)) (threads s);
  oi_mu : forall i t, threads s !! i = Some t -> holds_mu (code t) (pc t) = true ->
    mu (sh s) = Some i;
  oi_counter : (1 <= counter (sh s))%Z;
  oi_sorted : StronglySorted Z.lt (wire (sh s));
  oi_below : Forall (fun x => x <= counter (sh s))%Z (wire (sh s));
  oi_attached : forall i t, threads s !! i = Some t -> attached (code t) (pc t) = true ->
    reg t = counter (sh s) /\ Forall (fun x => x < counter (sh s))%Z (wire (sh s))
}.

Lemma StronglySorted_snoc l x :
  StronglySorted Z.lt l -> Forall (fun y => y < x)%Z l -> StronglySorted Z.lt (l ++ [x]).
Proof.
  intros Hs. induction Hs as [|a l Hs IH Ha]; intros Hf; cbn; [by repeat constructor|].
  apply Forall_cons in Hf as [Hax Hf]. constructor; [by apply IH|].
  apply Forall_app. split; [done|by repeat constructor].
Qed.

Lemma order_init progs :
  Forall (fun p => p ∈ client_progs) progs -> order_inv (init progs).
Proof.
  intros Hp.
  assert (Hget : forall i t, threads (init progs) !! i = Some t ->
    exists p, t = mkThread p 0 0 /\ p ∈ progs).
  { intros i t Hi. cbn in Hi. rewrite list_lookup_fmap in Hi.
    destruct (progs !! i) as [p|] eqn:Hpi; [|done]. injection Hi as <-.
    exists p. split; [done|]. by eapply list_elem_of_lookup_2. }
  split; cbn; try done; try by constructor.
  - apply Forall_forall. intros t (p & -> & Hin)%list_elem_of_fmap. cbn.
    rewrite Forall_forall in Hp. split; [by apply Hp|lia].
  - intros i t Hi. destruct (Hget i t Hi) as (p & -> & _). done.
  - intros i t Hi. destruct (Hget i t Hi) as (p & -> & _). done.
Qed.

Ltac split_position Hpos :=
  repeat match type of Hpos with
  | _ && _ = true => apply andb_true_iff in Hpos as [? Hpos]
  end;
  repeat match goal with
  | H : _ && _ = true |- _ => apply andb_true_iff in H as [? H]
  | H : negb _ = true |- _ => apply negb_true_iff in H
  | H : eqb _ _ = true |- _ => apply eqb_prop in H
  end.

(** A move of the thread [i] to the shared state [sh'], the others unmoved. *)
Lemma order_move s i t sh' r :
  order_inv s -> threads s !! i = Some t -> pc t < length (code t) ->
  (forall j, j <> i -> mu (sh s) = Some j ->
     mu sh' = Some j /\ counter sh' = counter (sh s) /\ wire sh' = wire (sh s)) ->
  (holds_mu (code t) (S (pc t)) = true -> mu sh' = Some i) ->
  (1 <= counter sh')%Z -> StronglySorted Z.lt (wire sh') ->
  Forall (fun x => x <= counter sh')%Z (wire sh') ->
  (attached (code t) (S (pc t)) = true ->
     r = counter sh' /\ Forall (fun x => x < counter sh')%Z (wire sh')) ->
  order_inv (mkSys sh' (<[i := mkThread (code t) (S (pc t)) r]> (threads s))).
Proof.
  intros [Hpr Hmu Hc Hso Hbe Hat] Hi Hpc Hoth Hholds Hc' Hso' Hbe' Hatt'.
  assert (Hget : forall j u, <[i := mkThread (code t) (S (pc t)) r]> (threads s) !! j = Some u ->
    (j = i /\ u = mkThread (code t) (S (pc t)) r) \/ (j <> i /\ threads s !! j = Some u)).
  { intros j u [(<- & <- & _)|[Hne Hj]]%list_lookup_insert_Some; auto. }
  split; cbn; try done.
  - apply Forall_insert; [done|]. cbn. rewrite Forall_lookup in Hpr.
    destruct (Hpr i t Hi) as [? _]. split; [done|lia].
  - intros j u Hj Hh. destruct (Hget j u Hj) as [[-> ->]|[Hne Hj']]; [by apply Hholds|].
    by apply Hoth; [|by eapply Hmu].
  - intros j u Hj Ha. destruct (Hget j u Hj) as [[-> ->]|[Hne Hj']]; [by apply Hatt'|].
    rewrite Forall_lookup in Hpr. destruct (Hpr j u Hj') as [Hju Hjp].
    pose proof (client_positions _ _ Hju Hjp) as Hp. unfold position_ok in Hp. rewrite Ha in Hp.
    destruct (code u !! pc u); [|done]. apply andb_true_iff in Hp as [Hh _].
    destruct (Hoth j Hne) as (_ & -> & ->); [by eapply Hmu|]. by apply (Hat j).
Qed.

Lemma order_step s i s' :
  order_inv s -> (counter (sh s) + 1 < two64)%Z -> step s i = Some s' ->
  order_inv s' /\ (counter (sh s') <= counter (sh s) + 1)%Z.
Proof.
  intros Hinv Hroom Hs. pose proof Hinv as [Hpr Hmu Hc Hso Hbe Hat]. unfold step in Hs.
  destruct (threads s !! i) as [t|] eqn:Hi; [|done].
  destruct (code t !! pc t) as [ins|] eqn:Hins; [|done].
  destruct (exec i ins (reg t) (sh s)) as [[sh' r]|] eqn:He; [|done]. injection Hs as <-.
  rewrite Forall_lookup in Hpr. destruct (Hpr i t Hi) as [Hin Hpc].
  pose proof (client_positions _ _ Hin Hpc) as Hpos.
  unfold position_ok in Hpos. rewrite Hins in Hpos.
  pose proof (Hmu i t Hi) as Hmui. pose proof (Hat i t Hi) as Hati.
  assert (Hlt : pc t < length (code t)) by (by apply lookup_lt_Some in Hins).
  assert (Hw : wrap64 (counter (sh s) + 1) = (counter (sh s) + 1)%Z).
  { apply wrap64_small. unfold is_u64. lia. }
  assert (Hup : Forall (fun x => x < counter (sh s) + 1)%Z (wire (sh s))).
  { eapply Forall_impl; [exact Hbe|]. cbn. lia. }
  destruct ins; cbn in He; split_position Hpos; try done;
    repeat match type of He with context [match ?x with _ => _ end] => destruct x eqn:? end;
    try done; injection He as <- <-; cbn; (split; [|lia]);
    (eapply order_move; [done|exact Hi|done|..]); cbn; rewrite ?Hw; try done; try lia.
  all: try (intros j Hne Hj; rewrite Hmui in Hj by congruence; congruence).
  all: try (intros ?; apply Hmui; congruence); try (intros ?; apply Hati; congruence).
  all: try congruence.
  - eapply Forall_impl; [exact Hup|]. cbn. lia.
  - destruct Hati as [-> Hf]; [done|]. by apply StronglySorted_snoc.
  - destruct Hati as [-> Hf]; [done|]. apply Forall_app. split; [done|]. by repeat constructor.
Qed.

Lemma order_run progs es s :
  Forall (fun p => p ∈ client_progs) progs -> (1 + Z.of_nat (length es) < two64)%Z ->
  run step (init progs) es = Some s ->
  order_inv s /\ (counter (sh s) <= 1 + Z.of_nat (length es))%Z.
Proof.
  intros Hp. revert s. induction es as [|e es IH] using rev_ind; intros s Hlen Hrun.
  { injection Hrun as <-. split; [by apply order_init|]. cbn. lia. }
  rewrite length_app in *. cbn in Hlen. apply run_snoc in Hrun as (s1 & Hrun & Hs).
  destruct (IH s1) as [Hinv1 Hc1]; [lia|done|].
  destruct (order_step s1 e s Hinv1) as [Hinv Hc]; [lia|done|]. split; [done|]. cbn. lia.
Qed.

(** ** Lemmas: progress without writers *)

(** The operations that never take the write lock. *)
Definition reader_progs : list (list instr) := [call_prog; Call_prog; tx_prog; close_prog].

Definition takes_write (ins : instr) : bool :=
  match ins with IAnnounce | IAcquire | IUnlock | ILogLock | ILogUnlock | INext => true | _ => false end.

Lemma reader_instr p k ins : p ∈ reader_progs -> p !! k = Some ins -> takes_write ins = false.
Proof.
  assert (Hall : forallb (fun p => forallb (fun i => negb (takes_write i)) p) reader_progs = true)
    by (vm_compute; reflexivity).
  rewrite forallb_forall in Hall. intros Hp Hk.
  apply list_elem_of_In in Hp. specialize (Hall p Hp). cbv beta in Hall.
  rewrite forallb_forall in Hall. apply negb_true_iff, Hall, list_elem_of_In.
  by eapply list_elem_of_lookup_2.
Qed.

Lemma reader_client p : p ∈ reader_progs -> p ∈ client_progs.
Proof. unfold reader_progs, client_progs. set_solver. Qed.

Record free_inv (s : sys) : Prop := {
  fi_progs : Forall (fun t => code t ∈ reader_progs /\ pc t <= length (code t)) (threads s);
  fi_writer : writer (sh s) = WNone;
  fi_mu : forall i, mu (sh s) = Some i ->
    exists t, threads s !! i = Some t /\ holds_mu (code t) (pc t) = true
}.

Lemma free_step s i s' : free_inv s -> step s i = Some s' -> free_inv s'.
Proof.
  intros [Hpr Hw Hmu] Hs. unfold step in Hs.
  destruct (threads s !! i) as [t|] eqn:Hi; [|done].
  destruct (code t !! pc t) as [ins|] eqn:Hins; [|done].
  destruct (exec i ins (reg t) (sh s)) as [[sh' r]|] eqn:He; [|done]. injection Hs as <-.
  pose proof Hpr as Hpr'. rewrite Forall_lookup in Hpr'. destruct (Hpr' i t Hi) as [Hin Hpc].
  pose proof (reader_instr _ _ _ Hin Hins) as Hread.
  pose proof (client_positions _ _ (reader_client _ Hin) Hpc) as Hpos.
  unfold position_ok in Hpos. rewrite Hins in Hpos.
  assert (Hlt : i < length (threads s)) by by eapply lookup_lt_Some.
  assert (Hkeep : forall j, (exists u, threads s !! j = Some u /\ holds_mu (code u) (pc u) = true) ->
    (j = i -> holds_mu (code t) (pc t) = holds_mu (code t) (S (pc t))) ->
    exists u, <[i := mkThread (code t) (S (pc t)) r]> (threads s) !! j = Some u /\
      holds_mu (code u) (pc u) = true).
  { intros j (u & Hj & Hh) Heq. destruct (decide (j = i)) as [->|Hne].
    - rewrite Hi in Hj. injection Hj as <-. eexists.
      rewrite list_lookup_insert_eq by done. split; [done|]. cbn. by rewrite <- Heq.
    - exists u. by rewrite list_lookup_insert_ne by congruence. }
  assert (Hprogs : Forall (fun t => code t ∈ reader_progs /\ pc t <= length (code t))
    (<[i := mkThread (code t) (S (pc t)) r]> (threads s))).
  { apply Forall_insert; [done|]. cbn. split; [done|]. by apply lookup_lt_Some in Hins. }
  destruct ins; try done; cbn in He; rewrite ?Hw in He; split_position Hpos;
    repeat match type of He with context [match ?x with _ => _ end] => destruct x eqn:? end;
    try done; injection He as <- <-; (split; cbn; try done).
  all: try (intros j Hj; apply Hkeep; [by apply Hmu|by intros ->; congruence]).
  intros j [= <-]. eexists. rewrite list_lookup_insert_eq by done. by split.
Qed.

Lemma free_init progs : Forall (fun p => p ∈ reader_progs) progs -> free_inv (init progs).
Proof.
  intros Hp. split; cbn; try done.
  apply Forall_forall. intros t (p & -> & Hin)%list_elem_of_fmap. cbn.
  rewrite Forall_forall in Hp. split; [by apply Hp|lia].
Qed.

(** A thread whose next instruction is not a taken mutex can run. *)
Lemma reader_enabled s i t :
  free_inv s -> threads s !! i = Some t -> finished t = false ->
  code t !! pc t <> Some IMuLock \/ mu (sh s) = None -> is_Some (step s i).
Proof.
  intros [Hpr Hw _] Hi Hfin Hnext. unfold finished in Hfin. apply bool_decide_eq_false in Hfin.
  rewrite Forall_lookup in Hpr. destruct (Hpr i t Hi) as [Hin Hpc].
  unfold step. rewrite Hi.
  destruct (lookup_lt_is_Some_2 (code t) (pc t)) as [ins Hins]; [lia|]. rewrite Hins in Hnext |- *.
  pose proof (reader_instr _ _ _ Hin Hins) as Hread.
  destruct ins; try done; cbn; rewrite ?Hw; try done.
  destruct Hnext as [Hn| ->]; done.
Qed.

(** ** Properties *)

(** C10 (invariant): whatever calls, further messages, reconnections and closings
    run concurrently on a service, and however they interleave, the sessions
    opened on its connection are strictly increasing, as the peer requires. *)
Theorem new_sessions_ordered (progs : list (list instr)) (es : list nat) (s : sys)
    (Hprogs : Forall (fun p => p ∈ client_progs) progs)
    (Hlen : (1 + Z.of_nat (length es) < two64)%Z)
    (Hrun : run step (init progs) es = Some s) :
  StronglySorted Z.lt (wire (sh s)).
Proof. destruct (order_run _ _ _ Hprogs Hlen Hrun) as [Hinv _]. apply Hinv. Qed.

Lemma new_sessions_ordered_witness :
  match run step (init [call_prog; call_prog]) [0; 1; 0; 0; 0; 0; 0; 0; 0; 1; 1; 1; 1] with
  | Some s => StronglySorted Z.lt (wire (sh s))
  | None => False
  end.
Proof.
  destruct (run step (init [call_prog; call_prog]) [0; 1; 0; 0; 0; 0; 0; 0; 0; 1; 1; 1; 1])
    as [s|] eqn:E; [|vm_compute in E; discriminate].
  refine (new_sessions_ordered [call_prog; call_prog] _ s _ _ E).
  - repeat constructor; apply list_elem_of_here.
  - vm_compute. reflexivity.
Defined.

(** [cocaineLogger.log] takes its session id under the logger's own
    mutex, so it can be overtaken by a call on the same service: the sessions
    then reach the peer out of order, and a peer that follows the worker
    protocol of this library does not take the lower one for a new session. *)
Theorem logger_breaks_session_order :
  exists es s, run step (init [log_prog; Call_prog]) es = Some s /\
    Forall (fun t => finished t = true) (threads s) /\
    wire (sh s) = [3; 2]%Z /\
    omap invoked_session (calls_of 1 ((fun id => newInvokeV1 id "e") <$> wire (sh s))) = [3%Z].
Proof.
  exists ([0; 0] ++ replicate 10 1 ++ [0; 0; 0; 0]). eexists.
  split; [vm_compute; reflexivity|]. split_and!; try (vm_compute; reflexivity).
  repeat constructor.
Qed.

(** [call] holds the read lock while [sendMsg] takes it again;
    a [Reconnect] or a connection loss that asks for the write lock in between
    leaves all of them waiting for each other for ever. *)
Theorem recursive_read_lock_deadlocks :
  exists es s, run step (init [Call_prog; writer_prog]) es = Some s /\
    stuck step s /\ Forall (fun t => finished t = false) (threads s).
Proof.
  exists [0; 0; 0; 0; 0; 1]. eexists. split; [vm_compute; reflexivity|]. split.
  - intros [|[|i]]; [done|done|]. unfold step. cbn. by destruct i.
  - by repeat constructor.
Qed.

(** As long as nothing asks for the write lock there is no
    deadlock: in every reachable state either all the operations have finished
    or one of them can go on. *)
Theorem readers_progress (progs : list (list instr)) (es : list nat) (s : sys)
    (Hprogs : Forall (fun p => p ∈ reader_progs) progs)
    (Hrun : run step (init progs) es = Some s) :
  Forall (fun t => finished t = true) (threads s) \/ exists i, is_Some (step s i).
Proof.
  pose proof (run_invariant step free_inv free_step es _ _ (free_init progs Hprogs) Hrun) as Hinv.
  destruct (decide (Forall (fun t => finished t = true) (threads s))) as [?|Hnot]; [by left|right].
  destruct (mu (sh s)) as [i|] eqn:Hmu.
  - destruct (fi_mu _ Hinv i Hmu) as (t & Hi & Hh).
    pose proof (fi_progs _ Hinv) as Hpr. rewrite Forall_lookup in Hpr.
    destruct (Hpr i t Hi) as [Hin Hpc].
    pose proof (client_positions _ _ (reader_client _ Hin) Hpc) as Hpos.
    unfold position_ok in Hpos. rewrite Hh in Hpos.
    exists i. apply (reader_enabled _ _ t Hinv Hi).
    + unfold finished. apply bool_decide_eq_false. intros Hge.
      rewrite lookup_ge_None_2 in Hpos by done. by rewrite andb_false_r in Hpos.
    + left. intros Hins. rewrite Hins in Hpos. by rewrite andb_false_r in Hpos.
  - apply not_Forall_Exists in Hnot; [|solve_decision].
    apply Exists_exists in Hnot as (t & Ht & Hfin). apply list_elem_of_lookup in Ht as [i Hi].
    exists i. apply (reader_enabled _ _ t Hinv Hi); [by apply not_true_is_false|by right].
Qed.

Lemma readers_progress_witness :
  match run step (init [Call_prog; tx_prog]) [0; 0; 0; 0; 0; 1] with
  | Some s => Forall (fun t => finished t = true) (threads s) \/ exists i, is_Some (step s i)
  | None => False
  end.
Proof.
  destruct (run step (init [Call_prog; tx_prog]) [0; 0; 0; 0; 0; 1]) as [s|] eqn:E;
    [|vm_compute in E; discriminate].
  refine (readers_progress [Call_prog; tx_prog] _ s _ E).
  unfold reader_progs. repeat constructor; set_solver.
Defined.
