(* ===== verification/HTTP.v ===== *)
(** * cocaine12/httphandler.go and cocaine12/httpresponse.go

    The adapter that runs a [net/http] handler as an event handler: the request
    is unpacked from the first chunk, the handler writes through a
    [ResponseWriter], and the result is a handler program of Handler.v, so what
    is sent is given by [invocation] there. The msgpack codec, the parsing of
    the URI and the order of [range] over a header map are parameters. *)
From S2P Require Import Prelude GoTypes ProtoV1 Handler.
From Stdlib Require Import ZArith Lia Strings.Byte.

(** ** net/http: headers *)

(** [http.Header]: a map from canonical names to their values. *)
Abbreviation header := (gmap string (list string)).

(** [Headers] of the code: pairs of a name and a value. *)
Abbreviation Headers := (list (string * string)).

Definition lower (b : byte) : byte :=
  let n := Byte.to_N b in
  if decide (65 <= n <= 90)%N then default b (Byte.of_N (n + 32)) else b.
Definition upper (b : byte) : byte :=
  let n := Byte.to_N b in
  if decide (97 <= n <= 122)%N then default b (Byte.of_N (n - 32)) else b.

(** The bytes of a header field name (RFC 7230 tokens). *)
Definition token_byte (b : byte) : bool :=
  let n := Byte.to_N b in
  bool_decide ((48 <= n <= 57)%N \/ (65 <= n <= 90)%N \/ (97 <= n <= 122)%N \/
    n ∈ [33; 35; 36; 37; 38; 39; 42; 43; 45; 46; 94; 95; 96; 124; 126]%N).

Fixpoint canonical_bytes (up : bool) (bs : list byte) : list byte :=
  match bs with
  | [] => []
  | b :: bs =>
    (if up then upper b else lower b) :: canonical_bytes (bool_decide (Byte.to_N b = 45%N)) bs
  end.

(** [textproto.CanonicalMIMEHeaderKey]: a name with another byte is left alone. *)
Definition CanonicalHeaderKey (name : string) : string :=
  let bs := String.list_byte_of_string name in
  if forallb token_byte bs then String.string_of_list_byte (canonical_bytes true bs) else name.

Definition header_Add (name value : string) (h : header) : header :=
  let key := CanonicalHeaderKey name in
  <[key := default [] (h !! key) ++ [value]]> h.

Definition header_Get (name : string) (h : header) : string :=
  match h !! CanonicalHeaderKey name with
  | Some (value :: _) => value
  | _ => ""
  end.

Definition header_Del (name : string) (h : header) : header := delete (CanonicalHeaderKey name) h.

(** [HeadersHTTPtoCocaine]; [order] is the map as [range] visits it. *)
Definition HeadersHTTPtoCocaine (order : list (string * list string)) : Headers :=
  concat (map (fun '(headerName, headerValues) => map (pair headerName) headerValues) order).

Definition HeadersCocaineToHTTP (hdr : Headers) : header :=
  foldl (fun h '(name, value) => header_Add name value h) ∅ hdr.

(** ** strconv.ParseInt(cl, 10, 64) *)

Definition digit (b : byte) : option Z :=
  let n := Byte.to_N b in
  if decide (48 <= n <= 57)%N then Some (Z.of_N n - 48)%Z else None.

Fixpoint parse_digits (acc : Z) (bs : list byte) : option Z :=
  match bs with
  | [] => Some acc
  | b :: bs =>
    match digit b with
    | Some d => parse_digits (10 * acc + d)%Z bs
    | None => None
    end
  end.

Definition ParseInt (s : string) : option Z :=
  let (sign, ds) :=
    match String.list_byte_of_string s with
    | x2d :: ds => (-1, ds)
    | x2b :: ds => (1, ds)
    | ds => (1, ds)
    end%Z in
  match ds with
  | [] => None
  | _ =>
    match parse_digits 0 ds with
    | Some n =>
      if decide (- 2 ^ 63 <= sign * n < 2 ^ 63)%Z then Some (sign * n)%Z else None
    | None => None
    end
  end.

(** A panic unwinds through the deferred [response.Close()] of the adapter. *)
Definition unwind (info : string) : handler_prog := HClose (fun _ => HPanic info).

(** ** Requests *)

Record Request : Type := mkRequest {
  Method : string;
  URI : string;
  Header : header;
  Host : string;
  RemoteAddr : string;
  ContentLength : Z;
  Body : list byte;
  gzipped : bool              (* Body is read through a gzipReader *)
}.

Definition StatusOK : Z := 200.
Definition StatusNotModified : Z := 304.
Definition StatusBadRequest : Z := 400.
Definition StatusRequestTimeout : Z := 408.

Section HTTP.
(** The codec: the fields of a packed request, and the packed [code, headers]. *)
Context (decode_request : gobytes -> (string * string * string * Headers * gobytes) + error).
Context (encode_head : Z -> Headers -> gobytes).
(** [http.NewRequest] fails on an invalid method or URI. *)
Context (request_error : string -> string -> option error).
(** The visit of a header map, and the text of an error. *)
Context (range : header -> list (string * list string)).
Context (error_text : error -> string).

Definition UnpackProxyRequest (raw : gobytes) : Request + error :=
  match decode_request raw with
  | inr err => inr err
  | inl (method, uri, _, headers, body) =>
    match request_error method uri with
    | Some err => inr err
    | None =>
      let method := if decide (method = "") then "GET" else method in
      let h := HeadersCocaineToHTTP headers in
      let xRealIP := header_Get "X-Real-IP" h in
      let n := Z.of_nat (length (bytes_of body)) in
      let hasBody := bool_decide (method <> "HEAD" /\ n <> 0%Z) in
      if hasBody && bool_decide (header_Get "Content-Encoding" h = "gzip") then
        inl (mkRequest method uri (header_Del "Content-Length" (header_Del "Content-Encoding" h))
          (header_Get "Host" h) xRealIP (-1) (bytes_of body) true)
      else inl (mkRequest method uri h (header_Get "Host" h) xRealIP n (bytes_of body) false)
    end
  end.

Definition WriteHead (code : Z) (headers : Headers) : gobytes := encode_head code headers.

(** ** ResponseWriter

    [written] is not wrapped: the bytes of one response stay below 2^63. The
    writer's operations end in a continuation, a handler program: what they
    send on [cRes] are the steps of that program. *)
Record ResponseWriter : Type := mkWriter {
  handlerHeader : header;
  written : Z;
  contentLength : Z;
  status : Z;
  wroteHeader : bool
}.

Definition newResponseWriter : ResponseWriter := mkWriter ∅ 0 (-1) 0 false.

(** The header map and the length [WriteHeader] declares. *)
Definition declare_length (h : header) : header * Z :=
  let cl := header_Get "Content-Length" h in
  if decide (cl = "") then (h, (-1)%Z)
  else
    match ParseInt cl with
    | Some v => if decide (0 <= v)%Z then (h, v) else (header_Del "Content-Length" h, (-1)%Z)
    | None => (header_Del "Content-Length" h, (-1)%Z)
    end.

Definition WriteHeader (code : Z) (w : ResponseWriter) (k : ResponseWriter -> handler_prog)
    : handler_prog :=
  if wroteHeader w then k w
  else
    let (h, v) := declare_length (handlerHeader w) in
    let length := if decide (v = -1)%Z then contentLength w else v in
    let w := mkWriter h (written w) length code true in
    HZeroCopyWrite (WriteHead code (HeadersHTTPtoCocaine (range h))) (fun _ => k w).

(** [finishRequest]; the files of a multipart form are removed in HTTPApp.v. *)
Definition finishRequest (w : ResponseWriter) (k : ResponseWriter -> handler_prog) : handler_prog :=
  if wroteHeader w then k w else WriteHeader StatusOK w k.

Definition bodyAllowed (w : ResponseWriter) : outcome bool :=
  if wroteHeader w then Ok (bool_decide (status w <> StatusNotModified)) else Panic.

Definition ErrBodyNotAllowed : error := ExtErr "http: request method or response status code does not allow body".
Definition ErrContentLength : error := ExtErr "http: wrote more than the declared Content-Length".

(** The part of [write] after the header was written. *)
Definition write_body (data : gobytes) (shouldCopy : bool) (w : ResponseWriter)
    (k : ResponseWriter -> nat * option error -> handler_prog) : handler_prog :=
  match bytes_of data with
  | [] => k w (0, None)
  | _ =>
    match bodyAllowed w with
    | Panic => unwind ""
    | Ok false => k w (0, Some ErrBodyNotAllowed)
    | Ok true =>
      let n := length (bytes_of data) in
      let w := mkWriter (handlerHeader w) (written w + Z.of_nat n)%Z (contentLength w) (status w)
                 (wroteHeader w) in
      if bool_decide (contentLength w <> -1)%Z && bool_decide (contentLength w < written w)%Z then
        k w (0, Some ErrContentLength)
      else if shouldCopy then HWrite data (fun _ => k w (n, None))
      else HZeroCopyWrite data (fun _ => k w (n, None))
    end
  end.

Definition write (data : gobytes) (shouldCopy : bool) (w : ResponseWriter)
    (k : ResponseWriter -> nat * option error -> handler_prog) : handler_prog :=
  if wroteHeader w then write_body data shouldCopy w k
  else WriteHeader StatusOK w (fun w => write_body data shouldCopy w k).

(** ** HTTP handlers

    What a [net/http] handler does with its [ResponseWriter]: it edits the
    header map, writes the header, writes bytes or a string, and returns or
    panics. *)
Inductive http_prog : Type :=
| PReturn
| PPanic (info : string)
| PHeader (edit : header -> header) (k : http_prog)
| PWriteHeader (code : Z) (k : http_prog)
| PWrite (data : gobytes) (k : nat * option error -> http_prog)
| PWriteString (data : string) (k : nat * option error -> http_prog).

(** The handler, then [k]. *)
Fixpoint serve (p : http_prog) (w : ResponseWriter) (k : ResponseWriter -> handler_prog)
    : handler_prog :=
  match p with
  | PReturn => k w
  | PPanic info => unwind info
  | PHeader edit p =>
    serve p (mkWriter (edit (handlerHeader w)) (written w) (contentLength w) (status w)
               (wroteHeader w)) k
  | PWriteHeader code p => WriteHeader code w (fun w => serve p w k)
  | PWrite data p => write data true w (fun w res => serve (p res) w k)
  | PWriteString data p => write (bytes_of_string data) false w (fun w res => serve (p res) w k)
  end.

(** A reply made of a head and a text, then the deferred close. *)
Definition reply (code : Z) (text : string) : handler_prog :=
  HWrite (WriteHead code []) (fun _ =>
  HWrite (bytes_of_string text) (fun _ => HClose (fun _ => HReturn))).

(** [WrapHandler] and [WrapHTTPFunc], with [convertToHTTPFunc];
    [ctx_done] is the test of [ctx.Err()] after a failed [Read]. *)
Definition WrapHandler (ctx_done : bool) (handler : Request -> http_prog) : handler_prog :=
  HRead (fun '(msg, err) =>
    match err with
    | Some err =>
      if ctx_done then reply StatusRequestTimeout "request was not received during a timeout"
      else reply StatusBadRequest ("cannot process request " +:+ error_text err)
    | None =>
      match UnpackProxyRequest msg with
      | inr _ => reply StatusBadRequest "malformed request"
      | inl req =>
        serve (handler req) newResponseWriter (fun w =>
          finishRequest w (fun _ => HClose (fun _ => HReturn)))
      end
    end).
End HTTP.

(** ** Lemmas: headers *)

(** The values of a canonical name, in order. *)
Definition values_of (key : string) (hdr : list (string * string)) : list string :=
  (filter (fun p => CanonicalHeaderKey p.1 = key) hdr).*2.

Lemma header_fold_lookup hdr h key :
  foldl (fun h '(name, value) => header_Add name value h) h hdr !! key =
    match values_of key hdr with
    | [] => h !! key
    | vs => Some (default [] (h !! key) ++ vs)
    end.
Proof.
  revert h. induction hdr as [|[name value] hdr IH]; intros h; [done|].
  cbn [foldl]. rewrite IH. unfold values_of, header_Add. rewrite filter_cons. cbn [fst].
  case_decide as Hk.
  - rewrite Hk, lookup_insert_eq. cbn.
    destruct (filter _ hdr).*2; [done|]. cbn. by rewrite <- (assoc_L (++)).
  - by rewrite lookup_insert_ne.
Qed.

Lemma HeadersCocaineToHTTP_lookup hdr key :
  HeadersCocaineToHTTP hdr !! key =
    match values_of key hdr with [] => None | vs => Some vs end.
Proof.
  unfold HeadersCocaineToHTTP. rewrite header_fold_lookup, lookup_empty.
  by destruct (values_of key hdr).
Qed.

Lemma values_of_app key a b : values_of key (a ++ b) = values_of key a ++ values_of key b.
Proof. unfold values_of. by rewrite filter_app, fmap_app. Qed.

Lemma values_of_entry key name vs :
  CanonicalHeaderKey name = name ->
  values_of key (map (pair name) vs) = if decide (name = key) then vs else [].
Proof.
  intros Hc. unfold values_of. induction vs as [|v vs IH]; [by case_decide|].
  cbn [map]. rewrite filter_cons. cbn [fst]. rewrite Hc.
  case_decide; [|done]. cbn. by rewrite IH.
Qed.

Lemma values_of_order order key :
  NoDup order.*1 -> Forall (fun e => CanonicalHeaderKey e.1 = e.1) order ->
  values_of key (HeadersHTTPtoCocaine order) =
    default [] ((list_to_map order : header) !! key).
Proof.
  induction order as [|[name vs] order IH]; intros Hnd Hf; [done|].
  apply NoDup_cons in Hnd as [Hnin Hnd]. apply Forall_cons in Hf as [Hc Hf].
  unfold HeadersHTTPtoCocaine in *. cbn [map concat].
  rewrite values_of_app, values_of_entry, IH by done. cbn [list_to_map foldr uncurry fst snd].
  case_decide as Hk.
  - subst key. rewrite lookup_insert_eq. cbn in Hnin.
    rewrite not_elem_of_list_to_map_1 by done. cbn. by rewrite app_nil_r.
  - by rewrite lookup_insert_ne.
Qed.

(** Headers that were sent in some order of the map are the map. *)
Lemma HeadersCocaineToHTTP_order (h : header) (order : list (string * list string)) :
  order ≡ₚ map_to_list h ->
  map_Forall (fun name vs => CanonicalHeaderKey name = name /\ vs <> []) h ->
  HeadersCocaineToHTTP (HeadersHTTPtoCocaine order) = h.
Proof.
  intros Horder Hcanonical. apply map_eq. intros key. rewrite HeadersCocaineToHTTP_lookup.
  assert (Hnd : NoDup order.*1) by (rewrite Horder; apply NoDup_fst_map_to_list).
  assert (Hmap : (list_to_map order : header) = h).
  { rewrite <- (list_to_map_to_list h). by apply list_to_map_proper. }
  rewrite values_of_order, Hmap; [|done|].
  - destruct (h !! key) as [vs|] eqn:Hk; [|done]. apply Hcanonical in Hk as [_ Hne]. by destruct vs.
  - rewrite Horder. apply Forall_forall. intros [name vs] Hin.
    apply elem_of_map_to_list in Hin. by apply Hcanonical in Hin as [Hc _].
Qed.

Lemma header_Get_Del name h : header_Get name (header_Del name h) = "".
Proof. unfold header_Get, header_Del. by rewrite lookup_delete_eq. Qed.

(** The declared length is that of the map which is sent. *)
Lemma declare_length_sent h h' v :
  declare_length h = (h', v) -> declare_length h' = (h', v) /\ (v = -1 \/ 0 <= v)%Z.
Proof.
  assert (Hdel : forall h, declare_length (header_Del "Content-Length" h) =
    (header_Del "Content-Length" h, (-1)%Z)).
  { intros h0. unfold declare_length at 1. by rewrite header_Get_Del. }
  unfold declare_length at 1. case_decide as Hcl.
  { intros [= <- <-]. unfold declare_length. rewrite decide_True by done. auto. }
  destruct (ParseInt _) as [n|] eqn:Hp; [case_decide as Hn|].
  - intros [= <- <-]. unfold declare_length. rewrite decide_False, Hp, decide_True by done. auto.
  - intros [= <- <-]. auto.
  - intros [= <- <-]. auto.
Qed.

(** ** Lemmas: what a handler sends *)

Definition body_length (chunks : list gobytes) : Z :=
  Z.of_nat (length (concat (bytes_of <$> chunks))).

Lemma body_length_snoc chunks data :
  body_length (chunks ++ [data]) = (body_length chunks + Z.of_nat (length (bytes_of data)))%Z.
Proof.
  unfold body_length. rewrite fmap_app, concat_app, length_app. cbn. rewrite app_nil_r. lia.
Qed.

Section HTTPLemmas.
Context (decode_request : gobytes -> (string * string * string * Headers * gobytes) + error).
Context (encode_head : Z -> Headers -> gobytes).
Context (request_error : string -> string -> option error).
Context (range : header -> list (string * list string)).
Context (error_text : error -> string).
#[local] Abbreviation serve := (serve encode_head range).
#[local] Abbreviation write := (write encode_head range).
#[local] Abbreviation WriteHeader := (WriteHeader encode_head range).
#[local] Abbreviation finishRequest := (finishRequest encode_head range).

(** A response: one head, then a body the head allows. *)
Definition http_message (s : Z) (code : Z) (h : header) (chunks : list gobytes) : list Message :=
  newChunkV1 s (encode_head code (HeadersHTTPtoCocaine (range h))) :: map (newChunkV1 s) chunks.

Definition body_fits (code : Z) (h : header) (chunks : list gobytes) : Prop :=
  (code = StatusNotModified -> chunks = []) /\
  forall v, declare_length h = (h, v) -> v <> (-1)%Z -> (body_length chunks <= v)%Z.

Definition writer_inv (s : Z) (w : ResponseWriter) (r : response) : Prop :=
  session r = s /\ closed r = false /\
  if wroteHeader w then
    exists h chunks, sent r = http_message s (status w) h chunks /\
      body_fits (status w) h chunks /\
      (body_length chunks <= written w)%Z /\
      declare_length h = (h, contentLength w)
  else sent r = [] /\ contentLength w = (-1)%Z /\ written w = 0%Z.

(** What holds after a program, whatever it reads. *)
Definition runs (m : handler_prog) (r : response) (Q : response -> option string -> Prop) : Prop :=
  forall reads, Q (exec_handler m reads r).1 (exec_handler m reads r).2.

Lemma runs_zero_copy data k r Q :
  closed r = false -> runs (k None) (toWorker_Send (newChunkV1 (session r) data) r) Q ->
  runs (HZeroCopyWrite data k) r Q.
Proof.
  intros Hc Hk reads. cbn. unfold ZeroCopyWrite, isClosed. rewrite Hc. apply Hk.
Qed.

Lemma runs_write data k r Q :
  closed r = false -> bytes_of data <> [] ->
  (forall n, runs (k (n, None)) (toWorker_Send (newChunkV1 (session r) data) r) Q) ->
  runs (HWrite data k) r Q.
Proof.
  intros Hc Hd Hk reads. cbn. unfold Handler.Write, ZeroCopyWrite, isClosed. rewrite Hc.
  assert (Hcopy : copy_bytes data = data).
  { unfold copy_bytes. destruct data as [[|b l]|]; done. }
  rewrite Hcopy. apply Hk.
Qed.

Lemma runs_WriteHeader s code w r k Q :
  writer_inv s w r ->
  (forall w' r', writer_inv s w' r' -> wroteHeader w' = true -> runs (k w') r' Q) ->
  runs (WriteHeader code w k) r Q.
Proof.
  intros (Hs & Hc & Hw) Hk. unfold HTTP.WriteHeader.
  destruct (wroteHeader w) eqn:Hh.
  { apply Hk; [|done]. split_and!; [done..|]. by rewrite Hh. }
  destruct Hw as (Hsent & Hcl & Hwr).
  destruct (declare_length (handlerHeader w)) as [h v] eqn:Hd.
  destruct (declare_length_sent _ _ _ Hd) as [Hdh Hv].
  apply runs_zero_copy; [done|]. apply Hk; [|done].
  split_and!; [done..|]. cbn. exists h, []. rewrite Hsent, Hs, Hwr.
  split_and!; [done| |done|rewrite Hcl, Hdh; case_decide; congruence].
  split; [done|]. intros v' Hv' Hne. rewrite Hdh in Hv'. injection Hv' as <-. change (body_length []) with 0%Z. lia.
Qed.

Lemma runs_write_body s data copy w r k Q :
  writer_inv s w r -> wroteHeader w = true ->
  (forall w' r' res, writer_inv s w' r' -> runs (k w' res) r' Q) ->
  runs (write_body data copy w k) r Q.
Proof.
  intros Hinv Hh Hk. unfold write_body, bodyAllowed.
  destruct (bytes_of data) as [|b l] eqn:Hdata; [by apply Hk|]. rewrite Hh.
  case_bool_decide as Hst; [|by apply Hk]. rewrite <- Hdata. cbn [contentLength written].
  pose proof Hinv as (Hs & Hc & Hw). rewrite Hh in Hw.
  destruct Hw as (h & chunks & Hsent & [H304 Hfit] & Hle & Hd).
  set (w' := mkWriter _ _ _ _ _).
  destruct (bool_decide (contentLength w <> -1)%Z && bool_decide _) eqn:Hover.
  { apply Hk. split_and!; [done..|]. cbn. exists h, chunks. split_and!; try done. lia. }
  assert (Hinv' : writer_inv s w' (toWorker_Send (newChunkV1 (session r) data) r)).
  { split_and!; [done..|]. cbn. exists h, (chunks ++ [data]). rewrite Hsent, Hs.
    unfold http_message, body_fits. rewrite map_app, body_length_snoc. split_and!; try done; [|lia].
    intros v Hv Hne. rewrite Hd in Hv. injection Hv as <-.
    apply andb_false_iff in Hover as [Ho|Ho]; apply bool_decide_eq_false in Ho;
      [by apply dec_stable in Ho|]. lia. }
  destruct copy.
  - apply runs_write; [done|by rewrite Hdata|]. intros n. by apply Hk.
  - apply runs_zero_copy; [done|]. by apply Hk.
Qed.

Lemma runs_http_write s data copy w r k Q :
  writer_inv s w r ->
  (forall w' r' res, writer_inv s w' r' -> runs (k w' res) r' Q) ->
  runs (write data copy w k) r Q.
Proof.
  intros Hinv Hk. unfold HTTP.write. destruct (wroteHeader w) eqn:Hh.
  - by eapply runs_write_body.
  - eapply runs_WriteHeader; [done|]. intros w' r' Hi Hw. by eapply runs_write_body.
Qed.

Lemma runs_serve s p w r k Q :
  writer_inv s w r ->
  (forall w' r', writer_inv s w' r' -> runs (k w') r' Q) ->
  (forall w' r' info, writer_inv s w' r' -> runs (unwind info) r' Q) ->
  runs (serve p w k) r Q.
Proof.
  intros Hinv Hk Hp. revert w r Hinv.
  induction p as [|info|edit p IH|code p IH|data p IH|data p IH]; intros w r Hinv; cbn [HTTP.serve].
  - by apply Hk.
  - by eapply Hp.
  - apply IH. destruct Hinv as (Hs & Hc & Hw). by split_and!.
  - eapply runs_WriteHeader; [done|]. intros w' r' Hi _. by apply IH.
  - eapply runs_http_write; [done|]. intros w' r' res Hi. by apply IH.
  - eapply runs_http_write; [done|]. intros w' r' res Hi. by apply IH.
Qed.

(** The whole adapter, once the request is unpacked. *)
Definition http_post (s : Z) (r : response) (recovered : option string) : Prop :=
  closed r = true /\
  match recovered with
  | None => exists code h chunks, sent r = http_message s code h chunks ++ [newChokeV1 s] /\
      body_fits code h chunks
  | Some _ => sent r = [newChokeV1 s] \/
      exists code h chunks, sent r = http_message s code h chunks ++ [newChokeV1 s] /\
        body_fits code h chunks
  end.

Lemma runs_adapter s p :
  runs (serve p newResponseWriter (fun w =>
          finishRequest w (fun _ => HClose (fun _ => HReturn)))) (newResponse s) (http_post s).
Proof.
  apply (runs_serve s).
  - by split_and!.
  - intros w r Hinv.
    assert (Hend : forall w' r', writer_inv s w' r' -> wroteHeader w' = true ->
      runs (HClose (fun _ => HReturn)) r' (http_post s)).
    { intros w' r' (Hs & Hc & Hw) Hh reads. cbn. unfold Handler.Close, isClosed. rewrite Hc. cbn.
      rewrite Hh in Hw. destruct Hw as (h & chunks & Hsent & Hfit & _).
      split; [done|]. exists (status w'), h, chunks. cbn. by rewrite Hsent, Hs. }
    unfold HTTP.finishRequest. destruct (wroteHeader w) eqn:Hh; [by eapply Hend|].
    eapply runs_WriteHeader; [done|]. intros w' r' Hi Hw. by eapply Hend.
  - intros w r info (Hs & Hc & Hw) reads. cbn. unfold Handler.Close, isClosed. rewrite Hc. cbn.
    split; [done|]. destruct (wroteHeader w).
    + right. destruct Hw as (h & chunks & Hsent & Hfit & _).
      exists (status w), h, chunks. cbn. by rewrite Hsent, Hs.
    + left. destruct Hw as (Hsent & _). cbn. by rewrite Hsent, Hs.
Qed.

(** After the deferred close the trap of the worker has no effect. *)
Lemma invocation_after_close event p stack reads s :
  closed (exec_handler p reads (newResponse s)).1 = true ->
  invocation event p stack reads s = (exec_handler p reads (newResponse s)).1.
Proof.
  unfold invocation, trapRecoverAndClose.
  destruct (exec_handler p reads (newResponse s)) as [r [info|]]; cbn; intros Hc;
    unfold ErrorMsg, Handler.Close, isClosed; by rewrite Hc.
Qed.

Lemma adapter_unpacked ctx_done handler event stack reads s raw req :
  reads 0 = (raw, None) ->
  UnpackProxyRequest decode_request request_error raw = inl req ->
  let p := WrapHandler decode_request encode_head request_error range error_text ctx_done handler in
  http_post s (invocation event p stack reads s) (exec_handler p reads (newResponse s)).2.
Proof.
  intros Hr Hu p.
  assert (Hp : exec_handler p reads (newResponse s) =
    exec_handler (serve (handler req) newResponseWriter (fun w =>
      finishRequest w (fun _ => HClose (fun _ => HReturn)))) (fun n => reads (S n)) (newResponse s)).
  { unfold p, WrapHandler. cbn [exec_handler]. by rewrite Hr, Hu. }
  pose proof (runs_adapter s (handler req) (fun n => reads (S n))) as Hpost.
  rewrite <- Hp in Hpost. rewrite invocation_after_close; [done|apply Hpost].
Qed.
End HTTPLemmas.

(** A request of the gateway that is unpacked. *)
Lemma unpack_inv decode_request request_error raw req :
  UnpackProxyRequest decode_request request_error raw = inl req ->
  exists method uri version headers body,
    decode_request raw = inl (method, uri, version, headers, body) /\
    request_error method uri = None /\
    Body req = bytes_of body /\
    gzipped req = bool_decide (Method req <> "HEAD") && negb (bool_decide (Body req = [])) &&
      bool_decide (header_Get "Content-Encoding" (HeadersCocaineToHTTP headers) = "gzip") /\
    Header req = (if gzipped req
                  then delete "Content-Length" (delete "Content-Encoding" (HeadersCocaineToHTTP headers))
                  else HeadersCocaineToHTTP headers) /\
    ContentLength req = (if gzipped req then -1 else Z.of_nat (length (Body req)))%Z.
Proof.
  unfold UnpackProxyRequest.
  destruct (decode_request raw) as [[[[[method uri] version] headers] body]|err] eqn:Hd; [|done].
  destruct (request_error method uri) eqn:He; [done|]. intros Hreq.
  exists method, uri, version, headers, body. split; [done|]. split; [done|]. revert Hreq.
  set (m := if decide (method = "") then "GET" else method).
  assert (Hlen : bool_decide (m <> "HEAD" /\ Z.of_nat (length (bytes_of body)) <> 0%Z) =
    bool_decide (m <> "HEAD") && negb (bool_decide (bytes_of body = []))).
  { destruct (bytes_of body) as [|b l]; cbn [length]; repeat case_bool_decide; naive_solver lia. }
  rewrite Hlen.
  destruct (bool_decide (m <> "HEAD") && _ && _) eqn:Hg; intros [= <-]; cbn; by rewrite Hg.
Qed.

(** ** A concrete codec, for the witnesses *)

Definition sample_decode (b : gobytes) : (string * string * string * Headers * gobytes) + error :=
  match bytes_of b with
  | [] => inr EOF
  | bs => inl ("", "/hw", "1.1", [("host", "h"); ("content-encoding", "gzip"); ("content-length", "2")],
               Some bs)
  end.
Definition sample_head (code : Z) (headers : Headers) : gobytes :=
  bytes_of_string (foldr String.append "" (map fst headers)).
Definition sample_check (method uri : string) : option error := None.

Definition sample_handler (req : Request) : http_prog :=
  PHeader (header_Add "content-length" "3") (PWriteHeader 200 (PWriteHeader 500
    (PWriteString "abc" (fun _ => PWriteString "d" (fun res =>
      if bool_decide (res.2 = None) then PPanic "not limited" else PReturn))))).
Definition sample_panics (req : Request) : http_prog := PWriteString "a" (fun _ => PPanic "boom").

(** ** Properties *)

(** C22 (safety): a [net/http] handler that returns, however it mixes
    [WriteHeader], [Write], [WriteString] and changes of its header map, makes
    the client get exactly one head, the chunks of a body and one choke: the
    body is empty for a 304 and never longer than the Content-Length of the
    head. *)
Theorem http_response_shape
    (decode_request : gobytes -> (string * string * string * Headers * gobytes) + error)
    (encode_head : Z -> Headers -> gobytes) (request_error : string -> string -> option error)
    (range : header -> list (string * list string)) (error_text : error -> string)
    (ctx_done : bool) (handler : Request -> http_prog) (event stack : string)
    (reads : nat -> gobytes * option error) (s : Z) (raw : gobytes) (req : Request)
    (Hread : reads 0 = (raw, None))
    (Hreq : UnpackProxyRequest decode_request request_error raw = inl req) :
  let p := WrapHandler decode_request encode_head request_error range error_text ctx_done handler in
  (exec_handler p reads (newResponse s)).2 = None ->
  exists code h chunks,
    sent (invocation event p stack reads s) =
      newChunkV1 s (WriteHead encode_head code (HeadersHTTPtoCocaine (range h))) ::
      map (newChunkV1 s) chunks ++ [newChokeV1 s] /\
    (code = 304%Z -> chunks = []) /\
    (forall v, declare_length h = (h, v) -> v <> (-1)%Z -> (body_length chunks <= v)%Z).
Proof.
  intros p Hret.
  destruct (adapter_unpacked _ encode_head _ range error_text ctx_done handler event stack reads s
    raw req Hread Hreq) as [_ Hpost].
  fold p in Hpost. rewrite Hret in Hpost. destruct Hpost as (code & h & chunks & Hs & H304 & Hfit).
  by exists code, h, chunks.
Qed.

(** The adapter closes its response in a deferred call, which runs
    before the trap of the worker, so a handler that panics is reported to the
    client as a complete reply: a choke ends the stream, before or after the
    head, and no error is sent. *)
Theorem http_panic_hidden
    (decode_request : gobytes -> (string * string * string * Headers * gobytes) + error)
    (encode_head : Z -> Headers -> gobytes) (request_error : string -> string -> option error)
    (range : header -> list (string * list string)) (error_text : error -> string)
    (ctx_done : bool) (handler : Request -> http_prog) (event stack info : string)
    (reads : nat -> gobytes * option error) (s : Z) (raw : gobytes) (req : Request)
    (Hread : reads 0 = (raw, None))
    (Hreq : UnpackProxyRequest decode_request request_error raw = inl req) :
  let p := WrapHandler decode_request encode_head request_error range error_text ctx_done handler in
  (exec_handler p reads (newResponse s)).2 = Some info ->
  exists chunks,
    sent (invocation event p stack reads s) = map (newChunkV1 s) chunks ++ [newChokeV1 s].
Proof.
  intros p Hpanic.
  destruct (adapter_unpacked _ encode_head _ range error_text ctx_done handler event stack reads s
    raw req Hread Hreq) as [_ Hpost].
  fold p in Hpost. rewrite Hpanic in Hpost. destruct Hpost as [Hs|(code & h & chunks & Hs & _)].
  - by exists [].
  - by exists (WriteHead encode_head code (HeadersHTTPtoCocaine (range h)) :: chunks).
Qed.

(** Headers sent as pairs, in whatever order the map is
    visited, are the same map when they are read back, provided their names are
    canonical and each has a value. *)
Theorem headers_roundtrip (h : header) (order : list (string * list string))
    (Horder : order ≡ₚ map_to_list h)
    (Hcanonical : map_Forall (fun name vs => CanonicalHeaderKey name = name /\ vs <> []) h) :
  HeadersCocaineToHTTP (HeadersHTTPtoCocaine order) = h.
Proof. by apply HeadersCocaineToHTTP_order. Qed.

(** When the first read fails the client gets one head, one text and
    a choke: status 408 if the context of the invocation is done, else 400; a
    request that is not unpacked is answered with 400, and the handler is not
    run in any of these cases. *)
Theorem http_error_replies
    (decode_request : gobytes -> (string * string * string * Headers * gobytes) + error)
    (encode_head : Z -> Headers -> gobytes) (request_error : string -> string -> option error)
    (range : header -> list (string * list string)) (error_text : error -> string)
    (ctx_done : bool) (handler : Request -> http_prog) (event stack : string)
    (reads : nat -> gobytes * option error) (s : Z) (raw : gobytes) (failure : option error)
    (Hread : reads 0 = (raw, failure))
    (Hbad : is_Some failure \/
            exists err, UnpackProxyRequest decode_request request_error raw = inr err) :
  let code := match failure with Some _ => if ctx_done then 408 else 400 | None => 400 end%Z in
  let text := match failure with
              | Some err => if ctx_done then "request was not received during a timeout"
                            else "cannot process request " +:+ error_text err
              | None => "malformed request"
              end in
  sent (invocation event
    (WrapHandler decode_request encode_head request_error range error_text ctx_done handler)
    stack reads s) =
  [newChunkV1 s (copy_bytes (WriteHead encode_head code []));
   newChunkV1 s (bytes_of_string text); newChokeV1 s].
Proof.
  intros code text. unfold invocation, WrapHandler. cbn [exec_handler]. rewrite Hread.
  destruct failure as [err|].
  - unfold code, text. by destruct ctx_done.
  - destruct Hbad as [[? [=]]|[err Herr]]. by rewrite Herr.
Qed.

(** A request with a body that is marked as gzip is handed to
    the handler with a decompressing body of unknown length and without the
    headers Content-Encoding and Content-Length; any other request keeps its
    headers and the length of its body. *)
Theorem request_body_headers
    (decode_request : gobytes -> (string * string * string * Headers * gobytes) + error)
    (request_error : string -> string -> option error) (raw : gobytes) (req : Request)
    (Hreq : UnpackProxyRequest decode_request request_error raw = inl req) :
  Method req <> "" /\
  if gzipped req then
    Body req <> [] /\ Method req <> "HEAD" /\ ContentLength req = (-1)%Z /\
    header_Get "Content-Encoding" (Header req) = "" /\ header_Get "Content-Length" (Header req) = ""
  else
    ContentLength req = Z.of_nat (length (Body req)) /\
    (header_Get "Content-Encoding" (Header req) = "gzip" -> Body req = [] \/ Method req = "HEAD").
Proof.
  split.
  { revert Hreq. unfold UnpackProxyRequest.
    destruct (decode_request raw) as [[[[[method uri] version] headers] body]|err]; [|done].
    destruct (request_error method uri); [done|].
    destruct (decide (method = "")) as [->|Hm]; case_match; intros [= <-]; done. }
  destruct (unpack_inv _ _ _ _ Hreq) as (m & u & v & hs & b & _ & _ & _ & Hg & Hh & Hl).
  destruct (gzipped req) eqn:Hz; rewrite Hl, Hh.
  - symmetry in Hg. apply andb_true_iff in Hg as [Hg _]. apply andb_true_iff in Hg as [Hm Hb].
    apply bool_decide_eq_true in Hm. apply negb_true_iff, bool_decide_eq_false in Hb.
    split_and!; [done..| |]; unfold header_Get.
    + rewrite lookup_delete_ne by done. by rewrite lookup_delete_eq.
    + by rewrite lookup_delete_eq.
  - split; [done|]. intros He. symmetry in Hg. rewrite (bool_decide_true _ He), andb_true_r in Hg.
    apply andb_false_iff in Hg as [Hm|Hb].
    + apply bool_decide_eq_false, dec_stable in Hm. auto.
    + apply negb_false_iff, bool_decide_eq_true in Hb. auto.
Qed.

(** ** Witnesses *)

(** The second [WriteHeader] and the write over the declared length send nothing. *)
Lemma http_response_shape_witness :
  let r := invocation "http" (WrapHandler sample_decode sample_head sample_check map_to_list
             (fun _ => "") false sample_handler) "" (fun _ => (bytes_of_string "x", None)) 9 in
  sent r = [newChunkV1 9 (bytes_of_string "Content-Length"); newChunkV1 9 (bytes_of_string "abc");
            newChokeV1 9] /\
  exists code h chunks,
    sent r = newChunkV1 9 (WriteHead sample_head code (HeadersHTTPtoCocaine (map_to_list h))) ::
      map (newChunkV1 9) chunks ++ [newChokeV1 9] /\
    (code = 304%Z -> chunks = []) /\
    (forall v, declare_length h = (h, v) -> v <> (-1)%Z -> (body_length chunks <= v)%Z).
Proof.
  split; [by vm_compute|].
  destruct (UnpackProxyRequest sample_decode sample_check (bytes_of_string "x")) as [req|] eqn:E;
    [|vm_compute in E; discriminate].
  by apply (http_response_shape sample_decode sample_head sample_check map_to_list (fun _ => "") false
           sample_handler "http" "" (fun _ => (bytes_of_string "x", None)) 9
           (bytes_of_string "x") req).
Defined.

Lemma http_panic_hidden_witness :
  let r := invocation "http" (WrapHandler sample_decode sample_head sample_check map_to_list
             (fun _ => "") false sample_panics) "" (fun _ => (bytes_of_string "x", None)) 9 in
  exists chunks, sent r = map (newChunkV1 9) chunks ++ [newChokeV1 9].
Proof.
  destruct (UnpackProxyRequest sample_decode sample_check (bytes_of_string "x")) as [req|] eqn:E;
    [|vm_compute in E; discriminate].
  by apply (http_panic_hidden sample_decode sample_head sample_check map_to_list (fun _ => "") false
           sample_panics "http" "" "boom" (fun _ => (bytes_of_string "x", None)) 9
           (bytes_of_string "x") req).
Defined.

Lemma headers_roundtrip_witness :
  let h : header := <["Accept" := ["a"; "b"]]> (<["X-Real-Ip" := ["c"]]> ∅) in
  HeadersCocaineToHTTP (HeadersHTTPtoCocaine [("X-Real-Ip", ["c"]); ("Accept", ["a"; "b"])]) = h.
Proof.
  apply headers_roundtrip.
  - rewrite map_to_list_insert, map_to_list_insert, map_to_list_empty by done. constructor.
  - apply map_Forall_insert; [done|]. split; [split; [by vm_compute|done]|].
    apply map_Forall_insert; [done|]. split; [split; [by vm_compute|done]|]. apply map_Forall_empty.
Defined.

Lemma http_error_replies_witness :
  sent (invocation "http" (WrapHandler sample_decode sample_head sample_check map_to_list
          (fun _ => "") false sample_handler) "" (fun _ => (None, None)) 9) =
  [newChunkV1 9 None; newChunkV1 9 (bytes_of_string "malformed request"); newChokeV1 9].
Proof.
  apply (http_error_replies sample_decode sample_head sample_check map_to_list (fun _ => "") false
           sample_handler "http" "" (fun _ => (None, None)) 9 None None); [done|].
  right. by exists EOF.
Defined.

Lemma request_body_headers_witness :
  match UnpackProxyRequest sample_decode sample_check (bytes_of_string "x") with
  | inl req => gzipped req = true /\ ContentLength req = (-1)%Z
  | inr _ => False
  end.
Proof.
  destruct (UnpackProxyRequest sample_decode sample_check (bytes_of_string "x")) as [req|] eqn:E;
    [|vm_compute in E; discriminate].
  pose proof (request_body_headers sample_decode sample_check (bytes_of_string "x") req E) as [_ H].
  assert (Hg : gzipped req = true) by (vm_compute in E; by injection E as <-).
  rewrite Hg in H |- *. split; [done|]. apply H.
Defined.
