(* ===== verification/GoStrings.v ===== *)
(** * Strings: the parts of package strings and of the slice syntax in use

    A Go string is a sequence of bytes, here a [string]; the separators are
    ASCII, so runes and bytes agree on them. *)
From S2P Require Import Prelude.
From Stdlib Require Import Ascii Lia.

Open Scope stdpp_scope.

#[local] Arguments String.append : simpl nomatch.

(** [strings.IndexByte], [None] for -1. *)
Fixpoint IndexByte (s : string) (c : ascii) : option nat :=
  match s with
  | EmptyString => None
  | String a s => if decide (a = c) then Some 0 else S <$> IndexByte s c
  end.

(** [s\[n:\]] and [s\[:n\]]: out of range is a panic. *)
Fixpoint slice_from (n : nat) (s : string) : outcome string :=
  match n, s with
  | 0, _ => Ok s
  | S n, EmptyString => Panic
  | S n, String _ s => slice_from n s
  end.

Fixpoint slice_to (n : nat) (s : string) : outcome string :=
  match n, s with
  | 0, _ => Ok EmptyString
  | S n, EmptyString => Panic
  | S n, String a s => outcome_bind (slice_to n s) (fun t => Ok (String a t))
  end.

(** [strings.Split] by a one-byte separator, and [strings.Join]. *)
Fixpoint Split (s : string) (sep : ascii) : list string :=
  match s with
  | EmptyString => [EmptyString]
  | String a s =>
    if decide (a = sep) then EmptyString :: Split s sep
    else
      match Split s sep with
      | [] => [String a EmptyString]
      | piece :: pieces => String a piece :: pieces
      end
  end.

Fixpoint Join (pieces : list string) (sep : ascii) : string :=
  match pieces with
  | [] => EmptyString
  | [piece] => piece
  | piece :: pieces => piece +:+ String sep (Join pieces sep)
  end.

(** ** Lemmas *)

(** A string without the byte [c]. *)
Definition free (c : ascii) (s : string) : Prop := IndexByte s c = None.

Lemma free_cons c a s : free c (String a s) <-> a <> c /\ free c s.
Proof. unfold free. cbn. case_decide; [naive_solver|]. destruct (IndexByte s c); naive_solver. Qed.

Lemma IndexByte_app s c t :
  free c s -> IndexByte (s +:+ String c t) c = Some (String.length s).
Proof.
  induction s as [|a s IH]; intros Hs; cbn.
  - by rewrite decide_True.
  - apply free_cons in Hs as [Ha Hs]. rewrite decide_False by done. by rewrite (IH Hs).
Qed.

Lemma IndexByte_Some s c n :
  IndexByte s c = Some n ->
  exists t u, s = t +:+ String c u /\ free c t /\ n = String.length t.
Proof.
  revert n. induction s as [|a s IH]; intros n; cbn; [done|]. case_decide as Ha.
  - intros [= <-]. subst a. by exists EmptyString, s.
  - destruct (IndexByte s c) as [m|] eqn:Hm; [|done]. intros [= <-].
    destruct (IH m eq_refl) as (t & u & -> & Ht & ->).
    exists (String a t), u. split_and!; [done| |done]. by apply free_cons.
Qed.

Lemma slice_from_app s t : slice_from (String.length s) (s +:+ t) = Ok t.
Proof. induction s as [|a s IH]; [by destruct t|apply IH]. Qed.

Lemma slice_to_app s t : slice_to (String.length s) (s +:+ t) = Ok s.
Proof. induction s as [|a s IH]; [by destruct t|]. cbn. by rewrite IH. Qed.

Lemma slice_from_0 s : slice_from 0 s = Ok s.
Proof. by destruct s. Qed.

(** The slices within bounds do not panic, the others do. *)
Lemma slice_from_panics n s : slice_from n s = Panic <-> String.length s < n.
Proof.
  revert s. induction n as [|n IH]; intros s; [destruct s; split; [done|lia|done|lia]|].
  destruct s as [|a s]; cbn; [split; [lia|done]|]. rewrite IH. lia.
Qed.

Lemma Split_nonempty s sep : Split s sep <> [].
Proof. destruct s; cbn; [done|]. case_decide; [done|]. by destruct (Split s sep). Qed.

Lemma Split_free s sep : Forall (free sep) (Split s sep).
Proof.
  induction s as [|a s IH]; cbn; [by repeat constructor|]. case_decide as Ha.
  - by constructor.
  - destruct (Split s sep) as [|piece pieces]; [by repeat constructor; apply free_cons|].
    apply Forall_cons in IH as [H1 H2]. constructor; [by apply free_cons|done].
Qed.

(** [Join] undoes [Split]. *)
Lemma Join_Split s sep : Join (Split s sep) sep = s.
Proof.
  induction s as [|a s IH]; [done|]. cbn [Split]. case_decide as Ha.
  - subst a. rewrite <- IH at 2. destruct (Split s sep) as [|p ps] eqn:Hs; [|done].
    by destruct (Split_nonempty s sep).
  - destruct (Split s sep) as [|p ps] eqn:Hs; [by destruct (Split_nonempty s sep)|].
    rewrite <- IH. by destruct ps.
Qed.

Lemma Split_cons_free p sep s :
  free sep p -> Split (p +:+ String sep s) sep = p :: Split s sep.
Proof.
  induction p as [|a p IH]; intros Hp; cbn; [by rewrite decide_True|].
  apply free_cons in Hp as [Ha Hp]. rewrite decide_False by done.
  by rewrite (IH Hp).
Qed.

Lemma Split_one p sep : free sep p -> Split p sep = [p].
Proof.
  induction p as [|a p IH]; intros Hp; [done|]. apply free_cons in Hp as [Ha Hp]. cbn.
  rewrite decide_False by done. by rewrite (IH Hp).
Qed.

(** [Split] undoes [Join] on pieces without the separator. *)
Lemma Split_Join pieces sep :
  pieces <> [] -> Forall (free sep) pieces -> Split (Join pieces sep) sep = pieces.
Proof.
  induction pieces as [|p pieces IH]; intros Hne Hf; [done|].
  apply Forall_cons in Hf as [Hp Hf]. destruct pieces as [|q pieces].
  - by apply Split_one.
  - change (Join (p :: q :: pieces) sep) with (p +:+ String sep (Join (q :: pieces) sep)).
    rewrite Split_cons_free, IH; done.
Qed.

Lemma string_app_nil (s : string) : s +:+ "" = s.
Proof. induction s as [|a s IH]; [done|]. cbn. by f_equal. Qed.

#[export] Hint Resolve Split_nonempty Split_free : s2p.
