(* ===== verification/Proxy.v ===== *)
(** * cocaine12/proxy/proxy.go: the HTTP gateway

    The route of a request, its packed form, and the handler of the gateway with
    the results of the call it makes. Services, the codec and the escaping of
    URLs are parameters; the [http.ResponseWriter] of the server is a record of
    what it was told. *)
From S2P Require Import Prelude GoTypes ProtoV1 Handler HTTP GoStrings.
From Stdlib Require Import ZArith Lia Ascii Strings.Byte.

Open Scope stdpp_scope.

#[local] Arguments String.append : simpl nomatch.

Definition slash : ascii := "/"%char.

(** ** Routes

    The service and the event of the path, and the path left to the
    application; [None] is the reply 400. *)
Definition route (Path : string) : outcome (option (string * string * string)) :=
  (let* tail := slice_from 1 Path in
   match IndexByte tail slash with
   | None => Ok None
   | Some npos =>
     let* service := slice_to npos tail in
     let* tail := slice_from (npos + 1) tail in
     let checked event Path :=
       if (String.length service =? 0) || (String.length event =? 0) then Ok None
       else Ok (Some (service, event, Path)) in
     match IndexByte tail slash with
     | None => checked tail "/"
     | Some 0 => Ok None
     | Some npos =>
       let* event := slice_to npos tail in
       let* Path := slice_from npos tail in
       checked event Path
     end
   end)%go.

(** ** Requests *)

Record URL : Type := mkURL {
  Path : string;
  RawPath : string;
  RawQuery : string
}.

(** The fields of [http.Request] in use; [Body] is what [ioutil.ReadAll] gives. *)
Record proxy_request : Type := mkProxyRequest {
  Method : string;
  url : URL;
  Proto : string;                       (* "major.minor" *)
  Header : header;
  Body : gobytes + error
}.

(** What the server's [http.ResponseWriter] was told: the header map, the status
    line with the map at that time, and the body. *)
Record http_writer : Type := mkHttpWriter {
  w_header : header;
  w_status : option (Z * header);
  w_body : list byte
}.

Definition new_writer : http_writer := mkHttpWriter ∅ None [].
Definition Header_Add (name value : string) (w : http_writer) : http_writer :=
  mkHttpWriter (header_Add name value (w_header w)) (w_status w) (w_body w).
Definition WriteHeader (code : Z) (w : http_writer) : http_writer :=
  match w_status w with
  | Some _ => w
  | None => mkHttpWriter (w_header w) (Some (code, w_header w)) (w_body w)
  end.
Definition Write (data : list byte) (w : http_writer) : http_writer :=
  let w := WriteHeader StatusOK w in
  mkHttpWriter (w_header w) (w_status w) (w_body w ++ data).

Definition StatusInternalServerError : Z := 500.

(** What [channel.Get] returns: an error, or a result with its [Err()], its
    payload and whether the channel is closed after it. *)
Inductive get_result : Type :=
| GotErr (err : error)
| Got (res_err : option error) (payload : list value) (closed : bool).

(** The services behind the gateway: the error of [NewService], of
    [app.Call("enqueue")] and of [channel.Call("write")], then the results. *)
Record backend : Type := mkBackend {
  new_service : option error;
  enqueue : option error;
  send_task : option error;
  results : list get_result
}.

Section Proxy.
Context (RequestURI : URL -> string).
(** The codec: a packed request, a start line, a payload of one byte slice
    ([ExtractTuple(&body)], which leaves something in [body] when it fails). *)
Context (encode_request : string * string * string * Headers * gobytes -> gobytes).
Context (decode_head : gobytes -> (Z * Headers) + error).
Context (extract_bytes : list value -> gobytes -> gobytes * option error).
Context (range : header -> list (string * list string)).
Context (error_text : error -> string).

Definition packRequest (req : proxy_request) : gobytes + error :=
  match Body req with
  | inr err => inr err
  | inl body =>
    let headers := HeadersHTTPtoCocaine (range (Header req)) in
    inl (encode_request (Method req, RequestURI (url req), Proto req, headers, body))
  end.

(** [res.ExtractTuple(&body)]: the error of the result comes first. *)
Definition ExtractTuple (res_err : option error) (payload : list value) (body : gobytes)
    : gobytes * option error :=
  match res_err with
  | Some err => (body, Some err)
  | None => extract_bytes payload body
  end.

(** The loop [BODY]. No more results is the end of the context: [Get] fails. *)
Fixpoint body_loop (rs : list get_result) (body : gobytes) (w : http_writer) : http_writer :=
  match rs with
  | [] => w
  | GotErr _ :: _ => w
  | Got (Some _) _ _ :: _ => w
  | Got None payload closed :: rs =>
    if closed then w
    else
      let body := (ExtractTuple None payload body).1 in
      body_loop rs body (Write (bytes_of body) w)
  end.

Definition fail_with (err : error) (w : http_writer) : http_writer :=
  Write (String.list_byte_of_string (error_text err)) (WriteHeader StatusInternalServerError w).

(** The part of [process] that follows the call of the channel. *)
Definition reply_of (rs : list get_result) (w : http_writer) : http_writer :=
  match rs with
  | [] => fail_with (CtxErr "context deadline exceeded") w
  | GotErr err :: _ => fail_with err w
  | Got res_err payload _ :: rs =>
    match ExtractTuple res_err payload None with
    | (_, Some err) => fail_with err w
    | (body, None) =>
      match decode_head body with
      | inr err => fail_with err w
      | inl (code, headers) =>
        let w := foldl (fun w '(name, value) => Header_Add name value w) w headers in
        body_loop rs body (WriteHeader code w)
      end
    end
  end.

(** [process]: what is written, and the event that was enqueued with its task. *)
Definition process (app : string -> backend) (r : proxy_request)
    : outcome (http_writer * option (string * string * gobytes)) :=
  (let w := Header_Add "X-Powered-By" "Cocaine" new_writer in
   let service := header_Get "X-Cocaine-Service" (Header r) in
   let event := header_Get "X-Cocaine-Event" (Header r) in
   let* routed :=
     if (String.length service =? 0) || (String.length event =? 0) then
       let* found := route (Path (url r)) in
       Ok ((fun '(service, event, path) =>
         (service, event, mkURL path (RawPath (url r)) (RawQuery (url r)))) <$> found)
     else Ok (Some (service, event, url r)) in
   match routed with
   | None => Ok (WriteHeader StatusBadRequest w, None)
   | Some (service, event, u) =>
     let b := app service in
     match new_service b with
     | Some _ => Ok (WriteHeader StatusInternalServerError w, None)
     | None =>
       match packRequest (mkProxyRequest (Method r) u (Proto r) (Header r) (Body r)) with
       | inr _ => Ok (WriteHeader StatusBadRequest w, None)
       | inl task =>
         match enqueue b with
         | Some _ => Ok (WriteHeader StatusBadRequest w, None)
         | None =>
           match send_task b with
           | Some _ => Ok (WriteHeader StatusInternalServerError w, None)
           | None => Ok (reply_of (results b) w, Some (service, event, task))
           end
         end
       end
     end
   end)%go.
End Proxy.

(** ** Specification of the routes *)

(** ["/service/event"] and ["/service/event/rest"]; the first byte of a path is
    not looked at. *)
Inductive routes : string -> string -> string -> string -> Prop :=
| route_bare c service event :
    service <> "" -> event <> "" -> free slash service -> free slash event ->
    routes (String c (service +:+ String slash event)) service event "/"
| route_path c service event rest :
    service <> "" -> event <> "" -> free slash service -> free slash event ->
    routes (String c (service +:+ String slash (event +:+ String slash rest))) service event
      (String slash rest).

(** ** Lemmas *)

Lemma length_0 s : (String.length s =? 0) = bool_decide (s = "").
Proof. by destruct s. Qed.

Lemma slice_from_sep s c t : slice_from (String.length s + 1) (s +:+ String c t) = Ok t.
Proof. induction s as [|a s IH]; [by destruct t|apply IH]. Qed.

(** The route of a path that has a second slash. *)
Lemma route_split c service tail :
  free slash service ->
  route (String c (service +:+ String slash tail)) =
    match IndexByte tail slash with
    | None =>
      if bool_decide (service = "") || bool_decide (tail = "") then Ok None
      else Ok (Some (service, tail, "/"))
    | Some 0 => Ok None
    | Some npos =>
      (let* event := slice_to npos tail in
       let* Path := slice_from npos tail in
       if bool_decide (service = "") || bool_decide (event = "") then Ok None
       else Ok (Some (service, event, Path)))%go
    end.
Proof.
  intros Hs. unfold route. cbn [slice_from outcome_bind].
  rewrite IndexByte_app by done. rewrite slice_to_app, slice_from_sep. cbn [outcome_bind].
  rewrite !length_0. destruct (IndexByte tail slash) as [[|n]|]; [done| |done].
  destruct (slice_to (S n) tail) as [event|]; [|done]. cbn [outcome_bind]. by rewrite length_0.
Qed.

Lemma route_complete path service event rest :
  routes path service event rest -> route path = Ok (Some (service, event, rest)).
Proof.
  destruct 1 as [c service event Hs He Hfs Hfe|c service event rest Hs He Hfs Hfe];
    rewrite route_split by done.
  - unfold free in Hfe. by rewrite Hfe, !bool_decide_false.
  - rewrite IndexByte_app by done.
    destruct (String.length event) as [|n] eqn:Hn; [by destruct event|]. rewrite <- Hn.
    rewrite slice_to_app, slice_from_app. cbn [outcome_bind]. by rewrite !bool_decide_false.
Qed.

Lemma route_sound path service event rest :
  route path = Ok (Some (service, event, rest)) -> routes path service event rest.
Proof.
  destruct path as [|c tail]; [done|]. intros Hr.
  destruct (IndexByte tail slash) as [n|] eqn:Hn; [|unfold route in Hr; cbn in Hr; by rewrite Hn in Hr].
  apply IndexByte_Some in Hn as (t & u & -> & Ht & _). rewrite route_split in Hr by done.
  destruct (IndexByte u slash) as [[|m]|] eqn:Hu; [done|..].
  - apply IndexByte_Some in Hu as (e & v & -> & He & Hm). rewrite Hm, slice_to_app, slice_from_app in Hr.
    cbn [outcome_bind] in Hr. repeat case_bool_decide; simplify_eq/=. by constructor.
  - repeat case_bool_decide; simplify_eq/=. by constructor.
Qed.

Lemma route_panics path : route path = Panic <-> path = "".
Proof.
  split; [|by intros ->]. destruct path as [|c tail]; [done|]. intros Hr.
  destruct (IndexByte tail slash) as [n|] eqn:Hn; [|unfold route in Hr; cbn in Hr; by rewrite Hn in Hr].
  apply IndexByte_Some in Hn as (t & u & -> & Ht & _). rewrite route_split in Hr by done.
  destruct (IndexByte u slash) as [[|m]|] eqn:Hu; [done|..].
  - apply IndexByte_Some in Hu as (e & v & -> & He & Hm). rewrite Hm, slice_to_app, slice_from_app in Hr.
    cbn [outcome_bind] in Hr. by destruct (_ || _).
  - by destruct (_ || _).
Qed.

Section ReplyLemmas.
Context (encode_request : string * string * string * Headers * gobytes -> gobytes).
Context (decode_request : gobytes -> (string * string * string * Headers * gobytes) + error).
Context (decode_head : gobytes -> (Z * Headers) + error) (encode_head : Z -> Headers -> gobytes).
Context (extract_bytes : list value -> gobytes -> gobytes * option error).
Context (range : header -> list (string * list string)).
Context (error_text : error -> string).

(** The codec on the tuple of one byte slice, whatever was in the target. *)
Definition extracts : Prop :=
  forall data old, exists data', extract_bytes [VBytes data] old = (data', None) /\
    bytes_of data' = bytes_of data.

Definition chunk_result (data : gobytes) : get_result := Got None [VBytes data] false.

Definition add_all (headers : Headers) (h : header) : header :=
  foldl (fun h '(name, value) => header_Add name value h) h headers.

Lemma Header_Add_all headers w :
  foldl (fun w '(name, value) => Header_Add name value w) w headers =
    mkHttpWriter (add_all headers (w_header w)) (w_status w) (w_body w).
Proof.
  revert w. induction headers as [|[name value] headers IH]; intros w; [by destruct w|].
  cbn [foldl]. by rewrite IH.
Qed.

Context (Hextract : extracts).

(** The chunks up to the end of the channel, which is not written. *)
Lemma body_loop_chunks chunks payload more body w code h :
  w_status w = Some (code, h) ->
  body_loop extract_bytes (map chunk_result chunks ++ Got None payload true :: more) body w =
    mkHttpWriter (w_header w) (Some (code, h)) (w_body w ++ concat (bytes_of <$> chunks)).
Proof using Hextract.
  revert body w. induction chunks as [|data chunks IH]; intros body w Hst; cbn.
  - rewrite app_nil_r, <- Hst. by destruct w.
  - destruct (Hextract data body) as (data' & -> & Hd). cbn [fst]. rewrite IH.
    + unfold Write, WriteHeader. rewrite Hst. cbn. by rewrite Hd, (assoc_L (++)).
    + unfold Write, WriteHeader. rewrite Hst. done.
Qed.

Lemma reply_of_message head code headers chunks payload more w :
  w_status w = None ->
  (forall b, bytes_of b = bytes_of head -> decode_head b = inl (code, headers)) ->
  reply_of decode_head extract_bytes error_text
    (chunk_result head :: map chunk_result chunks ++ Got None payload true :: more) w =
  mkHttpWriter (add_all headers (w_header w)) (Some (code, add_all headers (w_header w)))
    (w_body w ++ concat (bytes_of <$> chunks)).
Proof using Hextract.
  intros Hst Hd. cbn [reply_of chunk_result ExtractTuple].
  destruct (Hextract head None) as (head' & -> & Hh). rewrite (Hd _ Hh), Header_Add_all.
  unfold WriteHeader at 1. cbn [w_status w_header w_body]. rewrite Hst.
  by erewrite body_loop_chunks.
Qed.
End ReplyLemmas.

(** ** Properties *)

(** C25 (equivalence): the slices of [process] compute exactly the routes of their
    specification, and they panic exactly on the empty path. *)
Theorem route_equivalence (path service event rest : string) :
  (route path = Ok (Some (service, event, rest)) <-> routes path service event rest) /\
  (route path = Panic <-> path = "").
Proof.
  split; [|apply route_panics]. split; [apply route_sound|apply route_complete].
Qed.

(** A request the gateway packs is unpacked by the worker with
    its method, the URI of the route, its headers and its body, when the codec
    decodes what it encodes, the header names are canonical and the body is not
    compressed; the host is what the header map says, and nothing else. *)
Theorem request_roundtrip
    (RequestURI : URL -> string)
    (encode_request : string * string * string * Headers * gobytes -> gobytes)
    (decode_request : gobytes -> (string * string * string * Headers * gobytes) + error)
    (request_error : string -> string -> option error)
    (range : header -> list (string * list string))
    (req : proxy_request) (body : gobytes)
    (Hcodec : let v := (Method req, RequestURI (url req), Proto req,
                        HeadersHTTPtoCocaine (range (Header req)), body) in
              decode_request (encode_request v) = inl v)
    (Hrange : range (Header req) ≡ₚ map_to_list (Header req))
    (Hcanonical : map_Forall (fun name vs => CanonicalHeaderKey name = name /\ vs <> []) (Header req))
    (Hvalid : request_error (Method req) (RequestURI (url req)) = None)
    (Hmethod : Method req <> "")
    (Hplain : header_Get "Content-Encoding" (Header req) <> "gzip")
    (Hbody : Body req = inl body) :
  exists task,
    packRequest RequestURI encode_request range req = inl task /\
    UnpackProxyRequest decode_request request_error task =
      inl (mkRequest (Method req) (RequestURI (url req)) (Header req)
             (header_Get "Host" (Header req)) (header_Get "X-Real-IP" (Header req))
             (Z.of_nat (length (bytes_of body))) (bytes_of body) false).
Proof.
  unfold packRequest. rewrite Hbody. eexists. split; [done|].
  cbv zeta in Hcodec. unfold UnpackProxyRequest. rewrite Hcodec, Hvalid, decide_False by done.
  rewrite (HeadersCocaineToHTTP_order _ _ Hrange Hcanonical).
  by rewrite (bool_decide_false _ Hplain), andb_false_r.
Qed.

(** When the application answers with a start line, chunks and
    the end of its stream, the client of the gateway gets the status of the start
    line, its headers after the gateway's own, and the chunks one after the
    other. *)
Theorem gateway_reply
    (RequestURI : URL -> string)
    (encode_request : string * string * string * Headers * gobytes -> gobytes)
    (decode_head : gobytes -> (Z * Headers) + error)
    (extract_bytes : list value -> gobytes -> gobytes * option error)
    (range : header -> list (string * list string)) (error_text : error -> string)
    (app : string -> backend) (r : proxy_request) (service event path : string)
    (body head : gobytes) (code : Z) (headers : Headers) (chunks : list gobytes)
    (payload : list value) (more : list get_result)
    (Hextract : extracts extract_bytes)
    (Hhead : forall b, bytes_of b = bytes_of head -> decode_head b = inl (code, headers))
    (Hroute : routes (Path (url r)) service event path)
    (Hno : header_Get "X-Cocaine-Service" (Header r) = "")
    (Hbody : Body r = inl body)
    (Happ : app service = mkBackend None None None
              (chunk_result head :: map chunk_result chunks ++ Got None payload true :: more)) :
  let own := header_Add "X-Powered-By" "Cocaine" ∅ in
  process RequestURI encode_request decode_head extract_bytes range error_text app r =
    Ok (mkHttpWriter (add_all headers own) (Some (code, add_all headers own))
          (concat (bytes_of <$> chunks)),
        Some (service, event,
          encode_request (Method r, RequestURI (mkURL path (RawPath (url r)) (RawQuery (url r))),
                          Proto r, HeadersHTTPtoCocaine (range (Header r)), body))).
Proof.
  intros own. unfold process. rewrite Hno. cbn [String.length Nat.eqb orb].
  rewrite (route_complete _ _ _ _ Hroute). cbn [outcome_bind fmap option_fmap option_map].
  rewrite Happ. cbn [new_service enqueue send_task results].
  unfold packRequest. cbn [Proxy.Body Proxy.Method url Proto Header]. rewrite Hbody.
  by rewrite (reply_of_message _ _ _ Hextract _ code headers).
Qed.


(** ** Witnesses *)

Definition sample_extract (payload : list value) (old : gobytes) : gobytes * option error :=
  match payload with
  | [VBytes data] => (data, None)
  | _ => (old, Some EOF)
  end.

(** A start line as the decimal code and nothing else. *)
Definition sample_start (b : gobytes) : (Z * Headers) + error :=
  match bytes_of b with
  | [] => inr EOF
  | b :: _ => inl (Z.of_N (Byte.to_N b), [("Server", "app")])
  end.

Lemma sample_extracts : extracts sample_extract.
Proof. intros data old. by exists data. Qed.

Definition sample_request : proxy_request :=
  mkProxyRequest "GET" (mkURL "/app/event/x" "" "") "1.1" (<["Accept" := ["a"; "b"]]> ∅)
    (inl (Some [x31])).

Lemma sample_routes : routes "/app/event/x" "app" "event" "/x".
Proof. by apply (route_path "/" "app" "event" "x"). Qed.

Lemma gateway_reply_witness :
  process Path (fun v => Some [x00]) sample_start sample_extract map_to_list (fun _ => "")
    (fun _ => mkBackend None None None
       [chunk_result (Some [xc8]); chunk_result (Some [x61]); chunk_result (Some [x62]);
        Got None [] true; GotErr EOF]) sample_request =
  Ok (mkHttpWriter (<["X-Powered-By" := ["Cocaine"]]> (<["Server" := ["app"]]> ∅))
        (Some (200%Z, <["X-Powered-By" := ["Cocaine"]]> (<["Server" := ["app"]]> ∅))) [x61; x62],
      Some ("app", "event", Some [x00])).
Proof.
  refine (gateway_reply Path (fun v => Some [x00]) sample_start sample_extract map_to_list
    (fun _ => "") _ sample_request "app" "event" "/x" (Some [x31]) (Some [xc8]) 200
    [("Server", "app")] [Some [x61]; Some [x62]] [] [GotErr EOF] sample_extracts _ sample_routes
    _ _ _); try done.
  intros b Hb. unfold sample_start. by rewrite Hb.
Defined.

Lemma request_roundtrip_witness :
  exists task,
    packRequest Path (fun v => Some [x01]) map_to_list sample_request = inl task /\
    UnpackProxyRequest (fun b => inl ("GET", "/app/event/x", "1.1",
        HeadersHTTPtoCocaine (map_to_list (Header sample_request)), Some [x31]))
      (fun _ _ => None) task =
    inl (mkRequest "GET" "/app/event/x" (Header sample_request) "" "" 1 [x31] false).
Proof.
  apply (request_roundtrip Path (fun v => Some [x01]) _ _ map_to_list sample_request (Some [x31]));
    try done.
  apply map_Forall_insert; [done|]. split; [split; [by vm_compute|done]|]. apply map_Forall_empty.
Defined.

Definition sample_relay (m : Message) : get_result :=
  if decide (msg_type m = v1Write) then Got None (Payload m) false else Got None [] true.

(** A codec of status codes, without headers. *)
Fixpoint bits_of (p : positive) : list byte :=
  match p with xH => [] | xO p => x00 :: bits_of p | xI p => x01 :: bits_of p end.
Fixpoint of_bits (bs : list byte) : positive :=
  match bs with [] => xH | x00 :: bs => xO (of_bits bs) | _ :: bs => xI (of_bits bs) end.
Definition sample_code (code : Z) (headers : Headers) : gobytes := Some (bits_of (encode code)).
Definition sample_uncode (b : gobytes) : (Z * Headers) + error :=
  match decode (of_bits (bytes_of b)) with Some code => inl (code, []) | None => inr EOF end.

Lemma sample_uncode_code code b :
  bytes_of b = bytes_of (sample_code code []) -> sample_uncode b = inl (code, []).
Proof.
  intros Hb. unfold sample_uncode. rewrite Hb. cbn.
  assert (Hbits : forall p, of_bits (bits_of p) = p) by (induction p; cbn; congruence).
  by rewrite Hbits, decode_encode.
Qed.


(** [routes] holds of a path the specification takes apart. *)
Lemma route_example : route "/app/event" = Ok (Some ("app", "event", "/")).
Proof. apply route_complete. by apply (route_bare "/" "app" "event"). Qed.
