(* ===== verification/Tokens.v ===== *)
(** * cocaine12/token.go and auth/tvm/tvm.go: authorization tokens

    The registry of token managers, and the manager of tickets with its
    goroutine. A factory is a parameter: what [Create] does is the business of
    the package that registered it. *)
From S2P Require Import Prelude GoTypes.
From stdpp Require Import sorting.
From Stdlib Require Import ZArith Lia.

Open Scope stdpp_scope.

Record Token : Type := mkToken {
  ty : string;
  body : string
}.

Definition NewToken (ty body : string) : Token := mkToken ty body.

(** ** The registry *)

Section Registry.
Context {Factory Manager : Type}.
Context (Create : Factory -> string -> Token -> Manager + error).

(** What [NewTokenManager] returns. *)
Inductive TokenManager : Type :=
| NullTokenManager
| Managed (m : Manager).

(** [NullTokenManager.Token]; the token of a registered manager is its own. *)
Definition Token_of (managed : Manager -> Token) (m : TokenManager) : Token :=
  match m with
  | NullTokenManager => mkToken "" ""
  | Managed m => managed m
  end.

Abbreviation registry := (gmap string Factory).

(** [factory] may be nil. *)
Definition Register (name : string) (factory : option Factory) (factories : registry)
    : outcome registry :=
  match factory with
  | None => Panic
  | Some factory =>
    match factories !! name with
    | Some _ => Panic
    | None => Ok (<[name := factory]> factories)
    end
  end.

(** [TokenManagers]; [order] is the map as [range] visits it. *)
Definition TokenManagers (order : list (string * Factory)) : list string :=
  merge_sort String.le order.*1.

Definition NewTokenManager (factories : registry) (appName : string) (token : Token)
    : TokenManager + error :=
  match factories !! ty token with
  | Some factory =>
    match Create factory appName token with
    | inl m => inl (Managed m)
    | inr err => inr err
    end
  | None => inl NullTokenManager
  end.

(** The calls of [Register] of the packages linked into the program. *)
Fixpoint register_all (rs : list (string * option Factory)) (factories : registry)
    : outcome registry :=
  match rs with
  | [] => Ok factories
  | (name, factory) :: rs =>
    outcome_bind (Register name factory factories) (register_all rs)
  end.
End Registry.

Arguments TokenManager : clear implicits.
Arguments NullTokenManager {Manager}.

(** ** auth/tvm/tvm.go *)

Definition tvmTokenType : string := "TVM".

(** Where the goroutine of [run] is: at its [select], waiting for the service, or
    returned. *)
Inductive tvm_pc : Type :=
| AtSelect
| AtCall
| Exited.

(** [requests] is what was asked from the service. *)
Record tvm_manager : Type := mkTvm {
  appName : string;
  ticket : Token;
  cancelled : bool;
  ticker_stopped : bool;
  pc : tvm_pc;
  requests : list (string * string)
}.

(** [Create], once the service is connected. *)
Definition tvm_Create (appName : string) (token : Token) : tvm_manager :=
  mkTvm appName token false false AtSelect [].

(** What becomes of a call of ["refresh_ticket"]. *)
Inductive answer : Type :=
| CallErr
| GetErr
| ExtractErr
| Ticket (ticketResult : string).

(** A tick, the end of the call it makes, [Stop], and the end of the context. *)
Inductive tvm_event : Type :=
| Tick
| Answer (a : answer)
| Stop
| Done.

Definition tvm_step (t : tvm_manager) (e : tvm_event) : option tvm_manager :=
  match e, pc t with
  | Tick, AtSelect =>
    Some (mkTvm (appName t) (ticket t) (cancelled t) (ticker_stopped t) AtCall
      (requests t ++ [(appName t, body (ticket t))]))
  | Answer (Ticket ticketResult), AtCall =>
    Some (mkTvm (appName t) (NewToken tvmTokenType ticketResult) (cancelled t) (ticker_stopped t)
      AtSelect (requests t))
  | Answer _, AtCall =>
    Some (mkTvm (appName t) (ticket t) (cancelled t) (ticker_stopped t) AtSelect (requests t))
  | Stop, _ =>
    Some (mkTvm (appName t) (ticket t) true (ticker_stopped t) (pc t) (requests t))
  | Done, AtSelect =>
    if cancelled t then
      Some (mkTvm (appName t) (ticket t) (cancelled t) true Exited (requests t))
    else None
  | _, _ => None
  end.

(** ** Lemmas: the registry *)

Section RegistryLemmas.
Context {Factory : Type}.

Lemma Register_Ok name factory (factories m : gmap string Factory) :
  Register name factory factories = Ok m <->
  exists f, factory = Some f /\ factories !! name = None /\ m = <[name := f]> factories.
Proof.
  unfold Register. destruct factory as [f|]; [|naive_solver].
  destruct (factories !! name) eqn:Hn; naive_solver.
Qed.

(** The registrations succeed when every factory is there and every name new,
    and the registry is then made of them. *)
Lemma register_all_Ok rs (factories m : gmap string Factory) :
  register_all rs factories = Ok m <->
  exists fs, rs = prod_map id Some <$> fs /\ NoDup fs.*1 /\
    (forall name, name ∈ fs.*1 -> factories !! name = None) /\
    m = list_to_map fs ∪ factories.
Proof.
  revert factories. induction rs as [|[name factory] rs IH]; intros factories; cbn [register_all].
  - split.
    + intros [= ->]. exists []. split_and!; [done|constructor|set_solver|]. by rewrite list_to_map_nil, (left_id_L ∅ (∪)).
    + intros (fs & Hfs & _ & _ & ->). destruct fs; [|done]. by rewrite list_to_map_nil, (left_id_L ∅ (∪)).
  - rewrite outcome_bind_ok. split.
    + intros (m1 & Hm1 & Hrest). apply Register_Ok in Hm1 as (f & -> & Hn & ->).
      apply IH in Hrest as (fs & -> & Hnd & Hnew & ->). exists ((name, f) :: fs).
      assert (Hnin : name ∉ fs.*1) by (intros Hin; apply Hnew in Hin; by rewrite lookup_insert_eq in Hin).
      split_and!; [done|by constructor| |].
      * intros x Hx. apply elem_of_cons in Hx as [->|Hx]; [done|].
        specialize (Hnew x Hx). rewrite lookup_insert_ne in Hnew; [done|]. intros ->. by apply Hnin.
      * cbn. rewrite <- insert_union_l. symmetry. apply insert_union_r.
        by apply not_elem_of_list_to_map_1.
    + intros (fs & Hfs & Hnd & Hnew & ->). destruct fs as [|[x f] fs]; [done|].
      cbn in Hfs. simplify_eq/=. apply NoDup_cons in Hnd as [Hnin Hnd].
      exists (<[x := f]> factories). split; [cbn; by rewrite Hnew by set_solver|].
      apply IH. exists fs. split_and!; [done|done| |].
      * intros y Hy. rewrite lookup_insert_ne; [apply Hnew; set_solver|]. intros ->. by apply Hnin.
      * cbn. rewrite <- insert_union_l. apply insert_union_r. by apply not_elem_of_list_to_map_1.
Qed.

(** The order of the visit does not matter: the names come sorted, each once. *)
Lemma TokenManagers_sorted (m : gmap string Factory) order :
  order ≡ₚ map_to_list m ->
  StronglySorted String.le (TokenManagers order) /\ TokenManagers order ≡ₚ (map_to_list m).*1.
Proof.
  intros Horder. split; [apply Sorted_StronglySorted; [apply _|]; apply (Sorted_merge_sort String.le)|].
  unfold TokenManagers. rewrite (merge_sort_Permutation String.le). by rewrite Horder.
Qed.

Lemma TokenManagers_order (m : gmap string Factory) order order' :
  order ≡ₚ map_to_list m -> order' ≡ₚ map_to_list m -> TokenManagers order = TokenManagers order'.
Proof.
  intros H1 H2. destruct (TokenManagers_sorted m order H1) as [Hs1 Hp1].
  destruct (TokenManagers_sorted m order' H2) as [Hs2 Hp2].
  apply (StronglySorted_unique String.le); [done|done|]. by rewrite Hp1, Hp2.
Qed.
End RegistryLemmas.

(** What the registry holds after registrations that did not panic. *)
Lemma register_all_lookup {Factory} (rs : list (string * option Factory)) m :
  register_all rs ∅ = Ok m ->
  (map_to_list m).*1 ≡ₚ rs.*1 /\
  (forall name f, m !! name = Some f <-> (name, Some f) ∈ rs) /\
  (forall name, m !! name = None <-> name ∉ rs.*1).
Proof.
  intros Hm. apply register_all_Ok in Hm as (fs & -> & Hnd & _ & ->). rewrite (right_id_L ∅ (∪)).
  assert (Hfst : (prod_map id Some <$> fs).*1 = fs.*1).
  { rewrite <- list_fmap_compose. by apply list_fmap_ext. }
  rewrite Hfst. split_and!; [by rewrite map_to_list_to_map| |].
  - intros name f. rewrite <- elem_of_list_to_map by done. rewrite list_elem_of_fmap. split.
    + intros Hf. by exists (name, f).
    + intros ([? ?] & ? & ?). by simplify_eq/=.
  - intros name. split; [apply not_elem_of_list_to_map_2|apply not_elem_of_list_to_map_1].
Qed.

(** ** Lemmas: the manager of tickets *)

(** The token after the answers of [es], and what was asked on the way. *)
Fixpoint current (token : Token) (es : list tvm_event) : Token :=
  match es with
  | [] => token
  | Answer (Ticket ticketResult) :: es => current (NewToken tvmTokenType ticketResult) es
  | _ :: es => current token es
  end.

Fixpoint asked (app : string) (token : Token) (es : list tvm_event) : list (string * string) :=
  match es with
  | [] => []
  | Tick :: es => (app, body token) :: asked app token es
  | Answer (Ticket ticketResult) :: es => asked app (NewToken tvmTokenType ticketResult) es
  | _ :: es => asked app token es
  end.

Lemma tvm_run es t t' :
  run tvm_step t es = Some t' ->
  appName t' = appName t /\ ticket t' = current (ticket t) es /\
  requests t' = requests t ++ asked (appName t) (ticket t) es /\
  cancelled t' = cancelled t || existsb (fun e => if e is Stop then true else false) es.
Proof.
  revert t. induction es as [|e es IH]; intros t Hrun; cbn [run] in Hrun.
  - simplify_eq. by rewrite app_nil_r, orb_false_r.
  - destruct (tvm_step t e) as [t1|] eqn:He; [|done]. apply IH in Hrun as (Ha & Ht & Hr & Hc).
    destruct e as [|[| | |r]| |]; unfold tvm_step in He; step_inv He; split_and!; try done; cbn;
      rewrite ?Hr, ?Hc; cbn; rewrite <- ?(assoc_L (++)); try done; by rewrite ?orb_true_r.
Qed.

(** The goroutine has returned when the ticker is stopped, and not before the
    context has ended. *)
Definition tvm_inv (t : tvm_manager) : Prop :=
  (pc t = Exited -> cancelled t = true) /\ (ticker_stopped t = true <-> pc t = Exited).

Lemma tvm_inv_run es t t' : tvm_inv t -> run tvm_step t es = Some t' -> tvm_inv t'.
Proof.
  apply run_invariant. clear es t t'. intros t e t' [H1 H2] He.
  destruct e as [|[| | |r]| |]; unfold tvm_step in He; step_inv He; unfold tvm_inv; cbn; naive_solver.
Qed.

(** ** Properties *)

(** After registrations that did not panic, the names come out
    sorted and once each in whatever order the map is visited; registering a nil
    factory or a name again panics, and nothing else does; a token is managed by
    the factory of its type, whose error is passed on, or by the null manager when
    there is none, whatever the token says. *)
Theorem registry_functional {Factory Manager : Type}
    (Create : Factory -> string -> Token -> Manager + error)
    (rs : list (string * option Factory)) (m : gmap string Factory) (order : list (string * Factory))
    (Hrs : register_all rs ∅ = Ok m) (Horder : order ≡ₚ map_to_list m) :
  StronglySorted String.le (TokenManagers order) /\
  TokenManagers order ≡ₚ rs.*1 /\ NoDup rs.*1 /\
  (forall name factory, Register name factory m = Panic <-> factory = None \/ name ∈ rs.*1) /\
  (forall app token f, (ty token, Some f) ∈ rs ->
     NewTokenManager Create m app token =
       match Create f app token with inl h => inl (Managed h) | inr err => inr err end) /\
  (forall app token, ty token ∉ rs.*1 -> NewTokenManager Create m app token = inl NullTokenManager).
Proof.
  destruct (register_all_lookup rs m Hrs) as (Hnames & Hsome & Hnone).
  destruct (TokenManagers_sorted m order Horder) as [Hsorted Hperm].
  assert (Hnd : NoDup rs.*1) by (rewrite <- Hnames; apply NoDup_fst_map_to_list).
  split_and!; [done|by rewrite Hperm|done| | |].
  - intros name factory. unfold Register. destruct factory as [f|]; [|naive_solver].
    destruct (m !! name) as [f'|] eqn:Hn.
    + apply Hsome in Hn. split; [|done]. intros _. right. apply list_elem_of_fmap. by exists (name, Some f').
    + apply Hnone in Hn. naive_solver.
  - intros app token f Hf. apply Hsome in Hf. unfold NewTokenManager. by rewrite Hf.
  - intros app token Hn. apply Hnone in Hn. unfold NewTokenManager. by rewrite Hn.
Qed.

(** In every run of a manager of tickets, its token is the last
    one the service gave, a failed refresh keeps it, and each refresh asks with
    the token of that moment; the goroutine returns only after [Stop], stops its
    ticker then and asks nothing more, and after [Stop] it can always return once
    a pending call is answered. *)
Theorem tvm_tickets (app : string) (token : Token) (es : list tvm_event) (t : tvm_manager)
    (Hrun : run tvm_step (tvm_Create app token) es = Some t) :
  ticket t = current token es /\
  requests t = asked app token es /\
  (cancelled t = true <-> Stop ∈ es) /\
  (pc t = Exited -> Stop ∈ es /\ ticker_stopped t = true /\ forall e, is_Some (tvm_step t e) -> e = Stop) /\
  (Stop ∈ es -> exists es' t', run tvm_step t es' = Some t' /\ pc t' = Exited /\
     requests t' = requests t /\ (es' = [] \/ es' = [Done] \/ pc t = AtCall)).
Proof.
  destruct (tvm_run es _ t Hrun) as (_ & Ht & Hr & Hc). cbn in Ht, Hr, Hc.
  assert (Hcs : cancelled t = true <-> Stop ∈ es).
  { rewrite Hc, existsb_exists. setoid_rewrite <- list_elem_of_In. split.
    - intros (e & He & Hs). by destruct e.
    - intros He. by exists Stop. }
  assert (Hinv : tvm_inv t) by (eapply tvm_inv_run; [|exact Hrun]; unfold tvm_inv; naive_solver).
  destruct Hinv as [Hx Hk]. split_and!; [done..| |].
  - intros Hpc. split_and!; [by apply Hcs, Hx|by apply Hk|]. intros e. unfold tvm_step. rewrite Hpc.
    destruct e as [|[]| |]; cbn; intros [? ?]; done.
  - intros Hs. apply Hcs in Hs. destruct (pc t) eqn:Hpc.
    + eexists [Done], _. cbn. rewrite Hpc, Hs. split_and!; try done. auto.
    + eexists [Answer CallErr; Done], _. cbn. rewrite Hpc. cbn. rewrite Hs. split_and!; try done. auto.
    + exists [], t. split_and!; try done. auto.
Qed.

(** ** Witnesses *)

Lemma registry_functional_witness :
  TokenManagers [("TVM", 1); ("OAUTH", 2)] = ["OAUTH"; "TVM"] /\
  NewTokenManager (fun f _ _ => if decide (f = 1) then inl f else inr EOF)
    (<["OAUTH" := 2]> (<["TVM" := 1]> ∅)) "app" (mkToken "TVM" "t") = inl (Managed 1).
Proof.
  assert (H := registry_functional (fun f _ _ => if decide (f = 1) then inl f else inr EOF)
    [("TVM", Some 1); ("OAUTH", Some 2)] (<["OAUTH" := 2]> (<["TVM" := 1]> ∅))
    [("TVM", 1); ("OAUTH", 2)]).
  assert (H1 : register_all [("TVM", Some 1); ("OAUTH", Some 2)] ∅ =
    Ok (<["OAUTH" := 2]> (<["TVM" := 1]> ∅))) by done.
  assert (H2 : [("TVM", 1); ("OAUTH", 2)] ≡ₚ
    map_to_list (<["OAUTH" := 2]> (<["TVM" := 1]> (∅ : gmap string nat)))).
  { apply (bool_decide_unpack _). by vm_compute. }
  destruct (H H1 H2) as (_ & _ & _ & _ & Hnew & _). split; [by vm_compute|].
  rewrite (Hnew "app" (mkToken "TVM" "t") 1); [done|]. apply (bool_decide_unpack _). by vm_compute.
Defined.

Lemma tvm_tickets_witness :
  exists t, run tvm_step (tvm_Create "app" (mkToken "TVM" "a"))
      [Tick; Answer GetErr; Tick; Answer (Ticket "b"); Tick; Stop] = Some t /\
    requests t = [("app", "a"); ("app", "a"); ("app", "b")] /\ ticket t = mkToken "TVM" "b".
Proof.
  destruct (run tvm_step (tvm_Create "app" (mkToken "TVM" "a"))
      [Tick; Answer GetErr; Tick; Answer (Ticket "b"); Tick; Stop]) as [t|] eqn:Hrun;
    [|vm_compute in Hrun; discriminate].
  exists t. destruct (tvm_tickets _ _ _ t Hrun) as (Ht & Hr & _). split_and!; [done| |].
  - by rewrite Hr.
  - by rewrite Ht.
Defined.
