(* ===== verification/Defaults.v ===== *)
(** * cocaine12/defaults.go: the command line of a worker

    The part of packages [flag] and [strconv] that [newDefaults] uses (of Go 1.7,
    the version the repository is built with), the flags it declares, and
    [GetDefaults], which parses once. *)
From S2P Require Import Prelude GoTypes HTTP GoStrings Tokens.
From Stdlib Require Import ZArith Lia Ascii.

Open Scope stdpp_scope.

#[local] Arguments String.append : simpl nomatch.

(** ** strconv *)

(** The result of [ParseUint]: a number, [ErrSyntax] or [ErrRange]. *)
Inductive parsed_uint : Type :=
| Number (n : Z)
| SyntaxErr
| RangeErr.

Definition digit_value (c : ascii) : option Z :=
  let n := Z.of_N (N_of_ascii c) in
  if decide (48 <= n <= 57)%Z then Some (n - 48)%Z
  else if decide (97 <= n <= 122)%Z then Some (n - 97 + 10)%Z
  else if decide (65 <= n <= 90)%Z then Some (n - 65 + 10)%Z
  else None.

(** The loop of [ParseUint]; a digit out of the base is a syntax error, a number
    of more than 64 bits ends the loop at once. *)
Fixpoint parse_uint (base n : Z) (s : string) : parsed_uint :=
  match s with
  | EmptyString => Number n
  | String c s =>
    match digit_value c with
    | Some v =>
      if decide (base <= v)%Z then SyntaxErr
      else if decide (two64 <= n * base + v)%Z then RangeErr
      else parse_uint base (n * base + v) s
    | None => SyntaxErr
    end
  end.

(** [strconv.ParseUint(s, 0, 64)]: the base is in the prefix. *)
Definition ParseUint0 (s : string) : parsed_uint :=
  match s with
  | EmptyString => SyntaxErr
  | String "0" (String ("x" | "X") EmptyString) => SyntaxErr
  | String "0" (String ("x" | "X") s) => parse_uint 16 0 s
  | String "0" _ => parse_uint 8 0 s
  | _ => parse_uint 10 0 s
  end%char.

(** [strconv.ParseInt(s, 0, 64)]: the number and whether there is no error. *)
Definition ParseInt0 (s : string) : Z * bool :=
  let (neg, digits) :=
    match s with
    | String "-" s => (true, s)
    | String "+" s => (false, s)
    | _ => (false, s)
    end%char in
  let cutoff := (2 ^ 63)%Z in
  let clamp n ok :=
    if decide (neg = false /\ cutoff <= n)%Z then (cutoff - 1, false)%Z
    else if decide (neg = true /\ cutoff < n)%Z then (- cutoff, false)%Z
    else ((if neg then - n else n)%Z, ok) in
  match ParseUint0 digits with
  | SyntaxErr => (0%Z, false)
  | RangeErr => clamp (two64 - 1)%Z false
  | Number n => clamp n true
  end.

Definition ParseBool (s : string) : option bool :=
  if bool_decide (s ∈ ["1"; "t"; "T"; "TRUE"; "true"; "True"]) then Some true
  else if bool_decide (s ∈ ["0"; "f"; "F"; "FALSE"; "false"; "False"]) then Some false
  else None.

(** ** Values *)

Record defaultValues : Type := mkDefaults {
  appName : string;
  endpoint : string;
  locators : list string;
  protocol : Z;
  uuid : string;
  debug : bool;
  token : Token
}.

Definition defaultProtocolVersion : Z := 0.
Definition defaultLocatorEndpoint : string := "localhost:10053".
Definition tokenTypeKey : string := "COCAINE_APP_TOKEN_TYPE".
Definition tokenBodyKey : string := "COCAINE_APP_TOKEN_BODY".

Definition comma : ascii := ","%char.

Definition parseLocators (arg : string) : list string :=
  match IndexByte arg comma with
  | None => [arg]
  | Some _ => Split arg comma
  end.

Definition locators_String (l : list string) : string := Join l comma.

(** ** The flags *)

(** The variables of the flag set: the values and [showVersion]. *)
Record flag_vars : Type := mkVars {
  values : defaultValues;
  showVersion : bool
}.

Definition set_app (s : string) (v : defaultValues) : defaultValues :=
  mkDefaults s (endpoint v) (locators v) (protocol v) (uuid v) (debug v) (token v).
Definition set_endpoint (s : string) (v : defaultValues) : defaultValues :=
  mkDefaults (appName v) s (locators v) (protocol v) (uuid v) (debug v) (token v).
Definition set_locators (l : list string) (v : defaultValues) : defaultValues :=
  mkDefaults (appName v) (endpoint v) l (protocol v) (uuid v) (debug v) (token v).
Definition set_protocol (z : Z) (v : defaultValues) : defaultValues :=
  mkDefaults (appName v) (endpoint v) (locators v) z (uuid v) (debug v) (token v).
Definition set_uuid (s : string) (v : defaultValues) : defaultValues :=
  mkDefaults (appName v) (endpoint v) (locators v) (protocol v) s (debug v) (token v).
Definition set_token (t : Token) (v : defaultValues) : defaultValues :=
  mkDefaults (appName v) (endpoint v) (locators v) (protocol v) (uuid v) (debug v) t.

(** [flag.Value.Set] of a declared flag, [None] when there is no such flag. The
    boolean says whether the value was accepted; an integer is stored even when
    it was not. *)
Definition Set_flag (name value : string) (p : flag_vars) : option (flag_vars * bool) :=
  let store v := Some (mkVars v (showVersion p), true) in
  if decide (name = "app") then store (set_app value (values p))
  else if decide (name = "endpoint") then store (set_endpoint value (values p))
  else if decide (name = "locator") then store (set_locators (parseLocators value) (values p))
  else if decide (name = "protocol") then
    let (n, ok) := ParseInt0 value in
    Some (mkVars (set_protocol n (values p)) (showVersion p), ok)
  else if decide (name = "uuid") then store (set_uuid value (values p))
  else if decide (name = "showcocaineversion") then
    match ParseBool value with
    | Some b => Some (mkVars (values p) b, true)
    | None => Some (mkVars (values p) false, false)
    end
  else None.

Definition IsBoolFlag (name : string) : bool := bool_decide (name = "showcocaineversion").

(** The name and the value of ["name=value"]. *)
Fixpoint cut (s : string) (sep : ascii) : string * option string :=
  match s with
  | EmptyString => (EmptyString, None)
  | String c s =>
    if decide (c = sep) then (EmptyString, Some s)
    else let (name, value) := cut s sep in (String c name, value)
  end.

(** What [parseOne] sees in an argument. *)
Inductive argument : Type :=
| NotFlag
| Terminator
| BadSyntax
| Flag (name : string) (value : option string).

Definition flag_argument (name : string) : argument :=
  match name with
  | EmptyString | String ("-" | "=") _ => BadSyntax
  | _ => let (name, value) := cut name "=" in Flag name value
  end%char.

Definition read_argument (s : string) : argument :=
  match s with
  | EmptyString | String _ EmptyString => NotFlag
  | String "-" (String "-" EmptyString) => Terminator
  | String "-" (String "-" name) => flag_argument name
  | String "-" name => flag_argument name
  | _ => NotFlag
  end%char.

(** [FlagSet.Parse] with [ContinueOnError]: the variables when it returns, and
    whether it returned without an error. *)
Fixpoint Parse (args : list string) (p : flag_vars) : flag_vars * bool :=
  match args with
  | [] => (p, true)
  | s :: args =>
    match read_argument s with
    | NotFlag | Terminator => (p, true)
    | BadSyntax => (p, false)
    | Flag name value =>
      let continue value args :=
        match Set_flag name value p with
        | Some (p, true) => Parse args p
        | Some (p, false) => (p, false)
        | None => (p, false)
        end in
      match Set_flag name "" p with
      | None => (p, false)
      | Some _ =>
        match value with
        | Some value => continue value args
        | None =>
          if IsBoolFlag name then continue "true" args
          else
            match args with
            | [] => (p, false)
            | value :: args =>
              match Set_flag name value p with
              | Some (p, true) => Parse args p
              | Some (p, false) => (p, false)
              | None => (p, false)
              end
            end
        end
      end
    end
  end.

(** [strings.ToUpper(s) == "DEBUG"]: no other letter has an upper case among
    these five. *)
Definition is_DEBUG (s : string) : bool :=
  bool_decide (String.string_of_list_byte (upper <$> String.list_byte_of_string s) = "DEBUG").

Definition initial_values (getenv : string -> string) : defaultValues :=
  mkDefaults "gostandalone" "" [defaultLocatorEndpoint] defaultProtocolVersion ""
    (is_DEBUG (getenv "DEBUG")) (mkToken "" "").

(** [newDefaults]; [None] is [os.Exit(0)]. The error of [Parse] is not looked at. *)
Definition newDefaults (getenv : string -> string) (args : list string) : option defaultValues :=
  let p := (Parse args (mkVars (initial_values getenv) false)).1 in
  let v := set_token (mkToken (getenv tokenTypeKey) (getenv tokenBodyKey)) (values p) in
  if showVersion p then None else Some v.

(** [GetDefaults] on [os.Args] and the stored defaults: what it returns is what
    it leaves stored. *)
Definition GetDefaults (getenv : string -> string) (os_args : list string)
    (stored : option defaultValues) : option defaultValues :=
  match stored with
  | Some v => Some v
  | None => newDefaults getenv (drop 1 os_args)
  end.

(** ** Specification: command lines *)

(** A setting of the runtime's command line. *)
Inductive setting : Type :=
| SApp (s : string)
| SEndpoint (s : string)
| SLocator (l : list string)
| SProtocol (z : Z)
| SUuid (s : string).

#[export] Instance setting_eq_dec : EqDecision setting.
Proof. solve_decision. Defined.

Definition setting_name (s : setting) : string :=
  match s with
  | SApp _ => "app"
  | SEndpoint _ => "endpoint"
  | SLocator _ => "locator"
  | SProtocol _ => "protocol"
  | SUuid _ => "uuid"
  end.

Definition setting_value (s : setting) : string :=
  match s with
  | SApp s | SEndpoint s | SUuid s => s
  | SLocator l => locators_String l
  | SProtocol z => pretty z
  end.

Definition apply_setting (v : defaultValues) (s : setting) : defaultValues :=
  match s with
  | SApp s => set_app s v
  | SEndpoint s => set_endpoint s v
  | SLocator l => set_locators l v
  | SProtocol z => set_protocol z v
  | SUuid s => set_uuid s v
  end.

(** Endpoints have no comma; a protocol is an [int]. *)
Definition valid_setting (s : setting) : Prop :=
  match s with
  | SLocator l => l <> [] /\ Forall (free comma) l
  | SProtocol z => (- 2 ^ 63 <= z < 2 ^ 63)%Z
  | _ => True
  end.

(** ["-name"] or ["--name"], the value in the same argument or in the next. *)
Record spelling : Type := mkSpelling {
  double : bool;
  joined : bool
}.

Definition dashed (sp : spelling) (name : string) : string :=
  (if double sp then "--" else "-") +:+ name.

Definition spell (x : spelling * setting) : list string :=
  let (sp, s) := x in
  if joined sp then [dashed sp (setting_name s +:+ "=" +:+ setting_value s)]
  else [dashed sp (setting_name s); setting_value s].

Definition command_line (l : list (spelling * setting)) : list string := concat (map spell l).

(** What ends the parse: nothing more, an argument that is no flag, ["--"], a
    malformed flag or a flag that is not declared. *)
Definition declared (name : string) : bool :=
  bool_decide (name ∈ ["app"; "endpoint"; "locator"; "protocol"; "uuid"; "showcocaineversion"]).

Definition ends (rest : list string) : bool :=
  match rest with
  | [] => true
  | s :: _ =>
    match read_argument s with
    | Flag name _ => negb (declared name)
    | _ => true
    end
  end.

(** ** Lemmas: strconv *)

(** The ten values of a digit. *)
Ltac digit_cases x :=
  assert (x = 0 \/ x = 1 \/ x = 2 \/ x = 3 \/ x = 4 \/ x = 5 \/ x = 6 \/ x = 7 \/ x = 8 \/ x = 9)%N
    by lia; destruct_or!; subst x.

Lemma digit_value_pretty (x : N) : (x < 10)%N -> digit_value (pretty_N_char x) = Some (Z.of_N x).
Proof.
  intros Hx. by digit_cases x.
Qed.

(** The digits of a number, followed by [s]. *)
Lemma parse_pretty (x : N) (s : string) :
  (Z.of_N x < two64)%Z -> parse_uint 10 0 (pretty_N_go x s) = parse_uint 10 (Z.of_N x) s.
Proof.
  revert s. induction x as [x IH] using (well_founded_induction N.lt_wf_0). intros s Hx.
  destruct (decide (x = 0)%N) as [->|Hne]; [by rewrite pretty_N_go_0|].
  rewrite pretty_N_go_step by lia. rewrite IH; [|apply N.div_lt; lia|].
  - cbn [parse_uint]. rewrite digit_value_pretty by (apply N.mod_lt; lia).
    assert (Hdiv : (Z.of_N (x / 10) * 10 + Z.of_N (x mod 10) = Z.of_N x)%Z).
    { pose proof (N.div_mod x 10). lia. }
    assert (Hmod : (x mod 10 < 10)%N) by (apply N.mod_lt; lia).
    rewrite decide_False by lia. by rewrite Hdiv, decide_False by lia.
  - pose proof (N.div_lt x 10 ltac:(lia) ltac:(lia)). lia.
Qed.

(** A positive number does not begin with a zero nor with a sign. *)
Lemma pretty_head (x : N) (s : string) :
  (0 < x)%N -> exists d t, pretty_N_go x s = String d t /\ exists y, (0 < y < 10)%N /\ d = pretty_N_char y.
Proof.
  revert s. induction x as [x IH] using (well_founded_induction N.lt_wf_0). intros s Hx.
  rewrite pretty_N_go_step by lia. destruct (decide (x / 10 = 0)%N) as [H0|H0].
  - rewrite H0, pretty_N_go_0. eexists _, _. split; [done|]. exists (x mod 10)%N. split; [|done].
    pose proof (N.div_mod x 10). pose proof (N.mod_lt x 10). lia.
  - apply IH; [apply N.div_lt; lia|by apply N.neq_0_lt_0].
Qed.

Lemma ParseUint0_pretty (x : N) :
  (Z.of_N x < two64)%Z -> ParseUint0 (pretty x) = Number (Z.of_N x).
Proof.
  intros Hx. destruct (decide (x = 0)%N) as [->|Hne]; [by vm_compute|].
  unfold pretty, pretty_N. rewrite decide_False by done.
  change (Number (Z.of_N x)) with (parse_uint 10 (Z.of_N x) ""). rewrite <- parse_pretty by done.
  destruct (pretty_head x "" ltac:(lia)) as (d & t & -> & y & Hy & ->).
  assert (y <> 0)%N by lia. assert (y < 10)%N by lia. clear Hy. by digit_cases y.
Qed.

Lemma pretty_N_sign (x : N) : exists y t, (y < 10)%N /\ pretty x = String (pretty_N_char y) t.
Proof.
  destruct (decide (x = 0)%N) as [->|Hne]; [by exists 0%N, ""|].
  unfold pretty, pretty_N. rewrite decide_False by done.
  destruct (pretty_head x "" ltac:(lia)) as (d & t & -> & y & Hy & ->). exists y, t. split; [lia|done].
Qed.

Lemma ParseInt0_pretty (z : Z) : (- 2 ^ 63 <= z < 2 ^ 63)%Z -> ParseInt0 (pretty z) = (z, true).
Proof.
  intros Hz. destruct z as [|p|p]; [by vm_compute|..]; unfold ParseInt0.
  - change (pretty (Z.pos p)) with (pretty (N.pos p)).
    pose proof (ParseUint0_pretty (N.pos p) ltac:(unfold two64; lia)) as Hp.
    destruct (pretty_N_sign (N.pos p)) as (y & t & Hy & Heq). rewrite Heq in *.
    digit_cases y; cbn -[ParseUint0] in Hp |- *; rewrite Hp, !decide_False by lia; done.
  - change (pretty (Z.neg p)) with ("-" +:+ pretty (N.pos p)). cbn [String.append].
    rewrite ParseUint0_pretty by (unfold two64; lia). rewrite !decide_False by lia. done.
Qed.

(** ** Lemmas: arguments *)

Lemma parseLocators_Split arg : parseLocators arg = Split arg comma.
Proof.
  unfold parseLocators. destruct (IndexByte arg comma) eqn:Hi; [done|]. by rewrite Split_one.
Qed.

Lemma cut_app s sep t : free sep s -> cut (s +:+ String sep t) sep = (s, Some t).
Proof.
  induction s as [|c s IH]; intros Hf; cbn; [by rewrite decide_True|].
  apply free_cons in Hf as [Hc Hf]. rewrite decide_False by done. by rewrite IH.
Qed.

Lemma setting_declared s : declared (setting_name s) = true.
Proof. by destruct s. Qed.

Lemma read_joined dbl s :
  read_argument (dashed (mkSpelling dbl true) (setting_name s +:+ "=" +:+ setting_value s)) =
    Flag (setting_name s) (Some (setting_value s)).
Proof. by destruct dbl, s. Qed.

Lemma read_spaced dbl s :
  read_argument (dashed (mkSpelling dbl false) (setting_name s)) = Flag (setting_name s) None.
Proof. by destruct dbl, s. Qed.

Lemma Set_setting s p :
  valid_setting s ->
  Set_flag (setting_name s) (setting_value s) p =
    Some (mkVars (apply_setting (values p) s) (showVersion p), true).
Proof.
  destruct s as [s|s|l|z|s]; intros Hv; cbn [setting_name setting_value]; [done|done| | |done].
  - unfold Set_flag. cbn. rewrite parseLocators_Split. unfold locators_String.
    destruct Hv as [Hne Hf]. by rewrite Split_Join.
  - unfold Set_flag. cbn. by rewrite ParseInt0_pretty.
Qed.

Lemma Set_declared name value p :
  declared name = false <-> Set_flag name value p = None.
Proof.
  unfold declared, Set_flag. rewrite bool_decide_eq_false. split.
  - intros Hn. rewrite !decide_False; [done|set_solver..].
  - intros Hs Hin. repeat (apply elem_of_cons in Hin as [->|Hin]); [..|by apply not_elem_of_nil in Hin];
      cbn in Hs; try done; [by destruct (ParseInt0 value)|by destruct (ParseBool value)].
Qed.

Lemma Parse_spell x rest p :
  valid_setting x.2 ->
  Parse (spell x ++ rest) p = Parse rest (mkVars (apply_setting (values p) x.2) (showVersion p)).
Proof.
  destruct x as [[dbl jn] s]. cbn [snd]. intros Hv. unfold spell. cbn [joined].
  assert (Hd : Set_flag (setting_name s) "" p <> None).
  { intros Hn. apply Set_declared in Hn. by rewrite setting_declared in Hn. }
  destruct (Set_flag (setting_name s) "" p) as [q|] eqn:Hq; [|done].
  destruct jn; cbn [app Parse].
  - rewrite read_joined. by rewrite Hq, Set_setting.
  - rewrite read_spaced. rewrite Hq.
    assert (Hb : IsBoolFlag (setting_name s) = false) by (by destruct s).
    by rewrite Hb, Set_setting.
Qed.

Lemma Parse_ends rest p : ends rest = true -> (Parse rest p).1 = p.
Proof.
  destruct rest as [|s rest]; [done|]. cbn [ends Parse].
  destruct (read_argument s) as [| | |name value]; try done. rewrite negb_true_iff. intros Hd.
  apply (Set_declared name "" p) in Hd. by rewrite Hd.
Qed.

Definition apply_settings (v : defaultValues) (l : list (spelling * setting)) : defaultValues :=
  foldl apply_setting v l.*2.

(** A command line of settings gives their values, and nothing behind the first
    argument that is not a declared flag is looked at. *)
Lemma Parse_command_line l rest p :
  Forall (fun x => valid_setting x.2) l -> ends rest = true ->
  (Parse (command_line l ++ rest) p).1 = mkVars (apply_settings (values p) l) (showVersion p).
Proof.
  revert p. induction l as [|x l IH]; intros p Hl He.
  - cbn. rewrite Parse_ends by done. by destruct p.
  - apply Forall_cons in Hl as [Hx Hl]. change (command_line (x :: l)) with (spell x ++ command_line l).
    rewrite <- (assoc_L (++)), Parse_spell by done. by rewrite IH.
Qed.

Lemma newDefaults_command_line getenv l rest :
  Forall (fun x => valid_setting x.2) l -> ends rest = true ->
  newDefaults getenv (command_line l ++ rest) =
    Some (set_token (mkToken (getenv tokenTypeKey) (getenv tokenBodyKey))
            (apply_settings (initial_values getenv) l)).
Proof. intros Hl He. unfold newDefaults. by rewrite Parse_command_line. Qed.

(** Settings of different flags commute. *)
Lemma apply_setting_comm v s t :
  setting_name s <> setting_name t ->
  apply_setting (apply_setting v s) t = apply_setting (apply_setting v t) s.
Proof. by destruct s, t. Qed.

Lemma apply_settings_permutation l l' v :
  NoDup (setting_name <$> l) -> l ≡ₚ l' -> foldl apply_setting v l = foldl apply_setting v l'.
Proof.
  intros Hnd Hp. revert v Hnd. induction Hp as [|s l l' Hp IH|s t l|l l' l'' Hp1 IH1 Hp2 IH2];
    intros v Hnd; cbn [foldl fmap list_fmap] in *.
  - done.
  - apply NoDup_cons in Hnd as [_ Hnd]. by apply IH.
  - apply NoDup_cons in Hnd as [Hnin _]. rewrite apply_setting_comm; [done|set_solver].
  - rewrite IH1 by done. apply IH2. by rewrite <- Hp1.
Qed.

(** [GetDefaults] parses once: later changes of the arguments are not seen. *)
Lemma GetDefaults_once getenv args args' stored v :
  GetDefaults getenv args stored = Some v -> GetDefaults getenv args' (Some v) = Some v.
Proof. done. Qed.

(** ** Properties *)

(** C30 (round trip): the five settings of the runtime, in any order and any
    spelling, are read back from its command line with the token and the debug
    flag of the environment, whatever follows an argument that ends the flags. *)
Theorem runtime_command_line (getenv : string -> string) (app endpoint uuid : string)
    (locators : list string) (protocol : Z) (l : list (spelling * setting)) (rest : list string)
    (Hl : l.*2 ≡ₚ [SApp app; SEndpoint endpoint; SLocator locators; SProtocol protocol; SUuid uuid])
    (Hlocators : locators <> [] /\ Forall (free comma) locators)
    (Hprotocol : (- 2 ^ 63 <= protocol < 2 ^ 63)%Z)
    (Hrest : ends rest = true) :
  newDefaults getenv (command_line l ++ rest) =
    Some (mkDefaults app endpoint locators protocol uuid (is_DEBUG (getenv "DEBUG"))
            (mkToken (getenv tokenTypeKey) (getenv tokenBodyKey))).
Proof.
  rewrite newDefaults_command_line; [| |done].
  - unfold apply_settings. erewrite apply_settings_permutation; [|  |exact Hl]; [done|].
    rewrite Hl. by apply (bool_decide_unpack _).
  - apply (Forall_fmap snd valid_setting). rewrite Hl. rewrite !Forall_cons. by split_and!.
Qed.

(** ** Witnesses *)

Definition sample_env (name : string) : string :=
  if decide (name = "DEBUG") then "debug" else if decide (name = tokenTypeKey) then "TVM" else "".

Lemma runtime_command_line_witness :
  newDefaults sample_env
    ["--locator"; "host1:10053,127.0.0.1:10054"; "--uuid"; "uuid"; "-protocol=1"; "--app=echo";
     "--endpoint"; "/var/run/cocaine/sock"; "serve"; "--app"; "other"] =
  Some (mkDefaults "echo" "/var/run/cocaine/sock" ["host1:10053"; "127.0.0.1:10054"] 1 "uuid" true
          (mkToken "TVM" "")).
Proof.
  apply (runtime_command_line sample_env "echo" "/var/run/cocaine/sock" "uuid"
    ["host1:10053"; "127.0.0.1:10054"] 1
    [(mkSpelling true false, SLocator ["host1:10053"; "127.0.0.1:10054"]);
     (mkSpelling true false, SUuid "uuid"); (mkSpelling false true, SProtocol 1);
     (mkSpelling true true, SApp "echo"); (mkSpelling true false, SEndpoint "/var/run/cocaine/sock")]
    ["serve"; "--app"; "other"]); [|split; [done|by repeat constructor]|lia|done].
  cbn. by apply (bool_decide_unpack _).
Defined.
