(* ===== verification/Startup.v ===== *)
(** * [NewWorkerNG] of cocaine12/workerng.go and [NewWorker] of worker.go: the
    start of a worker

    The defaults of Defaults.v, the token managers of Tokens.v, the connection and
    [newWorkerNG] of Worker.v, in the order the code goes through them, with what
    was acquired on the way. *)
From S2P Require Import Prelude GoTypes ProtoV1 Handler Tokens Defaults Worker.
From Stdlib Require Import ZArith Lia.

Open Scope stdpp_scope.

Section Startup.
Context {Factory Manager : Type}.
Context (Create : Factory -> string -> Token -> Manager + error).
(** [newUnixConnection] to an endpoint: its error, or none. *)
Context (dial : string -> option error).
(** The text of an error. *)
Context (text : error -> string).

(** What a call of [NewWorkerNG] leaves behind: the token manager it created and
    whether it opened a connection, and what it returns. *)
Record startup : Type := mkStartup {
  created : option (TokenManager Manager);
  connected : bool;
  result : WorkerNG + error
}.

(** After [GetDefaults]; [lost] and [sel] are the state of the new connection and
    the end of the handshake's [select]. *)
Definition NewWorkerNG_with (values : defaultValues) (factories : gmap string Factory)
    (lost : bool) (sel : write_select) : startup :=
  if decide (endpoint values = "") then mkStartup None false (inr ErrNoCocaineEndpoint)
  else
    match NewTokenManager Create factories (Defaults.appName values) (token values) with
    | inr err =>
      mkStartup None false (inr (Errorf "unable to create token manager: %v" [VString (text err)]))
    | inl tokenManager =>
      match dial (endpoint values) with
      | Some err =>
        mkStartup (Some tokenManager) false
          (inr (Errorf "unable to connect to Cocaine via %s: %v"
                  [VString (endpoint values); VString (text err)]))
      | None =>
        mkStartup (Some tokenManager) true
          (newWorkerNG lost (uuid values) (protocol values) (Defaults.debug values) sel)
      end
    end.

(** [NewWorkerNG] in a process with the arguments [os_args]: the defaults it
    leaves stored, or [None] when it exits. *)
Definition NewWorkerNG (getenv : string -> string) (os_args : list string)
    (stored : option defaultValues) (factories : gmap string Factory)
    (lost : bool) (sel : write_select) : option (defaultValues * startup) :=
  (fun values => (values, NewWorkerNG_with values factories lost sel)) <$>
    GetDefaults getenv os_args stored.

(** [Worker] of cocaine12/worker.go, an adapter to [WorkerNG]. *)
Record Worker : Type := mkFacade {
  impl : WorkerNG;
  handlers : EventHandlers;
  terminationHandler : bool            (* not nil *)
}.

Definition NewWorker (s : startup) : Worker + error :=
  match result s with
  | inl impl => inl (mkFacade impl NewEventHandlers false)
  | inr err => inr err
  end.

End Startup.

(** ** Lemmas *)

Lemma newWorkerNG_sent (id : string) (dbg : bool) :
  exists w, newWorkerNG false id 1 dbg Sent = inl w /\ Worker.id w = id /\
    written w = [newHandshakeV1 id] /\ Worker.debug w = dbg /\ close_calls w = 0 /\
    heartbeatTimer w = mkTimer false false /\ disownTimer w = mkTimer false false.
Proof. by eexists. Qed.

Lemma newWorkerNG_error lost id pv dbg sel :
  (exists err, newWorkerNG lost id pv dbg sel = inr err) <-> pv <> 1%Z \/ sel = TimedOut.
Proof.
  unfold newWorkerNG. case_decide as Hp; cbn.
  - destruct sel; cbn; (split; [intros [err Herr]|intros [?|?]]); eauto; done.
  - split; [by left|]. intros _. by eexists.
Qed.
(** ** Properties *)

(** A process started with the command line and the environment
    of the runtime gets a worker that has written the handshake with its uuid and
    nothing else, with its timers stopped, and the token manager of the token of
    its environment, when the managers are registered, the unix socket of its
    endpoint accepts it and the protocol is the first version. *)
Theorem worker_starts {Factory Manager : Type}
    (Create : Factory -> string -> Token -> Manager + error)
    (dial : string -> option error) (text : error -> string)
    (getenv : string -> string) (prog app ep id : string)
    (locs : list string) (l : list (spelling * setting)) (rest : list string)
    (factories : gmap string Factory) (m : TokenManager Manager)
    (Hl : Forall (fun x => valid_setting x.2) l) (Hrest : ends rest = true)
    (Happlied : apply_settings (initial_values getenv) l =
       mkDefaults app ep locs 1 id (is_DEBUG (getenv "DEBUG")) (mkToken "" ""))
    (Hep : ep <> "")
    (Hm : NewTokenManager Create factories app (mkToken (getenv tokenTypeKey) (getenv tokenBodyKey)) = inl m)
    (Hdial : dial ep = None) :
  exists values w,
    NewWorkerNG Create dial text getenv (prog :: command_line l ++ rest) None factories false Sent =
      Some (values, mkStartup (Some m) true (inl w)) /\
    Worker.id w = id /\ written w = [newHandshakeV1 id] /\
    Worker.debug w = is_DEBUG (getenv "DEBUG") /\
    armed (heartbeatTimer w) = false /\ armed (disownTimer w) = false.
Proof.
  unfold NewWorkerNG, GetDefaults. cbn [drop]. rewrite drop_0, newDefaults_command_line by done.
  rewrite Happlied. destruct (newWorkerNG_sent id (is_DEBUG (getenv "DEBUG"))) as (w & Hw & Hs).
  cbn [fmap option_fmap option_map]. eexists _, w. split.
  - unfold NewWorkerNG_with. cbn. rewrite decide_False, Hm, Hdial by done. by rewrite Hw.
  - destruct Hs as (-> & -> & -> & _ & -> & ->). done.
Qed.

(** When the start fails, exactly one thing is wrong; the token
    manager that was created is never stopped, and the connection that was made is
    never closed. *)
Theorem worker_startup_errors {Factory Manager : Type}
    (Create : Factory -> string -> Token -> Manager + error)
    (dial : string -> option error) (text : error -> string)
    (values : defaultValues) (factories : gmap string Factory)
    (lost : bool) (sel : write_select) :
  let s := NewWorkerNG_with Create dial text values factories lost sel in
  let managed := NewTokenManager Create factories (Defaults.appName values) (token values) in
  (exists err, NewWorker s = inr err) ->
  endpoint values = "" /\ created s = None /\ connected s = false /\ result s = inr ErrNoCocaineEndpoint \/
  (exists err, endpoint values <> "" /\ managed = inr err /\ created s = None /\ connected s = false) \/
  exists m, endpoint values <> "" /\ managed = inl m /\ created s = Some m /\
    (dial (endpoint values) <> None /\ connected s = false \/
     dial (endpoint values) = None /\ connected s = true /\ (protocol values <> 1%Z \/ sel = TimedOut)).
Proof.
  cbv zeta. unfold NewWorkerNG_with, NewWorker. case_decide as Hep; [by left|].
  destruct (NewTokenManager _ _ _ _) as [m|err]; [|by right; left; exists err].
  intros Herr. right. right. exists m. destruct (dial (endpoint values)) as [err|] eqn:Hd; cbn in *.
  - split_and!; auto.
  - split_and!; [done..|]. right. split_and!; [done..|]. apply (newWorkerNG_error lost (uuid values) _ (Defaults.debug values)).
    destruct (newWorkerNG _ _ _ _ _) as [w|err]; [by destruct Herr|by exists err].
Qed.

(** ** Witnesses *)

Definition sample_factories : gmap string nat := <["TVM" := 7]> ∅.
Definition sample_Create (f : nat) (app : string) (t : Token) : nat + error := inl f.
Definition sample_line : list (spelling * setting) :=
  [(mkSpelling true false, SLocator ["h:1"]); (mkSpelling true false, SUuid "u");
   (mkSpelling true false, SEndpoint "/sock"); (mkSpelling true true, SApp "echo");
   (mkSpelling true false, SProtocol 1)].

Lemma worker_starts_witness :
  exists values w,
    NewWorkerNG sample_Create (fun _ => None) (fun _ => "") sample_env
      ["worker"; "--locator"; "h:1"; "--uuid"; "u"; "--endpoint"; "/sock"; "--app=echo"; "--protocol"; "1"]
      None sample_factories false Sent =
      Some (values, mkStartup (Some (Managed 7)) true (inl w)) /\
    Worker.id w = "u" /\ written w = [newHandshakeV1 "u"] /\
    Worker.debug w = true /\ armed (heartbeatTimer w) = false /\ armed (disownTimer w) = false.
Proof.
  apply (worker_starts sample_Create (fun _ => None) (fun _ => "") sample_env "worker" "echo" "/sock" "u"
    ["h:1"] sample_line [] sample_factories (Managed 7)); try done.
  unfold sample_line. rewrite !Forall_cons. cbn. split_and!; try done. by rewrite Forall_singleton.
Defined.

Lemma worker_startup_errors_witness :
  let v := mkDefaults "echo" "/sock" [] 0 "u" false (mkToken "TVM" "t") in
  let s := NewWorkerNG_with sample_Create (fun _ => None) (fun _ => "") v sample_factories false Sent in
  (exists err, NewWorker s = inr err) /\ created s = Some (Managed 7) /\ connected s = true.
Proof.
  intros v s. assert (Herr : exists err, NewWorker s = inr err) by by eexists.
  split; [done|].
  destruct (worker_startup_errors sample_Create (fun _ => None) (fun _ => "") v sample_factories false
    Sent Herr) as [(He & _)|[(err & _ & Hm & _)|(m & _ & Hm & Hc & [[Hd _]|(_ & Hk & _)])]].
  - done.
  - done.
  - done.
  - split; [|done]. vm_compute in Hm. injection Hm as <-. exact Hc.
Defined.
