(* ===== verification/Programs.v ===== *)
(** * A program: [Worker] of cocaine12/worker.go and the application of example/echo.go

    The operations of the adapter that an application configures before [Run], and
    the echo with its [main], from the arguments of the process to the answers of
    its sessions: Startup.v makes the worker, App.v runs it. *)
From S2P Require Import Prelude GoTypes ProtoV1 Worker App.
From S2P Require Handler Startup Defaults Tokens.
From Stdlib Require Import ZArith Lia.
Import Handler (handler_prog, HReturn, HRead, HWrite, HClose, HErrorMsg, EventHandlers).
Import Startup (mkFacade, impl, startup, result).

Open Scope stdpp_scope.

(** ** cocaine12/worker.go *)

Definition SetDebug (debug : bool) (w : Startup.Worker) : Startup.Worker :=
  mkFacade (Worker.SetDebug debug (impl w)) (Startup.handlers w) (Startup.terminationHandler w).
Definition EnableStackSignal (enable : bool) (w : Startup.Worker) : Startup.Worker :=
  mkFacade (Worker.EnableStackSignal enable (impl w)) (Startup.handlers w) (Startup.terminationHandler w).
Definition SetTerminationHandler (not_nil : bool) (w : Startup.Worker) : Startup.Worker :=
  mkFacade (impl w) (Startup.handlers w) not_nil.
Definition On (event : string) (handler : option handler_prog) (w : Startup.Worker) : Startup.Worker :=
  mkFacade (impl w) (Handler.On event handler (Startup.handlers w)) (Startup.terminationHandler w).
Definition SetFallbackHandler (handler : string -> handler_prog) (w : Startup.Worker) : Startup.Worker :=
  mkFacade (impl w) (Handler.SetFallbackHandler handler (Startup.handlers w)) (Startup.terminationHandler w).
Definition Stop (w : Startup.Worker) : Startup.Worker :=
  mkFacade (Worker.Stop (impl w)) (Startup.handlers w) (Startup.terminationHandler w).

(** [Run] up to the loop; [order] is its argument as [range] visits it. The loop
    then calls [Call] of the handlers. *)
Definition Run (order : list (string * option handler_prog)) (w : Startup.Worker) : Startup.Worker :=
  foldl (fun w '(event, handler) => On event handler w) w order.

(** The application that [Run] runs: its first event is the call of [WorkerNG.Run],
    whose own [select] ends as [sel] says. *)
Definition run_application (convertPayload : list value -> (Z * Z * string) + error) (stack : string)
    (unwinding : handler_prog -> handler_prog) (order : list (string * option handler_prog))
    (w : Startup.Worker) (sel : write_select) (es : list app_event) : option (outcome app) :=
  let w := Run order w in
  run (app_step convertPayload (Startup.handlers w) stack unwinding) (Ok (mkApp NotRun (impl w) []))
    (WorkerEvent (RunCall (Startup.terminationHandler w) sel) :: es).

(** ** example/echo.go *)
Section Echo.
Context (error_text : error -> string).

(** The span and the pause leave the answer alone; the deferred [Close] comes last. *)
Definition Echo : handler_prog :=
  HRead (fun '(body, err) =>
    match err with
    | Some err => HErrorMsg 999 (error_text err) (fun _ => HClose (fun _ => HReturn))
    | None => HWrite body (fun _ => HClose (fun _ => HReturn))
    end).

(** [main] up to [Run]: it panics when there is no worker. *)
Definition echo_main {Manager : Type} (s : startup (Manager := Manager)) : outcome Startup.Worker :=
  match Startup.NewWorker s with
  | inr _ => Panic
  | inl w => Ok (On "ping" (Some Echo) (EnableStackSignal false (SetTerminationHandler true w)))
  end.

(** ** Specification *)

(** What a session of the echo is answered, of the result of its first read. *)
Definition echo_reply (s : Z) (res : gobytes * option error) : list Message :=
  match res with
  | (body, None) => [newChunkV1 s (Handler.copy_bytes body); newChokeV1 s]
  | (_, Some err) => [newErrorV1 s Handler.cworkererrorcategory 999 (error_text err)]
  end.

(** ** Lemmas *)

Lemma echo_invocation event stack reads s :
  Handler.sent (Handler.invocation event Echo stack reads s) = echo_reply s (reads 0).
Proof. unfold Handler.invocation, Echo. cbn. by destruct (reads 0) as [body [err|]]. Qed.
End Echo.

Lemma fallback_invocation event stack reads s :
  Handler.sent (Handler.invocation event (Handler.DefaultFallbackHandler event) stack reads s) =
    [newErrorV1 s Handler.cworkererrorcategory Handler.ErrorNoEventHandler
       ("There is no handler for an event " +:+ event)].
Proof. done. Qed.

(** The worker of an application whose [main] got one. *)
Lemma echo_main_inv {Manager} error_text (s : startup (Manager := Manager)) w :
  echo_main error_text s = Ok w ->
  exists w0, result s = inl w0 /\ impl w = Worker.EnableStackSignal false w0 /\
    Startup.handlers w = Handler.On "ping" (Some (Echo error_text)) Handler.NewEventHandlers /\
    Startup.terminationHandler w = true.
Proof.
  unfold echo_main, Startup.NewWorker. destruct (result s) as [w0|]; [|done]. intros [= <-]. by exists w0.
Qed.

Lemma echo_handlers error_text event :
  Handler.Call (Handler.On "ping" (Some (Echo error_text)) Handler.NewEventHandlers) event =
    if decide (event = "ping") then Echo error_text else Handler.DefaultFallbackHandler event.
Proof.
  unfold Handler.Call. cbn [Handler.On Handler.handlers Handler.fallback].
  case_decide as He; [by subst; rewrite lookup_insert_eq|].
  by rewrite lookup_insert_ne by congruence.
Qed.

(** A worker that was started is a new one. *)
Lemma started_worker {Factory Manager} (Create : Factory -> string -> Tokens.Token -> Manager + error)
    dial text getenv os_args stored factories lost sel values s w0 :
  Startup.NewWorkerNG Create dial text getenv os_args stored factories lost sel = Some (values, s) ->
  result s = inl w0 ->
  newWorkerNG lost (Defaults.uuid values) (Defaults.protocol values) (Defaults.debug values) sel = inl w0.
Proof.
  unfold Startup.NewWorkerNG. destruct (Defaults.GetDefaults _ _ _) as [v|]; [|done]. intros [= <- <-].
  unfold Startup.NewWorkerNG_with. case_decide; [done|].
  destruct (Tokens.NewTokenManager _ _ _ _); [|done]. by destruct (dial _).
Qed.

(** The first result of the reads of a handler, when it read. *)
Lemma first_read {convertPayload hs stack w sp g d i res} :
  go_inv convertPayload hs stack w g d -> worker_rel w sp -> gos w !! i = Some g ->
  corrupt d = false -> head (reads d) = Some res ->
  exists st, streams sp !! g_session g = Some st /\
    ((exists m ms, msgs st = m :: ms /\ Handler.Read convertPayload (Handler.ReadMsg m) = Ok res) \/
     st = mkStream false [] /\ res = stream_closed).
Proof.
  intros Hg Hr Hi Hco Hres. destruct (gi_reads _ _ _ _ _ _ Hg Hco) as (n & Hn & Hret).
  exists (view g). split; [rewrite (rel_streams _ _ Hr); apply view_map_lookup with i, Hi; apply Hr|].
  destruct (reads d) as [|res' rs]; [done|]. injection Hres as ->. cbn in Hn.
  destruct (g_given g) as [|m ms] eqn:Hgiv; cbn in Hn.
  - right. destruct n as [|n]; [done|]. injection Hn as -> _. specialize (Hret ltac:(lia)).
    pose proof (rel_queue _ _ Hr) as Hq. rewrite Forall_lookup in Hq.
    destruct (Hq i g Hi) as (_ & Hp & Ho). unfold view. rewrite (Hp Hret), Hgiv. split; [|done].
    destruct (g_closed g); [done|]. specialize (Ho eq_refl). by destruct (g_queue g).
  - left. injection Hn as Hm _. unfold view. rewrite Hgiv. cbn. by eexists m, _.
Qed.

(** A handler that starts with a read and ended: the result of that read, and what
    it answered, of reads that start with it. *)
Lemma answered {convertPayload hs stack w sp g d i} p :
  go_inv convertPayload hs stack w g d -> worker_rel w sp -> gos w !! i = Some g ->
  corrupt d = false -> prog d = None -> handler_of hs g = p -> (exists k, p = HRead k) ->
  exists res st rs, streams sp !! g_session g = Some st /\
    ((exists m ms, msgs st = m :: ms /\ Handler.Read convertPayload (Handler.ReadMsg m) = Ok res) \/
     st = mkStream false [] /\ res = stream_closed) /\
    rs 0 = res /\ resp d = Handler.invocation (g_event g) p stack rs (g_session g).
Proof.
  intros Hg Hr Hi Hco Hp Hk [k ->]. destruct (reads d) as [|res l] eqn:Hreads.
  { pose proof (gi_first _ _ _ _ _ _ Hg k Hk Hco Hreads) as Hf. congruence. }
  destruct (first_read (res := res) Hg Hr Hi Hco) as (st & Hst & Hres); [by rewrite Hreads|].
  exists res, st, (after (reads d) (fun _ => stream_closed)). split_and!; [done..|by rewrite Hreads|].
  pose proof (gi_exec _ _ _ _ _ _ Hg Hco (fun _ => stream_closed)) as Hex. by rewrite Hp, Hk in Hex.
Qed.

(** ** Property *)

(** C5 (functional): the echo, from its process to its answers: in every run of the
    application that its [main] starts, whatever arrives and however its sessions
    interleave, a session of the event ping that ended without a panic of [Read] was
    answered with the first chunk that was sent to it and a choke, or with error 999
    and the text of what its first read failed with - an error sent to it, or the end
    of a stream that was closed empty; a session of another event got error 200. This
    is what the connection carries for it, unless it was closed. *)
Theorem echo_serves {Factory Manager : Type}
    (Create : Factory -> string -> Tokens.Token -> Manager + error)
    (dial : string -> option error) (text error_text : error -> string)
    (getenv : string -> string) (os_args : list string) (stored : option Defaults.defaultValues)
    (factories : gmap string Factory) (lost : bool) (hsel sel : write_select)
    (convertPayload : list value -> (Z * Z * string) + error) (stack : string)
    (unwinding : handler_prog -> handler_prog)
    (values : Defaults.defaultValues) (s : startup) (w : Startup.Worker)
    (es : list app_event) (a : app)
    (Hstart : Startup.NewWorkerNG Create dial text getenv os_args stored factories lost hsel = Some (values, s))
    (Hmain : echo_main error_text s = Ok w)
    (Hrun : run_application convertPayload stack unwinding [] w sel es = Some (Ok a)) :
  let sp := foldl spec_msg spec_init (dispatched (worker_events es)) in
  forall i g d, gos (a_worker a) !! i = Some g -> a_gos a !! i = Some d ->
    prog d = None -> corrupt d = false ->
    exists answer,
      on_wire (g_session g) (a_worker a) `sublist_of` answer /\
      (conn_closed (a_worker a) = false -> on_wire (g_session g) (a_worker a) = answer) /\
      (g_event g <> "ping" /\
         answer = [newErrorV1 (g_session g) 42 200 ("There is no handler for an event " +:+ g_event g)] \/
       g_event g = "ping" /\ exists res st,
         answer = echo_reply error_text (g_session g) res /\
         streams sp !! g_session g = Some st /\
         ((exists m ms, msgs st = m :: ms /\ Handler.Read convertPayload (Handler.ReadMsg m) = Ok res) \/
          st = mkStream false [] /\ res = stream_closed)).
Proof.
  intros sp i g d Hi Hd Hp Hco.
  destruct (echo_main_inv _ _ _ Hmain) as (w0 & Hw0 & Himpl & Hhs & _).
  pose proof (started_worker _ _ _ _ _ _ _ _ _ _ _ _ Hstart Hw0) as Hnew.
  destruct (new_worker _ _ _ _ _ _ Hnew) as (Hr0 & Hg0 & Hwr0).
  unfold run_application in Hrun. cbn [Run foldl] in Hrun. rewrite Hhs, Himpl in Hrun.
  assert (Hr1 : worker_rel (Worker.EnableStackSignal false w0) spec_init) by by eapply worker_rel_frame.
  assert (Hinv := app_run_inv _ _ _ _ _ _ _ Hr1 Hg0 Hwr0 Hrun).
  change (app_inv convertPayload (Handler.On "ping" (Some (Echo error_text)) Handler.NewEventHandlers) stack sp a)
    in Hinv.
  pose proof (ai_gos _ _ _ _ _ Hinv i g d Hi Hd) as Hg. exists (Handler.sent (resp d)).
  split; [apply Hg|]. split; [apply Hg|].
  destruct (decide (g_event g = "ping")) as [He|He].
  - right. split; [done|].
    destruct (answered (Echo error_text) Hg (ai_rel _ _ _ _ _ Hinv) Hi Hco Hp)
      as (res & st & rs & Hst & Hres & Hrs & Hd').
    { unfold handler_of. by rewrite echo_handlers, decide_True. }
    { by eexists. }
    exists res, st. split; [|done]. rewrite Hd', <- Hrs. apply echo_invocation.
  - left. split; [done|]. pose proof (gi_exec _ _ _ _ _ _ Hg Hco (fun _ => stream_closed)) as Hex.
    unfold handler_of in Hex. rewrite Hp, echo_handlers, decide_False in Hex by done.
    rewrite Hex. apply fallback_invocation.
Qed.

(** ** Witness: two sessions of an echo that the runtime started *)
Definition sample_process : option (Defaults.defaultValues * startup (Manager := nat)) :=
  Startup.NewWorkerNG Startup.sample_Create (fun _ => None) (fun _ => "") Defaults.sample_env
    ["echo"; "--locator"; "h:1"; "--uuid"; "u"; "--endpoint"; "/sock"; "--app"; "echo"; "--protocol"; "1"]
    None Startup.sample_factories false Sent.
Definition sample_sessions : list app_event :=
  [WorkerEvent (MsgReceived (newInvokeV1 2 "ping") Sent);
   WorkerEvent (MsgReceived (newInvokeV1 3 "pong") Sent);
   WorkerEvent (MsgReceived (newChunkV1 2 (bytes_of_string "hi")) Sent);
   Act 1 true; Act 0 true; Act 0 true; Act 1 true; Act 0 true; Act 0 true].

Lemma echo_serves_witness :
  match sample_process with
  | Some (values, s) =>
    match echo_main (fun _ => "") s with
    | Ok w =>
      match run_application (fun _ => inr EOF) "" (fun p => p) [] w Sent sample_sessions with
      | Some (Ok a) =>
        on_wire 2 (a_worker a) = [newChunkV1 2 (bytes_of_string "hi"); newChokeV1 2]
      | _ => False
      end
    | _ => False
    end
  | None => False
  end.
Proof.
  destruct sample_process as [[values s]|] eqn:Hs; [|vm_compute in Hs; discriminate].
  destruct (echo_main (fun _ => "") s) as [w|] eqn:Hw;
    [|vm_compute in Hs; injection Hs as <- <-; vm_compute in Hw; discriminate].
  destruct (run_application _ _ _ _ _ _ _) as [[a|]|] eqn:Hrun;
    [|vm_compute in Hs; injection Hs as <- <-; vm_compute in Hw; injection Hw as <-;
      vm_compute in Hrun; discriminate..].
  pose proof (echo_serves _ _ _ _ _ _ _ _ _ _ _ _ _ _ _ _ _ _ _ Hs Hw Hrun 0) as H. cbv zeta in H.
  vm_compute in Hs. injection Hs as <- <-. vm_compute in Hw. injection Hw as <-.
  vm_compute in Hrun. injection Hrun as <-.
  destruct (H _ _ eq_refl eq_refl eq_refl eq_refl) as (answer & _ & Hwire & [[He _]|(_ & res & st & -> & Hst & Hres)]).
  - by destruct He.
  - specialize (Hwire eq_refl). cbn [a_worker g_session] in Hwire |- *.
    vm_compute in Hst. injection Hst as <-.
    destruct Hres as [(m & ms & Hm & Hread)|[[=] _]]. vm_compute in Hm. injection Hm as <- <-.
    vm_compute in Hread. injection Hread as <-. exact Hwire.
Defined.
