(* ===== verification/Bridge.v ===== *)
(** * cocaine12/bridge/bridge.go: a web application behind a worker

    The arguments passed to the application, the fallback handler that turns an
    invocation into an HTTP request to it, and the goroutines of the bridge: its
    event loop, [Start] with the ping loop and the readers of the output, and
    [Close]. The HTTP client, the codec and the operating system are parameters or
    labels. *)
From S2P Require Import Prelude GoTypes ProtoV1 Handler HTTP GoStrings Proxy Tokens Defaults.
From Stdlib Require Import ZArith Lia Strings.Byte.

Open Scope stdpp_scope.

#[local] Arguments String.append : simpl nomatch.

(** ** Arguments

    A slice of strings is a part of an array; [append] writes into the array when
    it has room. *)
Record slice : Type := mkSlice {
  off : nat;
  len : nat
}.

Definition elems (array : list string) (s : slice) : list string :=
  take (len s) (drop (off s) array).

(** The array afterwards, and the elements of the result. *)
Definition append (array : list string) (s : slice) (vs : list string)
    : list string * list string :=
  (if decide (off s + len s + length vs <= length array)
   then take (off s + len s) array ++ vs ++ drop (off s + len s + length vs) array
   else array,
   elems array s ++ vs).

(** The loop of [filterEndpointArg]: the first ["--endpoint"] with a value. *)
Fixpoint endpoint_index (i : nat) (args : list string) : option nat :=
  match args with
  | [] => None
  | arg :: rest =>
    if decide (arg = "--endpoint" /\ rest <> []) then Some i
    else endpoint_index (S i) rest
  end.

Definition filterEndpointArg (array : list string) (args : slice) : list string * list string :=
  match endpoint_index 0 (elems array args) with
  | Some i => append array (mkSlice (off args) i) (drop (i + 2) (elems array args))
  | None => (array, elems array args)
  end.

Record BridgeConfig : Type := mkBridgeConfig {
  Name : string;
  Args : list string;
  Env : list string;
  Port : Z;
  StartupTimeout : Z
}.

Definition Endpoint (cfg : BridgeConfig) : string := "localhost:" +:+ pretty (Port cfg).

(** [NewBridgeConfig]: [os.Args] afterwards, and the configuration. *)
Definition NewBridgeConfig (environ os_args : list string)
    : outcome (list string * BridgeConfig) :=
  match os_args with
  | [] => Panic
  | _ =>
    let (os_args, args) := filterEndpointArg os_args (mkSlice 1 (length os_args - 1)) in
    Ok (os_args, mkBridgeConfig "" args environ 8080 5)
  end.

(** ** The fallback handler *)

(** The answer of the application: the pieces are those [io.Copy] reads from its
    body, up to its end or to an error, which is dropped. *)
Record app_response : Type := mkAppResponse {
  StatusCode : Z;
  resp_header : header;
  pieces : list (list byte)
}.

Section Fallback.
Context (decode_request : gobytes -> (string * string * string * Headers * gobytes) + error).
Context (encode_head : Z -> Headers -> gobytes).
Context (request_error : string -> string -> option error).
Context (range : header -> list (string * list string)).
Context (error_text : error -> string).
(** [http.DefaultClient.Do] with the scheme http and the given host. *)
Context (Do : string -> Request -> app_response + error).

(** [responseWriter.Write], which never fails, for each piece. *)
Fixpoint Copy (ps : list (list byte)) (k : handler_prog) : handler_prog :=
  match ps with
  | [] => k
  | p :: ps => HWrite (Some p) (fun _ => Copy ps k)
  end.

Definition fallback_handler (cfg : BridgeConfig) (ctx_done : bool) (event : string) : handler_prog :=
  HRead (fun '(msg, err) =>
    match err with
    | Some err =>
      if ctx_done then
        HTTP.reply encode_head StatusRequestTimeout "request was not received during a timeout"
      else HTTP.reply encode_head StatusBadRequest ("cannot process request " +:+ error_text err)
    | None =>
      match UnpackProxyRequest decode_request request_error msg with
      | inr err => HTTP.reply encode_head StatusBadRequest ("malformed request: " +:+ error_text err)
      | inl httpRequest =>
        match Do (Endpoint cfg) httpRequest with
        | inr err =>
          HTTP.reply encode_head StatusInternalServerError
            ("unable to proxy a request: " +:+ error_text err)
        | inl appResp =>
          HWrite (WriteHead encode_head (StatusCode appResp)
                    (HeadersHTTPtoCocaine (range (resp_header appResp))))
            (fun _ => Copy (pieces appResp) (HClose (fun _ => HReturn)))
        end
      end
    end).
End Fallback.

(** ** The goroutines of a bridge *)

Inductive child_state : Type :=
| NotStarted
| ChildRunning
| Exited.

(** [Start]: not called, at the pipes, at [child.Start], in [child.Wait], or
    returned. *)
Inductive start_pc : Type :=
| NotCalled
| Piping
| Piped
| Waiting
| Returned (failed : bool).

(** The goroutine that pings: not started, at [ping], at the [select] after a
    failed ping, in [worker.Run], or ended. *)
Inductive ping_pc : Type :=
| NoPing
| Pinging
| PingFailed
| RunsWorker
| PingEnded.

(** [eventLoop]: at its [select], at the calls of [stopWorker] and [stopChild]
    behind the loop, at the wait of [stopChild], or returned. *)
Inductive loop_pc : Type :=
| AtSelect
| AtStopWorker
| AtStopChild
| AtKillTimer
| LoopReturned.

Inductive log_level : Type := Infof | Errf.
Inductive stream : Type := Stdout | Stderr.

Record bridge : Type := mkBridge {
  loop_at : loop_pc;
  stopChild : bool;               (* the variable of eventLoop *)
  onClose : bool;                 (* closed *)
  start_at : start_pc;
  start_onClose : bool;           (* the channel of Start, closed *)
  ping_at : ping_pc;
  deadline : bool;                (* it has fired *)
  child : child_state;
  readers : bool;                 (* of the child's output, started *)
  signals_sent : nat;             (* SIGTERM or SIGKILL, to the child *)
  worker_stops : nat;
  logged : list (log_level * stream * string)
}.

Definition NewBridge : bridge :=
  mkBridge AtSelect true false NotCalled false NoPing false NotStarted false 0 0 [].

Inductive bridge_event : Type :=
(* eventLoop *)
| SigChld
| SigTerm                         (* SIGINT or SIGTERM *)
| SeesClose
| StopsWorker
| SignalsChild (failed : bool)
| KillTimeout
| ChildWaited
(* Start *)
| StartCall
| PipesMade (failed : bool)
| ChildStart (failed : bool)
| WaitReturns (failed : bool)
(* the pinging goroutine *)
| Ping (answered : bool)
| DeadlineSeen
| StartEndSeen
| PingAgain
| WorkerReturns
(* the readers of the child's output *)
| Line (from : stream) (text : string)
| ReadError (from : stream) (text : string)
(* the environment *)
| DeadlineFires
| ChildExits
| CloseCall.

Section Setters.
Context (b : bridge).
Definition with_loop l sc ss ws := mkBridge l sc (onClose b) (start_at b) (start_onClose b)
  (ping_at b) (deadline b) (child b) (readers b) ss ws (logged b).
Definition with_start st closed ch rd := mkBridge (loop_at b) (stopChild b) (onClose b) st closed
  (ping_at b) (deadline b) ch rd (signals_sent b) (worker_stops b) (logged b).
Definition with_ping p d := mkBridge (loop_at b) (stopChild b) (onClose b) (start_at b)
  (start_onClose b) p d (child b) (readers b) (signals_sent b) (worker_stops b) (logged b).
Definition with_logged l := mkBridge (loop_at b) (stopChild b) (onClose b) (start_at b)
  (start_onClose b) (ping_at b) (deadline b) (child b) (readers b) (signals_sent b)
  (worker_stops b) (logged b ++ [l]).
Definition with_onClose := mkBridge (loop_at b) (stopChild b) true (start_at b)
  (start_onClose b) (ping_at b) (deadline b) (child b) (readers b) (signals_sent b)
  (worker_stops b) (logged b).
End Setters.

(** One turn of the loop of [eventLoop], which it never leaves, then what is
    behind it: [stopWorker], and [stopChild] with its signal, its timeout of five
    seconds and its wait. *)
Definition eventLoop_step (b : bridge) (e : bridge_event) : option bridge :=
  let at_ l := with_loop b l (stopChild b) (signals_sent b) (worker_stops b) in
  match loop_at b, e with
  | AtSelect, SigChld => Some (with_loop b AtSelect false (signals_sent b) (worker_stops b))
  | AtSelect, SigTerm => Some b
  | AtSelect, SeesClose => if onClose b then Some b else None
  | AtStopWorker, StopsWorker =>
    Some (with_loop b (if stopChild b then AtStopChild else LoopReturned) (stopChild b)
      (signals_sent b) (S (worker_stops b)))
  | AtStopChild, SignalsChild true =>
    Some (with_loop b LoopReturned (stopChild b) (S (S (signals_sent b))) (worker_stops b))
  | AtStopChild, SignalsChild false =>
    Some (with_loop b AtKillTimer (stopChild b) (S (signals_sent b)) (worker_stops b))
  | AtKillTimer, KillTimeout =>
    Some (with_loop b AtKillTimer (stopChild b) (S (signals_sent b)) (worker_stops b))
  | AtKillTimer, ChildWaited => Some (at_ LoopReturned)
  | _, _ => None
  end.

(** [Start]. [defer close(onClose)] closes its own channel. *)
Definition Start_step (b : bridge) (e : bridge_event) : option bridge :=
  match start_at b, e with
  | NotCalled, StartCall =>
    Some (with_ping (with_start b Piping false (child b) (readers b)) Pinging false)
  | Piping, PipesMade true => Some (with_start b (Returned true) true (child b) false)
  | Piping, PipesMade false => Some (with_start b Piped false (child b) true)
  | Piped, ChildStart true => Some (with_start b (Returned true) true (child b) (readers b))
  | Piped, ChildStart false => Some (with_start b Waiting false ChildRunning (readers b))
  | Waiting, WaitReturns failed =>
    match child b with
    | Exited => Some (with_start b (Returned failed) true Exited (readers b))
    | _ => None
    end
  | _, _ => None
  end.

Definition ping_step (b : bridge) (e : bridge_event) : option bridge :=
  match ping_at b, e with
  | Pinging, Ping true => Some (with_ping b RunsWorker (deadline b))
  | Pinging, Ping false => Some (with_ping b PingFailed (deadline b))
  | PingFailed, DeadlineSeen => if deadline b then Some (with_ping b PingEnded true) else None
  | PingFailed, StartEndSeen =>
    if start_onClose b then Some (with_ping b PingEnded (deadline b)) else None
  | PingFailed, PingAgain =>
    if deadline b || start_onClose b then None else Some (with_ping b Pinging (deadline b))
  | RunsWorker, WorkerReturns => Some (with_ping b PingEnded (deadline b))
  | _, _ => None
  end.

(** The two readers: both log the lines they scan with [Infof]. *)
Definition reader_step (b : bridge) (e : bridge_event) : option bridge :=
  if readers b then
    match e with
    | Line from text => Some (with_logged b (Infof, from, text))
    | ReadError Stdout text => Some (with_logged b (Errf, Stdout, "unable to read stdout " +:+ text))
    | ReadError Stderr text => Some (with_logged b (Errf, Stderr, "unable to read stderr: " +:+ text))
    | _ => None
    end
  else None.

(** [Close]: closing the channel twice panics, and so does the wait for a process
    that was never started; the wait itself ends with the child. *)
Definition Close (b : bridge) : outcome bridge :=
  if onClose b then Panic
  else
    match child b with
    | NotStarted => Panic
    | _ => Ok (with_onClose b)
    end.

Definition bridge_step (s : outcome bridge) (e : bridge_event) : option (outcome bridge) :=
  match s with
  | Panic => None
  | Ok b =>
    match e with
    | SigChld | SigTerm | SeesClose | StopsWorker | SignalsChild _ | KillTimeout | ChildWaited =>
      Ok <$> eventLoop_step b e
    | StartCall | PipesMade _ | ChildStart _ | WaitReturns _ => Ok <$> Start_step b e
    | Ping _ | DeadlineSeen | StartEndSeen | PingAgain | WorkerReturns => Ok <$> ping_step b e
    | Line _ _ | ReadError _ _ => Ok <$> reader_step b e
    | DeadlineFires =>
      match ping_at b with
      | NoPing => None
      | p => Some (Ok (with_ping b p true))
      end
    | ChildExits =>
      match child b with
      | ChildRunning => Some (Ok (with_start b (start_at b) (start_onClose b) Exited (readers b)))
      | _ => None
      end
    | CloseCall => Some (Close b)
    end
  end.

(** ** Lemmas: arguments *)

Lemma endpoint_index_app i pre v post :
  "--endpoint" ∉ pre ->
  endpoint_index i (pre ++ "--endpoint" :: v :: post) = Some (i + length pre).
Proof.
  revert i. induction pre as [|a pre IH]; intros i Hn; cbn [app endpoint_index length].
  - rewrite decide_True by done. f_equal. lia.
  - apply not_elem_of_cons in Hn as [Ha Hn]. rewrite decide_False by naive_solver.
    rewrite IH by done. f_equal. lia.
Qed.

(** Nothing is cut when the flag is missing or is the last argument. *)
Lemma endpoint_index_None i args last :
  "--endpoint" ∉ args -> endpoint_index i (args ++ [last]) = None /\ endpoint_index i args = None.
Proof.
  revert i. induction args as [|a args IH]; intros i Hn; cbn [app endpoint_index].
  - by rewrite decide_False by naive_solver.
  - apply not_elem_of_cons in Hn as [Ha Hn]. rewrite !decide_False by naive_solver. by apply IH.
Qed.

(** What the array holds after the flag was cut: the arguments behind it moved
    down, and the last two of them stay where they were. *)
Lemma filterEndpointArg_app prog pre v post :
  "--endpoint" ∉ pre ->
  let args := pre ++ "--endpoint" :: v :: post in
  filterEndpointArg (prog :: args) (mkSlice 1 (length args)) =
    (prog :: pre ++ post ++ drop (length (pre ++ post)) args, pre ++ post).
Proof.
  intros Hn args. unfold filterEndpointArg.
  assert (He : elems (prog :: args) (mkSlice 1 (length args)) = args).
  { unfold elems. cbn [off len drop]. rewrite drop_0. apply take_ge. done. }
  rewrite He. unfold args at 1. rewrite endpoint_index_app by done. cbn [Nat.add].
  assert (Hd : drop (length pre + 2) args = post).
  { unfold args. rewrite drop_app_ge by lia. by replace (length pre + 2 - length pre) with 2 by lia. }
  rewrite Hd. unfold append. cbn [off len].
  assert (Hlen : length args = length pre + S (S (length post))) by (unfold args; by rewrite length_app).
  rewrite decide_True by (cbn; lia). f_equal.
  - cbn [Nat.add take drop app]. f_equal. unfold args at 1. rewrite take_app_length.
    by rewrite length_app, Nat.add_comm.
  - unfold elems. cbn [off len drop]. rewrite drop_0. unfold args. by rewrite take_app_length.
Qed.

Lemma NewBridgeConfig_app env prog pre v post :
  "--endpoint" ∉ pre ->
  let args := pre ++ "--endpoint" :: v :: post in
  NewBridgeConfig env (prog :: args) =
    Ok (prog :: pre ++ post ++ drop (length (pre ++ post)) args,
        mkBridgeConfig "" (pre ++ post) env 8080 5).
Proof.
  intros Hn args. unfold NewBridgeConfig. cbn [length]. rewrite Nat.sub_succ, Nat.sub_0_r.
  pose proof (filterEndpointArg_app prog pre v post Hn) as Hf. cbv zeta in Hf. fold args in Hf.
  by rewrite Hf.
Qed.

Lemma command_line_app l1 l2 : command_line (l1 ++ l2) = command_line l1 ++ command_line l2.
Proof. unfold command_line. by rewrite map_app, concat_app. Qed.

Lemma command_line_cons x l : command_line (x :: l) = spell x ++ command_line l.
Proof. done. Qed.

Lemma command_line_one x : command_line [x] = spell x.
Proof. unfold command_line. cbn. apply app_nil_r. Qed.

(** The last two arguments when the last setting is spelled in two. *)
Lemma command_line_tail l dbl s n :
  n + 2 = length (command_line (l ++ [(mkSpelling dbl false, s)])) ->
  drop n (command_line (l ++ [(mkSpelling dbl false, s)])) = spell (mkSpelling dbl false, s).
Proof.
  rewrite command_line_app, command_line_one, length_app. cbn [spell joined length]. intros Hn.
  rewrite drop_app_ge by lia. by replace (n - length (command_line l)) with 0 by lia.
Qed.

Lemma GetDefaults_line getenv prog l :
  Forall (fun x => valid_setting x.2) l ->
  GetDefaults getenv (prog :: command_line l) None =
    Some (set_token (mkToken (getenv tokenTypeKey) (getenv tokenBodyKey))
            (apply_settings (initial_values getenv) l)).
Proof.
  intros Hl. unfold GetDefaults. cbn [drop]. rewrite drop_0, <- (app_nil_r (command_line l)).
  by apply newDefaults_command_line.
Qed.

(** The endpoint is the one of the last setting of it. *)
Lemma apply_settings_endpoint v l :
  Forall (fun x => setting_name x.2 <> "endpoint") l -> endpoint (apply_settings v l) = endpoint v.
Proof.
  unfold apply_settings. revert v. induction l as [|[sp s] l IH]; intros v Hl; [done|].
  apply Forall_cons in Hl as [Hs Hl]. cbn. rewrite IH by done. by destruct s.
Qed.

Lemma apply_settings_app v l1 l2 :
  apply_settings v (l1 ++ l2) = apply_settings (apply_settings v l1) l2.
Proof. unfold apply_settings. by rewrite fmap_app, foldl_app. Qed.

(** ** Lemmas: the fallback handler *)

Section FallbackLemmas.
Context (encode_head : Z -> Headers -> gobytes).

(** A write on an open response. *)
Lemma exec_write data k reads r :
  closed r = false ->
  exec_handler (HWrite data k) reads r =
    exec_handler (k (length (bytes_of data), None)) reads
      (toWorker_Send (newChunkV1 (session r) (copy_bytes data)) r).
Proof. intros Hc. cbn. unfold Handler.Write, ZeroCopyWrite, isClosed. by rewrite Hc. Qed.

Lemma bytes_of_copy data : bytes_of (copy_bytes data) = bytes_of data.
Proof. unfold copy_bytes. by destruct (bytes_of data). Qed.

Lemma exec_Copy ps reads r :
  closed r = false ->
  exec_handler (Copy ps (HClose (fun _ => HReturn))) reads r =
    (mkResponse (session r) true
       (sent r ++ map (newChunkV1 (session r)) (map (fun p => copy_bytes (Some p)) ps)
          ++ [newChokeV1 (session r)]), None).
Proof.
  revert r. induction ps as [|p ps IH]; intros r Hc.
  - cbn. unfold Handler.Close, isClosed. by rewrite Hc.
  - cbn [Copy]. rewrite exec_write by done. rewrite IH by done. cbn. by rewrite <- (assoc_L (++)).
Qed.

(** The invocation of a handler that is a head and copied pieces. *)
Lemma invocation_head_and_pieces event stack reads s head ps :
  sent (invocation event (HWrite head (fun _ => Copy ps (HClose (fun _ => HReturn)))) stack reads s) =
    newChunkV1 s (copy_bytes head) ::
    map (newChunkV1 s) (map (fun p => copy_bytes (Some p)) ps) ++ [newChokeV1 s].
Proof.
  unfold invocation. rewrite exec_write by done. rewrite exec_Copy by done.
  by cbn.
Qed.

(** The reply of an error, in the same form. *)
Lemma reply_head_and_text code text :
  HTTP.reply encode_head code text =
    HWrite (WriteHead encode_head code []) (fun _ =>
      Copy [String.list_byte_of_string text] (HClose (fun _ => HReturn))).
Proof. done. Qed.
End FallbackLemmas.

(** ** Lemmas: the goroutines *)

(** The labels the properties look for. *)
Definition is_close (e : bridge_event) : bool := match e with CloseCall => true | _ => false end.
Definition is_started (e : bridge_event) : bool :=
  match e with ChildStart false => true | _ => false end.
Definition is_answered (e : bridge_event) : bool := match e with Ping true => true | _ => false end.

Definition not_started (c : child_state) : bool := match c with NotStarted => true | _ => false end.

Definition before_start (p : start_pc) : bool :=
  match p with NotCalled | Piping | Piped => true | _ => false end.

Definition runs_worker (p : ping_pc) : bool := match p with RunsWorker => true | _ => false end.

(** What the readers log for a label. *)
Definition log_of (e : bridge_event) : list (log_level * stream * string) :=
  match e with
  | Line from text => [(Infof, from, text)]
  | ReadError Stdout text => [(Errf, Stdout, "unable to read stdout " +:+ text)]
  | ReadError Stderr text => [(Errf, Stderr, "unable to read stderr: " +:+ text)]
  | _ => []
  end.

(** The state after the labels [es]. *)
Record bridge_inv (es : list bridge_event) (b : bridge) : Prop := {
  inv_loop : loop_at b = AtSelect;
  inv_signals : signals_sent b = 0;
  inv_stops : worker_stops b = 0;
  inv_close : onClose b = existsb is_close es;
  inv_child : not_started (child b) = negb (existsb is_started es);
  inv_start : before_start (start_at b) = true -> not_started (child b) = true;
  inv_worker : runs_worker (ping_at b) = true -> existsb is_answered es = true;
  inv_returned : start_at b = Returned false -> child b = Exited;
  inv_logged : logged b = concat (map log_of es)
}.

(** What one step changes. *)
Ltac bridge_cases b e He :=
  unfold bridge_step, eventLoop_step, Start_step, ping_step, reader_step, Close in He;
  destruct b as [lp sc oc st so pg dl ch rd ss ws lg]; cbn in *; subst;
  destruct e; step_inv He.

Lemma bridge_step_loop b e b' :
  loop_at b = AtSelect -> bridge_step (Ok b) e = Some (Ok b') ->
  loop_at b' = AtSelect /\ signals_sent b' = signals_sent b /\ worker_stops b' = worker_stops b /\
  onClose b' = onClose b || is_close e /\ logged b' = logged b ++ log_of e /\
  (runs_worker (ping_at b') = true -> runs_worker (ping_at b) || is_answered e = true).
Proof.
  intros Hl He. bridge_cases b e He; cbn; rewrite ?app_nil_r, ?orb_false_r; split_and!; try done.
Qed.

Lemma bridge_step_child b e b' :
  loop_at b = AtSelect -> (before_start (start_at b) = true -> not_started (child b) = true) ->
  (start_at b = Returned false -> child b = Exited) ->
  bridge_step (Ok b) e = Some (Ok b') ->
  not_started (child b') = not_started (child b) && negb (is_started e) /\
  (before_start (start_at b') = true -> not_started (child b') = true) /\
  (start_at b' = Returned false -> child b' = Exited).
Proof.
  intros Hl Hs Hr He. bridge_cases b e He; cbn; rewrite ?andb_true_r, ?andb_false_r; split_and!;
    try done; auto; intros ?; simplify_eq; auto.
Qed.

Lemma bridge_inv_step es b e b' :
  bridge_inv es b -> bridge_step (Ok b) e = Some (Ok b') -> bridge_inv (es ++ [e]) b'.
Proof.
  intros [Hl Hs Hw Hc Hch Hp Hr Hret Hlog] He.
  destruct (bridge_step_loop b e b' Hl He) as (Hl' & Hs' & Hw' & Hc' & Hlog' & Hr').
  destruct (bridge_step_child b e b' Hl Hp Hret He) as (Hch' & Hp' & Hret').
  split; rewrite ?existsb_app; cbn; rewrite ?orb_false_r; try done; try congruence.
  - by rewrite Hch', Hch, negb_orb.
  - intros H. apply Hr' in H. apply orb_true_iff in H as [H|H]; [by rewrite (Hr H)|].
    by rewrite H, orb_true_r.
  - rewrite map_app, concat_app, Hlog', Hlog. cbn. by rewrite app_nil_r.
Qed.

Lemma bridge_inv_run es b :
  run bridge_step (Ok NewBridge) es = Some (Ok b) -> bridge_inv es b.
Proof.
  revert b. induction es as [|e es IH] using rev_ind; intros b Hrun.
  - cbn in Hrun. simplify_eq. by split.
  - apply run_snoc in Hrun as ([b1|] & H1 & H2); [|done]. eapply bridge_inv_step; eauto.
Qed.

(** Only [Close] panics. *)
Lemma bridge_step_panics b e :
  bridge_step (Ok b) e = Some Panic -> e = CloseCall /\ Close b = Panic.
Proof.
  intros He. destruct e; cbn in He; [..|by simplify_eq]; exfalso;
    repeat match type of He with
      | _ <$> ?x = _ => destruct x; [cbn in He; discriminate|done]
      | context [match ?x with _ => _ end] => destruct x
      end; by simplify_eq.
Qed.

(** ** Properties *)

(** On the command line of a worker the bridge cuts exactly the
    first endpoint and its value out of the arguments of the application, but it
    does so in [os.Args]: when the flag has settings behind it, a worker whose
    defaults are parsed after [NewBridgeConfig] has no endpoint any more, while one
    whose defaults were parsed before keeps it. *)
Theorem bridge_arguments (getenv : string -> string) (environ : list string) (prog ep : string)
    (l1 l2 : list (spelling * setting)) (dbl : bool) (last : setting)
    (Hvalid : Forall (fun x => valid_setting x.2) (l1 ++ l2 ++ [(mkSpelling dbl false, last)]))
    (Hother : Forall (fun x => setting_name x.2 <> "endpoint") (l1 ++ l2 ++ [(mkSpelling dbl false, last)]))
    (Hfirst : "--endpoint" ∉ command_line l1) :
  let rest := l2 ++ [(mkSpelling dbl false, last)] in
  let os_args := prog :: command_line (l1 ++ (mkSpelling true false, SEndpoint ep) :: rest) in
  exists os_args' cfg,
    NewBridgeConfig environ os_args = Ok (os_args', cfg) /\
    Args cfg = command_line (l1 ++ rest) /\
    length os_args' = length os_args /\
    (exists v, GetDefaults getenv os_args None = Some v /\ endpoint v = ep /\
       GetDefaults getenv os_args' (Some v) = Some v) /\
    (exists v, GetDefaults getenv os_args' None = Some v /\ endpoint v = "").
Proof.
  intros rest os_args.
  assert (Hargs : command_line (l1 ++ (mkSpelling true false, SEndpoint ep) :: rest) =
    command_line l1 ++ "--endpoint" :: ep :: command_line rest) by by rewrite command_line_app.
  assert (Htail : drop (length (command_line (l1 ++ rest)))
    (command_line (l1 ++ (mkSpelling true false, SEndpoint ep) :: rest)) =
    spell (mkSpelling dbl false, last)).
  { unfold rest. rewrite app_comm_cons, !(assoc_L (++)). apply command_line_tail.
    rewrite !command_line_app, !command_line_cons, !length_app. cbn [spell joined length app]. lia. }
  pose proof (NewBridgeConfig_app environ prog _ ep (command_line rest) Hfirst) as Hcfg.
  cbv zeta in Hcfg. rewrite <- Hargs, <- command_line_app, Htail, <- command_line_one in Hcfg.
  eexists _, _. split; [exact Hcfg|]. rewrite (assoc_L (++)), <- !command_line_app. split_and!; [done|..].
  - unfold os_args. cbn [length]. f_equal. rewrite Hargs, !command_line_app, !length_app.
    rewrite command_line_one. cbn [spell joined length]. lia.
  - eexists. unfold os_args. rewrite GetDefaults_line; [split_and!; [reflexivity| |reflexivity]|].
    + cbn. rewrite apply_settings_app.
      apply (apply_settings_endpoint (set_endpoint ep (apply_settings (initial_values getenv) l1)) rest).
      by apply Forall_app in Hother as [_ ?].
    + apply Forall_app in Hvalid as [H1 H2]. apply Forall_app. by split; [|constructor].
  - eexists. split.
    + apply GetDefaults_line. apply Forall_app in Hvalid as Hv. destruct Hv as [_ Hv].
      apply Forall_app. split; [exact Hvalid|]. by apply Forall_app in Hv as [_ ?].
    + cbn. apply apply_settings_endpoint. apply Forall_app in Hother as Ho. destruct Ho as [_ Ho].
      apply Forall_app. split; [exact Hother|]. by apply Forall_app in Ho as [_ ?].
Qed.

(** C27 (refinement): the bridge is transparent: when the application answers, the
    client of the gateway gets its status, its headers after the gateway's own, and
    its body, whatever pieces it is read in, provided the runtime relays chunks and
    chokes as writes and closes; the application was asked with the request the
    worker unpacked, at the configured port. *)
Theorem bridge_serves
    (decode_request : gobytes -> (string * string * string * Headers * gobytes) + error)
    (encode_head : Z -> Headers -> gobytes) (decode_head : gobytes -> (Z * Headers) + error)
    (request_error : string -> string -> option error)
    (extract_bytes : list value -> gobytes -> gobytes * option error)
    (range : header -> list (string * list string)) (error_text : error -> string)
    (relay : Message -> get_result) (Do : string -> Request -> app_response + error)
    (cfg : BridgeConfig) (ctx_done : bool) (event stack : string)
    (reads : nat -> gobytes * option error) (s : Z) (task : gobytes) (req : Request)
    (appResp : app_response) (w : http_writer)
    (Hextract : extracts extract_bytes)
    (Hcodec : forall b,
       bytes_of b = bytes_of (encode_head (StatusCode appResp)
                                (HeadersHTTPtoCocaine (range (resp_header appResp)))) ->
       decode_head b = inl (StatusCode appResp, HeadersHTTPtoCocaine (range (resp_header appResp))))
    (Hchunk : forall data, relay (newChunkV1 s data) = chunk_result data)
    (Hchoke : relay (newChokeV1 s) = Got None [] true)
    (Htask : reads 0 = (task, None))
    (Hreq : UnpackProxyRequest decode_request request_error task = inl req)
    (Hdo : Do ("localhost:" +:+ pretty (Port cfg)) req = inl appResp)
    (Hfresh : w_status w = None /\ w_body w = []) :
  let p := fallback_handler decode_request encode_head request_error range error_text Do cfg ctx_done event in
  let own := add_all (HeadersHTTPtoCocaine (range (resp_header appResp))) (w_header w) in
  reply_of decode_head extract_bytes error_text (map relay (sent (invocation event p stack reads s))) w =
    mkHttpWriter own (Some (StatusCode appResp, own)) (concat (pieces appResp)).
Proof.
  intros p own. destruct Hfresh as [Hst Hb].
  assert (Hp : sent (invocation event p stack reads s) =
    sent (invocation event (HWrite (WriteHead encode_head (StatusCode appResp)
       (HeadersHTTPtoCocaine (range (resp_header appResp))))
       (fun _ => Copy (pieces appResp) (HClose (fun _ => HReturn)))) stack (fun n => reads (S n)) s)).
  { unfold p, fallback_handler, invocation. cbn [exec_handler]. rewrite Htask, Hreq.
    unfold Endpoint. by rewrite Hdo. }
  rewrite Hp, invocation_head_and_pieces. cbn [map]. rewrite map_app, map_map. cbn [map].
  rewrite Hchoke, Hchunk, (map_ext _ _ Hchunk).
  rewrite (reply_of_message _ _ _ Hextract _ (StatusCode appResp)
    (HeadersHTTPtoCocaine (range (resp_header appResp)))); [|done|].
  - rewrite Hb. cbn [app]. unfold own. do 2 f_equal. clear. generalize (pieces appResp). intros ps.
    induction ps as [|x xs IH]; [done|]. cbn. rewrite IH. by rewrite bytes_of_copy.
  - intros b Hbs. apply Hcodec. by rewrite Hbs, bytes_of_copy.
Qed.


(** ** Witnesses *)

(** The command line of the runtime, and what is left of it. *)
Definition sample_os_args : list string :=
  ["bridge"; "--uuid"; "u"; "--endpoint"; "/sock"; "--app"; "echo"; "--protocol"; "1"].

Lemma bridge_arguments_witness :
  NewBridgeConfig [] sample_os_args =
    Ok (["bridge"; "--uuid"; "u"; "--app"; "echo"; "--protocol"; "1"; "--protocol"; "1"],
        mkBridgeConfig "" ["--uuid"; "u"; "--app"; "echo"; "--protocol"; "1"] [] 8080 5) /\
  exists os_args' cfg,
    NewBridgeConfig [] sample_os_args = Ok (os_args', cfg) /\
    Args cfg = ["--uuid"; "u"; "--app"; "echo"; "--protocol"; "1"] /\
    length os_args' = 9 /\
    (exists v, GetDefaults sample_env sample_os_args None = Some v /\ endpoint v = "/sock" /\
       GetDefaults sample_env os_args' (Some v) = Some v) /\
    (exists v, GetDefaults sample_env os_args' None = Some v /\ endpoint v = "").
Proof.
  split; [done|].
  apply (bridge_arguments sample_env [] "bridge" "/sock" [(mkSpelling true false, SUuid "u")]
    [(mkSpelling true false, SApp "echo")] true (SProtocol 1)).
  - by repeat constructor.
  - by repeat constructor.
  - by apply (bool_decide_unpack _).
Defined.

Lemma bridge_serves_witness :
  let app := mkAppResponse 200 ∅ [[x61]; [x62; x63]] in
  let p := fallback_handler sample_decode sample_code sample_check (fun _ => []) (fun _ => "")
             (fun host _ => if decide (host = "localhost:8080") then inl app else inr EOF)
             (mkBridgeConfig "" [] [] 8080 5) false "http" in
  let r := invocation "http" p "" (fun _ => (bytes_of_string "x", None)) 9 in
  reply_of sample_uncode sample_extract (fun _ => "") (map sample_relay (sent r)) new_writer =
    mkHttpWriter ∅ (Some (200%Z, ∅)) [x61; x62; x63].
Proof.
  intros app p r.
  destruct (UnpackProxyRequest sample_decode sample_check (bytes_of_string "x")) as [req|] eqn:E;
    [|vm_compute in E; discriminate].
  apply (bridge_serves sample_decode sample_code sample_uncode sample_check sample_extract
    (fun _ => []) (fun _ => "") sample_relay
    (fun host _ => if decide (host = "localhost:8080") then inl app else inr EOF)
    (mkBridgeConfig "" [] [] 8080 5) false "http" "" (fun _ => (bytes_of_string "x", None)) 9
    (bytes_of_string "x") req app new_writer sample_extracts (fun b => sample_uncode_code 200 b)); done.
Defined.

