(* ===== verification/Loggers.v ===== *)
(** * cocaine12/logger.go, clogger.go, fallbacklogger.go, severity.go, entry.go

    [Logger] is a class with two instances, the logger over a service and the one
    that prints; an [Entry] is written against the class. Package [fmt] is a
    parameter, and so is the order in which [range] visits the fields. *)
From S2P Require Import Prelude GoTypes Sessions Channel Service.
From Stdlib Require Import ZArith Lia.

Open Scope stdpp_scope.

(** ** Severities *)

(** [Severity] is an [int32]. *)
Definition Severity : Type := Z.
Definition DebugLevel : Severity := 0%Z.
Definition InfoLevel : Severity := 1%Z.
Definition WarnLevel : Severity := 2%Z.
Definition ErrorLevel : Severity := 3%Z.

Definition Severity_String (s : Severity) : string :=
  if decide (s = DebugLevel) then "DEBUG"
  else if decide (s = InfoLevel) then "INFO"
  else if decide (s = WarnLevel) then "WARNING"
  else if decide (s = ErrorLevel) then "ERROR"
  else pretty s.

Abbreviation Fields := (gmap string value).
Definition defaultFields : Fields := ∅.

(** ** The interface *)

(** [log] and [V] of [Logger]; the other methods are made of them. *)
Class Logger (L : Type) := {
  log : Severity -> Fields -> string -> list value -> L -> L;
  V : Severity -> L -> bool
}.

(** The methods of [EntryLogger]. *)
Inductive call : Type :=
| Errf (format : string) (args : list value)
| Err (args : list value)
| Warnf (format : string) (args : list value)
| Warn (args : list value)
| Infof (format : string) (args : list value)
| Info (args : list value)
| Debugf (format : string) (args : list value)
| Debug (args : list value).

(** [Entry]: the logger and its fields. *)
Record Entry (L : Type) : Type := mkEntry {
  entry_Logger : L;
  entry_Fields : Fields
}.
Arguments mkEntry {L}.
Arguments entry_Logger {L}.
Arguments entry_Fields {L}.

Definition WithFields {L} (fields : Fields) (l : L) : Entry L := mkEntry l fields.

Section Loggers.
(** [fmt.Sprint] and [fmt.Sprintf] *)
Context (Sprint : list value -> string).
Context (Sprintf : string -> list value -> string).
Context (range : Fields -> list (string * value)).

Definition Entry_call {L} `{Logger L} (c : call) (e : Entry L) : Entry L :=
  let on level format args :=
    if V level (entry_Logger e)
    then mkEntry (log level (entry_Fields e) format args (entry_Logger e)) (entry_Fields e)
    else e in
  match c with
  | Errf format args => on ErrorLevel format args
  | Warnf format args => on WarnLevel format args
  | Infof format args => on InfoLevel format args
  | Debugf format args => on DebugLevel format args
  | Err args => on ErrorLevel (Sprint args) []
  | Warn args => on WarnLevel (Sprint args) []
  | Info args => on InfoLevel (Sprint args) []
  | Debug args => on DebugLevel (Sprint args) []
  end.

(** ** cocaineLogger *)

Definition loggerEmit : Z := 0.

(** The embedded service is the one of Service.v. *)
Record cocaineLogger : Type := mkCocaine {
  service : Service;
  c_severity : Severity;
  prefix : string
}.

Definition newCocaineLogger (service : Service + error) (applicationName : string)
    : cocaineLogger + error :=
  match service with
  | inr err => inr err
  | inl service => inl (mkCocaine service (-100)%Z ("app/" +:+ applicationName))
  end.

Definition formatFields (f : Fields) : value :=
  VList ((fun '(k, v) => VList [VString k; v]) <$> range f).

Definition cocaine_V (level : Severity) (c : cocaineLogger) : bool :=
  bool_decide (c_severity c <= level)%Z.

(** The message of one call of [log]. *)
Definition log_message (id : Z) (level : Severity) (prefix text : string) (fields : Fields) : Message :=
  mkMessage (mkInfo id loggerEmit)
    [VInt Kint32 level; VString prefix; VString text; formatFields fields] [].

(** [accepted]: see [io_Send]; the logger does not look whether it was. *)
Definition cocaine_log (accepted : bool) (level : Severity) (fields : Fields) (msg : string)
    (args : list value) (c : cocaineLogger) : cocaineLogger :=
  let text := match args with [] => msg | _ => Sprintf msg args end in
  let (t, id) := V12.Next (sessions (service c)) in
  let s := sendMsg accepted (log_message id level (prefix c) text fields)
             (set_sessions t (service c)) in
  mkCocaine s (c_severity c) (prefix c).

(** On a connection that takes every message. *)
#[export] Instance cocaine_Logger : Logger cocaineLogger := {
  log := cocaine_log true;
  V := cocaine_V
}.

Definition cocaine_call (c : call) (l : cocaineLogger) : cocaineLogger :=
  match c with
  | Debug args => if V DebugLevel l then log DebugLevel defaultFields (Sprint args) [] l else l
  | Debugf msg args => if V DebugLevel l then log DebugLevel defaultFields msg args l else l
  | Info args => if V InfoLevel l then log InfoLevel defaultFields (Sprint args) [] l else l
  | Infof msg args => if V InfoLevel l then log InfoLevel defaultFields msg args l else l
  | Warn args => if V WarnLevel l then log WarnLevel defaultFields (Sprint args) [] l else l
  | Warnf msg args => if V WarnLevel l then log WarnLevel defaultFields msg args l else l
  | Err args => if V ErrorLevel l then log ErrorLevel defaultFields (Sprint args) [] l else l
  | Errf msg args => if V ErrorLevel l then log ErrorLevel defaultFields msg args l else l
  end.

(** [Verbosity]: [Call] of Service.v with what it needs, then the result [Get]
    gives, [None] when it fails; [extract] is the codec. *)
Definition Verbosity (extract : list value -> Severity + error)
    (keys : list Z) (conn : unit + error) (order : list (Z * Dispatch.dispatchItem))
    (accepted : bool) (got : option serviceRes) (c : cocaineLogger)
    : outcome (cocaineLogger * Severity) :=
  (if decide (c_severity c <> (-100)%Z) then Ok (c, c_severity c)
   else
     let* '(s, channel) := Service.Call keys conn order "verbosity" [] None accepted (service c) in
     let c := mkCocaine s (c_severity c) (prefix c) in
     match channel, got with
     | inr _, _ => Ok (c, DebugLevel)
     | inl _, None => Ok (c, DebugLevel)
     | inl _, Some result =>
       match Extract extract result with
       | inr _ => Ok (c, DebugLevel)
       | inl level => Ok (mkCocaine (service c) level (prefix c), level)
       end
     end)%go.

(** ** fallbackLogger *)

(** [printed]: the lines given to package [log], without its time stamps. *)
Record fallbackLogger : Type := mkFallback {
  f_severity : Severity;
  printed : list string
}.

Definition newFallbackLogger : fallbackLogger := mkFallback DebugLevel [].

Definition fallback_formatFields (fields : Fields) : string :=
  if decide (size fields = 0) then "[ ]"
  else
    "[ " +:+ foldr (fun '(k, v) s => k +:+ "=" +:+ Sprint [v] +:+ " " +:+ s) "]" (range fields).

Definition fallback_V (level : Severity) (f : fallbackLogger) : bool :=
  bool_decide (f_severity f <= level)%Z.

(** The line of one call of [log]. *)
Definition log_line (level : Severity) (text : string) (fields : Fields) : string :=
  if decide (size fields = 0) then "[" +:+ Severity_String level +:+ "] " +:+ text
  else "[" +:+ Severity_String level +:+ "] " +:+ text +:+ " " +:+ fallback_formatFields fields.

Definition fallback_log (level : Severity) (fields : Fields) (msg : string) (args : list value)
    (f : fallbackLogger) : fallbackLogger :=
  if fallback_V level f then
    mkFallback (f_severity f) (printed f ++ [log_line level (Sprintf msg args) fields])
  else f.

#[export] Instance fallback_Logger : Logger fallbackLogger := {
  log := fallback_log;
  V := fallback_V
}.

Definition fallback_call (c : call) (l : fallbackLogger) : fallbackLogger :=
  match c with
  | Errf format args => log ErrorLevel defaultFields format args l
  | Err args => log ErrorLevel defaultFields (Sprint args) [] l
  | Warnf format args => log WarnLevel defaultFields format args l
  | Warn args => log WarnLevel defaultFields (Sprint args) [] l
  | Infof format args => log InfoLevel defaultFields format args l
  | Info args => log InfoLevel defaultFields (Sprint args) [] l
  | Debugf format args => log DebugLevel defaultFields format args l
  | Debug args => log DebugLevel defaultFields (Sprint args) [] l
  end.

Definition SetVerbosity (value : Severity) (f : fallbackLogger) : fallbackLogger :=
  mkFallback value (printed f).

(** [NewLoggerWithName] never fails. *)
Definition NewLoggerWithName (service : Service + error) (applicationName : string)
    : cocaineLogger + fallbackLogger :=
  match newCocaineLogger service applicationName with
  | inr _ => inr newFallbackLogger
  | inl l => inl l
  end.

#[export] Instance sum_Logger : Logger (cocaineLogger + fallbackLogger) := {
  log level fields msg args l :=
    match l with
    | inl c => inl (log level fields msg args c)
    | inr f => inr (log level fields msg args f)
    end;
  V level l :=
    match l with
    | inl c => V level c
    | inr f => V level f
    end
}.

(** ** Specification

    A use of a logger: a method, on the logger or on an entry with fields. *)
Definition use : Type := option Fields * call.

Definition use_level (u : use) : Severity :=
  match u.2 with
  | Errf _ _ | Err _ => ErrorLevel
  | Warnf _ _ | Warn _ => WarnLevel
  | Infof _ _ | Info _ => InfoLevel
  | Debugf _ _ | Debug _ => DebugLevel
  end.

Definition use_fields (u : use) : Fields := default defaultFields u.1.

(** The format and the arguments given to [log]. *)
Definition use_format (u : use) : string * list value :=
  match u.2 with
  | Errf format args | Warnf format args | Infof format args | Debugf format args => (format, args)
  | Err args | Warn args | Info args | Debug args => (Sprint args, [])
  end.

(** The text that is meant: a format without arguments is a text. *)
Definition use_text (u : use) : string :=
  match use_format u with
  | (format, []) => format
  | (format, args) => Sprintf format args
  end.

Definition use_with {L} `{Logger L} (direct : call -> L -> L) (u : use) (l : L) : L :=
  match u with
  | (None, c) => direct c l
  | (Some fields, c) => entry_Logger (Entry_call c (WithFields fields l))
  end.

Definition uses_with {L} `{Logger L} (direct : call -> L -> L) (us : list use) (l : L) : L :=
  foldl (fun l u => use_with direct u l) l us.

(** The uses a logger of a severity lets through. *)
Definition passing (severity : Severity) (us : list use) : list use :=
  filter (fun u => severity <= use_level u)%Z us.
End Loggers.

(** ** Runs of a logger over a service *)

Section Runs.
Context (Sprint : list value -> string) (Sprintf : string -> list value -> string).
Context (range : Fields -> list (string * value)).
Context (extract : list value -> Severity + error).

#[local] Instance run_Logger : Logger cocaineLogger := cocaine_Logger Sprintf range.

Inductive logger_event : Type :=
| Use (u : use)
| Ask (keys : list Z) (conn : unit + error) (order : list (Z * Dispatch.dispatchItem))
    (accepted : bool) (got : option serviceRes).

Definition logger_step (o : outcome cocaineLogger) (e : logger_event) : option (outcome cocaineLogger) :=
  match o with
  | Panic => None
  | Ok c =>
    match e with
    | Use u => Some (Ok (use_with Sprint (cocaine_call Sprint Sprintf range) u c))
    | Ask keys conn order accepted got =>
      Some (let* '(c, _) := Verbosity extract keys conn order accepted got c in Ok c)%go
    end
  end.

Definition uses_of (es : list logger_event) : list use :=
  omap (fun e => match e with Use u => Some u | Ask _ _ _ _ _ => None end) es.

(** The messages of the uses that pass, with consecutive sessions. *)
Definition messages (counter : Z) (prefix : string) (us : list use) : list Message :=
  imap (fun i u => log_message range (wrap64 (counter + 1 + Z.of_nat i)) (use_level u) prefix
                     (use_text Sprint Sprintf u) (use_fields u)) us.

Definition lines (us : list use) : list string :=
  (fun u => log_line Sprint range (use_level u) (use_text Sprint Sprintf u) (use_fields u)) <$> us.

(** ** Lemmas *)

(** Each use is one call of [log] behind the test of the severity. *)
Lemma cocaine_use u c :
  use_with Sprint (cocaine_call Sprint Sprintf range) u c =
    if cocaine_V (use_level u) c then
      cocaine_log Sprintf range true (use_level u) (use_fields u) (use_format Sprint u).1
        (use_format Sprint u).2 c
    else c.
Proof. destruct u as [[fields|] []]; cbn; by destruct (cocaine_V _ c). Qed.

Lemma fallback_use u f :
  use_with (L := fallbackLogger) (H := fallback_Logger Sprint Sprintf range) Sprint
    (fallback_call Sprint Sprintf range) u f =
    fallback_log Sprint Sprintf range (use_level u) (use_fields u) (use_format Sprint u).1
      (use_format Sprint u).2 f.
Proof.
  destruct u as [[fields|] []]; cbn; try done; unfold fallback_log; by destruct (fallback_V _ f).
Qed.

Lemma cocaine_log_text u c :
  cocaine_log Sprintf range true (use_level u) (use_fields u) (use_format Sprint u).1
    (use_format Sprint u).2 c =
  let (t, id) := V12.Next (sessions (service c)) in
  mkCocaine (sendMsg true (log_message range id (use_level u) (prefix c) (use_text Sprint Sprintf u)
                             (use_fields u)) (set_sessions t (service c)))
    (c_severity c) (prefix c).
Proof. unfold cocaine_log, use_text. by destruct (use_format Sprint u) as [format []]. Qed.

Lemma wrap64_add_wrap a b : wrap64 (wrap64 a + b) = wrap64 (a + b).
Proof. unfold wrap64. apply Zplus_mod_idemp_l. Qed.

Lemma wrap64_next a i :
  wrap64 (wrap64 (a + 1) + 1 + Z.of_nat i) = wrap64 (a + 1 + Z.of_nat (S i)).
Proof. rewrite <- (Z.add_assoc (wrap64 _)), wrap64_add_wrap. f_equal. lia. Qed.

(** A sequence of uses: what is sent, and what stays. *)
Lemma cocaine_uses us c :
  let c' := uses_with Sprint (cocaine_call Sprint Sprintf range) us c in
  let kept := passing (c_severity c) us in
  sent (socketIO (service c')) =
    sent (socketIO (service c)) ++ messages (V12.counter (sessions (service c))) (prefix c) kept /\
  c_severity c' = c_severity c /\ prefix c' = prefix c /\
  V12.links (sessions (service c')) = V12.links (sessions (service c)).
Proof.
  cbv zeta. revert c. induction us as [|u us IH]; intros c.
  { by rewrite app_nil_r. }
  cbn [uses_with foldl]. fold (uses_with Sprint (cocaine_call Sprint Sprintf range) us
    (use_with Sprint (cocaine_call Sprint Sprintf range) u c)).
  destruct (IH (use_with Sprint (cocaine_call Sprint Sprintf range) u c)) as (Hs & Hv & Hp & Hl).
  rewrite Hs, Hv, Hp, Hl. clear IH Hs Hv Hp Hl. rewrite cocaine_use. unfold cocaine_V.
  unfold passing. rewrite filter_cons. case_bool_decide as Hle; [rewrite decide_True by done|by rewrite decide_False].
  rewrite cocaine_log_text. cbn. split_and!; [|done..]. rewrite <- (assoc_L (++)). f_equal.
  unfold messages. cbn [app]. f_equal; [by rewrite Z.add_0_r|].
  apply imap_ext. intros i x _. cbn [compose]. unfold compose. by rewrite wrap64_next.
Qed.

(** The fallback logger formats a text once more: it prints what is meant when
    that does not change it. *)
Definition plain (us : list use) : Prop :=
  Forall (fun u => (use_format Sprint u).2 = [] ->
                   Sprintf (use_format Sprint u).1 [] = (use_format Sprint u).1) us.

Lemma fallback_uses us f :
  plain us ->
  let f' := uses_with (L := fallbackLogger) (H := fallback_Logger Sprint Sprintf range) Sprint
              (fallback_call Sprint Sprintf range) us f in
  printed f' = printed f ++ lines (passing (f_severity f) us) /\ f_severity f' = f_severity f.
Proof.
  cbv zeta. revert f. induction us as [|u us IH]; intros f Hp.
  { by rewrite app_nil_r. }
  apply Forall_cons in Hp as [Hu Hp]. cbn [uses_with foldl]. rewrite fallback_use.
  unfold passing. rewrite filter_cons. unfold fallback_log, fallback_V.
  case_bool_decide as Hle; [rewrite decide_True by done|rewrite decide_False by done; by apply IH].
  match goal with |- context [foldl _ ?g us] => destruct (IH g Hp) as [H1 H2] end.
  unfold uses_with in H1, H2. rewrite H1, H2. cbn. split; [|done]. rewrite <- (assoc_L (++)). f_equal.
  cbn. f_equal. f_equal. unfold use_text. destruct (use_format Sprint u) as [format [|a args]]; [|done].
  by apply Hu.
Qed.

(** A question of a logger that has no level yet. *)
Lemma Verbosity_asks keys conn order accepted got c c' level :
  Verbosity extract keys conn order accepted got c = Ok (c', level) ->
  c_severity c = (-100)%Z ->
  c_severity c' = (-100)%Z \/
  exists result, got = Some result /\ c_severity c' = level /\
    Channel.Err result = None /\ extract (payload result) = inl level.
Proof.
  unfold Verbosity. intros Hv Hc. rewrite decide_False in Hv by (by intros Hn; apply Hn).
  apply outcome_bind_ok in Hv as ([s [p|e]] & _ & Hv); [|left; by simplify_eq/=].
  destruct got as [result|]; [|left; by simplify_eq/=]. unfold Extract in Hv.
  destruct (err result) as [e|] eqn:He; [left; by simplify_eq/=|].
  destruct (extract (payload result)) as [lv|e] eqn:Hx; [|left; by simplify_eq/=].
  simplify_eq/=. right. by exists result.
Qed.

(** A logger that has its level. *)
Lemma Verbosity_known keys conn order accepted got c :
  c_severity c <> (-100)%Z ->
  Verbosity extract keys conn order accepted got c = Ok (c, c_severity c).
Proof. intros Hc. unfold Verbosity. by rewrite decide_True. Qed.

Lemma run_known es c :
  c_severity c <> (-100)%Z ->
  run logger_step (Ok c) es =
    Some (Ok (uses_with Sprint (cocaine_call Sprint Sprintf range) (uses_of es) c)).
Proof.
  revert c. induction es as [|e es IH]; intros c Hc; [done|]. destruct e as [u|keys conn order accepted got].
  - cbn [run logger_step]. rewrite IH; [done|].
    rewrite cocaine_use. destruct (cocaine_V _ c); [|done]. by rewrite cocaine_log_text.
  - cbn [run logger_step]. rewrite Verbosity_known by done. by apply IH.
Qed.

Lemma run_Panic es o : run logger_step Panic es = Some o -> o = Panic.
Proof. destruct es as [|e es]; cbn; [by intros [= <-]|done]. Qed.

Lemma use_keeps u c :
  c_severity (use_with Sprint (cocaine_call Sprint Sprintf range) u c) = c_severity c.
Proof. rewrite cocaine_use. destruct (cocaine_V _ c); [by rewrite cocaine_log_text|done]. Qed.

(** Where the level of a logger comes from. *)
Lemma run_level es c0 c :
  c_severity c0 = (-100)%Z -> run logger_step (Ok c0) es = Some (Ok c) ->
  c_severity c = (-100)%Z \/
  exists es1 keys conn order accepted result es2 c1 c2,
    es = es1 ++ Ask keys conn order accepted (Some result) :: es2 /\
    run logger_step (Ok c0) es1 = Some (Ok c1) /\ c_severity c1 = (-100)%Z /\
    Verbosity extract keys conn order accepted (Some result) c1 = Ok (c2, c_severity c) /\
    Channel.Err result = None /\ extract (payload result) = inl (c_severity c) /\
    c = uses_with Sprint (cocaine_call Sprint Sprintf range) (uses_of es2) c2 /\
    c_severity c2 = c_severity c.
Proof.
  revert c0. induction es as [|e es IH]; intros c0 Hc0 Hrun; [cbn in Hrun; simplify_eq; by left|].
  cbn [run] in Hrun. destruct (logger_step (Ok c0) e) as [[ca|]|] eqn:He; [| |done]; cycle 1.
  { by apply run_Panic in Hrun. }
  destruct (decide (c_severity ca = (-100)%Z)) as [Hca|Hca].
  - destruct (IH ca Hca Hrun) as [?|(es1 & k & n & o & a & r & es2 & c1 & c2 & -> & H1 & H2)]; [by left|].
    right. exists (e :: es1), k, n, o, a, r, es2, c1, c2. split; [done|]. cbn [run]. by rewrite He.
  - destruct e as [u|keys conn order accepted got]; cbn in He.
    { simplify_eq. by rewrite use_keeps in Hca. }
    injection He as He. apply outcome_bind_ok in He as ([cb level] & Hv & [= ->]).
    destruct (Verbosity_asks _ _ _ _ _ _ _ _ Hv Hc0) as [?|(r & -> & Hl & Hr & Hx)]; [done|].
    rewrite run_known in Hrun by done. injection Hrun as Hrun.
    assert (Hcc : c_severity c = level).
    { rewrite <- Hrun, <- Hl. by destruct (cocaine_uses (uses_of es) ca) as (_ & ? & _). }
    right. exists [], keys, conn, order, accepted, r, es, c0, ca. rewrite Hcc. by split_and!.
Qed.
End Runs.

(** ** Properties *)

(** Whatever is logged, directly or through entries with
    fields, the two loggers let the same uses through and give them the same
    levels, texts and fields, one in messages with consecutive sessions (modulo
    2^64) and one in lines, as long as the texts without arguments have nothing
    that [Sprintf] rewrites. *)
Theorem loggers_agree (Sprint : list value -> string) (Sprintf : string -> list value -> string)
    (range : Fields -> list (string * value)) (us : list use) (c : cocaineLogger) (f : fallbackLogger)
    (Hplain : plain Sprint Sprintf us) (Hseverity : c_severity c = f_severity f) :
  let c' := uses_with (H := cocaine_Logger Sprintf range) Sprint
              (cocaine_call Sprint Sprintf range) us c in
  let f' := uses_with (H := fallback_Logger Sprint Sprintf range) Sprint
              (fallback_call Sprint Sprintf range) us f in
  exists kept : list use,
    kept = filter (fun u => c_severity c <= use_level u)%Z us /\
    sent (socketIO (service c')) = sent (socketIO (service c)) ++
      imap (fun i u => log_message range
              (wrap64 (V12.counter (sessions (service c)) + 1 + Z.of_nat i)) (use_level u) (prefix c)
              (use_text Sprint Sprintf u) (use_fields u)) kept /\
    printed f' = printed f ++
      ((fun u => log_line Sprint range (use_level u) (use_text Sprint Sprintf u) (use_fields u)) <$> kept) /\
    c_severity c' = f_severity f'.
Proof.
  cbv zeta. exists (passing (c_severity c) us). split; [done|].
  destruct (cocaine_uses Sprint Sprintf range us c) as (Hs & Hv & _).
  destruct (fallback_uses Sprint Sprintf range us f Hplain) as [Hp Hf].
  rewrite Hp, Hf, <- Hseverity. split_and!; [exact Hs|done|exact Hv].
Qed.

(** In every run of a new logger over a service, either no answer
    to a question for the verbosity was taken and every use was let through, or
    the last one was taken by a logger that had none; from then on the logger asks
    nothing, keeps that level and sends exactly the uses that reach it. *)
Theorem verbosity_cached (Sprint : list value -> string) (Sprintf : string -> list value -> string)
    (range : Fields -> list (string * value)) (extract : list value -> Severity + error)
    (c0 c : cocaineLogger) (es : list logger_event)
    (Hnew : c_severity c0 = (-100)%Z)
    (Hrun : run (logger_step Sprint Sprintf range extract) (Ok c0) es = Some (Ok c)) :
  c_severity c = (-100)%Z \/
  exists es1 keys conn order accepted result es2 c1 c2,
    es = es1 ++ Ask keys conn order accepted (Some result) :: es2 /\
    run (logger_step Sprint Sprintf range extract) (Ok c0) es1 = Some (Ok c1) /\
    c_severity c1 = (-100)%Z /\
    Verbosity extract keys conn order accepted (Some result) c1 = Ok (c2, c_severity c) /\
    Channel.Err result = None /\ extract (payload result) = inl (c_severity c) /\
    sent (socketIO (service c)) = sent (socketIO (service c2)) ++
      messages Sprint Sprintf range (V12.counter (sessions (service c2))) (prefix c2)
        (passing (c_severity c) (uses_of es2)).
Proof.
  destruct (run_level Sprint Sprintf range extract es c0 c Hnew Hrun)
    as [?|(es1 & k & n & o & a & r & es2 & c1 & c2 & Hes & H1 & Hc1 & Hv & Hr & Hx & Hc & Hc2)]; [by left|].
  right. exists es1, k, n, o, a, r, es2, c1, c2. split_and!; try done.
  rewrite Hc at 1. destruct (cocaine_uses Sprint Sprintf range (uses_of es2) c2) as [Hs _].
  rewrite Hs. by rewrite Hc2.
Qed.

(** ** Witnesses *)

(** A [Sprintf] that reports a verb without an argument, as package [fmt] does for
    a sign at the end of the format. *)
Definition sample_Sprint (args : list value) : string :=
  match args with VString s :: _ => s | _ => "" end.
Definition sample_Sprintf (format : string) (args : list value) : string :=
  match args with
  | [] => if decide (format = "100%") then "100%!(NOVERB)" else format
  | _ => format +:+ sample_Sprint args
  end.

(** The fallback logger rewrites such a text, the logger over a service does not. *)
Lemma fallback_mangles :
  use_text sample_Sprint sample_Sprintf (None, Info [VString "100%"]) = "100%" /\
  printed (fallback_call sample_Sprint sample_Sprintf map_to_list (Info [VString "100%"])
             newFallbackLogger) = ["[INFO] 100%!(NOVERB)"].
Proof. by vm_compute. Qed.

Definition sample_service : Service := new_Service ∅ "logging".
Definition sample_logger (level : Severity) : cocaineLogger := mkCocaine sample_service level "app/x".
Definition sample_uses : list use :=
  [(None, Debug [VString "a"]); (Some {["k" := VString "v"]}, Warnf "b" [VString "c"]);
   (None, Err [VString "d"])].

Lemma loggers_agree_witness :
  printed (uses_with (H := fallback_Logger sample_Sprint sample_Sprintf map_to_list) sample_Sprint
    (fallback_call sample_Sprint sample_Sprintf map_to_list) sample_uses (mkFallback InfoLevel [])) =
    ["[WARNING] bc [ k=v ]"; "[ERROR] d"] /\
  exists kept, kept = filter (fun u => 1 <= use_level u)%Z sample_uses /\
    length kept = 2.
Proof.
  split; [by vm_compute|].
  assert (Hp : plain sample_Sprint sample_Sprintf sample_uses) by by repeat constructor.
  destruct (loggers_agree sample_Sprint sample_Sprintf map_to_list sample_uses (sample_logger InfoLevel)
    (mkFallback InfoLevel []) Hp eq_refl) as (kept & Hk & _).
  exists kept. split; [exact Hk|]. rewrite Hk. by vm_compute.
Defined.

Definition sample_extract (l : list value) : Severity + error :=
  match l with [VInt _ z] => inl z | _ => inr EOF end.
Definition sample_tree : gmap Z Dispatch.dispatchItem :=
  {[2%Z := Dispatch.mkDispatchItem "verbosity" None None]}.

Lemma verbosity_cached_witness :
  let c0 := mkCocaine (new_Service sample_tree "logging") (-100)%Z "app/x" in
  exists c,
    run (logger_step sample_Sprint sample_Sprintf map_to_list sample_extract) (Ok c0)
      [Use (None, Debug [VString "a"]);
       Ask [] (inl tt) (map_to_list sample_tree) true (Some (mkRes [VInt Kint32 2] 0 None));
       Use (None, Debug [VString "b"]); Use (None, Warn [VString "c"])] = Some (Ok c) /\
    c_severity c = 2%Z /\
    (c_severity c = (-100)%Z \/ exists c2 es2,
       sent (socketIO (service c)) = sent (socketIO (service c2)) ++
         messages sample_Sprint sample_Sprintf map_to_list
           (V12.counter (sessions (service c2))) (prefix c2)
           (passing (c_severity c) (uses_of es2))).
Proof.
  intros c0.
  destruct (run _ _ _) as [[c|]|] eqn:Hrun; [|vm_compute in Hrun; discriminate..].
  exists c. split; [done|]. split; [vm_compute in Hrun; by simplify_eq|].
  destruct (verbosity_cached _ _ _ _ c0 c _ eq_refl Hrun)
    as [?|(es1 & k & n & o & a & r & es2 & c1 & c2 & _ & _ & _ & _ & _ & _ & Hs)]; [by left|].
  right. by exists c2, es2.
Defined.
