(* ===== verification/BridgeMain.v ===== *)
(** * cmd/bridge_main.go: the process of a bridge

    [main] up to [Start] - the logger, the configuration from the arguments and the
    environment, the worker with its fallback handler - and then its goroutine beside
    those of Bridge.v: [Start], the deferred [Close] and the end. The call of
    [NewLogger] is modelled with the context it lacks in the source. *)
From S2P Require Import Prelude GoTypes ProtoV1 Handler HTTP Proxy Tokens Defaults Worker Startup Bridge.
From S2P Require Loggers Programs.
From Stdlib Require Import ZArith Lia.

Open Scope stdpp_scope.

(** ** Definitions *)

(** [version.Version] of version/version.go *)
Definition Version : string := "<unknown>".

(** [log.Fatal], [log.Fatalf]: the process exits with status 1, without its deferred
    calls. *)
Record fatal : Type := mkFatal {
  fatal_format : string;
  fatal_args : list value
}.

(** [strconv.Atoi], on 64 bits. *)
Definition Atoi (s : string) : option Z := ParseInt s.

Section Main.
Context (Sprint : list value -> string).
(** The texts of errors: of [Atoi], and of the others. *)
Context (num_error : string -> string) (text : error -> string).
Context {L : Type} `{Loggers.Logger L}.

(** The fields of the messages of [main]; the last message misspells one. *)
Definition bridge_fields (version_key : string) : Loggers.Fields :=
  <["appsource" := VString "bridge"]> (<[version_key := VString Version]> ∅).

Definition log_with (fields : Loggers.Fields) (c : Loggers.call) (logger : L) : L :=
  Loggers.entry_Logger (Loggers.Entry_call Sprint c (Loggers.WithFields fields logger)).

(** A number of the environment, or its default. *)
Definition env_number (getenv : string -> string) (name format : string) (dflt : Z) (logger : L)
    : L * (Z + fatal) :=
  let s := getenv name in
  if decide (s = "") then (logger, inl dflt)
  else
    match Atoi s with
    | Some n => (logger, inl n)
    | None =>
      let args := [VString (num_error s)] in
      (log_with (bridge_fields "bridgeversion") (Loggers.Errf format args) logger,
       inr (mkFatal format args))
    end.

(** What [main] sets in the configuration. *)
Definition configure (getenv : string -> string) (cfg : BridgeConfig) (logger : L)
    : L * (BridgeConfig + fatal) :=
  let slave := getenv "slave" in
  if decide (slave = "") then
    let args := [VString "unable to determine a path to the slave"] in
    (log_with (bridge_fields "bridgeversion") (Loggers.Err args) logger,
     inr (mkFatal "unable to determine a path to the slave" []))
  else
    let (logger, port) :=
      env_number getenv "port" "unable to determine the port %v" (Port cfg) logger in
    match port with
    | inr f => (logger, inr f)
    | inl port =>
      let (logger, timeout) :=
        env_number getenv "startup-timeout" "unable to determine the startup timeout %v"
          (StartupTimeout cfg) logger in
      match timeout with
      | inr f => (logger, inr f)
      | inl timeout => (logger, inl (mkBridgeConfig slave (Args cfg) (Env cfg) port timeout))
      end
    end.

Definition starting_fields (cfg : BridgeConfig) : Loggers.Fields :=
  <["slave" := VString (Name cfg)]> (<["port" := VInt Kint (Port cfg)]>
    (<["startuptimeout" := VInt Kint (StartupTimeout cfg)]> (bridge_fields "bridgeversion"))).

(** A process whose bridge was made. *)
Record bridge_process : Type := mkProcess {
  p_args : list string;              (* os.Args *)
  p_defaults : defaultValues;
  p_config : BridgeConfig;
  p_worker : Startup.Worker;
  p_logger : L
}.

(** How [main] gets to its call of [Start]. *)
Inductive started : Type :=
| ExitsVersion                       (* os.Exit(0) of the defaults *)
| ExitsFatal (logger : L) (f : fatal)
| MainPanics
| Started (p : bridge_process).

Context {Factory Manager : Type}.
Context (Create : Factory -> string -> Token -> Manager + error).
Context (dial : string -> option error).
Context (fallback : BridgeConfig -> string -> handler_prog).

(** [main]: [NewLogger] without endpoints asks the defaults for the locators, so
    they are parsed first; [new_logger] is the logger it makes of them. *)
Definition bridge_main (getenv : string -> string) (environ os_args : list string)
    (new_logger : defaultValues -> L) (factories : gmap string Factory) (lost : bool)
    (sel : write_select) : started :=
  match GetDefaults getenv os_args None with
  | None => ExitsVersion
  | Some values =>
    match NewBridgeConfig environ os_args with
    | Panic => MainPanics
    | Ok (os_args, cfg) =>
      let (logger, cfg) := configure getenv cfg (new_logger values) in
      match cfg with
      | inr f => ExitsFatal logger f
      | inl cfg =>
        let logger := log_with (starting_fields cfg) (Loggers.Infof "starting new bridge" []) logger in
        match NewWorkerNG Create dial text getenv os_args (Some values) factories lost sel with
        | None => ExitsVersion
        | Some (values, s) =>
          match NewWorker s with
          | inr err =>
            let args := [VString (text err)] in
            ExitsFatal (log_with (bridge_fields "bridgeversion")
                          (Loggers.Errf "unable to create a bridge %v" args) logger)
              (mkFatal "unable to create bridge %v" args)
          | inl worker =>
            Started (mkProcess os_args values cfg (Programs.SetFallbackHandler (fallback cfg) worker) logger)
          end
        end
      end
    end
  end.

(** The goroutine of [main] from there on: at the call of [Start], in it, at the
    deferred [Close], in its wait for the child, or at the end of the process. *)
Inductive main_pc : Type :=
| AtStart
| InStart
| AtClose
| InWait
| MainReturned.

Record main_state : Type := mkMain {
  m_pc : main_pc;
  m_bridge : bridge;
  m_logger : L
}.

Inductive main_event : Type :=
| CallsStart
| StartReturned (error_text : string)   (* the text of its error, if any *)
| Closes
| Waited
| BridgeEvent (e : bridge_event).

Definition bridge_main_step (o : outcome main_state) (e : main_event) : option (outcome main_state) :=
  match o with
  | Panic => None
  | Ok m =>
    let go pc o := match o with
      | Some (Ok b) => Some (Ok (mkMain pc b (m_logger m)))
      | Some Panic => Some Panic
      | None => None
      end in
    match m_pc m, e with
    | MainReturned, _ => None
    | AtStart, CallsStart => go InStart (bridge_step (Ok (m_bridge m)) StartCall)
    | InStart, StartReturned error_text =>
      match start_at (m_bridge m) with
      | Returned failed =>
        Some (Ok (mkMain AtClose (m_bridge m)
          (if failed then
             log_with (bridge_fields "bridgeverson")
               (Loggers.Errf "bridge returned with error: %v" [VString error_text]) (m_logger m)
           else m_logger m)))
      | _ => None
      end
    | AtClose, Closes => go InWait (bridge_step (Ok (m_bridge m)) CloseCall)
    | InWait, Waited =>
      match child (m_bridge m) with
      | Exited => Some (Ok (mkMain MainReturned (m_bridge m) (m_logger m)))
      | _ => None
      end
    | pc, BridgeEvent e =>
      match e with
      | StartCall | CloseCall => None
      | _ => go pc (bridge_step (Ok (m_bridge m)) e)
      end
    | _, _ => None
    end
  end.
End Main.
Arguments started L : clear implicits.
Arguments main_state L : clear implicits.
Arguments bridge_process L : clear implicits.

(** ** Specification *)

(** The events of the bridge in a run of its process. *)
Definition bridge_events (es : list main_event) : list bridge_event :=
  omap (fun e => match e with
    | CallsStart => Some StartCall
    | Closes => Some CloseCall
    | BridgeEvent e => Some e
    | _ => None
    end) es.

(** The child as the progress of [Start] says; it is waited for before [Start]
    returns. *)
Definition start_child (p : start_pc) (c : child_state) : bool :=
  match p, c with
  | (NotCalled | Piping | Piped), NotStarted => true
  | Waiting, (ChildRunning | Exited) => true
  | Returned _, Exited => true
  | Returned true, NotStarted => true
  | _, _ => false
  end.

(** ** Lemmas *)

Section Lemmas.
Context (Sprint : list value -> string).
Context {L : Type} `{Loggers.Logger L}.
#[local] Abbreviation step := (bridge_main_step Sprint (L := L)).

Lemma bridge_start_child b e b' :
  bridge_step (Ok b) e = Some (Ok b') -> start_child (start_at b) (child b) = true ->
  start_child (start_at b') (child b') = true /\ onClose b' = onClose b || is_close e /\
  (not_started (child b) = false -> not_started (child b') = false) /\
  (child b = Exited -> start_child (start_at b') (child b') = true -> child b' = Exited) /\
  (forall failed, start_at b = Returned failed -> start_at b' = Returned failed).
Proof.
  intros He. bridge_cases b e He; cbn; rewrite ?orb_false_r, ?orb_true_r; intros Hs; split_and!; try done;
    intros; simplify_eq/=; try done;
    repeat match goal with
      | x : child_state |- _ => destruct x
      | x : start_pc |- _ => destruct x
      end; simplify_eq/=; try done; by case_match.
Qed.

(** Where [main] is, and its bridge. *)
Definition main_ok (m : main_state L) : Prop :=
  start_child (start_at (m_bridge m)) (child (m_bridge m)) = true /\
  match m_pc m with
  | AtStart => start_at (m_bridge m) = NotCalled /\ onClose (m_bridge m) = false
  | InStart => onClose (m_bridge m) = false
  | AtClose => (exists failed, start_at (m_bridge m) = Returned failed) /\ onClose (m_bridge m) = false
  | InWait | MainReturned => child (m_bridge m) = Exited
  end.

(** One event of the bridge beside [main]. *)
Lemma main_ok_bridge pc b l e b' :
  main_ok (mkMain pc b l) -> bridge_step (Ok b) e = Some (Ok b') -> is_close e = false ->
  e <> StartCall -> main_ok (mkMain pc b' l).
Proof.
  intros [Hs Hpc] He Hc Hne. cbn in *.
  destruct (bridge_start_child _ _ _ He Hs) as (Hs' & Ho & _ & Hx & Hr). rewrite Hc, orb_false_r in Ho.
  split; [exact Hs'|]. destruct pc; cbn in *.
  - destruct Hpc as [Hn Ho']. rewrite Ho. split; [|done]. clear Hs' Ho Hx Hr.
    bridge_cases b e He; cbn in *; try done.
  - by rewrite Ho.
  - destruct Hpc as [[failed Hf] Ho']. rewrite Ho. split; [|done]. exists failed. by apply Hr.
  - by apply Hx.
  - by apply Hx.
Qed.

Lemma main_step_ok m e m' :
  main_ok m -> step (Ok m) e = Some (Ok m') ->
  main_ok m' /\ run bridge_step (Ok (m_bridge m)) (bridge_events [e]) = Some (Ok (m_bridge m')).
Proof.
  intros Hok He. destruct m as [pc b l]. cbn [bridge_main_step m_pc m_bridge m_logger] in He.
  assert (Hbe : forall e, match e with StartCall | CloseCall => None | _ =>
      match bridge_step (Ok b) e with Some (Ok b') => Some (Ok (mkMain pc b' l)) | Some Panic => Some Panic | None => None end
      end = Some (Ok m') ->
    main_ok m' /\ run bridge_step (Ok b) (bridge_events [BridgeEvent e]) = Some (Ok (m_bridge m'))).
  { clear He e. intros e He. destruct (bridge_step (Ok b) e) as [[b'|]|] eqn:Hb; [|by destruct e..].
    assert (Hm : m' = mkMain pc b' l) by (by destruct e; simplify_eq). subst m'.
    split; [|cbn [run bridge_events omap list_omap]; by rewrite Hb].
    eapply main_ok_bridge; [exact Hok|exact Hb|by destruct e|by intros ->]. }
  destruct pc, e as [|error_text| | |e]; try done; try (by apply Hbe).
  - destruct Hok as [Hs [Hn Hc]]. cbn [m_bridge] in *. destruct (bridge_step (Ok b) StartCall) as [[b'|]|] eqn:Hb; try done.
    injection He as <-. split; [|cbn [run bridge_events omap list_omap m_bridge]; by rewrite Hb].
    destruct (bridge_start_child _ _ _ Hb Hs) as (Hs' & Ho & _). split; cbn; [done|].
    by rewrite Ho, Hc.
  - destruct Hok as [Hs Hc]. cbn [m_bridge] in *. destruct (start_at b) as [| | | |failed] eqn:Hst; try done.
    injection He as <-. split; [|done]. split; cbn; rewrite ?Hst; [done|]. split; [by exists failed|done].
  - destruct Hok as [Hs [[failed Hf] Hc]]. cbn [m_bridge] in *.
    destruct (bridge_step (Ok b) CloseCall) as [[b'|]|] eqn:Hb; try done.
    injection He as <-. split; [|cbn [run bridge_events omap list_omap m_bridge]; by rewrite Hb].
    destruct (bridge_start_child _ _ _ Hb Hs) as (Hs' & _). split; cbn; [done|].
    cbn in Hb. unfold Close in Hb. rewrite Hc, Hf in *.
    destruct (child b) eqn:Hch; [done|by destruct failed|]. by injection Hb as <-.
  - destruct Hok as [Hs Hx]. cbn [m_bridge] in *. rewrite Hx in He. injection He as <-. by split.
Qed.

Lemma bridge_events_app es1 es2 : bridge_events (es1 ++ es2) = bridge_events es1 ++ bridge_events es2.
Proof. apply omap_app. Qed.

Lemma main_run_ok l es m :
  run step (Ok (mkMain AtStart NewBridge l)) es = Some (Ok m) ->
  main_ok m /\ bridge_inv (bridge_events es) (m_bridge m).
Proof.
  intros Hrun. enough (main_ok m /\ run bridge_step (Ok NewBridge) (bridge_events es) = Some (Ok (m_bridge m)))
    as [? ?] by (split; [done|by apply bridge_inv_run]).
  revert m Hrun. induction es as [|e es IH] using rev_ind; intros m Hrun.
  - injection Hrun as <-. done.
  - apply run_snoc in Hrun as ([m1|] & Hrun & He); [|done]. destruct (IH m1 Hrun) as [Hok Hb].
    destruct (main_step_ok _ _ _ Hok He) as [Hok' Hb']. split; [done|].
    by rewrite bridge_events_app, run_app, Hb.
Qed.

(** Only the deferred [Close] panics, when the child was never started. *)
Lemma main_step_panics m e :
  main_ok m -> step (Ok m) e = Some Panic -> e = Closes /\ child (m_bridge m) = NotStarted.
Proof.
  intros Hok He. destruct m as [pc b l]. cbn [bridge_main_step m_pc m_bridge m_logger] in He.
  assert (Hbe : forall e, match e with StartCall | CloseCall => None | _ =>
      match bridge_step (Ok b) e with Some (Ok b') => Some (Ok (mkMain pc b' l)) | Some Panic => Some Panic | None => None end
      end = Some Panic -> False).
  { clear He e. intros e He. destruct (bridge_step (Ok b) e) as [[b'|]|] eqn:Hb; [by destruct e| |by destruct e].
    apply bridge_step_panics in Hb as [-> _]. done. }
  destruct pc, e as [|error_text| | |e]; try done; try (by apply Hbe in He).
  - exfalso. cbn in He. unfold Start_step in He. by destruct (start_at b).
  - by destruct (start_at b).
  - destruct Hok as [Hs [[failed Hf] Hc]]. cbn [m_bridge m_pc] in *. split; [done|].
    cbn in He. unfold Close in He. rewrite Hc in He. by destruct (child b).
  - by destruct (child b).
Qed.
End Lemmas.

(** ** Properties *)

(** In every run of the process of a bridge, until its end, nothing
    stops its worker, which runs only once the application answered a ping, and
    nothing signals the application. When the application ends, [main] can go on to
    the end of the process, which takes the running worker with it, and [main] ends in
    no other way: when the application could not be started, the deferred [Close]
    panics, and nothing else does. *)
Theorem bridge_process_ends (Sprint : list value -> string) {L : Type} `{Loggers.Logger L}
    (l : L) (es : list main_event) (s : outcome (main_state L))
    (Hrun : run (bridge_main_step Sprint) (Ok (mkMain AtStart NewBridge l)) es = Some s) :
  match s with
  | Ok m =>
    let b := m_bridge m in
    worker_stops b = 0 /\ signals_sent b = 0 /\
    (ping_at b = RunsWorker -> existsb is_answered (bridge_events es) = true) /\
    logged b = concat (map log_of (bridge_events es)) /\
    (m_pc m = MainReturned -> child b = Exited) /\
    (m_pc m = AtClose ->
       (existsb is_started (bridge_events es) = true /\
        exists m', run (bridge_main_step Sprint) (Ok m) [Closes; Waited] = Some (Ok m') /\
          m_pc m' = MainReturned /\ ping_at (m_bridge m') = ping_at b) \/
       (existsb is_started (bridge_events es) = false /\
        bridge_main_step Sprint (Ok m) Closes = Some Panic)) /\
    (m_pc m = InStart -> start_at b = Waiting -> child b = Exited -> forall failed error_text,
       exists m', run (bridge_main_step Sprint) (Ok m)
           [BridgeEvent (WaitReturns failed); StartReturned error_text; Closes; Waited] = Some (Ok m') /\
         m_pc m' = MainReturned /\ ping_at (m_bridge m') = ping_at b)
  | Panic =>
    exists es', es = es' ++ [Closes] /\ existsb is_started (bridge_events es') = false
  end.
Proof.
  destruct s as [m|].
  - destruct (main_run_ok _ _ _ _ Hrun) as [[Hs Hpc] [_ Hsig Hst _ Hch _ Hw _ Hlog]]. cbv zeta.
    destruct m as [pc b l']. cbn [m_pc m_bridge] in *. split_and!; try done.
    + intros Hp. apply Hw. by rewrite Hp.
    + by intros ->.
    + intros ->. destruct Hpc as [[failed Hf] Hc]. rewrite Hf in Hs.
      cbn. unfold Close. rewrite Hc.
      destruct (existsb is_started _), (child b) eqn:Hcb; try done; [by destruct failed| |by right].
      left. split; [done|]. cbn. rewrite Hcb. eexists. split; [reflexivity|]. done.
    + intros -> Hwait Hx failed error_text. cbn. unfold Start_step, Close. rewrite Hwait, Hx. cbn.
      unfold Close. cbn. rewrite Hpc. cbn. eexists. split; [reflexivity|]. done.
  - destruct es as [|e es _] using rev_ind; [done|]. apply run_snoc in Hrun as ([m|] & Hrun & He); [|done].
    destruct (main_run_ok _ _ _ _ Hrun) as [Hok Hinv].
    destruct (main_step_panics _ _ _ Hok He) as [-> Hn]. exists es. split; [done|].
    pose proof (inv_child _ _ Hinv) as Hch. rewrite Hn in Hch. cbn in Hch.
    by destruct (existsb is_started _).
Qed.

(** What the environment says of a number. *)
Definition env_value (s : string) (dflt : Z) : option Z :=
  if decide (s = "") then Some dflt else Atoi s.

(** The message and the end of a process whose environment is wrong. *)
Definition refused {L} `{Loggers.Logger L} (Sprint : list value -> string) (c : Loggers.call)
    (f : fatal) (logger : L) : started L :=
  ExitsFatal (log_with Sprint (bridge_fields "bridgeversion") c logger) f.

Lemma env_number_value Sprint num_error {L} `{Loggers.Logger L} getenv name format dflt (logger : L) :
  env_number Sprint num_error getenv name format dflt logger =
    match env_value (getenv name) dflt with
    | Some n => (logger, inl n)
    | None =>
      let args := [VString (num_error (getenv name))] in
      (log_with Sprint (bridge_fields "bridgeversion") (Loggers.Errf format args) logger,
       inr (mkFatal format args))
    end.
Proof. unfold env_number, env_value. case_decide; [done|]. by destruct (Atoi _). Qed.

(** C29 (functional): the process of a bridge, on the command line of the runtime and
    with the environment of the application: it exits with a message in the log and
    one for the crash logs when there is no application or a number cannot be read,
    and otherwise gets a worker that announced itself with the uuid of the command
    line at its endpoint - although [NewBridgeConfig] has cut the endpoint out of
    [os.Args], since the logger parsed the defaults before -, whose every event is
    proxied to the configured port, and a child with the other arguments. *)
Theorem bridge_starts (Sprint : list value -> string) (num_error : string -> string)
    (text : error -> string) {L : Type} `{Loggers.Logger L} {Factory Manager : Type}
    (Create : Factory -> string -> Token -> Manager + error) (dial : string -> option error)
    (fallback : BridgeConfig -> string -> handler_prog) (getenv : string -> string)
    (environ : list string) (prog app ep id : string) (locs : list string)
    (l1 l2 : list (spelling * setting)) (dbl : bool) (last : setting)
    (new_logger : defaultValues -> L) (factories : gmap string Factory) (m : TokenManager Manager)
    (Hvalid : Forall (fun x => valid_setting x.2) (l1 ++ (mkSpelling true false, SEndpoint ep) :: l2 ++ [(mkSpelling dbl false, last)]))
    (Hfirst : "--endpoint" ∉ command_line l1)
    (Happlied : apply_settings (initial_values getenv)
       (l1 ++ (mkSpelling true false, SEndpoint ep) :: l2 ++ [(mkSpelling dbl false, last)]) =
       mkDefaults app ep locs 1 id (is_DEBUG (getenv "DEBUG")) (mkToken "" ""))
    (Hep : ep <> "")
    (Hm : NewTokenManager Create factories app (mkToken (getenv tokenTypeKey) (getenv tokenBodyKey)) = inl m)
    (Hdial : dial ep = None) :
  let rest := l2 ++ [(mkSpelling dbl false, last)] in
  let os_args := prog :: command_line (l1 ++ (mkSpelling true false, SEndpoint ep) :: rest) in
  exists values os_args' w,
    endpoint values = ep /\ length os_args' = length os_args /\
    Worker.id (impl w) = id /\ written (impl w) = [newHandshakeV1 id] /\
    bridge_main Sprint num_error text Create dial fallback getenv environ os_args new_logger
      factories false Sent =
    (if decide (getenv "slave" = "") then
       let msg := "unable to determine a path to the slave" in
       refused Sprint (Loggers.Err [VString msg]) (mkFatal msg []) (new_logger values)
     else
       match env_value (getenv "port") 8080, env_value (getenv "startup-timeout") 5 with
       | None, _ =>
         let msg := "unable to determine the port %v" in
         let args := [VString (num_error (getenv "port"))] in
         refused Sprint (Loggers.Errf msg args) (mkFatal msg args) (new_logger values)
       | _, None =>
         let msg := "unable to determine the startup timeout %v" in
         let args := [VString (num_error (getenv "startup-timeout"))] in
         refused Sprint (Loggers.Errf msg args) (mkFatal msg args) (new_logger values)
       | Some port, Some timeout =>
         let cfg := mkBridgeConfig (getenv "slave") (command_line (l1 ++ rest)) environ port timeout in
         Started (mkProcess os_args' values cfg (Programs.SetFallbackHandler (fallback cfg) w)
           (log_with Sprint (starting_fields cfg) (Loggers.Infof "starting new bridge" []) (new_logger values)))
       end) /\
    forall cfg event,
      Handler.Call (Startup.handlers (Programs.SetFallbackHandler (fallback cfg) w)) event = fallback cfg event.
Proof.
  intros rest os_args.
  assert (Hargs : command_line (l1 ++ (mkSpelling true false, SEndpoint ep) :: rest) =
    command_line l1 ++ "--endpoint" :: ep :: command_line rest) by by rewrite command_line_app.
  pose proof (NewBridgeConfig_app environ prog _ ep (command_line rest) Hfirst) as Hcfg.
  cbv zeta in Hcfg. rewrite <- Hargs, <- command_line_app in Hcfg. fold os_args in Hcfg.
  destruct (newWorkerNG_sent id (is_DEBUG (getenv "DEBUG"))) as (w & Hw & Hid & Hwr & _).
  set (values := set_token (mkToken (getenv tokenTypeKey) (getenv tokenBodyKey))
    (apply_settings (initial_values getenv) (l1 ++ (mkSpelling true false, SEndpoint ep) :: rest))).
  assert (Hv : values = mkDefaults app ep locs 1 id (is_DEBUG (getenv "DEBUG"))
    (mkToken (getenv tokenTypeKey) (getenv tokenBodyKey))) by (unfold values, rest; by rewrite Happlied).
  assert (Hd : GetDefaults getenv os_args None = Some values) by by apply GetDefaults_line.
  eexists values, _, (mkFacade w NewEventHandlers false). split_and!; [by rewrite Hv| |exact Hid|exact Hwr| |].
  2: { unfold bridge_main. rewrite Hd, Hcfg. unfold configure. case_decide as Hs; [reflexivity|].
    rewrite env_number_value. cbn [Port StartupTimeout Args Env].
    destruct (env_value (getenv "port") 8080) as [port|]; [|reflexivity].
    rewrite env_number_value. destruct (env_value (getenv "startup-timeout") 5) as [timeout|]; [|reflexivity].
    unfold NewWorkerNG, GetDefaults, NewWorkerNG_with. cbn [fmap option_fmap option_map]. rewrite Hv.
    cbn [endpoint Defaults.appName token uuid protocol Defaults.debug].
    rewrite decide_False, Hm, Hdial by done. cbn [result NewWorker]. unfold NewWorker. cbn [result].
    by rewrite Hw. }
  - unfold os_args. cbn [length]. f_equal. rewrite Hargs, command_line_app, !length_app, length_drop.
    rewrite !length_app. cbn [length]. lia.
  - intros cfg event. done.
Qed.

(** ** Witnesses *)

#[local] Instance sample_logger : Loggers.Logger Loggers.fallbackLogger :=
  Loggers.fallback_Logger (fun _ => "") (fun format _ => format) (fun _ => []).

Definition sample_bridge_env (name : string) : string :=
  if decide (name = "slave") then "/app" else if decide (name = "port") then "9000"
  else if decide (name = tokenTypeKey) then "TVM" else "".

Lemma bridge_starts_witness :
  let cfg := mkBridgeConfig "/app" ["--uuid"; "u"; "--app"; "echo"; "--protocol"; "1"] [] 9000 5 in
  let fallback (cfg : BridgeConfig) (event : string) := HReturn in
  exists values os_args' w,
    endpoint values = "/sock" /\ Worker.id (impl w) = "u" /\
    bridge_main (fun _ => "") (fun s => s) (fun _ => "") sample_Create (fun _ => None) fallback
      sample_bridge_env [] ["bridge"; "--uuid"; "u"; "--endpoint"; "/sock"; "--app"; "echo"; "--protocol"; "1"]
      (fun _ => Loggers.newFallbackLogger) sample_factories false Sent =
    Started (mkProcess os_args' values cfg (Programs.SetFallbackHandler (fallback cfg) w)
      (Loggers.mkFallback Loggers.DebugLevel ["[INFO] starting new bridge [ ]"])).
Proof.
  intros cfg fallback.
  destruct (bridge_starts (fun _ => "") (fun s => s) (fun _ => "") sample_Create (fun _ => None) fallback
    sample_bridge_env [] "bridge" "echo" "/sock" "u" ["localhost:10053"]
    [(mkSpelling true false, SUuid "u")] [(mkSpelling true false, SApp "echo")] true (SProtocol 1)
    (fun _ => Loggers.newFallbackLogger) sample_factories (Managed 7))
    as (values & os_args' & w & Hep & _ & Hid & _ & Hmain & _).
  1: by repeat constructor.
  1: by apply (bool_decide_unpack _).
  1-4: done.
  exists values, os_args', w. split; [exact Hep|]. split; [exact Hid|]. exact Hmain.
Defined.

(** The application ends, and the process with it; a child that cannot be started. *)
Lemma bridge_process_ends_witness :
  let step := bridge_main_step (L := Loggers.fallbackLogger) (fun _ => "") in
  let m0 := Ok (mkMain AtStart NewBridge Loggers.newFallbackLogger) in
  match run step m0 [CallsStart; BridgeEvent (PipesMade false); BridgeEvent (ChildStart false);
      BridgeEvent (Ping true); BridgeEvent ChildExits; BridgeEvent (WaitReturns true); StartReturned "exit status 1"] with
  | Some (Ok m) => worker_stops (m_bridge m) = 0 /\
      exists m', run step (Ok m) [Closes; Waited] = Some (Ok m') /\ m_pc m' = MainReturned
  | _ => False
  end.
Proof.
  intros step m0. destruct (run _ _ _) as [[m|]|] eqn:Hrun; [|vm_compute in Hrun; discriminate..].
  pose proof (bridge_process_ends _ _ _ _ Hrun) as (Hst & _ & _ & _ & _ & Hend & _). split; [exact Hst|].
  destruct Hend as [(_ & m' & Hm' & Hr & _)|[Hf _]].
  - vm_compute in Hrun. by injection Hrun as <-.
  - exists m'. by split.
  - vm_compute in Hf. discriminate.
Defined.
