(* ===== verification/Tracing.v ===== *)
(** * cocaine12/trace.go: spans and the contexts that carry them

    Contexts are immutable chains; a span is logged through the interface of
    Loggers.v. The random numbers and the clock are arguments. The last part
    composes the file with the headers of a call (Service.v) and with the worker
    that is invoked (Worker.v). *)
From S2P Require Import Prelude GoTypes Headers Dispatch Sessions Channel Service Loggers Worker.
From Stdlib Require Import ZArith Lia.

Open Scope stdpp_scope.

(** ** Contexts *)

Definition TraceInfoValue : string := "trace.traceinfo".
Definition TraceStartTimeValue : string := "trace.starttime".

(** What [ctx.Value] returns. *)
Inductive ctx_value : Type :=
| CNil
| CTrace (traceInfo : TraceInfo)
| CTime (t : Z)
| CValue (v : value).

(** [context.Background()], [traced], and the result of [context.WithValue]. *)
Inductive context : Type :=
| Background
| traced (parent : context) (traceInfo : TraceInfo) (startTime : Z)
| WithValue (parent : context) (key : string) (v : ctx_value).

Fixpoint Value (key : string) (ctx : context) : ctx_value :=
  match ctx with
  | Background => CNil
  | traced parent traceInfo startTime =>
    if decide (key = TraceInfoValue) then CTrace traceInfo
    else if decide (key = TraceStartTimeValue) then CTime startTime
    else Value key parent
  | WithValue parent k v => if decide (key = k) then v else Value key parent
  end.

Definition GetTraceInfo (ctx : context) : option TraceInfo :=
  match Value TraceInfoValue ctx with CTrace traceInfo => Some traceInfo | _ => None end.

(** The context of these functions may be nil. *)
Definition AttachTraceInfo (ctx : option context) (traceInfo : TraceInfo) (now : Z) : context :=
  traced (default Background ctx) traceInfo now.

Definition CleanTraceInfo (ctx : context) : context := WithValue ctx TraceInfoValue CNil.

(** [rand] is what [rand.Int63] returns. *)
Definition BeginNewTraceContextWithLogger (ctx : option context) (logger : option nat)
    (rand now : Z) : context :=
  AttachTraceInfo ctx (mkTraceInfo (wrap64 rand) (wrap64 rand) 0 logger) now.

Definition BeginNewTraceContext (ctx : option context) (rand now : Z) : context :=
  BeginNewTraceContextWithLogger ctx None rand now.

(** ** Spans *)

Section Spans.
Context {L : Type} `{HL : Logger L}.
Context (Sprint : list value -> string) (Sprintf : string -> list value -> string).
(** [fmt.Sprintf("%x", id)], and the logger [NewLogger] makes. *)
Context (hex : Z -> string) (NewLogger : L).

(** The loggers of the program, and which of them is [traceLogger] once
    [initTraceLogger] has run. *)
Record world : Type := mkWorld {
  loggers : list L;
  traceLogger : option nat
}.

Definition getLog (traceInfo : TraceInfo) (w : world) : world * nat :=
  match logger traceInfo with
  | Some l => (w, l)
  | None =>
    match traceLogger w with
    | Some l => (w, l)
    | None =>
      (mkWorld (loggers w ++ [NewLogger]) (Some (length (loggers w))), length (loggers w))
    end
  end.

(** [getLog().WithFields(fields).Infof(msg)] *)
Definition log_span (traceInfo : TraceInfo) (fields : Fields) (msg : string) (w : world) : world :=
  let (w, l) := getLog traceInfo w in
  mkWorld (alter (fun lg => entry_Logger (Entry_call Sprint (Infof msg []) (WithFields fields lg))) l
             (loggers w)) (traceLogger w).

Definition span_fields (traceInfo : TraceInfo) (timestamp : Z) (rpcName : string) : Fields :=
  <["trace_id" := VString (hex (Trace traceInfo))]>
  (<["span_id" := VString (hex (Span traceInfo))]>
  (<["parent_id" := VString (hex (Parent traceInfo))]>
  (<["real_timestamp" := VInt Kint64 (timestamp ÷ 1000)]>
  (<["rpc_name" := VString rpcName]> ∅)))).

(** The closure [NewSpan] returns, [None] for [closeDummySpan]. *)
Definition CloseSpan : Type := option (TraceInfo * Z * string).

Definition close_span (c : CloseSpan) (now : Z) (w : world) : world :=
  match c with
  | None => w
  | Some (traceInfo, startTime, rpcName) =>
    let duration := (now - startTime)%Z in
    log_span traceInfo
      (<["duration" := VInt Kint64 (duration ÷ 1000)]> (span_fields traceInfo now rpcName)) "finish" w
  end.

(** [NewSpan]; [rand] and [now] are what [rand.Int63] and [time.Now] return. *)
Definition NewSpan (ctx : option context) (rpcNameFormat : string) (args : list value)
    (rand now : Z) (w : world) : world * context * CloseSpan :=
  match ctx with
  | None => (w, Background, None)
  | Some ctx =>
    match GetTraceInfo ctx with
    | None => (w, ctx, None)
    | Some traceInfo =>
      let rpcName := match args with [] => rpcNameFormat | _ => Sprintf rpcNameFormat args end in
      let startTime := now in
      let traceInfo := set_Parent (Span traceInfo) traceInfo in
      let traceInfo := set_Span (wrap64 rand) traceInfo in
      let w := log_span traceInfo (span_fields traceInfo startTime rpcName) "start" w in
      (w, traced ctx traceInfo startTime, Some (traceInfo, startTime, rpcName))
    end
  end.

(** Nested spans: the name, its arguments, the random number and the time. *)
Definition span_call : Type := string * list value * Z * Z.

Fixpoint descend (calls : list span_call) (ctx : context) (w : world) : world * context :=
  match calls with
  | [] => (w, ctx)
  | (name, args, rand, now) :: calls =>
    let '(w, ctx, _) := NewSpan (Some ctx) name args rand now w in
    descend calls ctx w
  end.
End Spans.

(** ** Calls and invocations *)

(** The context of a call: the span [call] opens, and the trace it packs. *)
Definition call_trace {L} `{HL : Logger L} Sprint Sprintf hex (NewLogger : L) (ctx : option context)
    (service name : string) (rand now : Z) (w : world) : world * option TraceInfo :=
  let '(w, ctx, _) := NewSpan Sprint Sprintf hex NewLogger ctx "%s %s: calling %s"
                        [VString service; VString ""; VString name] rand now w in
  (w, GetTraceInfo ctx).

(** The context [onInvoke] gives to the handler of an event. *)
Definition handler_context {L} `{HL : Logger L} Sprint Sprintf hex (NewLogger : L) (msg : Message)
    (event : string) (attached rand now : Z) (w : world) : world * context * CloseSpan :=
  let ctx :=
    match invoke_trace msg with
    | Some traceInfo => AttachTraceInfo (Some Background) traceInfo attached
    | None => Background
    end in
  NewSpan Sprint Sprintf hex NewLogger (Some ctx) event [] rand now w.

(** [rand.Int63] *)
Definition is_Int63 (z : Z) : Prop := (0 <= z < 2 ^ 63)%Z.

(** ** Lemmas *)

Lemma Int63_u64 z : is_Int63 z -> is_u64 z.
Proof. unfold is_Int63. solve_u64. Qed.

Lemma GetTraceInfo_traced parent traceInfo t : GetTraceInfo (traced parent traceInfo t) = Some traceInfo.
Proof. done. Qed.

Lemma GetTraceInfo_clean ctx : GetTraceInfo (CleanTraceInfo ctx) = None.
Proof. done. Qed.

(** Other values do not hide a trace, and a trace does not hide other values. *)
Lemma GetTraceInfo_WithValue ctx key v :
  key <> TraceInfoValue -> GetTraceInfo (WithValue ctx key v) = GetTraceInfo ctx.
Proof. intros Hk. unfold GetTraceInfo. cbn [Value]. by rewrite decide_False. Qed.

Section SpanLemmas.
Context {L : Type} `{HL : Logger L}.
Context (Sprint : list value -> string) (Sprintf : string -> list value -> string).
Context (hex : Z -> string) (NewLogger : L).
#[local] Abbreviation NewSpan := (NewSpan Sprint Sprintf hex NewLogger).
#[local] Abbreviation descend := (descend Sprint Sprintf hex NewLogger).

(** A span of a traced context: its trace, and what becomes of the ids. *)
Lemma NewSpan_traced ctx name args rand now w traceInfo :
  GetTraceInfo ctx = Some traceInfo ->
  exists w' closer,
    NewSpan (Some ctx) name args rand now w =
      (w', traced ctx (mkTraceInfo (Trace traceInfo) (wrap64 rand) (Span traceInfo) (logger traceInfo)) now,
       Some closer).
Proof. intros Ht. unfold NewSpan. rewrite Ht. by eexists _, _. Qed.

(** Without a trace nothing happens. *)
Lemma NewSpan_untraced ctx name args rand now w :
  GetTraceInfo ctx = None -> NewSpan (Some ctx) name args rand now w = (w, ctx, None).
Proof. intros Ht. unfold NewSpan. by rewrite Ht. Qed.

(** The trace after nested spans. *)
Definition span_ids (traceInfo : TraceInfo) (calls : list span_call) : list Z :=
  Span traceInfo :: map (fun '(_, _, rand, _) => rand) calls.

Lemma descend_trace calls ctx w traceInfo :
  GetTraceInfo ctx = Some traceInfo ->
  Forall (fun '(_, _, rand, _) => is_Int63 rand) calls ->
  exists info, GetTraceInfo (descend calls ctx w).2 = Some info /\
    Trace info = Trace traceInfo /\ logger info = logger traceInfo /\
    Some (Span info) = last (span_ids traceInfo calls) /\
    (calls <> [] -> Some (Parent info) = last (removelast (span_ids traceInfo calls))) /\
    (calls = [] -> info = traceInfo).
Proof.
  revert ctx w traceInfo. induction calls as [|[[[name args] rand] now] calls IH];
    intros ctx w traceInfo Ht Hr; cbn [Tracing.descend].
  { exists traceInfo. by split_and!. }
  apply Forall_cons in Hr as [Hr0 Hr].
  destruct (NewSpan_traced ctx name args rand now w traceInfo Ht) as (w' & closer & ->).
  rewrite wrap64_small by (by apply Int63_u64).
  destruct (IH (traced ctx (mkTraceInfo (Trace traceInfo) rand (Span traceInfo) (logger traceInfo)) now) w'
    _ (GetTraceInfo_traced _ _ _) Hr) as (info & Hi & Htr & Hl & Hs & Hp & He).
  exists info. split_and!; [done|done|done| | |done].
  - rewrite Hs. unfold span_ids. by destruct calls.
  - intros _. destruct (decide (calls = [])) as [->|Hne]; [by rewrite He|].
    rewrite Hp by done. unfold span_ids. cbn [map]. destruct calls as [|[[[n a] r] t] calls]; [done|].
    cbn [map removelast Span]. by destruct (map _ calls).
Qed.
End SpanLemmas.

(** A span that is closed is logged twice, on the logger attached to its trace,
    with the same ids. *)
Lemma span_logged {L : Type} `{HL : Logger L} Sprint Sprintf hex (NewLogger : L) ctx name rand now now'
    (w : world) info l lg :
  GetTraceInfo ctx = Some info -> logger info = Some l -> loggers w !! l = Some lg ->
  let '(w', _, closer) := NewSpan Sprint Sprintf hex NewLogger (Some ctx) name [] rand now w in
  let span := mkTraceInfo (Trace info) (wrap64 rand) (Span info) (Some l) in
  let lg1 := entry_Logger (Entry_call Sprint (Infof "start" [])
               (WithFields (span_fields hex span now name) lg)) in
  let lg2 := entry_Logger (Entry_call Sprint (Infof "finish" [])
               (WithFields (<["duration" := VInt Kint64 ((now' - now) ÷ 1000)]>
                              (span_fields hex span now' name)) lg1)) in
  loggers (close_span Sprint hex NewLogger closer now' w') = <[l := lg2]> (loggers w) /\
  traceLogger w' = traceLogger w.
Proof.
  intros Hi Hl Hlg. unfold NewSpan. rewrite Hi. unfold log_span at 1, getLog. cbn [logger set_Span set_Parent].
  unfold close_span, log_span, getLog. rewrite !Hl. cbn [logger set_Span set_Parent loggers traceLogger].
  rewrite !Hl. split; [|done].
  apply list_eq. intros i. destruct (decide (i = l)) as [->|Hne].
  - cbn [loggers]. rewrite !list_lookup_alter_eq, Hlg. unfold set_Span, set_Parent. cbn [fmap option_fmap option_map Trace Span Parent logger].
    rewrite Hl. by rewrite list_lookup_insert_eq by (by eapply lookup_lt_Some).
  - cbn [loggers]. by rewrite !list_lookup_alter_ne, list_lookup_insert_ne by done.
Qed.

Lemma last_in {A} (l : list A) x : last l = Some x -> x ∈ l.
Proof. rewrite last_lookup. apply list_elem_of_lookup_2. Qed.

Lemma removelast_in {A} (l : list A) x : x ∈ removelast l -> x ∈ l.
Proof.
  induction l as [|a [|b l] IH]; cbn [removelast]; [done|by intros ?%not_elem_of_nil|].
  intros [->|Hx]%elem_of_cons; [by left|right; by apply IH].
Qed.

(** ** Properties *)

(** C33 (bounds): in every chain of spans under a new trace, the trace is the
    number it began with, the span is the last random number and the parent the
    one before; all three stay below 2^63, and they survive the headers of a
    message. *)
Theorem spans_bounded {L : Type} `{HL : Logger L}
    (Sprint : list value -> string) (Sprintf : string -> list value -> string)
    (hex : Z -> string) (NewLogger : L) (ctx : option context) (lg : option nat)
    (r0 now : Z) (calls : list span_call) (w : world)
    (Hr0 : is_Int63 r0) (Hcalls : Forall (fun '(_, _, rand, _) => is_Int63 rand) calls) :
  let ctx' := (descend Sprint Sprintf hex NewLogger calls
                 (BeginNewTraceContextWithLogger ctx lg r0 now) w).2 in
  let ids := r0 :: map (fun '(_, _, rand, _) => rand) calls in
  exists info, GetTraceInfo ctx' = Some info /\
    Trace info = r0 /\ logger info = lg /\
    is_Int63 (Span info) /\ is_Int63 (Parent info) /\
    last ids = Some (Span info) /\
    (if decide (calls = []) then Parent info = 0%Z else last (removelast ids) = Some (Parent info)) /\
    getTraceData (traceInfoToHeaders info).1 =
      (mkTraceInfo r0 (Span info) (Parent info) None, None).
Proof.
  cbv zeta.
  destruct (descend_trace Sprint Sprintf hex NewLogger calls
    (BeginNewTraceContextWithLogger ctx lg r0 now) w (mkTraceInfo r0 r0 0 lg))
    as (info & Hi & Ht & Hl & Hs & Hp & He); [|done|].
  { unfold BeginNewTraceContextWithLogger. by rewrite wrap64_small by (by apply Int63_u64). }
  unfold span_ids in *. cbn [Trace Span logger] in *.
  set (ids := r0 :: map (fun '(_, _, rand, _) => rand) calls) in *.
  assert (Hids : Forall is_Int63 ids).
  { constructor; [done|]. apply Forall_map. eapply Forall_impl; [exact Hcalls|]. by intros [[[? ?] ?] ?]. }
  rewrite Forall_forall in Hids.
  assert (Hspan : is_Int63 (Span info)) by (by apply Hids, last_in).
  assert (Hparent : is_Int63 (Parent info)).
  { destruct (decide (calls = [])) as [Hc|Hc]; [rewrite (He Hc); unfold is_Int63; cbn; lia|].
    by apply Hids, removelast_in, last_in; symmetry; apply Hp. }
  exists info. split_and!; try done.
  - case_decide as Hc; [by rewrite (He Hc)|by symmetry; apply Hp].
  - rewrite getTraceData_decode, (decode_first_permutation info);
      [by rewrite Ht|rewrite Ht|..|done]; by apply Int63_u64.
Qed.

(** C34 (functional): a trace goes through a call: the message that opens the
    session carries a new span whose parent is the caller's, a worker that is
    invoked with the tracing headers of that message, in any order and among
    others, hands its handler a span of the same trace whose parent is the span of
    the call; without a trace the message has no headers, and the handler of a
    message without tracing headers gets the background context and logs
    nothing. *)
Theorem trace_propagates {L : Type} `{HL : Logger L}
    (Sprint : list value -> string) (Sprintf : string -> list value -> string)
    (hex : Z -> string) (NewLogger : L) (ctx : context) (w w' : world)
    (order : list (Z * dispatchItem)) (method : string) (methodNum : Z) (args : list value)
    (trace : option TraceInfo) (rand1 rand2 now1 now2 now3 : Z) (s s' : Service) (p : nat) (m' : Message)
    (event : string) (w2 : world)
    (Hmethod : MethodByName order method = (methodNum, None))
    (Hctx : forall info, GetTraceInfo ctx = Some info -> is_u64 (Trace info) /\ is_u64 (Span info))
    (Hrand : is_Int63 rand1 /\ is_Int63 rand2)
    (Htrace : call_trace Sprint Sprintf hex NewLogger (Some ctx) (name s) method rand1 now1 w = (w', trace))
    (Hcall : Service.call order method args trace true s = (s', inl p)) :
  exists m, sent (socketIO s') = sent (socketIO s) ++ [m] /\ msg_type m = methodNum /\
    (omap Headers.taken (Headers m') ≡ₚ omap Headers.taken (Headers m) ->
     let '(w3, ctx', _) := handler_context Sprint Sprintf hex NewLogger m' event now2 rand2 now3 w2 in
     match GetTraceInfo ctx with
     | Some info => GetTraceInfo ctx' = Some (mkTraceInfo (Trace info) rand2 rand1 None)
     | None => Headers m = [] /\ ctx' = Background /\ w3 = w2 /\ w' = w
     end).
Proof.
  destruct Hrand as [Hr1 Hr2]. unfold Service.call in Hcall. rewrite Hmethod in Hcall.
  destruct (V12.Attach _ _) as [t id]. injection Hcall as <- _. cbn [sent socketIO sendMsg set_io io_Send].
  eexists. split; [done|]. split; [done|]. cbn [Headers]. intros Hh. unfold call_trace in Htrace.
  unfold handler_context, invoke_trace. destruct (GetTraceInfo ctx) as [info|] eqn:Hi.
  - destruct (Hctx info eq_refl) as [Ht Hs].
    destruct (NewSpan_traced Sprint Sprintf hex NewLogger ctx "%s %s: calling %s"
      [VString (name s); VString ""; VString method] rand1 now1 w info Hi) as (w1 & c1 & Hspan).
    rewrite Hspan in Htrace. injection Htrace as <- <-. rewrite GetTraceInfo_traced in Hh.
    rewrite wrap64_small in Hh by (by apply Int63_u64).
    rewrite getTraceData_decode. rewrite decode_first_permutation with
      (info := mkTraceInfo (Trace info) rand1 (Span info) (logger info)); [|done|by apply Int63_u64|done|exact Hh].
    cbn [AttachTraceInfo default].
    destruct (NewSpan_traced Sprint Sprintf hex NewLogger
      (AttachTraceInfo (Some Background) (mkTraceInfo (Trace info) rand1 (Span info) None) now2)
      event [] rand2 now3 w2 (mkTraceInfo (Trace info) rand1 (Span info) None) eq_refl) as (w3 & c3 & Hspan3).
    cbn [Trace Span Parent]. rewrite Hspan3. cbn. by rewrite wrap64_small by (by apply Int63_u64).
  - rewrite NewSpan_untraced in Htrace by done. injection Htrace as <- <-. rewrite Hi in Hh.
    rewrite getTraceData_decode. cbn in Hh. apply Permutation_nil_r in Hh. rewrite Hh, Hi. done.
Qed.

(** ** Witnesses *)

Definition trace_logger : Logger fallbackLogger :=
  fallback_Logger sample_Sprint sample_Sprintf map_to_list.

Lemma spans_bounded_witness :
  let calls := [("a", [], 7, 0); ("b", [VString "x"], 9, 1000)]%Z in
  let ctx := (descend (HL := trace_logger) sample_Sprint sample_Sprintf pretty newFallbackLogger calls
                (BeginNewTraceContextWithLogger None None 5 0) (mkWorld [] None)).2 in
  GetTraceInfo ctx = Some (mkTraceInfo 5 9 7 None) /\
  exists info, GetTraceInfo ctx = Some info /\ is_Int63 (Span info) /\ is_Int63 (Parent info).
Proof.
  intros calls ctx. split; [by vm_compute|].
  destruct (spans_bounded (HL := trace_logger) sample_Sprint sample_Sprintf pretty newFallbackLogger
    None None 5 0 calls (mkWorld [] None)) as (info & Hi & _ & _ & Hs & Hp & _).
  - by unfold is_Int63.
  - by repeat constructor.
  - by exists info.
Defined.

Lemma trace_propagates_witness :
  let ctx := BeginNewTraceContextWithLogger None None 5 0 in
  let called := call_trace (HL := trace_logger) sample_Sprint sample_Sprintf pretty newFallbackLogger
               (Some ctx) "logging" "verbosity" 7 0 (mkWorld [] None) in
  let s' := (Service.call (map_to_list sample_tree) "verbosity" [] called.2 true
      (new_Service sample_tree "logging")).1 in
  exists m, sent (socketIO s') = [m] /\
    let '(_, ctx', _) := handler_context (HL := trace_logger) sample_Sprint sample_Sprintf pretty
      newFallbackLogger (mkMessage (mkInfo 2 0) [] (reverse (Headers m))) "event" 0 9 0 (mkWorld [] None) in
    GetTraceInfo ctx' = Some (mkTraceInfo 5 9 7 None).
Proof.
  intros ctx called s'.
  destruct (trace_propagates (HL := trace_logger) sample_Sprint sample_Sprintf pretty newFallbackLogger
    ctx (mkWorld [] None) called.1 (map_to_list sample_tree) "verbosity" 2 [] called.2 7 9 0 0 0
    (new_Service sample_tree "logging") s' 0
    (mkMessage (mkInfo 2 0) [] (reverse (traceInfoToHeaders (mkTraceInfo 5 7 5 None)).1)) "event"
    (mkWorld [] None)) as (m & Hs & _ & Hm).
  - by vm_compute.
  - intros info Hi. vm_compute in Hi. injection Hi as <-. by split.
  - by unfold is_Int63.
  - by vm_compute.
  - by vm_compute.
  - exists m. split; [exact Hs|].
    assert (Hm' : Headers m = (traceInfoToHeaders (mkTraceInfo 5 7 5 None)).1).
    { cbn in Hs. by injection Hs as <-. }
    rewrite Hm'. apply Hm. rewrite Hm'. by apply (bool_decide_unpack _).
Defined.
