(* ===== verification/V11Message.v ===== *)
(** * cocaine/message.go: the messages of v0.11

    The message types with their payloads, the unpackers, and [streamUnpacker],
    which cuts the bytes of a connection into messages. The msgpack codec and
    the uuid package are parameters. *)
From S2P Require Import Prelude GoTypes.
From Stdlib Require Import ZArith Lia Strings.Byte.

Definition HANDSHAKE : Z := 0.
Definition HEARTBEAT : Z := 1.
Definition TERMINATE : Z := 2.
Definition INVOKE : Z := 3.
Definition CHUNK : Z := 4.
Definition ERROR : Z := 5.
Definition CHOKE : Z := 6.

Record messageInfo : Type := mkMessageInfo {
  Number : Z;
  Channel : Z
}.

(** [dec.Decode(&res)] on the bytes at hand: the array it reads and the bytes it
    leaves, or an error ([io.EOF] or another). *)
Inductive dec_result : Type :=
| DItem (res : list value) (rest : list byte)
| DErr (eof : bool).

(** What is logged with [Warnf]. *)
Inductive warning : Type :=
| DecodingError
| UnpackingError (err : error).

(** ** Messages *)
Section Messages.
Context {UUID : Type}.
Context (uuid_zero : UUID) (uuid_String : UUID -> string) (uuid_FromString : string -> UUID + error).
Context (encode : list value -> list byte).
Context (decode : list byte -> dec_result).

Inductive messageInterface : Type :=
| handshakeStruct (info : messageInfo) (Uuid : UUID)
| heartbeat (info : messageInfo)
| terminateStruct (info : messageInfo) (Reason Message : string)
| invoke (info : messageInfo) (Event : string)
| chunk (info : messageInfo) (Data : gobytes)
| errorMsg (info : messageInfo) (Code : Z) (Message : string)
| choke (info : messageInfo)
| ServiceMethod (info : messageInfo) (Data : list value).

Definition message_info (msg : messageInterface) : messageInfo :=
  match msg with
  | handshakeStruct info _ | heartbeat info | terminateStruct info _ _ | invoke info _
  | chunk info _ | errorMsg info _ _ | choke info | ServiceMethod info _ => info
  end.
Definition getTypeID (msg : messageInterface) : Z := Number (message_info msg).
Definition getSessionID (msg : messageInterface) : Z := Channel (message_info msg).

Definition getPayload (msg : messageInterface) : list value :=
  match msg with
  | ServiceMethod _ data => data
  | handshakeStruct _ u => [VString (uuid_String u)]
  | heartbeat _ => []
  | terminateStruct _ reason message => [VString reason; VString message]
  | invoke _ event => [VString event]
  | chunk _ data => [VBytes data]
  | errorMsg _ code message => [VInt Kint code; VString message]
  | choke _ => []
  end.

Definition packMsg (msg : messageInterface) : list byte :=
  encode [VInt Kint64 (getTypeID msg); VInt Kint64 (getSessionID msg); VList (getPayload msg)].

(** ** Unpackers: a nil message comes with an error *)

Definition unpackHandshake (session : Z) (data : list value) : outcome (messageInterface + error) :=
  match data with
  | [] => Panic
  | VBytes uuid_t :: _ =>
    match uuid_FromString (string_of_bytes uuid_t) with
    | inl u => Ok (inl (handshakeStruct (mkMessageInfo HANDSHAKE session) u))
    | inr err => Ok (inr err)
    end
  | _ :: _ => Ok (inl (handshakeStruct (mkMessageInfo HANDSHAKE session) uuid_zero))
  end.

Definition unpackHeartbeat (session : Z) (data : list value) : outcome (messageInterface + error) :=
  Ok (inl (heartbeat (mkMessageInfo HEARTBEAT session))).

(** A value that is not bytes leaves the zero string. *)
Definition bytes_or_empty (v : value) : string :=
  match v with VBytes b => string_of_bytes b | _ => "" end.

Definition unpackTerminate (session : Z) (data : list value) : outcome (messageInterface + error) :=
  match data with
  | reason :: message :: _ =>
    Ok (inl (terminateStruct (mkMessageInfo TERMINATE session) (bytes_or_empty reason)
              (bytes_or_empty message)))
  | _ => Panic
  end.

Definition unpackInvoke (session : Z) (data : list value) : outcome (messageInterface + error) :=
  match data with
  | [] => Panic
  | event :: _ => Ok (inl (invoke (mkMessageInfo INVOKE session) (bytes_or_empty event)))
  end.

Definition unpackChunk (session : Z) (data : list value) : outcome (messageInterface + error) :=
  match data with
  | VBytes msgData :: _ => Ok (inl (chunk (mkMessageInfo CHUNK session) msgData))
  | _ => Panic
  end.

Definition unpackErrorMsg (session : Z) (data : list value) : outcome (messageInterface + error) :=
  match data with
  | code_t :: message_t :: _ =>
    let code := match code_t with
                | VInt Kuint64 z => wrap_int64 z
                | VInt Kint64 z => z
                | _ => 0%Z
                end in
    let message := match message_t with
                   | VBytes b => string_of_bytes b
                   | VString s => s
                   | _ => ""
                   end in
    Ok (inl (errorMsg (mkMessageInfo ERROR session) code message))
  | _ => Panic
  end.

Definition unpackChoke (session : Z) (data : list value) : outcome (messageInterface + error) :=
  Ok (inl (choke (mkMessageInfo CHOKE session))).

Definition unpackers : gmap Z (Z -> list value -> outcome (messageInterface + error)) :=
  <[HANDSHAKE := unpackHandshake]> (<[HEARTBEAT := unpackHeartbeat]>
  (<[TERMINATE := unpackTerminate]> (<[INVOKE := unpackInvoke]> (<[CHUNK := unpackChunk]>
  (<[ERROR := unpackErrorMsg]> (<[CHOKE := unpackChoke]> ∅)))))).

(** The test [!ok] sets an error that the call of the nil unpacker does not let
    the code return. *)
Definition unpackMessage (input : list value) : outcome (messageInterface + error) :=
  match input with
  | typ :: ses :: rest =>
    let session := match ses with
                   | VInt Kuint64 z => wrap_int64 z
                   | VInt Kint64 z => z
                   | _ => 0%Z
                   end in
    match typ, rest with
    | VInt Kint64 number, VList data :: _ =>
      match unpackers !! number with
      | Some unpacker => unpacker session data
      | None => Panic
      end
    | _, _ => Panic
    end
  | _ => Panic
  end.

(** ** streamUnpacker *)

(** The loop of [Feed]. [buf] is [unpacker.buf], [tmp] what the decoder has not
    consumed; [buf[len(buf)-tmp.Len():]] is the tail of [buf] of that length. *)
Fixpoint Feed_loop (fuel : nat) (buf tmp : list byte) (msgs : list messageInterface)
    (log : list warning) : option (outcome (list byte * list messageInterface * list warning)) :=
  match fuel with
  | 0 => None
  | S fuel =>
    match decode tmp with
    | DErr eof => Some (Ok (buf, msgs, if eof then log else log ++ [DecodingError]))
    | DItem res tmp =>
      match unpackMessage res with
      | Panic => Some Panic
      | Ok (inr err) => Feed_loop fuel buf tmp msgs (log ++ [UnpackingError err])
      | Ok (inl msg) => Feed_loop fuel (drop (length buf - length tmp) buf) tmp (msgs ++ [msg]) log
      end
    end
  end.

Definition Feed (buf data : list byte)
    : option (outcome (list byte * list messageInterface * list warning)) :=
  let buf := buf ++ data in
  Feed_loop (S (length buf)) buf buf [] [].

(** The messages [range]d over by a client that reads [chunks] in turn. *)
Fixpoint feed_all (buf : list byte) (chunks : list (list byte))
    : option (outcome (list byte * list messageInterface)) :=
  match chunks with
  | [] => Some (Ok (buf, []))
  | data :: chunks =>
    match Feed buf data with
    | None => None
    | Some Panic => Some Panic
    | Some (Ok (buf, msgs, _)) =>
      match feed_all buf chunks with
      | Some (Ok (buf, rest)) => Some (Ok (buf, msgs ++ rest))
      | o => o
      end
    end
  end.
End Messages.
Arguments messageInterface : clear implicits.

(** ** Specification: what the codec makes of a value

    The peer reads strings as bytes, small and negative integers as [int64] and
    the others as [uint64]. *)
Definition wire_int (z : Z) : value :=
  if decide (z <= 127)%Z then VInt Kint64 z else VInt Kuint64 z.

Definition wire (v : value) : value :=
  match v with
  | VInt _ z => wire_int z
  | VString s => VBytes (bytes_of_string s)
  | v => v
  end.

Definition is_int64 (z : Z) : Prop := (- 2 ^ 63 <= z < 2 ^ 63)%Z.

(** ** Lemmas *)

Lemma wrap_int64_id z : is_int64 z -> wrap_int64 z = z.
Proof.
  unfold is_int64, wrap_int64, wrap64. intros Hz.
  destruct (decide (0 <= z)%Z) as [Hp|Hn].
  - rewrite Z.mod_small by (unfold two64; lia). rewrite decide_True by lia. done.
  - replace (z mod two64)%Z with (z + two64)%Z.
    + rewrite decide_False by (unfold two64; lia). lia.
    + replace z with (z + two64 + (-1) * two64)%Z at 2 by lia.
      rewrite Z.mod_add by done. symmetry. apply Z.mod_small. unfold two64. lia.
Qed.

(** The two readings of an integer agree. *)
Lemma wire_int_read z :
  is_int64 z ->
  match wire_int z with
  | VInt Kuint64 z => wrap_int64 z
  | VInt Kint64 z => z
  | _ => 0%Z
  end = z.
Proof. intros Hz. unfold wire_int. case_decide; [done|by apply wrap_int64_id]. Qed.

Section MessageLemmas.
Context {UUID : Type}.
Context (uuid_zero : UUID) (uuid_String : UUID -> string) (uuid_FromString : string -> UUID + error).
Context (encode : list value -> list byte) (decode : list byte -> dec_result).
#[local] Abbreviation message := (messageInterface UUID).
#[local] Abbreviation getPayload := (getPayload uuid_String).
#[local] Abbreviation packMsg := (packMsg uuid_String encode).
#[local] Abbreviation unpackMessage := (unpackMessage uuid_zero uuid_FromString).
#[local] Abbreviation Feed_loop := (Feed_loop uuid_zero uuid_FromString decode).
#[local] Abbreviation Feed := (Feed uuid_zero uuid_FromString decode).
#[local] Abbreviation feed_all := (feed_all uuid_zero uuid_FromString decode).

(** The messages of the protocol, with the numbers their unpackers give. *)
Definition sendable (m : message) : Prop :=
  is_int64 (getSessionID m) /\
  match m with
  | handshakeStruct info _ => Number info = HANDSHAKE
  | heartbeat info => Number info = HEARTBEAT
  | terminateStruct info _ _ => Number info = TERMINATE
  | invoke info _ => Number info = INVOKE
  | chunk info data => Number info = CHUNK /\ data <> None
  | errorMsg info code _ => Number info = ERROR /\ is_int64 code
  | choke info => Number info = CHOKE
  | ServiceMethod _ _ => False
  end.

(** What the peer decodes. *)
Definition decoded (m : message) : list value :=
  [wire_int (getTypeID m); wire_int (getSessionID m); VList (map wire (getPayload m))].

Lemma unpack_known number session data unpacker :
  unpackers uuid_zero uuid_FromString !! number = Some unpacker -> (number <= 127)%Z ->
  is_int64 session ->
  unpackMessage [wire_int number; wire_int session; VList data] = unpacker session data.
Proof.
  intros Hu Hn Hs. unfold V11Message.unpackMessage. rewrite (wire_int_read session Hs).
  unfold wire_int. rewrite decide_True by done. by rewrite Hu.
Qed.

Lemma decoded_unpacks m :
  (forall u, uuid_FromString (uuid_String u) = inl u) -> sendable m ->
  unpackMessage (decoded m) = Ok (inl m).
Proof.
  intros Huuid [Hs Hm]. unfold decoded, getTypeID, getSessionID in *.
  destruct m as [[n c] u|[n c]|[n c] r t|[n c] e|[n c] d|[n c] k t|[n c]|]; [..|done];
    cbn [message_info Number Channel] in *;
    try lazymatch type of Hm with _ /\ _ => destruct Hm as [Hm Hd] end; subst n;
    (erewrite unpack_known; [|reflexivity|done|done]);
    cbn [map wire V11Message.getPayload unpackHandshake unpackHeartbeat unpackTerminate unpackInvoke
         unpackChunk unpackErrorMsg unpackChoke bytes_or_empty];
    rewrite ?bytes_of_string_of, ?Huuid, ?(wire_int_read k Hd); done.
Qed.

(** *** Streams *)

Definition frames (ms : list message) : list byte := concat (map packMsg ms).

(** The bytes after the last complete frame. *)
Definition partial (p : list byte) (ms : list message) : Prop :=
  match ms with
  | [] => p = []
  | m :: _ => exists q, packMsg m = p ++ q /\ q <> []
  end.

Lemma frames_cut ms t future :
  t ++ future = frames ms ->
  exists ms1 ms2 p, ms = ms1 ++ ms2 /\ t = frames ms1 ++ p /\ partial p ms2.
Proof.
  revert t. induction ms as [|m ms IH]; intros t Ht.
  - apply app_eq_nil in Ht as [-> ->]. by exists [], [], [].
  - unfold frames in Ht. cbn [map concat] in Ht.
    apply app_eq_inv in Ht as [(k & -> & Ht)|(q & Hq & Ht)].
    + destruct (IH k (symmetry Ht)) as (ms1 & ms2 & p & -> & -> & Hpart).
      exists (m :: ms1), ms2, p. split_and!; [done| |done].
      unfold frames. cbn [map concat]. by rewrite (assoc_L (++)).
    + destruct q as [|b q].
      * destruct (IH []) as (ms1 & ms2 & p & -> & Hp & Hpart); [done|].
        exists (m :: ms1), ms2, p. split_and!; [done| |done].
        unfold frames in *. cbn [map concat]. by rewrite <- (assoc_L (++)), <- Hp, Hq, !app_nil_r.
      * exists [], (m :: ms), t. split_and!; [done..|]. by exists (b :: q).
Qed.

Lemma partial_end p ms : partial p ms -> p = frames ms -> ms = [].
Proof.
  destruct ms as [|m ms]; [done|]. intros (q & Hm & Hq) ->.
  apply (f_equal length) in Hm. unfold frames in Hm. cbn [map concat] in Hm.
  rewrite !length_app in Hm. destruct q; [done|]. cbn in Hm. lia.
Qed.

(** The decoder reads the frame of a message wherever it is, and fails on a part
    of one. *)
Definition framed (m : message) : Prop :=
  sendable m /\
  (forall rest, decode (packMsg m ++ rest) = DItem (decoded m) rest) /\
  (forall p q, packMsg m = p ++ q -> q <> [] -> exists eof, decode p = DErr eof).

Context (Huuid : forall u, uuid_FromString (uuid_String u) = inl u).
Context (Hnil : decode [] = DErr true).

Lemma partial_stops p ms : Forall framed ms -> partial p ms -> exists eof, decode p = DErr eof.
Proof using Hnil.
  destruct ms as [|m ms]; intros Hf Hp; [exists true; by rewrite Hp|].
  apply Forall_cons in Hf as [(_ & _ & Hpart) _]. destruct Hp as (q & Hq & Hne).
  by apply (Hpart p q).
Qed.

Lemma frame_nonempty m : framed m -> packMsg m <> [].
Proof using Hnil.
  intros (_ & Hd & _) He. specialize (Hd []). rewrite He in Hd. cbn in Hd. by rewrite Hnil in Hd.
Qed.

Lemma Feed_loop_frames fuel ms p ms2 msgs log :
  Forall framed ms -> Forall framed ms2 -> partial p ms2 -> length ms < fuel ->
  exists log', Feed_loop fuel (frames ms ++ p) (frames ms ++ p) msgs log =
    Some (Ok (p, msgs ++ ms, log')).
Proof using Huuid Hnil.
  revert fuel msgs. induction ms as [|m ms IH]; intros fuel msgs Hf Hf2 Hp Hlen;
    (destruct fuel as [|fuel]; [cbn in Hlen; lia|]).
  - destruct (partial_stops p ms2 Hf2 Hp) as [eof Heof]. cbn. rewrite Heof, app_nil_r. eauto.
  - apply Forall_cons in Hf as [Hm Hf]. unfold frames. cbn [map concat]. cbn [V11Message.Feed_loop].
    rewrite <- (assoc_L (++)).
    destruct Hm as (Hs & Hd & _). rewrite Hd, (decoded_unpacks m Huuid Hs).
    rewrite length_app, Nat.add_sub, drop_app_length.
    destruct (IH fuel (msgs ++ [m]) Hf Hf2 Hp) as [log' He]; [cbn in Hlen; lia|].
    exists log'. unfold frames in He. rewrite He. by rewrite <- (assoc_L (++)).
Qed.

Lemma frames_length ms : Forall framed ms -> length ms <= length (frames ms).
Proof using Hnil.
  induction ms as [|m ms IH]; intros Hf; [done|]. apply Forall_cons in Hf as [Hm Hf].
  unfold frames. cbn [map concat]. rewrite length_app. specialize (IH Hf). unfold frames in IH.
  pose proof (frame_nonempty m Hm) as Hne. destruct (packMsg m); [done|]. cbn in *. lia.
Qed.

Lemma Feed_frames ms p ms2 buf data :
  Forall framed ms -> Forall framed ms2 -> partial p ms2 -> buf ++ data = frames ms ++ p ->
  exists log, Feed buf data = Some (Ok (p, ms, log)).
Proof using Huuid Hnil.
  intros Hf Hf2 Hp Heq. unfold V11Message.Feed. rewrite Heq.
  destruct (Feed_loop_frames (S (length (frames ms ++ p))) ms p ms2 [] [] Hf Hf2 Hp) as [log Hl].
  - rewrite length_app. pose proof (frames_length ms Hf). lia.
  - eauto.
Qed.

Lemma feed_all_frames chunks : forall p ms future,
  Forall framed ms -> partial p ms -> p ++ concat chunks ++ future = frames ms ->
  exists ms1 ms2 p', ms = ms1 ++ ms2 /\ feed_all p chunks = Some (Ok (p', ms1)) /\
    p ++ concat chunks = frames ms1 ++ p' /\ partial p' ms2.
Proof using Huuid Hnil.
  induction chunks as [|data chunks IH]; intros p ms future Hf Hp Heq.
  - exists [], ms, p. cbn. by rewrite app_nil_r.
  - cbn [concat] in Heq. rewrite <- (assoc_L (++)), (assoc_L (++)) in Heq.
    destruct (frames_cut ms (p ++ data) _ Heq) as (ms1 & ms2 & p1 & -> & Hcut & Hp1).
    apply Forall_app in Hf as [Hf1 Hf2].
    destruct (Feed_frames ms1 p1 ms2 p data Hf1 Hf2 Hp1 Hcut) as [log Hfeed].
    destruct (IH p1 ms2 future Hf2 Hp1) as (ms3 & ms4 & p2 & -> & Hall & Hcut2 & Hp2).
    { rewrite Hcut in Heq. unfold frames in *. rewrite map_app, concat_app, <- (assoc_L (++)) in Heq.
      by apply app_inv_head in Heq. }
    exists (ms1 ++ ms3), ms4, p2. cbn [V11Message.feed_all concat]. rewrite Hfeed, Hall.
    split_and!; [by rewrite (assoc_L (++))|done| |done].
    rewrite (assoc_L (++)), Hcut, <- (assoc_L (++)), Hcut2. unfold frames.
    by rewrite map_app, concat_app, (assoc_L (++)).
Qed.
End MessageLemmas.

(** Every message moves the buffer, and each turn of the loop the decoder. *)
Lemma Feed_loop_total {UUID : Type} (uuid_zero : UUID)
    (uuid_FromString : string -> UUID + error) (decode : list byte -> dec_result)
    (Hconsumes : forall tmp res rest, decode tmp = DItem res rest -> length rest < length tmp)
    fuel : forall buf tmp msgs log,
  length tmp < fuel -> length tmp <= length buf ->
  match Feed_loop uuid_zero uuid_FromString decode fuel buf tmp msgs log with
  | None => False
  | Some Panic => True
  | Some (Ok (buf', msgs', _)) =>
      length buf' + length msgs' <= length buf + length msgs /\ exists used, buf = used ++ buf'
  end.
Proof.
  induction fuel as [|fuel IH]; intros buf tmp msgs log Hf Hl; [lia|]. cbn [Feed_loop].
  destruct (decode tmp) as [res rest|eof] eqn:Hd; [|split; [done|by exists []]].
  apply Hconsumes in Hd.
  destruct (unpackMessage _ _ res) as [[m|err]|]; [|apply IH; lia|done].
  set (n := length buf - length rest).
  specialize (IH (drop n buf) rest (msgs ++ [m]) log).
  rewrite length_app, length_drop in IH. cbn [length] in IH.
  destruct (Feed_loop _ _ _ _ _ _ _ _) as [[[[buf' msgs'] log']|]|]; [|done|].
  - destruct IH as [IH [used Hu]]; [lia..|]. split; [lia|].
    exists (take n buf ++ used). by rewrite <- (assoc_L (++)), <- Hu, take_drop.
  - apply IH; lia.
Qed.

Lemma feed_all_snoc {UUID : Type} (uuid_zero : UUID) (uuid_FromString : string -> UUID + error)
    (decode : list byte -> dec_result) chunks data : forall buf buf1 msgs1 buf2 msgs2 log,
  feed_all uuid_zero uuid_FromString decode buf chunks = Some (Ok (buf1, msgs1)) ->
  Feed uuid_zero uuid_FromString decode buf1 data = Some (Ok (buf2, msgs2, log)) ->
  feed_all uuid_zero uuid_FromString decode buf (chunks ++ [data]) =
    Some (Ok (buf2, msgs1 ++ msgs2)).
Proof.
  induction chunks as [|c chunks IH]; intros buf buf1 msgs1 buf2 msgs2 log H1 H2;
    cbn [feed_all app] in *.
  - simplify_eq. by rewrite H2, app_nil_r.
  - destruct (Feed uuid_zero uuid_FromString decode buf c) as [[[[b m] l]|]|]; [|done..].
    destruct (feed_all uuid_zero uuid_FromString decode b chunks) as [[[b' m']|]|] eqn:Hall; [|done..]. simplify_eq.
    rewrite (IH _ _ _ _ _ _ Hall H2). by rewrite (assoc_L (++)).
Qed.

(** ** Properties *)

(** A message of the protocol whose integers fit 64 bits is
    unpacked from the values its packed form is decoded to. *)
Theorem unpack_roundtrip {UUID : Type} (uuid_zero : UUID) (uuid_String : UUID -> string)
    (uuid_FromString : string -> UUID + error)
    (Huuid : forall u, uuid_FromString (uuid_String u) = inl u)
    (m : messageInterface UUID) (Hm : sendable m) :
  unpackMessage uuid_zero uuid_FromString
    [wire_int (getTypeID m); wire_int (getSessionID m);
     VList (map wire (getPayload uuid_String m))] = Ok (inl m).
Proof. by apply decoded_unpacks. Qed.

(** C19 (round trip): however the network cuts the bytes of a sequence of packed
    messages, [Feed] gives those messages, each once and in order, as soon as
    their last byte is there; what it keeps is the beginning of the next one,
    and nothing once everything has arrived. *)
Theorem feed_any_chunking {UUID : Type} (uuid_zero : UUID) (uuid_String : UUID -> string)
    (uuid_FromString : string -> UUID + error) (encode : list value -> list byte)
    (decode : list byte -> dec_result)
    (Huuid : forall u, uuid_FromString (uuid_String u) = inl u)
    (Hnil : decode [] = DErr true)
    (ms : list (messageInterface UUID)) (chunks : list (list byte)) (future : list byte)
    (Hms : Forall (framed uuid_String encode decode) ms)
    (Hstream : concat chunks ++ future = concat (map (packMsg uuid_String encode) ms)) :
  exists received pending buf,
    ms = received ++ pending /\
    feed_all uuid_zero uuid_FromString decode [] chunks = Some (Ok (buf, received)) /\
    concat chunks = concat (map (packMsg uuid_String encode) received) ++ buf /\
    match pending with
    | [] => buf = []
    | m :: _ => length buf < length (packMsg uuid_String encode m)
    end /\
    (future = [] -> received = ms /\ buf = []).
Proof.
  assert (Hp : partial uuid_String encode [] ms).
  { destruct ms as [|m ms]; [done|]. exists (packMsg uuid_String encode m). split; [done|].
    apply Forall_cons in Hms as [Hm _]. by eapply frame_nonempty. }
  destruct (feed_all_frames uuid_zero _ _ _ _ Huuid Hnil chunks [] ms future Hms Hp Hstream)
    as (ms1 & ms2 & p & -> & Hall & Hcut & Hpart).
  exists ms1, ms2, p. split_and!; [done..| |].
  - destruct ms2 as [|m ms2]; [done|]. destruct Hpart as (q & -> & Hq).
    rewrite length_app. destruct q; [done|]. cbn. lia.
  - intros ->. rewrite app_nil_r in Hstream. cbn in Hcut. rewrite Hcut in Hstream.
    unfold frames in Hstream. rewrite map_app, concat_app in Hstream.
    apply app_inv_head in Hstream. pose proof (partial_end _ _ _ _ Hpart Hstream) as ->.
    by rewrite app_nil_r.
Qed.

(** [Feed] returns on every input, whatever the peer sends,
    when the decoder consumes at least a byte for each item: it returns or
    panics, and it keeps no more than what it had and what it was fed. *)
Theorem feed_terminates {UUID : Type} (uuid_zero : UUID)
    (uuid_FromString : string -> UUID + error) (decode : list byte -> dec_result)
    (Hconsumes : forall tmp res rest, decode tmp = DItem res rest -> length rest < length tmp)
    (buf data : list byte) :
  match Feed uuid_zero uuid_FromString decode buf data with
  | None => False
  | Some Panic => True
  | Some (Ok (buf', msgs, _)) =>
      length buf' + length msgs <= length buf + length data /\
      exists used, buf ++ data = used ++ buf'
  end.
Proof.
  unfold Feed. pose proof (Feed_loop_total uuid_zero uuid_FromString decode Hconsumes
    (S (length (buf ++ data))) (buf ++ data) (buf ++ data) [] []) as H.
  destruct (Feed_loop _ _ _ _ _ _ _ _) as [[[[buf' msgs] log]|]|]; [|done|].
  - rewrite <- length_app. cbn in H. rewrite Nat.add_0_r in H. apply H; lia.
  - apply H; lia.
Qed.

(** The table, by the number of a type. *)
Lemma unpackers_lookup {UUID : Type} (uuid_zero : UUID) (uuid_FromString : string -> UUID + error)
    number :
  (0 <= number <= 6)%Z ->
  unpackers uuid_zero uuid_FromString !! number =
    [unpackHandshake uuid_zero uuid_FromString; unpackHeartbeat; unpackTerminate; unpackInvoke;
     unpackChunk; unpackErrorMsg; unpackChoke] !! Z.to_nat number.
Proof.
  intros Hn. assert (number = 0 \/ number = 1 \/ number = 2 \/ number = 3 \/ number = 4 \/
    number = 5 \/ number = 6)%Z as H by lia.
  by destruct H as [->|[->|[->|[->|[->|[->| ->]]]]]].
Qed.

Lemma unpack_lookup {UUID : Type} (uuid_zero : UUID) (uuid_FromString : string -> UUID + error)
    number ses data rest :
  unpackMessage uuid_zero uuid_FromString (VInt Kint64 number :: ses :: VList data :: rest) =
  match unpackers uuid_zero uuid_FromString !! number with
  | Some unpacker =>
    unpacker (match ses with
              | VInt Kuint64 z => wrap_int64 z
              | VInt Kint64 z => z
              | _ => 0%Z
              end) data
  | None => Panic
  end.
Proof. done. Qed.

(** The payloads from which the unpacker of a type takes its fields. *)
Definition payload_ok (number : Z) (data : list value) : bool :=
  match data with
  | [] => (number =? HEARTBEAT)%Z || (number =? CHOKE)%Z
  | v :: rest =>
    if (number =? TERMINATE)%Z || (number =? ERROR)%Z then
      match rest with [] => false | _ => true end
    else if (number =? CHUNK)%Z then match v with VBytes _ => true | _ => false end
    else true
  end.


(** ** Witnesses *)

Definition sample_messages : list (messageInterface string) :=
  [invoke (mkMessageInfo INVOKE 1) "ev"; chunk (mkMessageInfo CHUNK 1) (Some [x61])].
Definition sample_encode (l : list value) : list byte :=
  match l with
  | VInt _ number :: _ => if decide (number = INVOKE) then [x03; x01] else [x04; x02; x02]
  | _ => []
  end.
Definition sample_decode (bs : list byte) : dec_result :=
  match bs with
  | [] => DErr true
  | x03 :: x01 :: rest =>
    DItem [VInt Kint64 3; VInt Kint64 1; VList [VBytes (bytes_of_string "ev")]] rest
  | x04 :: x02 :: x02 :: rest =>
    DItem [VInt Kint64 4; VInt Kint64 1; VList [VBytes (Some [x61])]] rest
  | _ => DErr false
  end.

Lemma sample_framed : Forall (framed (fun u => u) sample_encode sample_decode) sample_messages.
Proof.
  unfold sample_messages. rewrite !Forall_cons, Forall_nil.
  split_and!; [| |done]; (split; [split; unfold is_int64; cbn; [lia|done]|split; [done|]]);
    intros p q Hq Hne; destruct p as [|b1 [|b2 [|b3 [|b4 p]]]]; cbn in Hq; simplify_eq/=; eauto.
Qed.

Lemma unpack_roundtrip_witness :
  unpackMessage "" inl [VInt Kint64 5; VInt Kint64 7;
    VList [VInt Kint64 (-100); VBytes (bytes_of_string "no")]] =
  Ok (inl (errorMsg (mkMessageInfo ERROR 7) (-100) "no")).
Proof.
  apply (unpack_roundtrip "" (fun u => u) inl ltac:(done)
           (errorMsg (mkMessageInfo ERROR 7) (-100) "no")).
  split_and!; unfold is_int64; cbn; lia.
Defined.

Lemma feed_any_chunking_witness :
  exists received pending buf,
    sample_messages = received ++ pending /\
    feed_all "" inl sample_decode [] [[x03]; [x01; x04; x02]; [x02]] = Some (Ok (buf, received)) /\
    received = sample_messages /\ buf = [].
Proof.
  destruct (feed_any_chunking "" (fun u => u) inl sample_encode sample_decode ltac:(done) eq_refl
    sample_messages [[x03]; [x01; x04; x02]; [x02]] [] sample_framed eq_refl)
    as (received & pending & buf & H1 & H2 & _ & _ & H5).
  destruct (H5 eq_refl) as [H6 H7]. by exists received, pending, buf.
Defined.

Lemma sample_consumes tmp res rest :
  sample_decode tmp = DItem res rest -> length rest < length tmp.
Proof.
  unfold sample_decode. destruct tmp as [|b1 [|b2 tmp]]; [done|by destruct b1|].
  destruct b1; try done; destruct b2; try done; [intros [= <- <-]; cbn; lia|].
  destruct tmp as [|b3 tmp]; [done|]. destruct b3; try done. intros [= <- <-]. cbn. lia.
Qed.

Lemma feed_terminates_witness :
  match Feed (UUID := string) "" inl sample_decode [x03] [x01; x04] with
  | Some (Ok (buf, msgs, _)) => length buf + length msgs <= 3
  | _ => False
  end.
Proof.
  pose proof (feed_terminates (UUID := string) "" inl sample_decode sample_consumes [x03] [x01; x04])
    as H.
  destruct (Feed _ _ _ _ _) as [[[[buf msgs] log]|]|] eqn:E; [|vm_compute in E; discriminate|done].
  apply H.
Defined.
