(* ===== verification/V11Worker.v ===== *)
(** * cocaine/worker.go: the worker of v0.11

    The loop of the worker with its session table, the request and response
    queues of each invocation (the loops [QuitLoop] of Buffers.v), the handler
    goroutines and the timers, as a transition system. The bytes that arrive go
    through the [streamUnpacker] of V11Message.v. The handlers, the codec and
    the choice of the next goroutine to run are the environment. The loop never
    closes its socket, so a write to it is always accepted. *)
From S2P Require Import Prelude GoTypes Buffers V11Message.
From Stdlib Require Import ZArith Lia Strings.Byte.

(** ** Handlers

    What a handler does with its request and its response, as written by the
    user. *)
Inductive handler : Type :=
| HReturn
| HPanic (info : string)
| HRead (k : gobytes -> handler)
| HWrite (data : value) (k : handler)
| HClose (k : handler)
| HErrorMsg (code : Z) (msg : string) (k : handler).

(** The channel operations its goroutine makes of it. *)
Inductive go_prog : Type :=
| Done
| Receive (k : gobytes -> go_prog)               (* <-request.to_handler *)
| SendFrame (frame : list byte) (k : go_prog)    (* response.from_handler <- frame *)
| SendQuit (k : go_prog).                        (* response.quit <- true *)

Section Worker.
Context {UUID : Type}.
Context (uuid_zero : UUID) (uuid_String : UUID -> string) (uuid_FromString : string -> UUID + error).
Context (encode : list value -> list byte) (decode : list byte -> dec_result).
Context (encode_value : value -> gobytes).
#[local] Abbreviation message := (messageInterface UUID).
#[local] Abbreviation packMsg := (packMsg uuid_String encode).
#[local] Abbreviation Feed := (Feed uuid_zero uuid_FromString decode).

(** ** Response *)

Definition Response_Write (session : Z) (data : value) (k : go_prog) : go_prog :=
  SendFrame (packMsg (chunk (mkMessageInfo CHUNK session) (encode_value data))) k.

Definition Response_Close (session : Z) (k : go_prog) : go_prog :=
  SendFrame (packMsg (choke (mkMessageInfo CHOKE session))) (SendQuit k).

Definition Response_ErrorMsg (session : Z) (code : Z) (msg : string) (k : go_prog) : go_prog :=
  SendFrame (packMsg (errorMsg (mkMessageInfo ERROR session) code msg)) k.

(** A handler, then its end: [k] when it returns, [trap info] when it panics. *)
Fixpoint go_handler (session : Z) (h : handler) (trap : string -> go_prog) : go_prog :=
  match h with
  | HReturn => Done
  | HPanic info => trap info
  | HRead k => Receive (fun data => go_handler session (k data) trap)
  | HWrite data h => Response_Write session data (go_handler session h trap)
  | HClose h => Response_Close session (go_handler session h trap)
  | HErrorMsg code msg h => Response_ErrorMsg session code msg (go_handler session h trap)
  end.

(** The goroutine of a bound event: a panic is reported with code 1. *)
Definition go_callback (session : Z) (event : string) (callback : handler) : go_prog :=
  go_handler session callback (fun info =>
    Response_ErrorMsg session 1 ("Error in event: '" +:+ event +:+ "', exception: " +:+ info)
      (Response_Close session Done)).

(** The goroutine of the fallback: a panic only closes the response. *)
Definition go_fallback (session : Z) (fallback : handler) : go_prog :=
  go_handler session fallback (fun _ => Response_Close session Done).

Definition defaultFallbackHandler (event : string) : handler :=
  HErrorMsg (-100) ("There is no event handler for " +:+ event) (HClose HReturn).

(** ** State *)

(** An invocation: its two queues and its goroutine. [g_given] is what the
    handler read, [g_frames] what it sent and [g_forwarded] what the loop of the
    worker took from its response. *)
Record invocation : Type := mkInvocation {
  g_session : Z;
  g_event : string;
  g_request : QuitLoop.state gobytes;
  g_response : QuitLoop.state (list byte);
  g_prog : go_prog;
  g_given : list gobytes;
  g_frames : list (list byte);
  g_forwarded : list (list byte)
}.

Record Worker : Type := mkWorker {
  unpacker : list byte;
  written : list (list byte);        (* sent on worker.Write() *)
  heartbeat_timer : timer;
  disown_timer : timer;
  sessions : gmap Z nat;             (* indices of [gos] *)
  gos : list invocation
}.

Definition set_sessions (w : Worker) ss gs : Worker :=
  mkWorker (unpacker w) (written w) (heartbeat_timer w) (disown_timer w) ss gs.
Definition set_unpacker (w : Worker) buf : Worker :=
  mkWorker buf (written w) (heartbeat_timer w) (disown_timer w) (sessions w) (gos w).
Definition set_timers (w : Worker) h d : Worker :=
  mkWorker (unpacker w) (written w) h d (sessions w) (gos w).

Definition worker_Write (frame : list byte) (w : Worker) : Worker :=
  mkWorker (unpacker w) (written w ++ [frame]) (heartbeat_timer w) (disown_timer w) (sessions w)
    (gos w).

Definition worker_heartbeat (w : Worker) : Worker :=
  let w := worker_Write (packMsg (heartbeat (mkMessageInfo HEARTBEAT 0))) w in
  let w := set_timers w (heartbeat_timer w) (timer_Reset (disown_timer w)) in
  set_timers w (timer_Reset (heartbeat_timer w)) (disown_timer w).

Definition handshake (uuid : UUID) (w : Worker) : Worker :=
  worker_Write (packMsg (handshakeStruct (mkMessageInfo HANDSHAKE 0) uuid)) w.

(** [uuid.FromString] fails to the zero UUID, and the error is dropped. *)
Definition NewWorker (flagUUID : string) : Worker :=
  let workerID := match uuid_FromString flagUUID with inl u => u | inr _ => uuid_zero end in
  let w := mkWorker [] [] (mkTimer true false) (mkTimer true false) ∅ [] in
  let w := set_timers w (heartbeat_timer w) (timer_Stop (disown_timer w)) in
  worker_heartbeat (handshake workerID w).

(** ** Requests *)

(** The process that runs the worker: it can exit, crash on a panic, or have its
    loop blocked for ever on a channel. *)
Inductive process : Type :=
| Running (w : Worker)
| Exited
| Crashed
| Blocked.

Definition with_request (g : invocation) q given : invocation :=
  mkInvocation (g_session g) (g_event g) q (g_response g) (g_prog g) given (g_frames g)
    (g_forwarded g).

(** A send to the goroutine of a request; [request] is nil for a session that is
    not in the table. *)
Definition request_send (request : option nat) (e : QuitLoop.event gobytes) (w : Worker) : process :=
  match request with
  | None => Crashed
  | Some i =>
    match gos w !! i with
    | None => Crashed
    | Some g =>
      match newRequest_loop (g_request g) e with
      | Some q =>
        Running (set_sessions w (sessions w) (<[i := with_request g q (g_given g)]> (gos w)))
      | None => Blocked
      end
    end
  end.

Definition request_push (request : option nat) (data : gobytes) (w : Worker) : process :=
  request_send request (QuitLoop.Incoming data) w.
Definition request_close (request : option nat) (w : Worker) : process :=
  request_send request QuitLoop.Quit w.

(** ** The loop *)
Section Loop.
Context (bind : gmap string handler) (fallback : string -> handler).

Definition on_invoke (cur_session : Z) (event : string) (w : Worker) : Worker :=
  let prog := match bind !! event with
              | Some callback => go_callback cur_session event callback
              | None => go_fallback cur_session (fallback event)
              end in
  let g := mkInvocation cur_session event QuitLoop.loop_init QuitLoop.loop_init prog [] [] [] in
  set_sessions w (<[cur_session := length (gos w)]> (sessions w)) (gos w ++ [g]).

(** The [switch] on the type of a message. *)
Definition on_message (msg : message) (w : Worker) : process :=
  match msg with
  | chunk info data => request_push (sessions w !! Channel info) data w
  | choke info =>
    match request_close (sessions w !! Channel info) w with
    | Running w => Running (set_sessions w (delete (Channel info) (sessions w)) (gos w))
    | p => p
    end
  | invoke info event => Running (on_invoke (Channel info) event w)
  | heartbeat _ => Running (set_timers w (heartbeat_timer w) (timer_Stop (disown_timer w)))
  | terminateStruct _ _ _ => Exited
  | _ => Running w
  end.

Definition on_messages (msgs : list message) (w : Worker) : process :=
  foldl (fun p msg => match p with Running w => on_message msg w | p => p end) (Running w) msgs.

Inductive event : Type :=
(* the cases of the [select] of the loop *)
| Received (answer : list byte)
| HeartbeatTick
| DisownTick
| Outcoming (i : nat)        (* from the response of an invocation *)
(* the other goroutines *)
| HandlerReceives (i : nat)
| HandlerSends (i : nat)
| HandlerQuits (i : nat)
(* the timers *)
| HeartbeatFires
| DisownFires.

Definition set_go (w : Worker) (i : nat) (g : invocation) : Worker :=
  set_sessions w (sessions w) (<[i := g]> (gos w)).

(** A goroutine and the queues of its invocation. *)
Definition go_step (e : event) (g : invocation) : option invocation :=
  match e, g_prog g with
  | HandlerReceives _, Receive k =>
    match newRequest_loop (g_request g) QuitLoop.Out, QuitLoop.state_pending (g_request g) with
    | Some q, data :: _ =>
      Some (mkInvocation (g_session g) (g_event g) q (g_response g) (k data) (g_given g ++ [data])
        (g_frames g) (g_forwarded g))
    | _, _ => None
    end
  | HandlerSends _, SendFrame frame k =>
    match newResponse_loop (g_response g) (QuitLoop.Incoming frame) with
    | Some q =>
      Some (mkInvocation (g_session g) (g_event g) (g_request g) q k (g_given g)
        (g_frames g ++ [frame]) (g_forwarded g))
    | None => None
    end
  | HandlerQuits _, SendQuit k =>
    match newResponse_loop (g_response g) QuitLoop.Quit with
    | Some q =>
      Some (mkInvocation (g_session g) (g_event g) (g_request g) q k (g_given g) (g_frames g)
        (g_forwarded g))
    | None => None
    end
  | _, _ => None
  end.

Definition worker_step (w : Worker) (e : event) : option process :=
  match e with
  | Received answer =>
    match Feed (unpacker w) answer with
    | Some (Ok (buf, msgs, _)) => Some (on_messages msgs (set_unpacker w buf))
    | Some Panic => Some Crashed
    | None => None
    end
  | HeartbeatTick =>
    if fired (heartbeat_timer w) then
      Some (Running (worker_heartbeat
        (set_timers w (timer_receive (heartbeat_timer w)) (disown_timer w))))
    else None
  | DisownTick => if fired (disown_timer w) then Some Exited else None
  | Outcoming i =>
    match gos w !! i with
    | None => None
    | Some g =>
      match newResponse_loop (g_response g) QuitLoop.Out, QuitLoop.state_pending (g_response g) with
      | Some q, frame :: _ =>
        Some (Running (worker_Write frame (set_go w i
          (mkInvocation (g_session g) (g_event g) (g_request g) q (g_prog g) (g_given g) (g_frames g)
            (g_forwarded g ++ [frame])))))
      | _, _ => None
      end
    end
  | HandlerReceives i | HandlerSends i | HandlerQuits i =>
    match gos w !! i with
    | None => None
    | Some g => (fun g => Running (set_go w i g)) <$> go_step e g
    end
  | HeartbeatFires =>
    if armed (heartbeat_timer w) then
      Some (Running (set_timers w (timer_fire (heartbeat_timer w)) (disown_timer w)))
    else None
  | DisownFires =>
    if armed (disown_timer w) then
      Some (Running (set_timers w (heartbeat_timer w) (timer_fire (disown_timer w))))
    else None
  end.

Definition step (p : process) (e : event) : option process :=
  match p with
  | Running w => worker_step w e
  | _ => None
  end.

(** The bytes a run received. *)
Definition answers (es : list event) : list (list byte) :=
  omap (fun e => match e with Received answer => Some answer | _ => None end) es.
End Loop.
End Worker.

(** ** Specification: the streams of the invocations

    The chunks of an invocation are those of its session between its invoke and
    the next choke or invoke of that session; it is open until then. *)
Section Spec.
Context {UUID : Type}.
#[local] Abbreviation message := (messageInterface UUID).

Fixpoint session_stream (s : Z) (ms : list message) : list gobytes * bool :=
  match ms with
  | [] => ([], true)
  | m :: ms =>
    match m with
    | chunk info data =>
      let (chunks, open) := session_stream s ms in
      (if decide (Channel info = s) then data :: chunks else chunks, open)
    | choke info | invoke info _ =>
      if decide (Channel info = s) then ([], false) else session_stream s ms
    | _ => session_stream s ms
    end
  end.

(** The invocations of a sequence of messages: session, event and stream. *)
Fixpoint invocations (ms : list message) : list (Z * string * (list gobytes * bool)) :=
  match ms with
  | [] => []
  | invoke info event :: ms =>
    (Channel info, event, session_stream (Channel info) ms) :: invocations ms
  | _ :: ms => invocations ms
  end.

(** An open invocation of a session. *)
Definition is_open (s : Z) (ms : list message) : Prop :=
  exists i event chunks, invocations ms !! i = Some (s, event, (chunks, true)).

(** The same, one message at a time. *)
Definition stream_add (s : Z) (m : message) (st : list gobytes * bool) : list gobytes * bool :=
  if st.2 then
    match m with
    | chunk info data => if decide (Channel info = s) then (st.1 ++ [data], true) else st
    | choke info | invoke info _ => if decide (Channel info = s) then (st.1, false) else st
    | _ => st
    end
  else st.

Lemma session_stream_snoc s ms m :
  session_stream s (ms ++ [m]) = stream_add s m (session_stream s ms).
Proof.
  induction ms as [|m' ms IH]; [by destruct m; cbn; try case_decide|].
  cbn [app session_stream]. destruct m'; rewrite ?IH; try done.
  - by case_decide; [destruct m|].
  - unfold stream_add. destruct (session_stream s ms) as [cs [|]]; cbn;
      destruct m; repeat case_decide; done.
  - by case_decide; [destruct m|].
Qed.

Definition invocation_add (m : message) (p : Z * string * (list gobytes * bool))
    : Z * string * (list gobytes * bool) := (p.1, stream_add p.1.1 m p.2).

Lemma invocations_snoc ms m :
  invocations (ms ++ [m]) = map (invocation_add m) (invocations ms) ++ invocations [m].
Proof.
  induction ms as [|m' ms IH]; [done|].
  cbn [app invocations]. destruct m'; rewrite ?IH; try done.
  cbn [map app]. by rewrite session_stream_snoc.
Qed.

Lemma invocations_other ms m :
  (forall s st, stream_add s m st = st) -> invocations [m] = [] ->
  invocations (ms ++ [m]) = invocations ms.
Proof.
  intros Hid Hm. rewrite invocations_snoc, Hm, app_nil_r.
  rewrite <- (map_id (invocations ms)) at 2. apply map_ext. intros [[s e] st].
  unfold invocation_add. by rewrite Hid.
Qed.
End Spec.

(** ** Lemmas *)

Section Invariant.
Context {UUID : Type}.
#[local] Abbreviation message := (messageInterface UUID).

(** *** Replies *)

(** What a handler may send before it closes its response. *)
Definition is_reply (s : Z) (m : message) : Prop :=
  (exists data, m = chunk (mkMessageInfo CHUNK s) data) \/
  (exists code text, m = errorMsg (mkMessageInfo ERROR s) code text).

(** A handler that closes its response at most once, and then neither uses it
    nor panics. *)
Fixpoint tidy (closed : bool) (h : handler) : Prop :=
  match h with
  | HReturn => True
  | HPanic _ => closed = false
  | HRead k => forall data, tidy closed (k data)
  | HWrite _ h | HErrorMsg _ _ h => closed = false /\ tidy closed h
  | HClose h => closed = false /\ tidy true h
  end.

Definition view (g : invocation) : Z * string * list gobytes :=
  (g_session g, g_event g, g_given g ++ QuitLoop.state_pending (g_request g)).
Definition spec_view (p : Z * string * (list gobytes * bool)) : Z * string * list gobytes :=
  (p.1, p.2.1).

(** What the loop of a running worker relies on, after the messages [ms]. *)
Record worker_inv (w : Worker) (ms : list message) : Prop := {
  inv_view : forall i, view <$> gos w !! i = spec_view <$> invocations ms !! i;
  inv_sessions : forall s i, sessions w !! s = Some i <->
    exists event chunks, invocations ms !! i = Some (s, event, (chunks, true));
  inv_open : forall i g, gos w !! i = Some g -> sessions w !! g_session g = Some i ->
    exists v, g_request g = QuitLoop.Selecting v /\ QuitLoop.quit v = false
}.

Lemma worker_inv_same w w' ms :
  worker_inv w ms -> gos w' = gos w -> sessions w' = sessions w -> worker_inv w' ms.
Proof. intros [] Hg Hs. constructor; rewrite ?Hg, ?Hs; done. Qed.

Lemma inv_session_go w ms s i :
  worker_inv w ms -> sessions w !! s = Some i ->
  exists g, gos w !! i = Some g /\ g_session g = s.
Proof.
  intros Hw Hs. pose proof (inv_view _ _ Hw i) as Hv.
  apply (inv_sessions _ _ Hw) in Hs as Hi. destruct Hi as (e & cs & Hi). rewrite Hi in Hv.
  destruct (gos w !! i) as [g|] eqn:Hg; [|done]. cbn in Hv. exists g.
  split; [done|]. unfold view, spec_view in Hv. by simplify_eq/=.
Qed.

(** The messages that concern one open session and leave it open or not. *)
Lemma inv_update w ms m s i g q b :
  worker_inv w ms -> sessions w !! s = Some i -> gos w !! i = Some g ->
  invocations [m] = [] ->
  (forall s' st, stream_add s' m st =
     if decide (s' = s /\ st.2 = true) then (st.1 ++ b.1, b.2) else st) ->
  QuitLoop.state_pending q = QuitLoop.state_pending (g_request g) ++ b.1 ->
  (b.2 = true -> exists v, q = QuitLoop.Selecting v /\ QuitLoop.quit v = false) ->
  worker_inv (set_sessions w (if b.2 then sessions w else delete s (sessions w))
    (<[i := with_request g q (g_given g)]> (gos w))) (ms ++ [m]).
Proof.
  intros Hw Hs Hg Hm Hadd Hq Hb.
  assert (Hlook : forall j, invocations (ms ++ [m]) !! j = invocation_add m <$> invocations ms !! j).
  { intros j. by rewrite invocations_snoc, Hm, app_nil_r, list_lookup_fmap. }
  pose proof (inv_view _ _ Hw) as Hv. pose proof (inv_sessions _ _ Hw) as Hss.
  destruct (proj1 (Hss s i) Hs) as (e & cs & Hi).
  assert (Hgs : g_session g = s /\ g_event g = e /\
    g_given g ++ QuitLoop.state_pending (g_request g) = cs).
  { specialize (Hv i). rewrite Hg, Hi in Hv. unfold view, spec_view in Hv. by simplify_eq/=. }
  destruct Hgs as (Hgs & Hge & Hgc).
  assert (Huniq : forall j e' cs', invocations ms !! j = Some (s, e', (cs', true)) -> j = i).
  { intros j e' cs' Hj. assert (Hj' : sessions w !! s = Some j) by (apply Hss; eauto). congruence. }
  assert (Hother : forall j, j <> i -> invocation_add m <$> invocations ms !! j = invocations ms !! j).
  { intros j Hj. destruct (invocations ms !! j) as [[[s' e'] [cs' o]]|] eqn:Hinv; [|done].
    cbn [fmap option_fmap option_map]. unfold invocation_add. cbn [fst snd]. rewrite Hadd.
    case_decide as Hd; [|done]. destruct Hd as [-> Hd]. cbn in Hd. subst o. by apply Huniq in Hinv. }
  assert (Hat : invocations (ms ++ [m]) !! i = Some (s, e, (cs ++ b.1, b.2))).
  { rewrite Hlook, Hi. cbn [fmap option_fmap option_map]. unfold invocation_add. cbn [fst snd].
    by rewrite Hadd, decide_True. }
  constructor; cbn.
  - intros j. destruct (decide (j = i)) as [->|Hj].
    + rewrite Hat, list_lookup_insert_eq by (by eapply lookup_lt_Some). cbn.
      unfold view, spec_view. cbn. by rewrite Hq, (assoc_L (++)), Hgs, Hge, Hgc.
    + by rewrite list_lookup_insert_ne, Hlook, Hother.
  - intros s' j. destruct (decide (j = i)) as [->|Hj].
    + rewrite Hat. destruct b as [bs [|]]; cbn.
      * rewrite Hss, Hi. naive_solver.
      * split; [|naive_solver]. intros Hd. apply lookup_delete_Some in Hd as [Hne Hd].
        apply Hss in Hd as (e' & cs' & Hd). rewrite Hi in Hd. naive_solver.
    + rewrite Hlook, Hother by done. rewrite <- Hss. destruct b as [bs [|]]; cbn; [done|].
      rewrite lookup_delete_Some. split; [by intros []|]. intros Hd. split; [|done].
      intros <-. rewrite Hs in Hd. congruence.
  - intros j g'. destruct (decide (j = i)) as [->|Hj].
    + rewrite list_lookup_insert_eq by (by eapply lookup_lt_Some). intros [= <-]. cbn. rewrite Hgs.
      destruct b as [bs [|]]; cbn; [intros _; by apply Hb|]. by rewrite lookup_delete_eq.
    + rewrite list_lookup_insert_ne by done. intros Hg' Hs'. apply (inv_open _ _ Hw j); [done|].
      destruct b as [bs [|]]; cbn in Hs'; [done|]. by apply lookup_delete_Some in Hs' as [_ ?].
Qed.

Lemma inv_queue w (ms : list message) s i :
  worker_inv w ms -> sessions w !! s = Some i ->
  exists g v, gos w !! i = Some g /\ g_request g = QuitLoop.Selecting v /\ QuitLoop.quit v = false.
Proof.
  intros Hw Hs. destruct (inv_session_go w ms s i Hw Hs) as (g & Hg & Hgs).
  destruct (inv_open w ms Hw i g Hg) as (v & Hv & Hq); [by rewrite Hgs|]. eauto.
Qed.

Lemma open_session w (ms : list message) s :
  worker_inv w ms -> is_open s ms <-> is_Some (sessions w !! s).
Proof.
  intros Hw. split.
  - intros (i & e & cs & Hi). exists i. apply (inv_sessions w ms Hw). eauto.
  - intros [i Hi]. apply (inv_sessions w ms Hw) in Hi as (e & cs & Hi). by exists i, e, cs.
Qed.

Lemma inv_length w (ms : list message) : worker_inv w ms -> length (gos w) = length (invocations ms).
Proof.
  intros Hw. assert (Hv : view <$> gos w = spec_view <$> invocations ms).
  { apply list_eq. intros i. rewrite !list_lookup_fmap. apply (inv_view w ms Hw). }
  apply (f_equal length) in Hv. by rewrite !length_fmap in Hv.
Qed.
End Invariant.

Section WorkerLemmas.
Context {UUID : Type}.
Context (uuid_String : UUID -> string) (encode : list value -> list byte).
Context (encode_value : value -> gobytes).
Context (bind : gmap string handler) (fallback : string -> handler).
#[local] Abbreviation message := (messageInterface UUID).
#[local] Abbreviation on_message := (on_message uuid_String encode encode_value bind fallback).

Lemma inv_invoke w (ms : list message) info ev :
  worker_inv w ms ->
  worker_inv (on_invoke uuid_String encode encode_value bind fallback (Channel info) ev w)
    (ms ++ [invoke info ev]).
Proof using.
  intros Hw. unfold on_invoke. set (s := Channel info).
  set (g := mkInvocation _ _ _ _ _ _ _ _).
  pose proof (inv_length w ms Hw) as Hlen. destruct Hw as [Hv Hs Ho].
  assert (Hlast : forall i, (i < length (gos w) /\
      invocations (ms ++ [invoke info ev]) !! i =
        invocation_add (UUID := UUID) (invoke info ev) <$> invocations ms !! i)
    \/ (length (gos w) <= i /\ invocations (ms ++ [invoke info ev]) !! i =
      [(s, ev, ([], true))] !! (i - length (gos w)))).
  { intros i. rewrite invocations_snoc. destruct (decide (i < length (gos w))) as [Hi|Hi].
    - left. split; [done|]. rewrite lookup_app_l by (rewrite length_map; lia). apply list_lookup_fmap.
    - right. split; [lia|]. rewrite lookup_app_r by (rewrite length_map; lia).
      by rewrite length_map, <- Hlen. }
  constructor; cbn.
  - intros i. destruct (Hlast i) as [[Hi Hl]|[Hi Hl]]; rewrite Hl.
    + rewrite lookup_app_l by done. rewrite Hv. destruct (invocations ms !! i) as [[[s' e'] [cs o]]|]; [|done].
      unfold spec_view, invocation_add, stream_add. cbn. destruct o; [|done]. cbn. by case_decide.
    + rewrite lookup_app_r by done. destruct (i - length (gos w)) as [|k]; [done|by destruct k].
  - intros s' i. destruct (Hlast i) as [[Hi Hl]|[Hi Hl]]; rewrite Hl.
    + destruct (decide (s' = s)) as [->|Hne].
      * rewrite lookup_insert_eq. split; [intros [= <-]; lia|].
        intros (e & cs & He). destruct (invocations ms !! i) as [[[s1 e1] [cs1 o1]]|] eqn:E; [|done].
        unfold invocation_add, stream_add in He. cbn in He.
        destruct o1; cbn in He; [case_decide|]; naive_solver.
      * rewrite lookup_insert_ne, Hs by done.
        destruct (invocations ms !! i) as [[[s1 e1] [cs1 o1]]|] eqn:E; [|naive_solver].
        unfold invocation_add, stream_add. cbn. destruct o1; cbn; [case_decide|]; naive_solver.
    + destruct (decide (s' = s)) as [->|Hne].
      * rewrite lookup_insert_eq. destruct (i - length (gos w)) as [|k] eqn:Hk.
        -- split; [intros _; by exists ev, []|intros _; f_equal; lia].
        -- split; [intros [= <-]; lia|]. by destruct k; intros (? & ? & ?).
      * rewrite lookup_insert_ne by done. split.
        -- intros Hsi. apply Hs in Hsi as (e & cs & Hsi). apply lookup_lt_Some in Hsi. lia.
        -- intros (e & cs & He). destruct (i - length (gos w)) as [|k]; [naive_solver|by destruct k].
  - intros i g' Hg Hsi. destruct (decide (i < length (gos w))) as [Hi|Hi].
    + rewrite lookup_app_l in Hg by done. apply (Ho i); [done|].
      destruct (decide (g_session g' = s)) as [He|Hne].
      * rewrite He, lookup_insert_eq in Hsi. injection Hsi as <-. lia.
      * by rewrite lookup_insert_ne in Hsi.
    + rewrite lookup_app_r in Hg by lia. destruct (i - length (gos w)) as [|k]; [|by destruct k].
      injection Hg as <-. by eexists.
Qed.

(** A message of a session that has no open invocation. *)
Definition orphan (m : message) (ms : list message) : Prop :=
  match m with
  | chunk info _ | choke info => ~ is_open (Channel info) ms
  | _ => False
  end.

Lemma on_message_spec w ms m :
  worker_inv w ms ->
  match on_message m w with
  | Running w' => worker_inv w' (ms ++ [m]) /\ ~ orphan m ms
  | Exited => exists info reason text, m = terminateStruct info reason text
  | Crashed => orphan m ms
  | Blocked => False
  end.
Proof using.
  intros Hw. unfold V11Worker.on_message.
  assert (Hid : forall w', gos w' = gos w -> sessions w' = sessions w ->
    (forall s st, stream_add s m st = st) -> invocations [m] = [] -> worker_inv w' (ms ++ [m])).
  { intros w' Hg Hs Hadd Hm. destruct (worker_inv_same w w' ms Hw Hg Hs) as [H1 H2 H3].
    constructor; rewrite ?(invocations_other _ _ Hadd Hm); done. }
  assert (Hstay : forall st : list gobytes * bool, (if st.2 then st else st) = st)
    by (by intros [? []]).
  destruct m as [info u|info|info r t|info ev|info d|info k t|info|info d]; cbn [orphan].
  - split; [|auto]. by apply Hid; [done..|intros; apply Hstay|].
  - split; [|auto]. by apply Hid; [done..|intros; apply Hstay|].
  - eauto.
  - split; [|auto]. by apply inv_invoke.
  - unfold request_push, request_send.
    destruct (sessions w !! Channel info) as [i|] eqn:Hs.
    + destruct (inv_queue w ms _ _ Hw Hs) as (g & v & Hg & Hq & Hquit). rewrite Hg, Hq. cbn.
      split; [|intros Hno; apply Hno, (open_session w ms _ Hw); rewrite Hs; by eexists].
      eapply (inv_update w ms (chunk info d) (Channel info) i g _ ([d], true)); try done.
      * intros s' [cs [|]]; cbn; repeat case_decide; naive_solver.
      * by rewrite QuitLoop.quit_top_pending, Hq.
      * intros _. unfold QuitLoop.top. cbn. destruct (QuitLoop.pending v); cbn; by eexists.
    + intros Ho. apply (open_session w ms _ Hw) in Ho. rewrite Hs in Ho. by destruct Ho.
  - split; [|auto]. by apply Hid; [done..|intros; apply Hstay|].
  - unfold request_close, request_send.
    destruct (sessions w !! Channel info) as [i|] eqn:Hs.
    + destruct (inv_queue w ms _ _ Hw Hs) as (g & v & Hg & Hq & Hquit). rewrite Hg, Hq. cbn.
      split; [|intros Hno; apply Hno, (open_session w ms _ Hw); rewrite Hs; by eexists].
      eapply (inv_update w ms (choke info) (Channel info) i g _ ([], false)); try done.
      * intros s' [cs [|]]; cbn; repeat case_decide; rewrite ?app_nil_r; naive_solver.
      * by rewrite QuitLoop.quit_top_pending, Hq, app_nil_r.
    + intros Ho. apply (open_session w ms _ Hw) in Ho. rewrite Hs in Ho. by destruct Ho.
  - split; [|auto]. by apply Hid; [done..|intros; apply Hstay|].
Qed.

(** *** Replies *)

#[local] Abbreviation packMsg := (packMsg uuid_String encode).

(** A goroutine that has closed its response sends nothing more. *)
Inductive silent : go_prog -> Prop :=
| silent_done : silent Done
| silent_receive k : (forall data, silent (k data)) -> silent (Receive k).

Inductive tidy_prog (s : Z) : go_prog -> Prop :=
| tidy_done : tidy_prog s Done
| tidy_receive k : (forall data, tidy_prog s (k data)) -> tidy_prog s (Receive k)
| tidy_send m k : is_reply s m -> tidy_prog s k -> tidy_prog s (SendFrame (packMsg m) k)
| tidy_close k : silent k ->
    tidy_prog s (SendFrame (packMsg (choke (mkMessageInfo CHOKE s))) (SendQuit k)).

Lemma tidy_go_handler s h trap :
  (forall info, tidy_prog s (trap info)) ->
  (tidy false h -> tidy_prog s (go_handler uuid_String encode encode_value s h trap)) /\
  (tidy true h -> silent (go_handler uuid_String encode encode_value s h trap)).
Proof using.
  intros Htrap. induction h as [|info|k IH|data h IH|h IH|code msg h IH]; cbn;
    (split; [|try (by intros []); try done; intros Ht; try (constructor; naive_solver)]).
  - constructor.
  - auto.
  - intros Ht. constructor. intros data. by apply IH.
  - intros [_ Ht]. apply tidy_send; [by left; eexists|by apply IH].
  - intros [_ Ht]. apply tidy_close. by apply IH.
  - intros [_ Ht]. apply tidy_send; [by right; eexists _, _|by apply IH].
Qed.

Lemma tidy_close_done s : tidy_prog s (Response_Close uuid_String encode s Done).
Proof using. apply tidy_close. constructor. Qed.

Lemma tidy_callback s event h :
  tidy false h -> tidy_prog s (go_callback uuid_String encode encode_value s event h).
Proof using.
  apply tidy_go_handler. intros info. apply tidy_send; [by right; eexists _, _|].
  apply tidy_close_done.
Qed.

Lemma tidy_fallback s h :
  tidy false h -> tidy_prog s (go_fallback uuid_String encode encode_value s h).
Proof using. apply tidy_go_handler. intros info. apply tidy_close_done. Qed.

(** The frames of an invocation, sent by its handler: replies, then a choke. *)
Definition replies_ok (g : invocation) : Prop :=
  exists body,
    Forall (is_reply (g_session g)) body /\
    ((g_frames g = map packMsg body /\ tidy_prog (g_session g) (g_prog g)) \/
     (g_frames g = map packMsg (body ++ [choke (mkMessageInfo CHOKE (g_session g))]) /\
      (silent (g_prog g) \/ exists k, g_prog g = SendQuit k /\ silent k))).

Definition go_inv (g : invocation) : Prop :=
  g_frames g = g_forwarded g ++ QuitLoop.state_pending (g_response g) /\ replies_ok g.

Lemma go_step_inv e g g' : go_inv g -> go_step e g = Some g' -> go_inv g'.
Proof using.
  intros [Hf (body & Hb & Hr)] Hs. unfold go_step, newRequest_loop, newResponse_loop in Hs.
  destruct e; try done; destruct (g_prog g) as [|k|frame k|k] eqn:Hp; try done.
  - destruct (QuitLoop.step (g_request g) QuitLoop.Out) as [q|]; [|done].
    destruct (QuitLoop.state_pending (g_request g)) as [|data rest]; [done|]. injection Hs as <-.
    split; [done|]. exists body. split; [done|]. cbn. destruct Hr as [[H1 H2]|[H1 [H2|(k' & H2 & _)]]].
    + left. inversion H2; subst. auto.
    + right. inversion H2; subst. auto.
    + done.
  - destruct (QuitLoop.step (g_response g) _) as [q|] eqn:Hq; [|done]. injection Hs as <-.
    assert (Hpend : QuitLoop.state_pending q = QuitLoop.state_pending (g_response g) ++ [frame]).
    { destruct (g_response g) as [v|]; [|done]. injection Hq as <-. by rewrite QuitLoop.quit_top_pending. }
    split; [cbn; by rewrite Hpend, Hf, (assoc_L (++))|].
    destruct Hr as [[H1 H2]|[H1 [H2|(k' & H2 & _)]]]; [|by inversion H2|done].
    unfold replies_ok. cbn. inversion H2 as [| |m k' Hm Hk|k' Hk]; subst.
    + exists (body ++ [m]). rewrite Forall_app, Forall_singleton, H1, map_app. split; [done|]. by left.
    + exists body. rewrite H1, map_app. split; [done|]. right. split; [done|]. right. by eexists.
  - destruct (QuitLoop.step (g_response g) _) as [q|] eqn:Hq; [|done]. injection Hs as <-.
    assert (Hpend : QuitLoop.state_pending q = QuitLoop.state_pending (g_response g)).
    { destruct (g_response g) as [v|]; [|done]. injection Hq as <-. by rewrite QuitLoop.quit_top_pending. }
    split; [cbn; by rewrite Hpend|]. exists body. cbn. split; [done|].
    destruct Hr as [[H1 H2]|[H1 [H2|(k' & H2 & Hk)]]]; [by inversion H2|by inversion H2|].
    injection H2 as ->. auto.
Qed.

#[local] Abbreviation on_messages := (on_messages uuid_String encode encode_value bind fallback).

Lemma on_messages_spec msgs : forall w ms,
  worker_inv w ms ->
  match on_messages msgs w with
  | Running w' => worker_inv w' (ms ++ msgs)
  | Exited => exists info reason text, terminateStruct info reason text ∈ msgs
  | Crashed => exists l m r, msgs = l ++ m :: r /\ orphan m (ms ++ l)
  | Blocked => False
  end.
Proof using.
  induction msgs as [|m msgs IH]; intros w ms Hw; unfold V11Worker.on_messages in *; cbn [foldl].
  - by rewrite app_nil_r.
  - pose proof (on_message_spec w ms m Hw) as Hm.
    assert (Hstop : forall p, (forall w', p <> Running w') ->
      foldl (fun p msg => match p with Running w => on_message msg w | p => p end) p msgs = p).
    { intros p Hp. clear -Hp. induction msgs as [|m' msgs IH]; [done|]. cbn. destruct p; [by edestruct Hp|..]; apply IH. }
    destruct (on_message m w) as [w'| | |]; [|rewrite Hstop by done..]; [|set_solver| |done].
    + destruct Hm as [Hm _]. specialize (IH w' (ms ++ [m]) Hm). rewrite <- (assoc_L (++)) in IH.
      cbn in IH. destruct (foldl _ _ msgs); [done|set_solver| |done].
      destruct IH as (l & m' & r & -> & Ho). exists (m :: l), m', r. split; [done|].
      by rewrite <- (assoc_L (++)) in Ho.
    + exists [], m, msgs. by rewrite app_nil_r.
Qed.

Lemma on_messages_unpacker msgs : forall w w',
  on_messages msgs w = Running w' -> unpacker w' = unpacker w.
Proof using.
  induction msgs as [|m msgs IH] using rev_ind; intros w w' H; [by injection H as <-|].
  unfold V11Worker.on_messages in *. rewrite foldl_app in H. cbn in H.
  destruct (foldl _ _ msgs) as [w1| | |] eqn:H1; try done.
  rewrite <- (IH _ _ H1). unfold V11Worker.on_message, request_push, request_close, request_send in H.
  destruct m; repeat (case_match; try done); by simplify_eq/=.
Qed.

(** A change of one invocation that leaves its session and its request alone, or
    moves a chunk from the queue to the handler. *)
Lemma worker_inv_go w i g g' (ms : list message) :
  worker_inv w ms -> gos w !! i = Some g -> view g' = view g ->
  (forall v, g_request g = QuitLoop.Selecting v -> QuitLoop.quit v = false ->
     exists v', g_request g' = QuitLoop.Selecting v' /\ QuitLoop.quit v' = false) ->
  worker_inv (set_go w i g') ms.
Proof using.
  intros [Hv Hs Ho] Hg Hview Hopen. constructor; cbn; [|done|].
  - intros j. destruct (decide (j = i)) as [->|Hj].
    + rewrite list_lookup_insert_eq by (by eapply lookup_lt_Some). cbn.
      rewrite Hview, <- Hv, Hg. done.
    + by rewrite list_lookup_insert_ne.
  - intros j g1. destruct (decide (j = i)) as [->|Hj].
    + rewrite list_lookup_insert_eq by (by eapply lookup_lt_Some). intros [= <-] Hsi.
      assert (Hss : g_session g' = g_session g) by (unfold view in Hview; congruence).
      rewrite Hss in Hsi. destruct (Ho i g Hg Hsi) as (v & Hq & Hquit). eauto.
    + rewrite list_lookup_insert_ne by done. apply Ho.
Qed.

Lemma go_step_view e g g' :
  go_step e g = Some g' ->
  view g' = view g /\
  (forall v, g_request g = QuitLoop.Selecting v -> QuitLoop.quit v = false ->
     exists v', g_request g' = QuitLoop.Selecting v' /\ QuitLoop.quit v' = false).
Proof using.
  intros Hs. unfold go_step, newRequest_loop, newResponse_loop in Hs.
  destruct e; try done; destruct (g_prog g) as [|k|frame k|k] eqn:Hp; try done.
  - destruct (g_request g) as [[p q]|] eqn:Hr; [|done]. destruct p as [|data p]; [done|].
    cbn in Hs. injection Hs as <-. split.
    + unfold view. cbn. rewrite QuitLoop.quit_top_pending, Hr. cbn. by rewrite <- (assoc_L (++)).
    + intros v [= <-] Hq. cbn in *. subst q. unfold QuitLoop.top. cbn. destruct p; by eexists.
  - destruct (QuitLoop.step _ _); [|done]. injection Hs as <-. split; [done|eauto].
  - destruct (QuitLoop.step _ _); [|done]. injection Hs as <-. split; [done|eauto].
Qed.

Context (uuid_zero : UUID) (uuid_FromString : string -> UUID + error).
Context (decode : list byte -> dec_result).
#[local] Abbreviation Feed := (Feed uuid_zero uuid_FromString decode).
#[local] Abbreviation feed_all := (feed_all uuid_zero uuid_FromString decode).
#[local] Abbreviation NewWorker := (NewWorker uuid_zero uuid_String uuid_FromString encode).
#[local] Abbreviation step := (step uuid_zero uuid_String uuid_FromString encode decode encode_value bind fallback).

(** What a run that is still going has established. *)
Definition run_inv (w : Worker) (es : list event) : Prop :=
  exists msgs, feed_all [] (answers es) = Some (Ok (unpacker w, msgs)) /\ worker_inv w msgs.

Lemma run_inv_other w w' es e :
  run_inv w es -> answers [e] = [] -> unpacker w' = unpacker w ->
  (forall ms : list message, worker_inv w ms -> worker_inv w' ms) -> run_inv w' (es ++ [e]).
Proof using.
  intros (msgs & Hf & Hw) He Hu Hk. exists msgs. unfold answers in *. rewrite omap_app, He, app_nil_r, Hu.
  auto.
Qed.

Lemma go_event_inv w es e i p :
  run_inv w es -> answers [e] = [] ->
  match gos w !! i with
  | None => None
  | Some g => (fun g => Running (set_go w i g)) <$> go_step e g
  end = Some p ->
  match p with Running w' => run_inv w' (es ++ [e]) | _ => False end.
Proof using.
  intros Hinv He Hs. destruct (gos w !! i) as [g|] eqn:Hg; [|done].
  destruct (go_step e g) as [g'|] eqn:Hgo; [|done]. injection Hs as <-.
  destruct (go_step_view _ _ _ Hgo) as [Hv Ho].
  eapply run_inv_other; [done..|]. intros ms Hw. by eapply worker_inv_go.
Qed.

Lemma step_run_inv w es e p :
  run_inv w es -> worker_step uuid_zero uuid_String uuid_FromString encode decode encode_value bind fallback w e = Some p ->
  match p with
  | Running w' => run_inv w' (es ++ [e])
  | Exited => e = DisownTick \/ exists buf msgs log info reason text answer, e = Received answer /\
      Feed (unpacker w) answer = Some (Ok (buf, msgs, log)) /\ terminateStruct info reason text ∈ msgs
  | Crashed => exists answer, e = Received answer /\
      (Feed (unpacker w) answer = Some Panic \/
       exists before buf l m r log, feed_all [] (answers es) = Some (Ok (unpacker w, before)) /\
         Feed (unpacker w) answer = Some (Ok (buf, l ++ m :: r, log)) /\ orphan m (before ++ l))
  | Blocked => False
  end.
Proof using.
  intros Hinv Hs. destruct e as [answer| | |i|i|i|i| |]; cbn [worker_step] in Hs.
  - destruct Hinv as (before & Hf & Hw).
    destruct (Feed (unpacker w) answer) as [[[[buf msgs] log]|]|] eqn:Hfeed; [|injection Hs as <-; eauto|done].
    injection Hs as <-.
    assert (Hw' : worker_inv (set_unpacker w buf) before) by (by eapply worker_inv_same).
    pose proof (on_messages_spec msgs _ _ Hw') as Hm.
    assert (Hbuf : forall p, on_messages msgs (set_unpacker w buf) = Running p -> unpacker p = buf).
    { apply on_messages_unpacker. }
    destruct (on_messages msgs (set_unpacker w buf)) as [w'| | |] eqn:Hon; [| | |done].
    + exists (before ++ msgs). split; [|done]. unfold answers. rewrite omap_app. cbn.
      rewrite (Hbuf w' eq_refl). by eapply feed_all_snoc.
    + right. destruct Hm as (info & reason & text & Hm). by exists buf, msgs, log, info, reason, text, answer.
    + exists answer. split; [done|]. right. destruct Hm as (l & m & r & -> & Ho).
      by exists before, buf, l, m, r, log.
  - destruct (fired _); [|done]. injection Hs as <-. eapply run_inv_other; [done..|].
    intros ms Hw. by eapply worker_inv_same.
  - destruct (fired _); [|done]. injection Hs as <-. auto.
  - destruct (gos w !! i) as [g|] eqn:Hg; [|done]. unfold newResponse_loop in Hs.
    destruct (QuitLoop.step _ _); [|done]. destruct (QuitLoop.state_pending _); [done|].
    injection Hs as <-. eapply run_inv_other; [done..|]. intros ms Hw.
    eapply (worker_inv_same (set_go w i _)); [|done..]. eapply worker_inv_go; [done..|eauto].
  - pose proof (go_event_inv w es (HandlerReceives i) i p Hinv eq_refl Hs). by destruct p.
  - pose proof (go_event_inv w es (HandlerSends i) i p Hinv eq_refl Hs). by destruct p.
  - pose proof (go_event_inv w es (HandlerQuits i) i p Hinv eq_refl Hs). by destruct p.
  - destruct (armed _); [|done]. injection Hs as <-. eapply run_inv_other; [done..|].
    intros ms Hw. by eapply worker_inv_same.
  - destruct (armed _); [|done]. injection Hs as <-. eapply run_inv_other; [done..|].
    intros ms Hw. by eapply worker_inv_same.
Qed.

Lemma run_worker_inv flagUUID es p :
  run step (Running (NewWorker flagUUID)) es = Some p ->
  match p with
  | Running w => run_inv w es
  | Exited | Crashed => exists es' e w, es = es' ++ [e] /\ run_inv w es' /\
      run step (Running (NewWorker flagUUID)) es' = Some (Running w) /\
      step (Running w) e = Some p
  | Blocked => False
  end.
Proof using.
  revert p. induction es as [|e es IH] using rev_ind; intros p Hrun.
  - injection Hrun as <-. exists []. split; [done|]. constructor; cbn; [done| |done].
    intros s i. rewrite lookup_empty. naive_solver.
  - apply run_snoc in Hrun as (p1 & Hrun & He). specialize (IH p1 Hrun).
    destruct p1 as [w| | |]; [|done..].
    pose proof (step_run_inv w es e p IH He) as Hstep.
    destruct p as [w'| | |]; [done|by exists es, e, w..|done].
Qed.
(** *** Replies along a run *)

Context (Hbind : map_Forall (fun _ h => tidy false h) bind).
Context (Hfallback : forall event, tidy false (fallback event)).

Lemma go_inv_new s event :
  go_inv (mkInvocation s event QuitLoop.loop_init QuitLoop.loop_init
    (match bind !! event with
     | Some callback => go_callback uuid_String encode encode_value s event callback
     | None => go_fallback uuid_String encode encode_value s (fallback event)
     end) [] [] []).
Proof using Hbind Hfallback.
  split; [done|]. exists []. split; [done|]. left. split; [done|]. cbn.
  destruct (bind !! event) as [h|] eqn:Hh; [|by apply tidy_fallback].
  apply tidy_callback. by apply (Hbind event).
Qed.

Lemma request_send_gos request e w w' :
  Forall go_inv (gos w) -> request_send request e w = Running w' -> Forall go_inv (gos w').
Proof using.
  intros Hf. unfold request_send. destruct request as [i|]; [|done].
  destruct (gos w !! i) as [g|] eqn:Hg; [|done].
  destruct (newRequest_loop _ _) as [q|]; [|done]. intros [= <-]. cbn.
  apply Forall_insert; [done|]. exact (Forall_lookup_1 _ _ _ _ Hf Hg).
Qed.

Lemma on_message_gos w m w' :
  Forall go_inv (gos w) -> on_message m w = Running w' -> Forall go_inv (gos w').
Proof using Hbind Hfallback.
  intros Hf. destruct m as [|info|info r t|info ev|info d|info k t|info|info d]; cbn;
    try (by intros [= <-]).
  - intros [= <-]. cbn. apply Forall_app. split; [done|]. apply Forall_singleton, go_inv_new.
  - by apply request_send_gos.
  - destruct (request_close _ w) as [w1| | |] eqn:H1; try done. intros [= <-]. cbn.
    by eapply request_send_gos.
Qed.

Lemma go_event_gos w e i w' :
  Forall go_inv (gos w) ->
  match gos w !! i with
  | None => None
  | Some g => (fun g => Running (set_go w i g)) <$> go_step e g
  end = Some (Running w') ->
  Forall go_inv (gos w').
Proof using.
  intros Hf Hs. destruct (gos w !! i) as [g|] eqn:Hg; [|done].
  destruct (go_step e g) as [g'|] eqn:Hgo; [|done]. injection Hs as <-. cbn.
  apply Forall_insert; [done|]. eapply go_step_inv; [|done]. exact (Forall_lookup_1 _ _ _ _ Hf Hg).
Qed.

Lemma worker_step_gos w e w' :
  Forall go_inv (gos w) -> step (Running w) e = Some (Running w') -> Forall go_inv (gos w').
Proof using Hbind Hfallback.
  intros Hf Hs. destruct e as [answer| | |i|i|i|i| |]; cbn [V11Worker.step worker_step] in Hs.
  - destruct (Feed _ _) as [[[[buf msgs] log]|]|]; [|done..]. injection Hs as Hs.
    revert w' Hs. induction msgs as [|m msgs IH] using rev_ind; intros w' Hs; [by injection Hs as <-|].
    unfold V11Worker.on_messages in *. rewrite foldl_app in Hs. cbn [foldl] in Hs.
    destruct (foldl _ _ msgs) as [w1| | |]; [|done..]. eapply on_message_gos; [|done]. by apply IH.
  - destruct (fired _); [|done]. by injection Hs as <-.
  - destruct (fired _); done.
  - destruct (gos w !! i) as [g|] eqn:Hg; [|done]. unfold newResponse_loop in Hs.
    destruct (QuitLoop.step _ _) as [q|] eqn:Hq; [|done].
    destruct (QuitLoop.state_pending _) as [|frame rest] eqn:Hp; [done|]. injection Hs as <-. cbn.
    apply Forall_insert; [done|]. destruct (Forall_lookup_1 _ _ _ _ Hf Hg) as [Hfr Hr].
    split; [|done]. cbn. rewrite Hfr, Hp. destruct (g_response g) as [v|]; [|done]. cbn in Hp, Hq.
    rewrite Hp in Hq. injection Hq as <-. rewrite QuitLoop.quit_top_pending. cbn.
    by rewrite <- (assoc_L (++)).
  - by eapply go_event_gos.
  - by eapply go_event_gos.
  - by eapply go_event_gos.
  - destruct (armed _); [|done]. by injection Hs as <-.
  - destruct (armed _); [|done]. by injection Hs as <-.
Qed.

Lemma run_gos flagUUID es w :
  run step (Running (NewWorker flagUUID)) es = Some (Running w) -> Forall go_inv (gos w).
Proof using Hbind Hfallback.
  revert w. induction es as [|e es IH] using rev_ind; intros w Hrun; [by injection Hrun as <-|].
  apply run_snoc in Hrun as ([w1| | |] & Hrun & He); [|done..].
  eapply worker_step_gos; [|done]. by apply IH.
Qed.
End WorkerLemmas.

(** ** Properties *)

(** In every run of a v0.11 worker, whatever the goroutines and
    the network do, the messages cut from the received bytes determine what the
    handlers get: the i-th invocation is that of the i-th invoke, and what its
    handler read, followed by what waits in its request, are the chunks of its
    session up to the next choke or invoke of that session. *)
Theorem worker11_streams {UUID : Type} (uuid_zero : UUID) (uuid_String : UUID -> string)
    (uuid_FromString : string -> UUID + error) (encode : list value -> list byte)
    (decode : list byte -> dec_result) (encode_value : value -> gobytes)
    (bind : gmap string handler) (fallback : string -> handler) (flagUUID : string)
    (es : list event) (w : Worker)
    (Hrun : run (step uuid_zero uuid_String uuid_FromString encode decode encode_value bind fallback)
              (Running (NewWorker uuid_zero uuid_String uuid_FromString encode flagUUID)) es
            = Some (Running w)) :
  exists msgs,
    feed_all uuid_zero uuid_FromString decode [] (answers es) = Some (Ok (unpacker w, msgs)) /\
    ((fun g => (g_session g, g_event g, g_given g ++ QuitLoop.state_pending (g_request g)))
       <$> gos w) =
    ((fun '(session, event, (chunks, _)) => (session, event, chunks)) <$> invocations msgs).
Proof.
  destruct (run_worker_inv _ _ _ _ _ _ _ _ _ _ _ Hrun) as (msgs & Hf & Hw).
  exists msgs. split; [done|].
  transitivity (spec_view <$> invocations msgs).
  - apply list_eq. intros i. rewrite !list_lookup_fmap. apply (inv_view _ _ Hw).
  - apply list_fmap_ext. by intros i [[s e] [cs o]] _.
Qed.

(** The loop of a v0.11 worker never blocks on a request; it crashes
    only when a message cannot be unpacked or when a chunk or a choke belongs to
    no open invocation - the session table then yields a nil request - and in
    every reachable state such a message does crash it. *)
Theorem worker11_crashes {UUID : Type} (uuid_zero : UUID) (uuid_String : UUID -> string)
    (uuid_FromString : string -> UUID + error) (encode : list value -> list byte)
    (decode : list byte -> dec_result) (encode_value : value -> gobytes)
    (bind : gmap string handler) (fallback : string -> handler) (flagUUID : string)
    (es : list event) (p : process)
    (Hrun : run (step uuid_zero uuid_String uuid_FromString encode decode encode_value bind fallback)
              (Running (NewWorker uuid_zero uuid_String uuid_FromString encode flagUUID)) es
            = Some p) :
  match p with
  | Running w =>
    exists msgs,
      feed_all uuid_zero uuid_FromString decode [] (answers es) = Some (Ok (unpacker w, msgs)) /\
      forall m, on_message uuid_String encode encode_value bind fallback m w = Crashed <->
        orphan m msgs
  | Crashed =>
    exists es' answer before buf,
      es = es' ++ [Received answer] /\
      feed_all uuid_zero uuid_FromString decode [] (answers es') = Some (Ok (buf, before)) /\
      (Feed uuid_zero uuid_FromString decode buf answer = Some Panic \/
       exists buf' l m r log,
         Feed uuid_zero uuid_FromString decode buf answer = Some (Ok (buf', l ++ m :: r, log)) /\
         orphan m (before ++ l))
  | Exited =>
    exists es' e, es = es' ++ [e] /\ (e = DisownTick \/ exists answer, e = Received answer)
  | Blocked => False
  end.
Proof.
  pose proof (run_worker_inv _ _ _ _ _ _ _ _ _ _ _ Hrun) as Hinv. destruct p as [w| | |]; [| | |done].
  - destruct Hinv as (msgs & Hf & Hw). exists msgs. split; [done|]. intros m.
    pose proof (on_message_spec uuid_String encode encode_value bind fallback w msgs m Hw) as Hm.
    destruct (on_message _ _ _ _ _ m w); [naive_solver| |done|done].
    destruct Hm as (info & reason & text & ->). by cbn.
  - destruct Hinv as (es' & e & w & -> & Hw & _ & Hstep). exists es', e. split; [done|].
    pose proof (step_run_inv _ _ _ _ _ _ _ _ _ _ _ _ Hw Hstep) as Hx. naive_solver.
  - destruct Hinv as (es' & e & w & -> & Hw & _ & Hstep).
    pose proof (step_run_inv _ _ _ _ _ _ _ _ _ _ _ _ Hw Hstep) as (answer & -> & Hx).
    destruct Hw as (msgs & Hf & Hw). exists es', answer, msgs, (unpacker w). split_and!; [done..|].
    destruct Hx as [Hx|(before & buf & l & m & r & log & Hb & Hx & Ho)]; [by left|right].
    rewrite Hf in Hb. simplify_eq. by exists buf, l, m, r, log.
Qed.

(** C21 (safety): when the handlers close their response at most once and do not
    use it afterwards (the default fallback does so), what the loop forwards to
    the runtime for an invocation is, in order, a part of what its handler sent:
    chunks and errors of its session, then at most one choke. *)
Theorem worker11_replies {UUID : Type} (uuid_zero : UUID) (uuid_String : UUID -> string)
    (uuid_FromString : string -> UUID + error) (encode : list value -> list byte)
    (decode : list byte -> dec_result) (encode_value : value -> gobytes)
    (bind : gmap string handler) (fallback : string -> handler) (flagUUID : string)
    (es : list event) (w : Worker) (g : invocation)
    (Hbind : map_Forall (fun _ h => tidy false h) bind)
    (Hfallback : forall event, tidy false (fallback event))
    (Hrun : run (step uuid_zero uuid_String uuid_FromString encode decode encode_value bind fallback)
              (Running (NewWorker uuid_zero uuid_String uuid_FromString encode flagUUID)) es
            = Some (Running w))
    (Hg : g ∈ gos w) :
  exists body ending,
    Forall (is_reply (g_session g)) body /\
    (ending = [] \/ ending = [choke (mkMessageInfo CHOKE (g_session g))]) /\
    g_forwarded g ++ QuitLoop.state_pending (g_response g) =
      map (packMsg uuid_String encode) (body ++ ending).
Proof.
  pose proof (run_gos _ _ _ _ _ _ _ _ Hbind Hfallback _ _ _ Hrun) as Hf.
  rewrite Forall_forall in Hf. destruct (Hf g Hg) as (Hfr & body & Hbody & Hr).
  rewrite <- Hfr. destruct Hr as [[Hr _]|[Hr _]].
  - exists body, []. rewrite app_nil_r. auto.
  - exists body, [choke (mkMessageInfo CHOKE (g_session g))]. auto.
Qed.

(** ** Witnesses *)

(** One invocation, whose handler echoes a chunk and closes. *)
Definition sample_bind : gmap string handler :=
  {[ "ev" := HRead (fun data => HWrite (VBytes data) (HClose HReturn)) ]}.
Definition sample_run : list event :=
  [Received [x03; x01; x04]; Received [x02; x02]; HandlerReceives 0; HandlerSends 0; HandlerSends 0;
   Outcoming 0; HeartbeatFires; HeartbeatTick; HandlerQuits 0].
Definition sample_step :=
  step (UUID := string) "" (fun u => u) inl sample_encode sample_decode (fun _ => None) sample_bind
    defaultFallbackHandler.
Definition sample_worker : Worker := NewWorker (UUID := string) "" (fun u => u) inl sample_encode "id".

Lemma worker11_streams_witness :
  match run sample_step (Running sample_worker) sample_run with
  | Some (Running w) =>
      map g_given (gos w) = [[Some [x61]]] /\
      exists msgs, feed_all (UUID := string) "" inl sample_decode [] (answers sample_run) =
        Some (Ok (unpacker w, msgs))
  | _ => False
  end.
Proof.
  destruct (run sample_step (Running sample_worker) sample_run) as [[w| | |]|] eqn:E;
    [|vm_compute in E; discriminate..].
  split; [vm_compute in E; by injection E as <-|].
  destruct (worker11_streams (UUID := string) "" (fun u => u) inl sample_encode sample_decode
    (fun _ => None) sample_bind defaultFallbackHandler "id" sample_run w E) as (msgs & H & _).
  by exists msgs.
Defined.

(** A choke for a session that was not invoked. *)
Lemma worker11_crashes_witness :
  match run sample_step (Running sample_worker) [Received [x04; x02; x02]] with
  | Some Crashed => True
  | _ => False
  end /\
  match run sample_step (Running sample_worker) sample_run with
  | Some (Running w) =>
    exists msgs, feed_all (UUID := string) "" inl sample_decode [] (answers sample_run) =
        Some (Ok (unpacker w, msgs)) /\
      forall m, on_message (UUID := string) (fun u => u) sample_encode (fun _ => None) sample_bind
          defaultFallbackHandler m w = Crashed <-> orphan m msgs
  | _ => False
  end.
Proof.
  split; [by vm_compute|].
  destruct (run sample_step (Running sample_worker) sample_run) as [[w| | |]|] eqn:E;
    [|vm_compute in E; discriminate..].
  exact (worker11_crashes (UUID := string) "" (fun u => u) inl sample_encode sample_decode
    (fun _ => None) sample_bind defaultFallbackHandler "id" sample_run (Running w) E).
Defined.

Lemma worker11_replies_witness :
  match run sample_step (Running sample_worker) sample_run with
  | Some (Running w) =>
    match gos w with
    | g :: _ => exists body ending, Forall (is_reply (UUID := string) 1) body /\
        g_forwarded g ++ QuitLoop.state_pending (g_response g) =
          map (packMsg (fun u => u) sample_encode) (body ++ ending)
    | [] => False
    end
  | _ => False
  end.
Proof.
  destruct (run sample_step (Running sample_worker) sample_run) as [[w| | |]|] eqn:E;
    [|vm_compute in E; discriminate..].
  assert (Hs : map g_session (gos w) = [1%Z]) by (vm_compute in E; by injection E as <-).
  destruct (gos w) as [|g gs] eqn:Hg; [done|]. injection Hs as Hs _. rewrite <- Hs.
  destruct (worker11_replies (UUID := string) "" (fun u => u) inl sample_encode sample_decode
    (fun _ => None) sample_bind defaultFallbackHandler "id" sample_run w g) as (body & ending & H1 & _ & H3).
  - unfold sample_bind. apply map_Forall_singleton. intros data. by repeat split.
  - intros event. by repeat split.
  - exact E.
  - rewrite Hg. apply elem_of_cons. by left.
  - by exists body, ending.
Defined.
