(* ===== verification/V11Startup.v ===== *)
(** * cocaine/worker.go: the start of a worker of v0.11

    The flags that [init] declares, read by the same [Parse] of package [flag] as
    those of Defaults.v, and [NewWorker], from the connection to the first messages;
    [Loop] with the setters of the worker called meanwhile. *)
From S2P Require Import Prelude GoTypes Defaults V11Message V11Worker.
From Stdlib Require Import Strings.Byte ZArith Lia.

Open Scope stdpp_scope.

#[local] Arguments String.append : simpl nomatch.

(** ** [FlagSet.Parse] over any flags *)
Section FlagSet.
Context {Vars : Type} (Set_flag : string -> string -> Vars -> option (Vars * bool)).
Context (IsBoolFlag : string -> bool).

Fixpoint ParseSet (args : list string) (p : Vars) : Vars * bool :=
  match args with
  | [] => (p, true)
  | s :: args =>
    match read_argument s with
    | NotFlag | Terminator => (p, true)
    | BadSyntax => (p, false)
    | Flag name value =>
      match Set_flag name "" p with
      | None => (p, false)
      | Some _ =>
        match value with
        | Some value =>
          match Set_flag name value p with
          | Some (p, true) => ParseSet args p
          | Some (p, false) => (p, false)
          | None => (p, false)
          end
        | None =>
          if IsBoolFlag name then
            match Set_flag name "true" p with
            | Some (p, true) => ParseSet args p
            | Some (p, false) => (p, false)
            | None => (p, false)
            end
          else
            match args with
            | [] => (p, false)
            | value :: args =>
              match Set_flag name value p with
              | Some (p, true) => ParseSet args p
              | Some (p, false) => (p, false)
              | None => (p, false)
              end
            end
        end
      end
    end
  end.
End FlagSet.

(** It is the one of Defaults.v. *)
Lemma ParseSet_defaults args p : ParseSet Defaults.Set_flag IsBoolFlag args p = Defaults.Parse args p.
Proof. reflexivity. Qed.

(** ** Definitions *)

(** The variables of the flags. *)
Record flags : Type := mkFlags {
  flagUUID : string;
  flagEndpoint : string;
  flagApp : string;
  flagLocator : string
}.

Definition default_flags : flags := mkFlags "" "" "standalone" "localhost:10053".

Definition Set_flag11 (name value : string) (f : flags) : option (flags * bool) :=
  if decide (name = "uuid") then Some (mkFlags value (flagEndpoint f) (flagApp f) (flagLocator f), true)
  else if decide (name = "endpoint") then Some (mkFlags (flagUUID f) value (flagApp f) (flagLocator f), true)
  else if decide (name = "app") then Some (mkFlags (flagUUID f) (flagEndpoint f) value (flagLocator f), true)
  else if decide (name = "locator") then Some (mkFlags (flagUUID f) (flagEndpoint f) (flagApp f) value, true)
  else None.

(** [init]: the error of [Parse] is dropped, and what was parsed before it stays. *)
Definition init_flags (os_args : list string) : flags :=
  (ParseSet Set_flag11 (fun _ => false) (drop 1 os_args) default_flags).1.

(** *** [NewWorker] *)

(** [time.Second] *)
Definition second : Z := 1000000000.

(** The worker as its user holds it: the worker of V11Worker.v with its fallback and
    its [disown_timeout]; [disown_reset] is what its [disown_timer] was last set to. *)
Record worker11 : Type := mkWorker11 {
  inner : Worker;
  fallback : string -> handler;
  disown_timeout : Z;
  disown_reset : Z
}.

Definition SetFallbackHandler (fallback : string -> handler) (w : worker11) : worker11 :=
  mkWorker11 (inner w) fallback (disown_timeout w) (disown_reset w).

(** It does not touch the timer. *)
Definition SetDisownTimeout (timeout : Z) (w : worker11) : worker11 :=
  mkWorker11 (inner w) (fallback w) timeout (disown_reset w).

Section Startup11.
Context {UUID : Type}.
Context (uuid_zero : UUID) (uuid_String : UUID -> string) (uuid_FromString : string -> UUID + error).
Context (encode : list value -> list byte) (decode : list byte -> dec_result).
Context (encode_value : value -> gobytes).
(** The connection to a unix socket, and [NewLogger]: their errors. *)
Context (dial : string -> option error) (logger_error : option error).

(** What a call of [NewWorkerWithLocalLogger] leaves: whether its socket is open, and
    its result. *)
Record startup11 : Type := mkStartup11 {
  socket_open : bool;
  result11 : worker11 + error
}.

Definition NewWorkerWithLocalLogger (f : flags) : startup11 :=
  match dial (flagEndpoint f) with
  | Some err => mkStartup11 false (inr err)
  | None =>
    match logger_error with
    | Some err => mkStartup11 true (inr err)
    | None =>
      let disown_timeout := (5 * second)%Z in
      mkStartup11 true (inl (mkWorker11
        (V11Worker.NewWorker uuid_zero uuid_String uuid_FromString encode (flagUUID f))
        defaultFallbackHandler disown_timeout disown_timeout))
    end
  end.

(** The process: [init], then [NewWorker] in its [main]. *)
Definition start11 (os_args : list string) : startup11 := NewWorkerWithLocalLogger (init_flags os_args).

(** *** [Loop] with the setters

    A goroutine of the user, such as a handler, may call a setter while [Loop] runs. *)
Inductive user_event : Type :=
| InLoop (e : V11Worker.event)
| CallSetFallbackHandler (fallback : string -> handler)
| CallSetDisownTimeout (timeout : Z).

Inductive process11 : Type :=
| Running11 (w : worker11)
| Ended11 (p : process).

(** A heartbeat resets the timer to the timeout that is set. *)
Definition process11_step (bind : gmap string handler) (p : process11) (e : user_event) : option process11 :=
  match p with
  | Ended11 _ => None
  | Running11 w =>
    match e with
    | CallSetFallbackHandler f => Some (Running11 (SetFallbackHandler f w))
    | CallSetDisownTimeout t => Some (Running11 (SetDisownTimeout t w))
    | InLoop e =>
      match worker_step uuid_zero uuid_String uuid_FromString encode decode encode_value bind
              (fallback w) (inner w) e with
      | Some (Running i) =>
        Some (Running11 (mkWorker11 i (fallback w) (disown_timeout w)
          (match e with HeartbeatTick => disown_timeout w | _ => disown_reset w end)))
      | Some p => Some (Ended11 p)
      | None => None
      end
    end
  end.

End Startup11.

(** ** Specification *)

(** The flag of a setting as v0.11 reads it; it has no protocol. *)
Definition apply_flag (f : flags) (s : setting) : flags :=
  match s with
  | SUuid v => mkFlags v (flagEndpoint f) (flagApp f) (flagLocator f)
  | SEndpoint v => mkFlags (flagUUID f) v (flagApp f) (flagLocator f)
  | SApp v => mkFlags (flagUUID f) (flagEndpoint f) v (flagLocator f)
  | SLocator l => mkFlags (flagUUID f) (flagEndpoint f) (flagApp f) (locators_String l)
  | SProtocol _ => f
  end.

Definition is_protocol (s : setting) : bool := match s with SProtocol _ => true | _ => false end.

(** The settings before the first protocol. *)
Fixpoint before_protocol (l : list (spelling * setting)) : list setting :=
  match l with
  | [] => []
  | (_, s) :: l => if is_protocol s then [] else s :: before_protocol l
  end.

(** The calls of the loop among the events, and what the setters have set. *)
Definition in_loop (es : list user_event) : list V11Worker.event :=
  omap (fun e => match e with InLoop e => Some e | _ => None end) es.
Definition set_timeout (t : Z) (es : list user_event) : Z :=
  foldl (fun t e => match e with CallSetDisownTimeout t => t | _ => t end) t es.
Definition is_tick (e : user_event) : bool := match e with InLoop HeartbeatTick => true | _ => false end.
Definition sets_fallback (e : user_event) : bool :=
  match e with CallSetFallbackHandler _ => true | _ => false end.

(** The period of the disown timer: the timeout at the last heartbeat. *)
Fixpoint last_reset (r t : Z) (es : list user_event) : Z :=
  match es with
  | [] => r
  | CallSetDisownTimeout t :: es => last_reset r t es
  | e :: es => last_reset (if is_tick e then t else r) t es
  end.

(** ** Lemmas *)

Lemma Set_setting11 s f :
  is_protocol s = false -> Set_flag11 (setting_name s) (setting_value s) f = Some (apply_flag f s, true).
Proof. by destruct s. Qed.

Lemma ParseSet_spell11 x rest f :
  is_protocol x.2 = false ->
  ParseSet Set_flag11 (fun _ => false) (spell x ++ rest) f =
    ParseSet Set_flag11 (fun _ => false) rest (apply_flag f x.2).
Proof.
  destruct x as [[dbl jn] s]. cbn [snd]. intros Hs. unfold spell. cbn [joined].
  assert (Hd : exists q, Set_flag11 (setting_name s) "" f = Some q) by (destruct s; try done; by eexists).
  destruct Hd as [q Hq]. destruct jn; cbn [app ParseSet].
  - by rewrite read_joined, Hq, Set_setting11.
  - by rewrite read_spaced, Hq, Set_setting11.
Qed.

(** The parse stops at a protocol, which is not declared. *)
Lemma ParseSet_protocol11 x rest f :
  is_protocol x.2 = true -> (ParseSet Set_flag11 (fun _ => false) (spell x ++ rest) f).1 = f.
Proof.
  destruct x as [[dbl jn] s]. cbn [snd]. destruct s as [| | |z|]; try done. intros _.
  unfold spell. cbn [joined]. destruct jn; cbn [app ParseSet].
  - rewrite read_joined. done.
  - rewrite read_spaced. done.
Qed.

Lemma ParseSet_line11 l rest f :
  (forall f, (ParseSet Set_flag11 (fun _ => false) rest f).1 = f) ->
  (ParseSet Set_flag11 (fun _ => false) (command_line l ++ rest) f).1 = foldl apply_flag f (before_protocol l).
Proof.
  intros Hrest. revert f. induction l as [|[sp s] l IH]; intros f; [apply Hrest|].
  change (command_line ((sp, s) :: l)) with (spell (sp, s) ++ command_line l). rewrite <- (assoc_L (++)).
  cbn [before_protocol]. destruct (is_protocol s) eqn:Hs.
  - by rewrite ParseSet_protocol11.
  - rewrite ParseSet_spell11 by done. apply IH.
Qed.

(** ** Theorem *)

(** A process started by the runtime with the settings of its command line, in any
    order and spelling: the flags are those of the settings before the first
    protocol, a flag v0.11 does not declare, and all behind it is lost. The worker is
    made when the endpoint accepts it and there is a logger; it has then announced
    itself with its uuid - the zero one when it is not on the line, is behind the
    protocol or is malformed - and sent a heartbeat. When the logger fails, the socket
    stays open. *)
Theorem worker11_starts {UUID : Type} (uuid_zero : UUID) (uuid_String : UUID -> string)
    (uuid_FromString : string -> UUID + error) (encode : list value -> list byte)
    (dial : string -> option error) (logger_error : option error) (prog : string)
    (l : list (spelling * setting)) :
  let f := foldl apply_flag default_flags (before_protocol l) in
  let s := start11 uuid_zero uuid_String uuid_FromString encode dial logger_error (prog :: command_line l) in
  init_flags (prog :: command_line l) = f /\
  match dial (flagEndpoint f), logger_error with
  | Some err, _ => s = mkStartup11 false (inr err)
  | None, Some err => s = mkStartup11 true (inr err)
  | None, None =>
    let uuid := match uuid_FromString (flagUUID f) with inl u => u | inr _ => uuid_zero end in
    exists w, s = mkStartup11 true (inl (mkWorker11 w defaultFallbackHandler (5 * second) (5 * second))) /\
      written w = [packMsg uuid_String encode (handshakeStruct (mkMessageInfo HANDSHAKE 0) uuid);
                   packMsg uuid_String encode (heartbeat (mkMessageInfo HEARTBEAT 0))] /\
      armed (heartbeat_timer w) = true /\ armed (disown_timer w) = true
  end.
Proof.
  intros f s. assert (Hf : init_flags (prog :: command_line l) = f).
  { unfold init_flags. cbn [drop]. rewrite drop_0, <- (app_nil_r (command_line l)). by apply ParseSet_line11. }
  split; [exact Hf|]. unfold s, start11. rewrite Hf. unfold NewWorkerWithLocalLogger.
  destruct (dial (flagEndpoint f)); [done|]. destruct logger_error; [done|].
  eexists. split; [reflexivity|]. done.
Qed.

(** A run of [Loop] with setters called meanwhile: the timeout is the last one set,
    but the disown timer has the one that was set at the last heartbeat - five seconds
    until the first one of [Loop], since [NewWorker] has sent a heartbeat before
    [SetDisownTimeout] can be called. When the fallback is not changed meanwhile, the
    run is one of the worker of V11Worker.v with this fallback. *)
Theorem worker11_settings {UUID : Type} (uuid_zero : UUID) (uuid_String : UUID -> string)
    (uuid_FromString : string -> UUID + error) (encode : list value -> list byte)
    (decode : list byte -> dec_result) (encode_value : value -> gobytes) (bind : gmap string handler)
    (w w' : worker11) (es : list user_event) :
  run (process11_step uuid_zero uuid_String uuid_FromString encode decode encode_value bind)
    (Running11 w) es = Some (Running11 w') ->
  disown_timeout w' = set_timeout (disown_timeout w) es /\
  disown_reset w' = last_reset (disown_reset w) (disown_timeout w) es /\
  (existsb is_tick es = false -> disown_reset w' = disown_reset w) /\
  (existsb sets_fallback es = false ->
     fallback w' = fallback w /\
     run (V11Worker.step uuid_zero uuid_String uuid_FromString encode decode encode_value bind (fallback w))
       (Running (inner w)) (in_loop es) = Some (Running (inner w'))).
Proof.
  revert w. induction es as [|e es IH]; intros w Hrun; [by injection Hrun as <-|].
  destruct e as [e|f|t]; cbn [run process11_step] in Hrun.
  - destruct (worker_step _ _ _ _ _ _ _ _ _ e) as [[i| | |]|] eqn:Hs; try done.
    2-4: by destruct es.
    destruct (IH _ Hrun) as (Ht & Hr & Hn & Hf). cbn in Ht, Hr, Hn, Hf.
    split; [by rewrite Ht|]. split; [by rewrite Hr; destruct e|]. split.
    + intros Hk. cbn in Hk. apply orb_false_iff in Hk as [Hk Hks]. rewrite (Hn Hks). by destruct e.
    + intros Hk. destruct (Hf Hk) as [-> Hl]. split; [done|].
      cbn [in_loop omap list_omap run V11Worker.step]. by rewrite Hs.
  - destruct (IH _ Hrun) as (Ht & Hr & Hn & Hf). done.
  - destruct (IH _ Hrun) as (Ht & Hr & Hn & Hf). done.
Qed.

(** The line of a runtime that speaks of a protocol before the uuid. *)
Example uuid_behind_protocol :
  init_flags ["worker"; "--endpoint"; "/sock"; "--protocol"; "1"; "--uuid"; "u"; "--app"; "echo"] =
    mkFlags "" "/sock" "standalone" "localhost:10053".
Proof. reflexivity. Qed.
