(* ===== verification/V11Service.v ===== *)
(** * cocaine/service.go: the client of services of v0.11

    [Service] with its connections - the first and one for each [Reconnect] -
    and the loop goroutine of each, the session table of Sessions.v and the pair
    of channels of each call, a [StopLoop] of Buffers.v. The resolution of the
    name and the dialing are choices of the environment. Each operation of a
    client is one step, as is the handling of the messages of one read; a run is
    followed up to an operation of a client that blocks for ever. *)
From S2P Require Import Prelude GoTypes Sessions Buffers V11Message.
From Stdlib Require Import ZArith Lia Strings.Byte.

(** [serviceRes] *)
Record serviceRes : Type := mkRes {
  res : gobytes;
  err : option error
}.

Definition Err (s : serviceRes) : option error := err s.

(** The goroutine of [Service.getServiceChanPair]: its queue, whether its [In] is
    closed, the connection whose [stop] channel its [select] waits on, and what
    was received from its [Out]. *)
Record pair : Type := mkPair {
  p_queue : StopLoop.state serviceRes;
  p_closed : bool;
  p_stop : nat;
  p_given : list serviceRes
}.

Inductive loop_state : Type :=
| LoopRunning
| LoopBlocked       (* on a send that nobody receives *)
| LoopEnded.

(** A connection: whether the [stop] channel made with it is closed, whether its
    socket is, the frames written to it, and its loop. *)
Record connection : Type := mkConnection {
  stopped : bool;
  closed : bool;
  written : list (list byte);
  loop : loop_state
}.

(** [args], [name] and the mutexes are left out; [returned] is what the calls
    returned, a pair or a channel that holds an error. *)
Record Service : Type := mkService {
  sessions : V11.keeperStruct nat;      (* indices of [pairs] *)
  unpacker : list byte;
  API : list (Z * string);
  conns : list connection;              (* the last one is current *)
  pairs : list pair;
  returned : list (nat + error)
}.

Definition set_pairs (s : Service) t ps : Service :=
  mkService t (unpacker s) (API s) (conns s) ps (returned s).
Definition set_conns (s : Service) cs : Service :=
  mkService (sessions s) (unpacker s) (API s) cs (pairs s) (returned s).
Definition set_unpacker (s : Service) buf : Service :=
  mkService (sessions s) buf (API s) (conns s) (pairs s) (returned s).
Definition set_returned (s : Service) r : Service :=
  mkService (sessions s) (unpacker s) (API s) (conns s) (pairs s) (returned s ++ [r]).

Definition current (s : Service) : nat := length (conns s) - 1.
Definition IsClosed (s : Service) : bool :=
  match conns s !! current s with Some c => closed c | None => false end.

(** The result of an operation that may block for ever, after some effects. *)
Inductive progress : Type :=
| Going (s : Service)
| Blocking (s : Service)
| Panicking.

Definition then_ (p : progress) (k : Service -> progress) : progress :=
  match p with Going s => k s | p => p end.

(** [ch <- r]: the goroutine of the pair then reads [service.stop] again. *)
Definition chan_send (i : nat) (r : serviceRes) (s : Service) : progress :=
  match pairs s !! i with
  | None => Panicking
  | Some p =>
    if p_closed p then Panicking
    else
      match Service_getServiceChanPair (p_queue p) (StopLoop.Incoming r) with
      | Some q =>
        Going (set_pairs s (sessions s)
          (<[i := mkPair q (p_closed p) (current s) (p_given p)]> (pairs s)))
      | None => Blocking s
      end
  end.

(** [close(ch)] *)
Definition chan_close (i : nat) (s : Service) : progress :=
  match pairs s !! i with
  | None => Panicking
  | Some p =>
    if p_closed p then Panicking
    else Going (set_pairs s (sessions s)
      (<[i := mkPair (p_queue p) true (p_stop p) (p_given p)]> (pairs s)))
  end.

Definition detach (id : Z) (s : Service) : Service := set_pairs s (V11.Detach id (sessions s)) (pairs s).

Definition Disconnected (code : Z) : serviceRes :=
  mkRes None (Some (ServiceError code "Disconnected")).

(** [getMethodNumber]; [order] is the API as [range] visits it. *)
Definition getMethodNumber (order : list (Z * string)) (name : string) : option Z :=
  (fun found => found.2.1) <$> list_find (fun e => e.2 = name) order.

Section Service.
Context {UUID : Type}.
Context (uuid_zero : UUID) (uuid_String : UUID -> string) (uuid_FromString : string -> UUID + error).
Context (encode : list value -> list byte) (decode : list byte -> dec_result).
#[local] Abbreviation message := (messageInterface UUID).
#[local] Abbreviation packMsg := (packMsg uuid_String encode).
#[local] Abbreviation Feed := (Feed uuid_zero uuid_FromString decode).

(** ** The loop *)

Definition on_message (m : message) (s : Service) : progress :=
  match m with
  | chunk info data =>
    match V11.Get (Channel info) (sessions s) with
    | Some ch => chan_send ch (mkRes data None) s
    | None => Going s
    end
  | choke info =>
    match V11.Get (Channel info) (sessions s) with
    | Some ch => then_ (chan_close ch s) (fun s => Going (detach (Channel info) s))
    | None => Going s
    end
  | errorMsg info code text =>
    match V11.Get (Channel info) (sessions s) with
    | Some ch => chan_send ch (mkRes None (Some (ServiceError code text))) s
    | None => Going s
    end
  | _ => Going s
  end.

Definition on_messages (msgs : list message) (s : Service) : progress :=
  foldl (fun p m => then_ p (on_message m)) (Going s) msgs.

(** The end of the loop, over the keys of the table. *)
Definition disconnect_all (keys : list Z) (s : Service) : progress :=
  foldl (fun p id => then_ p (fun s =>
    match V11.Get id (sessions s) with
    | Some ch =>
      then_ (chan_send ch (Disconnected (-1)) s) (fun s =>
      then_ (chan_close ch s) (fun s => Going (detach id s)))
    | None => Going s
    end)) (Going s) keys.

(** ** Operations of the client *)

Definition Close (s : Service) : progress :=
  match conns s !! current s with
  | None => Panicking
  | Some c =>
    if stopped c then Panicking     (* close of a closed channel *)
    else Going (set_conns s
      (<[current s := mkConnection true true (written c) (loop c)]> (conns s)))
  end.

(** The errors [Reconnect] sends to the open sessions, which are not closed. *)
Definition reconnect_notify (keys : list Z) (s : Service) : progress :=
  foldl (fun p id => then_ p (fun s =>
    then_ (match V11.Get id (sessions s) with
           | Some ch => chan_send ch (Disconnected (-100)) s
           | None => Going s
           end) (fun s => Going (detach id s)))) (Going s) keys.

(** [Reconnect]; [dial] is the error of the resolution or of the dialing. *)
Definition Reconnect (force : bool) (keys : list Z) (dial : option error) (s : Service)
    : progress * option error :=
  if negb force && negb (IsClosed s) then
    (Going s, Some (Errorf "%s" [VString "Service is already connected"]))
  else
    match reconnect_notify keys s with
    | Going s =>
      match dial with
      | Some err => (Going s, Some err)
      | None =>
        (then_ (Close s) (fun s =>
           Going (set_unpacker (set_conns s (conns s ++ [mkConnection false false [] LoopRunning])) [])),
         None)
      end
    | p => (p, None)
    end.

Definition call (order : list (Z * string)) (name : string) (args : list value) (s : Service)
    : Service :=
  match getMethodNumber order name with
  | None => set_returned s (inr (ServiceError (-100) "Wrong method name"))
  | Some method =>
    let ch := length (pairs s) in
    let (t, id) := V11.Attach ch (sessions s) in
    let s := set_pairs s t (pairs s ++ [mkPair StopLoop.loop_init false (current s) []]) in
    let frame := packMsg (ServiceMethod (mkMessageInfo method id) args) in
    let s := set_conns s (alter (fun c =>
      mkConnection (stopped c) (closed c) (written c ++ [frame]) (loop c)) (current s) (conns s)) in
    set_returned s (inl ch)
  end.

Definition Call (order : list (Z * string)) (name : string) (args : list value) (keys : list Z)
    (dial : option error) (s : Service) : progress :=
  if IsClosed s then
    match Reconnect false keys dial s with
    | (Going s, Some _) => Going (set_returned s (inr (ServiceError (-32) "Disconnected")))
    | (Going s, None) => Going (call order name args s)
    | (p, _) => p
    end
  else Going (call order name args s).

(** ** The goroutines *)
Inductive event : Type :=
(* the loop of a connection *)
| Received (k : nat) (answer : list byte)
| ReadClosed (k : nat) (keys : list Z)
(* the client *)
| UserCall (order : list (Z * string)) (name : string) (args : list value) (keys : list Z)
    (dial : option error)
| UserReconnect (force : bool) (keys : list Z) (dial : option error)
| UserClose
(* the goroutine of a pair *)
| PairOut (i : nat)
| PairClosed (i : nat)
| PairStopped (i : nat)
(* the socket of a connection closes itself *)
| ConnLost (k : nat).

Definition keys_of (s : Service) (keys : list Z) : bool :=
  bool_decide (keys ≡ₚ (map_to_list (V11.links (sessions s))).*1).

Definition loop_running (k : nat) (s : Service) : bool :=
  match conns s !! k with
  | Some (mkConnection _ _ _ LoopRunning) => true
  | _ => false
  end.

Definition set_loop (k : nat) (l : loop_state) (s : Service) : Service :=
  set_conns s (alter (fun c => mkConnection (stopped c) (closed c) (written c) l) k (conns s)).

(** A step of a loop: when it blocks, only that goroutine does. *)
Definition loop_progress (k : nat) (l : loop_state) (p : progress) : progress :=
  match p with
  | Going s => Going (set_loop k l s)
  | Blocking s => Going (set_loop k LoopBlocked s)
  | Panicking => Panicking
  end.

Definition pair_step (i : nat) (e : StopLoop.event serviceRes) (s : Service) : option progress :=
  match pairs s !! i with
  | None => None
  | Some p =>
    match Service_getServiceChanPair (p_queue p) e with
    | Some q =>
      Some (Going (set_pairs s (sessions s)
        (<[i := mkPair q (p_closed p) (current s)
                  (p_given p ++ dequeued (opt_list (StopLoop.label (p_queue p) e)))]> (pairs s))))
    | None => None
    end
  end.

Definition service_step (s : Service) (e : event) : option progress :=
  match e with
  | Received k answer =>
    if loop_running k s then
      match Feed (unpacker s) answer with
      | Some (Ok (buf, msgs, _)) =>
        Some (loop_progress k LoopRunning (on_messages msgs (set_unpacker s buf)))
      | Some Panic => Some Panicking
      | None => None
      end
    else None
  | ReadClosed k keys =>
    if loop_running k s && keys_of s keys then
      Some (loop_progress k LoopEnded (disconnect_all keys s))
    else None
  | UserCall order name args keys dial =>
    if bool_decide (order ≡ₚ API s) && keys_of s keys then Some (Call order name args keys dial s)
    else None
  | UserReconnect force keys dial =>
    if keys_of s keys then Some (Reconnect force keys dial s).1 else None
  | UserClose => Some (Close s)
  | PairOut i => pair_step i StopLoop.Out s
  | PairClosed i =>
    if match pairs s !! i with Some p => p_closed p | None => false end then
      pair_step i StopLoop.InputClosed s
    else None
  | PairStopped i =>
    if match pairs s !! i ≫= fun p => conns s !! p_stop p with
       | Some c => stopped c
       | None => false
       end then pair_step i StopLoop.Stop s
    else None
  | ConnLost k =>
    match conns s !! k with
    | Some c =>
      Some (Going (set_conns s
        (<[k := mkConnection (stopped c) true (written c) (loop c)]> (conns s))))
    | None => None
    end
  end.

Definition step (p : progress) (e : event) : option progress :=
  match p with
  | Going s => service_step s e
  | _ => None
  end.

Definition NewService (api : list (Z * string)) : Service :=
  mkService V11.newKeeperStruct [] api [mkConnection false false [] LoopRunning] [] [].
End Service.

(** ** Specification: the results of a session

    Those of its messages up to its choke, and whether it is still open. *)
Section Spec.
Context {UUID : Type}.
#[local] Abbreviation message := (messageInterface UUID).

Fixpoint session_results (id : Z) (ms : list message) : list serviceRes * bool :=
  match ms with
  | [] => ([], true)
  | m :: ms =>
    match m with
    | chunk info data =>
      let (rs, open) := session_results id ms in
      (if decide (Channel info = id) then mkRes data None :: rs else rs, open)
    | errorMsg info code text =>
      let (rs, open) := session_results id ms in
      (if decide (Channel info = id) then mkRes None (Some (ServiceError code text)) :: rs else rs,
       open)
    | choke info => if decide (Channel info = id) then ([], false) else session_results id ms
    | _ => session_results id ms
    end
  end.
End Spec.

(** ** Lemmas *)

(** What the client of a pair has received and can still receive. *)
Definition content (p : pair) : list serviceRes :=
  p_given p ++ StopLoop.state_pending (p_queue p).

(** A pair that [stop] has not aborted takes results. *)
Definition accepting (p : pair) : Prop :=
  p_closed p = false /\
  match p_queue p with StopLoop.Selecting v => StopLoop.input v = true | _ => True end.

Record service_inv (s : Service) : Prop := {
  inv_attached : forall id i, V11.Get id (sessions s) = Some i ->
    exists p, pairs s !! i = Some p /\ accepting p;
  inv_injective : forall id id' i, V11.Get id (sessions s) = Some i ->
    V11.Get id' (sessions s) = Some i -> id = id';
  inv_current : is_Some (conns s !! current s)
}.

(** A send to an attached session. *)
Lemma chan_send_attached s id i r :
  service_inv s -> V11.Get id (sessions s) = Some i ->
  match chan_send i r s with
  | Going s' => service_inv s' /\ sessions s' = sessions s /\ conns s' = conns s /\
      exists p p', pairs s !! i = Some p /\ pairs s' = <[i := p']> (pairs s) /\
        content p' = content p ++ [r]
  | Blocking s' => s' = s /\ exists p rest, pairs s !! i = Some p /\ p_queue p = StopLoop.Returned rest
  | Panicking => False
  end.
Proof.
  intros Hs Hid. destruct (inv_attached _ Hs _ _ Hid) as (p & Hp & Hc & Hq).
  unfold chan_send, Service_getServiceChanPair. rewrite Hp, Hc.
  destruct (p_queue p) as [v|rest] eqn:Hqueue; cbn [StopLoop.step]; [|eauto].
  rewrite Hq. set (q := StopLoop.top _).
  assert (Hpend : StopLoop.state_pending q = StopLoop.pending v ++ [r])
    by apply StopLoop.stop_top_pending.
  assert (Hsel : match q with StopLoop.Selecting v' => StopLoop.input v' = true | _ => True end).
  { unfold q, StopLoop.top. cbn. by destruct (StopLoop.pending v). }
  split_and!; [|done..|].
  - constructor; cbn; [|apply (inv_injective _ Hs)|apply (inv_current _ Hs)].
    intros id' j Hj. destruct (decide (j = i)) as [->|Hne].
    + rewrite list_lookup_insert_eq by (by eapply lookup_lt_Some). by eexists.
    + rewrite list_lookup_insert_ne by done. by apply (inv_attached _ Hs id').
  - eexists p, _. split_and!; [done..|]. unfold content. cbn.
    by rewrite Hpend, Hqueue, (assoc_L (++)).
Qed.

Lemma detach_inv s id i p :
  service_inv s -> V11.Get id (sessions s) = Some i ->
  service_inv (set_pairs s (V11.Detach id (sessions s)) (<[i := p]> (pairs s))).
Proof.
  intros Hs Hid. unfold V11.Get in Hid.
  assert (Hget : forall id' j, V11.Get id' (V11.Detach id (sessions s)) = Some j ->
    id' <> id /\ V11.Get id' (sessions s) = Some j).
  { intros id' j Hj. unfold V11.Get, V11.Detach in *. cbn in *.
    apply lookup_delete_Some in Hj as [Hne Hj]. auto. }
  constructor; cbn; [| |apply (inv_current _ Hs)].
  - intros id' j Hj. apply Hget in Hj as [Hne Hj].
    destruct (decide (j = i)) as [->|Hji]; [by pose proof (inv_injective _ Hs _ _ _ Hj Hid)|].
    rewrite list_lookup_insert_ne by done. by apply (inv_attached _ Hs id').
  - intros id1 id2 j H1 H2. apply Hget in H1 as [_ H1]. apply Hget in H2 as [_ H2].
    by apply (inv_injective _ Hs _ _ j).
Qed.

(** What handling a message gives to the pair of each session. *)
Section Deliver.
Context {UUID : Type}.
#[local] Abbreviation message := (messageInterface UUID).

(** The results a pair gets from [ms], by the session it is attached to. *)
Definition delivered (s : Service) (ms : list message) (i : nat) (rs : list serviceRes) : Prop :=
  (forall id, V11.Get id (sessions s) = Some i -> rs = (session_results id ms).1) /\
  ((forall id, V11.Get id (sessions s) <> Some i) -> rs = []).

Definition handled (s s' : Service) (ms : list message) : Prop :=
  service_inv s' /\ conns s' = conns s /\
  (forall i p, pairs s !! i = Some p ->
     exists p' rs, pairs s' !! i = Some p' /\ content p' = content p ++ rs /\ delivered s ms i rs) /\
  (forall id, V11.Get id (sessions s') =
     if (session_results id ms).2 then V11.Get id (sessions s) else None).

Lemma handled_nothing s m :
  service_inv s -> (forall id i, V11.Get id (sessions s) = Some i -> session_results id [m] = ([], true)) ->
  (forall id, (session_results id [m]).2 = true \/ V11.Get id (sessions s) = None) ->
  handled s s [m].
Proof.
  intros Hs H1 H2. unfold handled, delivered. split_and!; [done..| |].
  - intros i p Hp. exists p, []. rewrite app_nil_r. split_and!; [done..| |done].
    intros id Hid. by rewrite (H1 id i Hid).
  - intros id. destruct (H2 id) as [->| ->]; [done|by case_match].
Qed.

Lemma handled_send s s' m id i r :
  service_inv s -> V11.Get id (sessions s) = Some i ->
  (forall id', session_results id' [m] = (if decide (id = id') then [r] else [], true)) ->
  chan_send i r s = Going s' -> handled s s' [m].
Proof.
  intros Hs Hid Hm Hsend. pose proof (chan_send_attached s id i r Hs Hid) as H.
  rewrite Hsend in H. destruct H as (Hs' & Hsess & Hconns & p & p' & Hp & Hpairs & Hcont).
  unfold handled, delivered.
  split_and!; [done..| |].
  - intros j q Hq. rewrite Hpairs. destruct (decide (j = i)) as [->|Hne].
    + rewrite Hp in Hq. injection Hq as <-. exists p', [r].
      rewrite list_lookup_insert_eq by (by eapply lookup_lt_Some). split_and!; [done..| |].
      * intros id' Hid'. pose proof (inv_injective _ Hs _ _ _ Hid Hid') as <-.
        by rewrite Hm, decide_True.
      * intros Hno. by destruct (Hno id).
    + exists q, []. rewrite list_lookup_insert_ne, app_nil_r by done. split_and!; [done..| |done].
      intros id' Hid'. rewrite Hm. rewrite decide_False; [done|]. intros ->. congruence.
  - intros id'. by rewrite Hm, Hsess.
Qed.

Lemma on_message_handled s m :
  service_inv s ->
  match on_message m s with
  | Going s' => handled s s' [m]
  | Blocking s' => s' = s /\ exists id i p rest, V11.Get id (sessions s) = Some i /\
      pairs s !! i = Some p /\ p_queue p = StopLoop.Returned rest
  | Panicking => False
  end.
Proof.
  intros Hs. unfold on_message.
  destruct m as [info u|info|info r t|info ev|info d|info k t|info|info d];
    try (apply handled_nothing; [done|by intros|by left]).
  - destruct (V11.Get (Channel info) (sessions s)) as [i|] eqn:Hid.
    + pose proof (chan_send_attached s _ i (mkRes d None) Hs Hid) as H.
      destruct (chan_send i _ s) as [s'|s'|] eqn:Hsend; [|naive_solver|done].
      by eapply (handled_send s s' (chunk info d)).
    + apply handled_nothing; [done| |by left]. intros id i Hi. cbn. rewrite decide_False; [done|].
      intros <-. congruence.
  - destruct (V11.Get (Channel info) (sessions s)) as [i|] eqn:Hid.
    + pose proof (chan_send_attached s _ i (mkRes None (Some (ServiceError k t))) Hs Hid) as H.
      destruct (chan_send i _ s) as [s'|s'|] eqn:Hsend; [|naive_solver|done].
      by eapply (handled_send s s' (errorMsg info k t)).
    + apply handled_nothing; [done| |by left]. intros id i Hi. cbn. rewrite decide_False; [done|].
      intros <-. congruence.
  - destruct (V11.Get (Channel info) (sessions s)) as [i|] eqn:Hid.
    + destruct (inv_attached _ Hs _ _ Hid) as (p & Hp & Hc & Hq).
      unfold chan_close. rewrite Hp, Hc. cbn [then_].
      unfold handled, delivered. split_and!; [exact (detach_inv s (Channel info) i _ Hs Hid)|done| |].
      * intros j q Hj. cbn. destruct (decide (j = i)) as [->|Hne].
        -- rewrite Hp in Hj. injection Hj as <-.
           rewrite list_lookup_insert_eq by (by eapply lookup_lt_Some).
           eexists _, []. rewrite app_nil_r. split_and!; [done..| |done].
           intros id' Hid'. cbn. by case_decide.
        -- rewrite list_lookup_insert_ne by done. exists q, []. rewrite app_nil_r.
           split_and!; [done..| |done]. intros id' Hid'. cbn. by case_decide.
      * intros id'. cbn. unfold V11.Get, V11.Detach. cbn. case_decide as Hd; cbn.
        -- subst id'. by rewrite lookup_delete_eq.
        -- by rewrite lookup_delete_ne.
    + apply handled_nothing; [done| |].
      * intros id i Hi. cbn. rewrite decide_False; [done|]. intros <-. congruence.
      * intros id. cbn. case_decide as Hd; [right; by subst id|by left].
Qed.

Lemma session_results_cons id m (ms : list message) :
  session_results id (m :: ms) =
    if (session_results id [m]).2
    then ((session_results id [m]).1 ++ (session_results id ms).1, (session_results id ms).2)
    else session_results id [m].
Proof.
  destruct m; cbn [session_results]; destruct (session_results id ms) as [rs o];
    repeat case_decide; done.
Qed.

Lemma handled_cons s s1 s2 m ms :
  service_inv s -> handled s s1 [m] -> handled s1 s2 ms -> handled s s2 (m :: ms).
Proof.
  intros Hs (Hs1 & Hc1 & Hp1 & Hl1) (Hs2 & Hc2 & Hp2 & Hl2).
  split_and!; [done|by rewrite Hc2| |].
  - intros i p Hp. destruct (Hp1 i p Hp) as (p1 & rs1 & Hi1 & Hcont1 & Hd1 & Hn1).
    destruct (Hp2 i p1 Hi1) as (p2 & rs2 & Hi2 & Hcont2 & Hd2 & Hn2).
    exists p2, (rs1 ++ rs2). split_and!; [done|by rewrite Hcont2, Hcont1, (assoc_L (++))|]. split.
    + intros id Hid. rewrite session_results_cons, (Hd1 id Hid). specialize (Hl1 id) as Hl.
      destruct (session_results id [m]) as [rs [|]] eqn:Hres; cbn [fst snd] in *.
      * rewrite Hid in Hl. by rewrite (Hd2 id Hl).
      * rewrite Hn2, app_nil_r; [done|]. intros id' Hid'. rewrite Hl1 in Hid'.
        destruct (session_results id' [m]).2 eqn:Ho; [|done].
        pose proof (inv_injective _ Hs _ _ _ Hid Hid') as <-. by rewrite Hres in Ho.
    + intros Hno. rewrite Hn1, Hn2; [done| |done]. intros id Hid. rewrite Hl1 in Hid.
      destruct (session_results id [m]).2; [by apply (Hno id)|done].
  - intros id. rewrite Hl2, Hl1, (session_results_cons id m ms).
    destruct (session_results id [m]) as [rs [|]]; cbn [fst snd]; [done|by destruct (session_results id ms).2].
Qed.

Lemma handled_nil s : service_inv s -> handled s s [].
Proof.
  intros Hs. unfold handled, delivered. split_and!; try done.
  intros i p Hp. exists p, []. by rewrite app_nil_r.
Qed.

Lemma then_foldl {A} (f : Service -> A -> progress) (l : list A) p :
  (forall s, p <> Going s) -> foldl (fun p a => then_ p (fun s => f s a)) p l = p.
Proof. intros Hp. induction l as [|a l IH]; [done|]. cbn. destruct p; [by edestruct Hp|apply IH..]. Qed.

Lemma on_messages_handled ms : forall s,
  service_inv s ->
  match on_messages ms s with
  | Going s' => handled s s' ms
  | Blocking s' => exists l m r id i p rest, ms = l ++ m :: r /\ handled s s' l /\
      V11.Get id (sessions s') = Some i /\ pairs s' !! i = Some p /\
      p_queue p = StopLoop.Returned rest
  | Panicking => False
  end.
Proof.
  induction ms as [|m ms IH]; intros s Hs; unfold on_messages in *; cbn [foldl then_].
  - by apply handled_nil.
  - pose proof (on_message_handled s m Hs) as Hm. destruct (on_message m s) as [s1|s1|] eqn:H1; [| |done].
    + pose proof Hm as (Hs1 & _). specialize (IH s1 Hs1).
      destruct (foldl _ (Going s1) ms) as [s2|s2|]; [| |done].
      * by eapply handled_cons.
      * destruct IH as (l & m' & r & id & i & p & rest & -> & Hl & Hrest).
        exists (m :: l), m', r, id, i, p, rest. split; [done|]. split; [by eapply handled_cons|done].
    + rewrite (then_foldl (fun s m => on_message m s)) by done.
      destruct Hm as [-> (id & i & p & rest & H2 & H3 & H4)].
      exists [], m, ms, id, i, p, rest. split_and!; [done|by apply handled_nil|done..].
Qed.
End Deliver.

(** *** Runs *)
Section Runs.
Context {UUID : Type}.
Context (uuid_String : UUID -> string) (encode : list value -> list byte).

Lemma detach_only_inv s id : service_inv s -> service_inv (detach id s).
Proof.
  intros Hs.
  assert (Hget : forall id' j, V11.Get id' (V11.Detach id (sessions s)) = Some j ->
    V11.Get id' (sessions s) = Some j).
  { intros id' j Hj. unfold V11.Get, V11.Detach in *. cbn in *.
    by apply lookup_delete_Some in Hj as [_ Hj]. }
  constructor; cbn; [| |apply (inv_current _ Hs)].
  - intros id' j Hj. by apply (inv_attached _ Hs id'), Hget.
  - intros id1 id2 j H1 H2. apply (inv_injective _ Hs _ _ j); by apply Hget.
Qed.

(** A traversal of the keys whose every turn keeps the invariant. *)
Definition keeps (s : Service) (p : progress) : Prop :=
  match p with
  | Going s' | Blocking s' => service_inv s' /\ conns s' = conns s
  | Panicking => False
  end.

Lemma foldl_keeps (f : Service -> Z -> progress) keys :
  (forall s id, service_inv s -> keeps s (f s id)) ->
  forall s, service_inv s -> keeps s (foldl (fun p id => then_ p (fun s => f s id)) (Going s) keys).
Proof.
  intros Hf. induction keys as [|id keys IH]; intros s Hs; [done|]. cbn [foldl then_].
  pose proof (Hf s id Hs) as H1. destruct (f s id) as [s1|s1|] eqn:Hfs; [|by rewrite then_foldl|done].
  destruct H1 as [Hs1 Hc1]. specialize (IH s1 Hs1).
  destruct (foldl _ (Going s1) keys); [..|done]; unfold keeps in *; by rewrite <- Hc1.
Qed.

Lemma disconnect_all_keeps keys s : service_inv s -> keeps s (disconnect_all keys s).
Proof.
  apply foldl_keeps. clear s. intros s id Hs.
  destruct (V11.Get id (sessions s)) as [i|] eqn:Hid; [|done].
  pose proof (chan_send_attached s id i (Disconnected (-1)) Hs Hid) as Hsend.
  destruct (chan_send i _ s) as [s1|s1|]; [|by destruct Hsend as [-> _]|done].
  destruct Hsend as (Hs1 & Hsess & Hconns & _). cbn [then_]. rewrite <- Hsess in Hid.
  destruct (inv_attached _ Hs1 _ _ Hid) as (p & Hp & Hc & _).
  unfold chan_close. rewrite Hp, Hc. cbn [then_]. split; [|done].
  exact (detach_inv s1 id i _ Hs1 Hid).
Qed.

Lemma reconnect_notify_keeps keys s : service_inv s -> keeps s (reconnect_notify keys s).
Proof.
  apply foldl_keeps. clear s. intros s id Hs.
  destruct (V11.Get id (sessions s)) as [i|] eqn:Hid; [|split; [by apply detach_only_inv|done]].
  pose proof (chan_send_attached s id i (Disconnected (-100)) Hs Hid) as Hsend.
  destruct (chan_send i _ s) as [s1|s1|]; [|by destruct Hsend as [-> _]|done].
  destruct Hsend as (Hs1 & _ & Hconns & _). split; [by apply detach_only_inv|done].
Qed.

Lemma inv_conns s cs :
  service_inv s -> cs <> [] -> service_inv (set_conns s cs).
Proof.
  intros Hs Hcs. constructor; [apply (inv_attached _ Hs)|apply (inv_injective _ Hs)|].
  cbn. unfold current. cbn. apply lookup_lt_is_Some. destruct cs; [done|]. cbn. lia.
Qed.

Lemma conns_nonempty s : service_inv s -> conns s <> [].
Proof. intros Hs Hc. pose proof (inv_current _ Hs) as H. rewrite Hc in H. by destruct H. Qed.

Lemma inv_same s s' :
  service_inv s -> sessions s' = sessions s -> pairs s' = pairs s -> conns s' = conns s ->
  service_inv s'.
Proof.
  intros [H1 H2 H3] Hs Hp Hc. constructor; unfold current; rewrite ?Hs, ?Hp, ?Hc; try done.
Qed.

(** The [stop] channel of the current connection is closed. *)
Definition disposed (s : Service) : Prop :=
  exists c, conns s !! current s = Some c /\ stopped c = true.

Lemma Close11_inv s :
  service_inv s ->
  match Close s with
  | Going s' => service_inv s'
  | Blocking _ => False
  | Panicking => disposed s
  end.
Proof.
  intros Hs. unfold Close. destruct (inv_current _ Hs) as [c Hc]. rewrite Hc.
  destruct (stopped c) eqn:Hst; [by exists c|]. apply inv_conns; [done|].
  intros Hl. apply (f_equal length) in Hl. rewrite length_insert in Hl.
  by apply (conns_nonempty s Hs), nil_length_inv.
Qed.

Lemma Reconnect11_inv force keys dial s :
  service_inv s ->
  match (Reconnect force keys dial s).1 with
  | Going s' | Blocking s' => service_inv s'
  | Panicking => disposed s
  end.
Proof.
  intros Hs. unfold Reconnect. destruct (negb force && negb (IsClosed s)); [done|].
  pose proof (reconnect_notify_keeps keys s Hs) as Hk.
  destruct (reconnect_notify keys s) as [s1|s1|]; [|by destruct Hk|done]. destruct Hk as [Hs1 Hc1].
  destruct dial; [done|]. cbn [fst]. pose proof (Close11_inv s1 Hs1) as Hcl.
  destruct (Close s1) as [s2|s2|]; [|done|].
  - cbn. apply (inv_same (set_conns s2 (conns s2 ++ [mkConnection false false [] LoopRunning]))); [|done..].
    apply inv_conns; [done|]. by destruct (conns s2).
  - destruct Hcl as (c & Hc & Hst). exists c. unfold disposed, current in *. by rewrite <- Hc1.
Qed.

Lemma call11_inv order name args s :
  service_inv s -> service_inv (call uuid_String encode order name args s).
Proof.
  intros Hs. unfold call. destruct (getMethodNumber order name) as [method|]; [|by eapply inv_same].
  cbv zeta. destruct (V11.Attach _ _) as [t id] eqn:Hat. injection Hat as <- <-.
  set (cs := alter _ _ _). set (s1 := set_pairs s _ _).
  apply (inv_same (set_conns s1 cs)); [|done..]. apply inv_conns.
  - assert (Hget : forall id j, V11.Get id (sessions s1) = Some j ->
      j = length (pairs s) \/ V11.Get id (sessions s) = Some j).
    { intros id j Hj. unfold s1, V11.Get in Hj. cbn in Hj.
      apply lookup_insert_Some in Hj as [[_ <-]|[_ Hj]]; auto. }
    constructor; [| |apply (inv_current _ Hs)].
    + intros id j Hj. apply Hget in Hj as [->|Hj]; cbn.
      * rewrite list_lookup_middle by done. by eexists.
      * destruct (inv_attached _ Hs _ _ Hj) as (p & Hp & Ha). exists p.
        by rewrite lookup_app_l by (by eapply lookup_lt_Some).
    + intros id1 id2 j H1 H2.
      assert (Hold : forall id, V11.Get id (sessions s) <> Some (length (pairs s))).
      { intros id Hid. destruct (inv_attached _ Hs _ _ Hid) as (p & Hp & _).
        apply lookup_lt_Some in Hp. lia. }
      unfold s1, V11.Get in H1, H2. cbn in H1, H2.
      apply lookup_insert_Some in H1 as [[<- <-]|[Hn1 H1]];
        apply lookup_insert_Some in H2 as [[<- Hj]|[Hn2 H2]]; try done.
      * by apply Hold in H2.
      * subst j. by apply Hold in H1.
      * by apply (inv_injective _ Hs _ _ j).
  - intros Hl. apply (f_equal length) in Hl. unfold cs in Hl. rewrite length_alter in Hl.
    by apply (conns_nonempty s Hs), nil_length_inv.
Qed.

Context (uuid_zero : UUID) (uuid_FromString : string -> UUID + error).
Context (decode : list byte -> dec_result).
#[local] Abbreviation Feed := (Feed uuid_zero uuid_FromString decode).
#[local] Abbreviation service_step := (service_step uuid_zero uuid_String uuid_FromString encode decode).
#[local] Abbreviation step := (step uuid_zero uuid_String uuid_FromString encode decode).

Lemma set_loop_inv k l s : service_inv s -> service_inv (set_loop k l s).
Proof using.
  intros Hs. apply inv_conns; [done|]. intros Hl. apply (f_equal length) in Hl.
  rewrite length_alter in Hl. by apply (conns_nonempty s Hs), nil_length_inv.
Qed.

Lemma loop_progress_inv k l s p :
  keeps s p ->
  match loop_progress k l p with Going s' => service_inv s' | _ => False end.
Proof using. destruct p as [s'|s'|]; cbn; [..|done]; intros [Hs' _]; by apply set_loop_inv. Qed.

Lemma on_messages_keeps (ms : list (messageInterface UUID)) s : service_inv s -> keeps s (on_messages ms s).
Proof using.
  intros Hs. pose proof (on_messages_handled ms s Hs) as H.
  destruct (on_messages ms s) as [s'|s'|]; [|..|done].
  - by destruct H as (Hs' & Hc & _).
  - destruct H as (l & m & r & id & i & p & rest & _ & (Hs' & Hc & _) & _). done.
Qed.

(** A goroutine of a pair never makes a running pair refuse what it accepted. *)
Lemma pair_step_inv i e s p :
  service_inv s -> (forall r, e <> StopLoop.Incoming r) ->
  (e = StopLoop.InputClosed -> exists q, pairs s !! i = Some q /\ p_closed q = true) ->
  pair_step i e s = Some p -> match p with Going s' => service_inv s' | _ => False end.
Proof using.
  intros Hs Hin Hcl Hstep. unfold pair_step, Service_getServiceChanPair in Hstep.
  destruct (pairs s !! i) as [q|] eqn:Hq; [|done].
  destruct (StopLoop.step (p_queue q) e) as [q'|] eqn:He; [|done]. injection Hstep as <-.
  constructor; cbn; [|apply (inv_injective _ Hs)|apply (inv_current _ Hs)].
  intros id j Hj. destruct (decide (j = i)) as [->|Hne].
  - rewrite list_lookup_insert_eq by (by eapply lookup_lt_Some). eexists. split; [done|].
    destruct (inv_attached _ Hs _ _ Hj) as (q0 & Hq0 & Hc & Hsel).
    rewrite Hq in Hq0. injection Hq0 as <-. split; [done|]. cbn.
    destruct (p_queue q) as [v|]; [|done]. destruct e as [r| | |]; cbn in He; [by destruct (Hin r)|..].
    + destruct (Hcl eq_refl) as (q1 & [= <-] & Hc1). congruence.
    + destruct (StopLoop.pending v) as [|r rest]; [done|]. injection He as <-. unfold StopLoop.top. cbn.
      destruct rest; [by destruct (StopLoop.finished v)|done].
    + by injection He as <-.
  - rewrite list_lookup_insert_ne by done. by apply (inv_attached _ Hs id).
Qed.

Lemma Call11_inv order name args keys dial s :
  service_inv s ->
  match Call uuid_String encode order name args keys dial s with
  | Going s' | Blocking s' => service_inv s'
  | Panicking => disposed s
  end.
Proof using.
  intros Hs. unfold Call. destruct (IsClosed s); [|by apply call11_inv].
  pose proof (Reconnect11_inv false keys dial s Hs) as Hr.
  destruct (Reconnect false keys dial s) as [[s1|s1|] [err|]]; cbn in Hr |- *; try done.
  - by eapply inv_same.
  - by apply call11_inv.
Qed.

(** The events in which a service panics. *)
Definition panic_cause (s : Service) (e : event) : Prop :=
  (exists k answer, e = Received k answer /\ Feed (unpacker s) answer = Some Panic) \/
  (disposed s /\ match e with UserCall _ _ _ _ _ | UserReconnect _ _ _ | UserClose => True | _ => False end).

Lemma service_step_inv s e p :
  service_inv s -> service_step s e = Some p ->
  match p with
  | Going s' | Blocking s' => service_inv s'
  | Panicking => panic_cause s e
  end.
Proof using.
  intros Hs Hstep. unfold panic_cause.
  destruct e as [k answer|k keys|order name args keys dial|force keys dial| |i|i|i|k];
    cbn [V11Service.service_step] in Hstep.
  - destruct (loop_running k s); [|done].
    destruct (Feed (unpacker s) answer) as [[[[buf msgs] log]|]|] eqn:Hf; [| |done]; injection Hstep as <-.
    + assert (Hs' : service_inv (set_unpacker s buf)) by (by eapply inv_same).
      pose proof (loop_progress_inv k LoopRunning _ _ (on_messages_keeps msgs _ Hs')) as H.
      by destruct (loop_progress _ _ _).
    + left. eauto.
  - destruct (loop_running k s && keys_of s keys); [|done]. injection Hstep as <-.
    pose proof (loop_progress_inv k LoopEnded _ _ (disconnect_all_keeps keys s Hs)) as H.
    by destruct (loop_progress _ _ _).
  - destruct (bool_decide _ && _); [|done]. injection Hstep as <-.
    pose proof (Call11_inv order name args keys dial s Hs) as H. destruct (Call _ _ _ _ _ _ _ _); auto.
  - destruct (keys_of s keys); [|done]. injection Hstep as <-.
    pose proof (Reconnect11_inv force keys dial s Hs) as H. destruct (Reconnect _ _ _ _).1; auto.
  - injection Hstep as <-. pose proof (Close11_inv s Hs) as H. destruct (Close s); [done|done|auto].
  - eapply pair_step_inv in Hstep; [|done..]. by destruct p.
  - destruct (pairs s !! i) as [q|] eqn:Hq; [|done]. destruct (p_closed q) eqn:Hc; [|done].
    eapply pair_step_inv in Hstep; [by destruct p|done|done|]. intros _. by exists q.
  - destruct (pairs s !! i ≫= _) as [c|]; [|done]. destruct (stopped c); [|done].
    eapply pair_step_inv in Hstep; [|done..]. by destruct p.
  - destruct (conns s !! k) as [c|]; [|done]. injection Hstep as <-. apply inv_conns; [done|].
    intros Hl. apply (f_equal length) in Hl. rewrite length_insert in Hl.
    by apply (conns_nonempty s Hs), nil_length_inv.
Qed.

Lemma service_run_inv api es p :
  run step (Going (NewService api)) es = Some p ->
  match p with
  | Going s | Blocking s => service_inv s
  | Panicking => exists es' s e, es = es' ++ [e] /\
      run step (Going (NewService api)) es' = Some (Going s) /\ panic_cause s e
  end.
Proof using.
  revert p. induction es as [|e es IH] using rev_ind; intros p Hrun.
  - injection Hrun as <-. constructor; [..|by eexists]; intros id.
    + intros i Hi. unfold V11.Get in Hi. cbn in Hi. by rewrite lookup_empty in Hi.
    + intros id' i Hi. unfold V11.Get in Hi. cbn in Hi. by rewrite lookup_empty in Hi.
  - apply run_snoc in Hrun as ([s|s|] & Hrun & He); [|done..]. specialize (IH _ Hrun).
    pose proof (service_step_inv s e p IH He) as Hp. destruct p as [s'|s'|]; [done..|].
    by exists es, s, e.
Qed.
End Runs.

(** ** Properties *)


(** A service panics only on a message that cannot be unpacked, and
    in a [Close], [Reconnect] or [Call] after its [Close]; and a [Call] after
    [Close] does panic when it finds no open session and the service can be
    reached again, while a [Call] that cannot reach it returns the error -32. *)
Theorem service11_panics {UUID : Type} (uuid_zero : UUID) (uuid_String : UUID -> string)
    (uuid_FromString : string -> UUID + error) (encode : list value -> list byte)
    (decode : list byte -> dec_result) (api : list (Z * string)) (es : list event) (p : progress)
    (Hrun : run (step uuid_zero uuid_String uuid_FromString encode decode) (Going (NewService api)) es
            = Some p) :
  match p with
  | Panicking => exists es' s e, es = es' ++ [e] /\
      run (step uuid_zero uuid_String uuid_FromString encode decode) (Going (NewService api)) es'
        = Some (Going s) /\
      ((exists k answer, e = Received k answer /\
          Feed uuid_zero uuid_FromString decode (unpacker s) answer = Some Panic) \/
       (disposed s /\
        match e with UserCall _ _ _ _ _ | UserReconnect _ _ _ | UserClose => True | _ => False end))
  | Going s =>
    V11.links (sessions s) = ∅ -> ~ disposed s -> forall order name args dial,
      order ≡ₚ API s ->
      match run (step uuid_zero uuid_String uuid_FromString encode decode) (Going s)
              [UserClose; UserCall order name args [] dial] with
      | Some Panicking => dial = None
      | Some (Going s') => dial <> None /\
          returned s' = returned s ++ [inr (ServiceError (-32) "Disconnected")]
      | _ => False
      end
  | Blocking _ => True
  end.
Proof.
  pose proof (service_run_inv _ _ _ _ _ _ _ _ Hrun) as Hs. destruct p as [s|s|]; [|done|done].
  intros Hempty Hd order name args dial Horder.
  destruct (inv_current _ Hs) as [c Hc].
  assert (Hst : stopped c = false).
  { destruct (stopped c) eqn:Hst; [|done]. destruct Hd. by exists c. }
  cbn [run step service_step]. unfold Close. rewrite Hc, Hst.
  set (s1 := set_conns s _).
  assert (Hcur : conns s1 !! current s1 = Some (mkConnection true true (written c) (loop c))).
  { unfold s1, current. cbn. rewrite length_insert. rewrite list_lookup_insert_eq; [done|].
    by eapply lookup_lt_Some. }
  assert (Hkeys : keys_of s1 [] = true).
  { unfold keys_of. apply bool_decide_eq_true. cbn. by rewrite Hempty, map_to_list_empty. }
  cbn [run step service_step]. fold s1. rewrite Hkeys, bool_decide_true by done. cbn [andb].
  unfold Call, IsClosed. rewrite Hcur. cbn [closed].
  unfold Reconnect, IsClosed. rewrite Hcur. cbn [closed negb andb reconnect_notify foldl].
  destruct dial as [err|]; [done|]. unfold Close. rewrite Hcur. done.
Qed.

(** A loop does not tell the sessions of its connection from those
    of the next: when a call has reconnected the service before the loop of the
    lost connection ends, that loop disconnects the session of the new call,
    whose connection is open and gets the call. *)
Theorem late_loop_disconnects {UUID : Type} (uuid_zero : UUID) (uuid_String : UUID -> string)
    (uuid_FromString : string -> UUID + error) (encode : list value -> list byte)
    (decode : list byte -> dec_result) (args : list value) :
  let api := [(0, "write")]%Z in
  exists s,
    run (step uuid_zero uuid_String uuid_FromString encode decode) (Going (NewService api))
      [ConnLost 0; UserCall api "write" args [] None; ReadClosed 0 [1%Z]; PairOut 0] = Some (Going s) /\
    returned s = [inl 0] /\ IsClosed s = false /\ loop_running 1 s = true /\
    written <$> conns s =
      [[]; [packMsg uuid_String encode (ServiceMethod (mkMessageInfo 0 1) args)]] /\
    p_given <$> pairs s = [[Disconnected (-1)]] /\ V11.Get 1 (sessions s) = None.
Proof.
  eexists. split; [by vm_compute|]. by split_and!.
Qed.

(** ** Witnesses *)


Lemma service11_panics_witness :
  match run (step (UUID := string) "" (fun u => u) inl sample_encode sample_decode)
          (Going (NewService [])) [UserClose; UserCall [] "write" [] [] None] with
  | Some Panicking => True
  | _ => False
  end.
Proof.
  assert (Hd : ~ disposed (NewService [])) by (intros (c & [= <-] & Hc); done).
  pose proof (service11_panics (UUID := string) "" (fun u => u) inl sample_encode sample_decode [] []
    (Going (NewService [])) eq_refl eq_refl Hd [] "write" [] None (Permutation_refl _)) as H.
  destruct (run _ _ _) as [[s|s|]|]; [by destruct H as [[] _]|done..].
Defined.
