(* ===== verification/V11Locking.v ===== *)
(** * The locks of cocaine/service.go and sessionkeeper.go

    [Reconnect], [Call] and [Close] of a v0.11 service and the [Detach] of its loops,
    run by any number of goroutines: the mutex of the service with [is_reconnecting],
    and the [RWMutex] of the session table, whose methods [Reconnect] calls while it
    holds it. The results of resolution and dial are choices. *)
From S2P Require Import Prelude GoTypes.
From Stdlib Require Import ZArith Lia.

(** ** Definitions *)

(** What a call of [Reconnect] was asked, and whether [Call] made it. *)
Record ctx : Type := mkCtx {
  force : bool;
  from_call : bool
}.

Inductive result : Type :=
| ReconnectingNow        (* "Service is reconnecting now" *)
| AlreadyConnected
| Failed                 (* of the resolution or the dial *)
| Reconnected
| Disconnected           (* the answer of Call when Reconnect fails *)
| Called                 (* the message of a call is written *)
| Detached
| Closed.

(** The program counters of the operations. *)
Inductive pc : Type :=
| Idle
| Probe                                  (* Call: select on IsClosed() *)
(* Reconnect *)
| Testing (c : ctx)                      (* if !service.is_reconnecting *)
| Locking (c : ctx)                      (* service.mutex.Lock() *)
| Checking (c : ctx)                     (* the second test, and the set *)
| Probing (c : ctx)                      (* if !force: select on IsClosed() *)
| KeysLock (c : ctx)                     (* Keys: keeper.RLock() *)
| KeysRead (c : ctx)                     (* Keys: the range, keeper.RUnlock() *)
| Visit (ks : list Z) (c : ctx)          (* for: service.sessions.RLock() *)
| GetLock (k : Z) (ks : list Z) (c : ctx)   (* Get: keeper.RLock() *)
| GetRead (k : Z) (ks : list Z) (c : ctx)   (* Get: the lookup, keeper.RUnlock() *)
| Notify (k : Z) (ks : list Z) (ok : bool) (c : ctx)  (* ch <- Disconnected *)
| VisitUnlock (k : Z) (ks : list Z) (c : ctx)  (* service.sessions.RUnlock() *)
| Resolving (c : ctx)
| Dialing (c : ctx)
| Disposing (c : ctx)                    (* service.Close() *)
| Installing (c : ctx)                   (* the new stop, socketIO, unpacker *)
| Leaving (c : ctx) (r : result)         (* service.is_reconnecting = false *)
| Unlocking (c : ctx) (r : result)       (* service.mutex.Unlock() *)
(* the writers of the table: Detach, with what is next, and Attach *)
| DetachLock (k : Z) (next : option (list Z * ctx))
| DetachWait (k : Z) (next : option (list Z * ctx))
| DetachHeld (k : Z) (next : option (list Z * ctx))
| AttachLock
| AttachWait
| AttachHeld
| WriteCall                              (* service.socketIO.Write() <- msg *)
| Closing                                (* Close *)
| Returned (r : result).

Inductive phase : Type :=
| WNone
| WAnnounced      (* Lock() waits for the readers, and new readers wait for it *)
| WWriting.

Record shared : Type := mkShared {
  mutex : bool;
  is_reconnecting : bool;
  links : list Z;
  counter : Z;
  readers : nat;
  writer : phase;
  stop_closed : bool;
  closed : bool;           (* the current socket *)
  (* counted for the theorems: the connections made by Reconnect, those of an
     unforced one, and how often an open connection was lost or closed by a user *)
  made : nat;
  unforced : nat;
  losses : nat
}.

Record state : Type := mkState {
  sh : shared;
  threads : list pc
}.

Definition init (n : nat) : state :=
  mkState (mkShared false false [] 0 0 WNone false false 0 0 0) (replicate n Idle).

Definition set_mutex m r (s : shared) := mkShared m r (links s) (counter s) (readers s) (writer s)
  (stop_closed s) (closed s) (made s) (unforced s) (losses s).
Definition set_table l n (s : shared) := mkShared (mutex s) (is_reconnecting s) l n (readers s) (writer s)
  (stop_closed s) (closed s) (made s) (unforced s) (losses s).
Definition set_rw r w (s : shared) := mkShared (mutex s) (is_reconnecting s) (links s) (counter s) r w
  (stop_closed s) (closed s) (made s) (unforced s) (losses s).
Definition set_conn st cl m u l (s : shared) := mkShared (mutex s) (is_reconnecting s) (links s) (counter s)
  (readers s) (writer s) st cl m u l.

(** Go's [RWMutex]. *)
Definition RLock (s : shared) : option shared :=
  match writer s with WNone => Some (set_rw (S (readers s)) WNone s) | _ => None end.
Definition RUnlock (s : shared) : shared := set_rw (pred (readers s)) (writer s) s.
Definition Announce (s : shared) : option shared :=
  match writer s with WNone => Some (set_rw (readers s) WAnnounced s) | _ => None end.
Definition Acquire (s : shared) : option shared :=
  match writer s, readers s with WAnnounced, 0 => Some (set_rw 0 WWriting s) | _, _ => None end.
Definition Unlock (s : shared) : shared := set_rw (readers s) WNone s.

(** An open socket that is lost or closed from outside of [Reconnect]. *)
Definition lose (st : bool) (s : shared) : shared :=
  set_conn st true (made s) (unforced s) (if closed s then losses s else S (losses s)) s.

(** [Close] of the service, in [Reconnect]. *)
Definition dispose (s : shared) : shared := set_conn true true (made s) (unforced s) (losses s) s.

Definition remove_link (k : Z) (ks : list Z) : list Z := filter (fun x => x <> k) ks.

Inductive choice : Type :=
| Next
| Fails                         (* the resolution or the dial *)
| KeysAre (ks : list Z).        (* in the order of range *)

Definition after_detach (next : option (list Z * ctx)) : pc :=
  match next with None => Returned Detached | Some (ks, c) => Visit ks c end.

(** One instruction; [None] when it has to wait. *)
Definition exec (p : pc) (ch : choice) (s : shared) : option (outcome (shared * pc)) :=
  let goes p s := Some (Ok (s, p)) in
  let waits p (o : option shared) := (fun s => Ok (s, p)) <$> o in
  match p, ch with
  | Probe, Next => goes (if closed s then Testing (mkCtx false true) else AttachLock) s
  | Testing c, Next =>
    if is_reconnecting s then
      goes (Returned (if from_call c then Disconnected else ReconnectingNow)) s
    else goes (Locking c) s
  | Locking c, Next => if mutex s then None else goes (Checking c) (set_mutex true (is_reconnecting s) s)
  | Checking c, Next =>
    if is_reconnecting s then goes (Unlocking c ReconnectingNow) s
    else goes (Probing c) (set_mutex (mutex s) true s)
  | Probing c, Next =>
    if negb (force c) && negb (closed s) then goes (Leaving c AlreadyConnected) s else goes (KeysLock c) s
  | KeysLock c, Next => waits (KeysRead c) (RLock s)
  | KeysRead c, KeysAre ks => if decide (ks ≡ₚ links s) then goes (Visit ks c) (RUnlock s) else None
  | Visit [] c, Next => goes (Resolving c) s
  | Visit (k :: ks) c, Next => waits (GetLock k ks c) (RLock s)
  | GetLock k ks c, Next => waits (GetRead k ks c) (RLock s)
  | GetRead k ks c, Next => goes (Notify k ks (bool_decide (k ∈ links s)) c) (RUnlock s)
  | Notify k ks ok c, Next => goes (VisitUnlock k ks c) s
  | VisitUnlock k ks c, Next => goes (DetachLock k (Some (ks, c))) (RUnlock s)
  | Resolving c, Next => goes (Dialing c) s
  | Resolving c, Fails => goes (Leaving c Failed) s
  | Dialing c, Next => goes (Disposing c) s
  | Dialing c, Fails => goes (Leaving c Failed) s
  | Disposing c, Next =>   (* closing the stop channel twice panics *)
    if stop_closed s then Some Panic else goes (Installing c) (dispose s)
  | Installing c, Next =>
    goes (Leaving c Reconnected)
      (set_conn false false (S (made s)) (if force c then unforced s else S (unforced s)) (losses s) s)
  | Leaving c r, Next => goes (Unlocking c r) (set_mutex (mutex s) false s)
  | Unlocking c r, Next =>
    goes (if from_call c then match r with Reconnected => AttachLock | _ => Returned Disconnected end
          else Returned r)
      (set_mutex false (is_reconnecting s) s)
  | DetachLock k next, Next => waits (DetachWait k next) (Announce s)
  | DetachWait k next, Next => waits (DetachHeld k next) (Acquire s)
  | DetachHeld k next, Next =>
    goes (after_detach next)
      (Unlock (set_table (remove_link k (links s)) (counter s) s))
  | AttachLock, Next => waits AttachWait (Announce s)
  | AttachWait, Next => waits AttachHeld (Acquire s)
  | AttachHeld, Next =>
    let n := wrap_int64 (counter s + 1) in
    goes WriteCall (Unlock (set_table (n :: remove_link n (links s)) n s))
  | WriteCall, Next => goes (Returned Called) s
  | Closing, Next => if stop_closed s then Some Panic else goes (Returned Closed) (lose true s)
  | _, _ => None
  end.

(** The operations that goroutines call. *)
Inductive op : Type :=
| OReconnect (force : bool)
| OCall
| ODetach (k : Z)             (* by a loop, at a choke or at its end *)
| OClose.

Definition entry (o : op) : pc :=
  match o with
  | OReconnect force => Testing (mkCtx force false)
  | OCall => Probe
  | ODetach k => DetachLock k None
  | OClose => Closing
  end.

Definition resting (p : pc) : bool := match p with Idle | Returned _ => true | _ => false end.

Inductive event : Type :=
| Begin (i : nat) (o : op)
| Go (i : nat) (ch : choice)
| Lost.                       (* the socket closes itself *)

Definition step (o : outcome state) (e : event) : option (outcome state) :=
  match o with
  | Panic => None
  | Ok s =>
    match e with
    | Begin i o =>
      match threads s !! i with
      | Some p => if resting p then Some (Ok (mkState (sh s) (<[i := entry o]> (threads s)))) else None
      | None => None
      end
    | Go i ch =>
      match threads s !! i with
      | Some p =>
        match exec p ch (sh s) with
        | Some (Ok (s', p')) => Some (Ok (mkState s' (<[i := p']> (threads s))))
        | Some Panic => Some Panic
        | None => None
        end
      | None => None
      end
    | Lost => Some (Ok (mkState (lose (stop_closed (sh s)) (sh s)) (threads s)))
    end
  end.

(** ** Weights: what a goroutine holds at its program counter *)

(** The context of a goroutine in [Reconnect]. *)
Definition ctx_of (p : pc) : option ctx :=
  match p with
  | Testing c | Locking c | Checking c | Probing c | KeysLock c | KeysRead c | Visit _ c
  | GetLock _ _ c | GetRead _ _ c | Notify _ _ _ c | VisitUnlock _ _ c | Resolving c | Dialing c
  | Disposing c | Installing c | Leaving c _ | Unlocking c _ => Some c
  | DetachLock _ (Some (_, c)) | DetachWait _ (Some (_, c)) | DetachHeld _ (Some (_, c)) => Some c
  | _ => None
  end.

(** The mutex of the service; [is_reconnecting]; read locks; a waiting and a writing
    writer of the table. *)
Definition inside (p : pc) : nat :=
  match p, ctx_of p with
  | (Testing _ | Locking _), _ | _, None => 0
  | _, Some _ => 1
  end.
Definition recon (p : pc) : nat :=
  match p with Checking _ | Unlocking _ _ => 0 | _ => inside p end.
Definition reads (p : pc) : nat :=
  match p with
  | KeysRead _ | GetLock _ _ _ | Notify _ _ _ _ | VisitUnlock _ _ _ => 1
  | GetRead _ _ _ => 2
  | _ => 0
  end.
Definition waits (p : pc) : nat := match p with DetachWait _ _ | AttachWait => 1 | _ => 0 end.
Definition held (p : pc) : nat := match p with DetachHeld _ _ | AttachHeld => 1 | _ => 0 end.

(** A goroutine between [Close] of the old connection and the new one, and one that
    was asked by force. *)
Definition installing (p : pc) : nat := match p with Installing _ => 1 | _ => 0 end.
Definition installing_by_force (p : pc) : nat :=
  match p with Installing c => if force c then 1 else 0 | _ => 0 end.
Definition forced_pending (p : pc) : nat :=
  match p, ctx_of p with
  | (Leaving _ _ | Unlocking _ _), _ | _, None => 0
  | _, Some c => if force c then 1 else 0
  end.

(** An unforced [Reconnect] that saw the connection closed. *)
Definition committed (p : pc) : bool :=
  match p, ctx_of p with
  | (Testing _ | Locking _ | Checking _ | Probing _ | Leaving _ _ | Unlocking _ _), _ | _, None => false
  | _, Some c => negb (force c)
  end.

Definition total (f : pc -> nat) (ps : list pc) : nat := sum_list_with f ps.

Definition forced_begins (es : list event) : nat :=
  length (List.filter (fun e => match e with Begin _ (OReconnect true) => true | _ => false end) es).
Definition close_begun (es : list event) : bool :=
  existsb (fun e => match e with Begin _ OClose => true | _ => false end) es.

(** ** Lemmas *)

Lemma total_insert f ps i p q :
  ps !! i = Some p -> total f (<[i := q]> ps) + f p = total f ps + f q.
Proof.
  intros Hi. rewrite <- (take_drop_middle ps i p Hi) at 2.
  rewrite insert_take_drop by (by eapply lookup_lt_Some).
  unfold total. rewrite !sum_list_with_app. cbn. lia.
Qed.

Lemma total_lookup f ps i p : ps !! i = Some p -> f p <= total f ps.
Proof. intros Hi. apply sum_list_with_in. by eapply list_elem_of_lookup_2. Qed.

Lemma total_two f ps i j p q :
  f Idle = 0 -> i <> j -> ps !! i = Some p -> ps !! j = Some q -> f p + f q <= total f ps.
Proof.
  intros H0 Hij Hi Hj. pose proof (total_insert f ps i p Idle Hi) as Hs.
  pose proof (total_lookup f (<[i := Idle]> ps) j q) as Hl.
  rewrite list_lookup_insert_ne in Hl by done. specialize (Hl Hj). lia.
Qed.

Lemma total_idle f n : f Idle = 0 -> total f (replicate n Idle) = 0.
Proof. intros H0. induction n as [|n IH]; [done|]. cbn. unfold total in IH. lia. Qed.

(** What the shared state says of the goroutines, after the events [es]. *)
Record lock_inv (es : list event) (s : shared) (ps : list pc) : Prop := {
  li_inside : total inside ps = if mutex s then 1 else 0;
  li_recon : total recon ps = if is_reconnecting s then 1 else 0;
  li_reads : total reads ps = readers s;
  li_waits : total waits ps = match writer s with WAnnounced => 1 | _ => 0 end;
  li_held : total held ps = match writer s with WWriting => 1 | _ => 0 end;
  li_losses : unforced s +
    (if closed s && bool_decide (total installing_by_force ps = 0) then 1 else 0) <= losses s;
  li_made : made s + total forced_pending ps <= unforced s + forced_begins es;
  li_committed : forall i p, ps !! i = Some p -> committed p = true -> closed s = true;
  li_stop : stop_closed s = true -> total installing ps = 0 -> close_begun es = true;
  li_closing : forall i, ps !! i = Some Closing -> close_begun es = true
}.

Lemma lock_init n : lock_inv [] (mkShared false false [] 0 0 WNone false false 0 0 0) (replicate n Idle).
Proof.
  split; cbn -[total]; rewrite ?total_idle by done; try done.
  - by intros i p [-> _]%lookup_replicate.
  - by intros i [? _]%lookup_replicate.
Qed.

(** The parts of the invariant that an instruction changes together. *)
Record exec_ok (es : list event) (s : shared) (ps : list pc) (p : pc) (s' : shared) (q : pc) : Prop := {
  eo_inside : inside q + (if mutex s then 1 else 0) = inside p + (if mutex s' then 1 else 0);
  eo_recon : recon q + (if is_reconnecting s then 1 else 0) = recon p + (if is_reconnecting s' then 1 else 0);
  eo_reads : reads q + readers s = reads p + readers s';
  eo_waits : waits q + match writer s with WAnnounced => 1 | _ => 0 end =
    waits p + match writer s' with WAnnounced => 1 | _ => 0 end;
  eo_held : held q + match writer s with WWriting => 1 | _ => 0 end =
    held p + match writer s' with WWriting => 1 | _ => 0 end
}.

(** The instructions one by one. *)
Ltac exec_cases p ch He :=
  unfold exec, RLock, RUnlock, Announce, Acquire, Unlock, dispose, lose in He;
  destruct p as [| |c|c|c|c|c|c|ks c|k ks c|k ks c|k ks ok c|k ks c|c|c|c|c|c r|c r|k nx|k nx|k nx| | | | | |r], ch;
  try done; cbn in He; repeat (case_match; cbn in He; simplify_eq); simplify_eq; cbn in *;
  try match goal with |- context [after_detach ?nx] => destruct nx as [[? ?]|]; cbn in * end.

(** The locks: what an instruction takes is counted, and what it gives back it had. *)
Lemma exec_locks es s ps i p ch s' q :
  lock_inv es s ps -> ps !! i = Some p -> exec p ch s = Some (Ok (s', q)) -> exec_ok es s ps p s' q.
Proof.
  intros [Hin Hre Hrd Hwa Hhe _ _ _ _ _] Hi He.
  pose proof (total_lookup inside ps i p Hi) as Li. pose proof (total_lookup recon ps i p Hi) as Lr.
  pose proof (total_lookup reads ps i p Hi) as Ld. pose proof (total_lookup waits ps i p Hi) as Lw.
  pose proof (total_lookup held ps i p Hi) as Lh.
  rewrite Hin in Li. rewrite Hre in Lr. rewrite Hrd in Ld. rewrite Hwa in Lw. rewrite Hhe in Lh.
  clear Hin Hre Hrd Hwa Hhe Hi.
  exec_cases p ch He; split; cbn in *; try lia.
  all: repeat match goal with H : writer _ = _ |- _ => rewrite H in * end.
  all: try lia.
  all: repeat case_match; cbn; lia.
Qed.

Lemma total_pos f ps : 0 < total f ps -> exists i p, ps !! i = Some p /\ 0 < f p.
Proof.
  induction ps as [|p ps IH]; cbn; [lia|]. intros H. destruct (decide (0 < f p)) as [Hp|Hp].
  - by exists 0, p.
  - destruct IH as (i & q & Hi & Hq); [unfold total; lia|]. by exists (S i), q.
Qed.

Lemma installing_inside p : installing p <= inside p.
Proof. destruct p; cbn; lia. Qed.

Lemma by_force_installing p : installing_by_force p <= installing p.
Proof. destruct p; cbn; repeat case_match; lia. Qed.

Lemma committed_inside p : committed p = true -> inside p = 1.
Proof. unfold committed, inside. destruct p; cbn; try done; by destruct next as [[? ?]|]. Qed.

(** Only one goroutine is inside. *)
Lemma inside_alone es s ps i j p q :
  lock_inv es s ps -> ps !! i = Some p -> ps !! j = Some q -> inside p = 1 -> inside q = 1 -> i = j.
Proof.
  intros Hinv Hi Hj Hp Hq. destruct (decide (i = j)) as [|Hij]; [done|].
  pose proof (total_two inside ps i j p q eq_refl Hij Hi Hj) as Ht. rewrite (li_inside _ _ _ Hinv) in Ht.
  destruct (mutex s); lia.
Qed.

(** The connection as an instruction changes it. *)
Lemma exec_losses es s ps i p ch s' q :
  lock_inv es s ps -> ps !! i = Some p -> exec p ch s = Some (Ok (s', q)) ->
  unforced s' + (if closed s' && bool_decide (total installing_by_force (<[i := q]> ps) = 0) then 1 else 0)
    <= losses s'.
Proof.
  intros Hinv Hi He. pose proof (li_losses _ _ _ Hinv) as Hl.
  pose proof (total_insert installing_by_force ps i p q Hi) as Hf.
  pose proof (li_committed _ _ _ Hinv i p Hi) as Hcl.
  assert (Hz : forall c, p = Installing c -> force c = false -> total installing_by_force ps = 0).
  { intros c -> Hc. destruct (decide (total installing_by_force ps = 0)) as [|Hn]; [done|].
    destruct (total_pos installing_by_force ps) as (j & r & Hj & Hr); [lia|].
    pose proof (by_force_installing r). pose proof (installing_inside r).
    assert (Hr1 : inside r = 1) by (destruct r; cbn in *; lia).
    assert (i = j) by (by eapply (inside_alone _ _ _ _ _ (Installing c) r)). subst j.
    rewrite Hi in Hj. injection Hj as <-. cbn in Hr. rewrite Hc in Hr. lia. }
  exec_cases p ch He; try specialize (Hz _ eq_refl eq_refl); try specialize (Hcl eq_refl);
    repeat match goal with H : closed _ = _ |- _ => rewrite H in * end; cbn in *; try lia;
    repeat (case_bool_decide || case_match; cbn in *; simplify_eq); try lia.
  all: destruct (closed s); naive_solver.
Qed.

Lemma exec_made es s ps i p ch s' q :
  lock_inv es s ps -> ps !! i = Some p -> exec p ch s = Some (Ok (s', q)) ->
  made s' + total forced_pending (<[i := q]> ps) <= unforced s' + forced_begins es.
Proof.
  intros Hinv Hi He. pose proof (li_made _ _ _ Hinv) as Hm.
  pose proof (total_insert forced_pending ps i p q Hi) as Hf.
  exec_cases p ch He; try lia; repeat (case_match; cbn in *; simplify_eq); lia.
Qed.

Lemma exec_committed es s ps i p ch s' q j o :
  lock_inv es s ps -> ps !! i = Some p -> exec p ch s = Some (Ok (s', q)) ->
  <[i := q]> ps !! j = Some o -> committed o = true -> closed s' = true.
Proof.
  intros Hinv Hi He Hj Ho. pose proof (li_committed _ _ _ Hinv) as Hcl.
  assert (Hother : forall c, j <> i -> p = Installing c -> False).
  { intros c Hne ->. rewrite list_lookup_insert_ne in Hj by done.
    apply Hne. symmetry. eapply (inside_alone _ _ _ i j (Installing c) o Hinv); try done.
    by apply committed_inside. }
  destruct (decide (j = i)) as [->|Hne].
  - rewrite list_lookup_insert_eq in Hj by (by eapply lookup_lt_Some). injection Hj as <-.
    specialize (Hcl i p Hi). exec_cases p ch He; try done; try (by apply Hcl).
    all: repeat (case_match; cbn in *; simplify_eq); try done; try (by apply Hcl).
    all: by destruct (force c), (closed s').
  - rewrite list_lookup_insert_ne in Hj by done. specialize (Hcl j o Hj Ho).
    exec_cases p ch He; try done. all: exfalso; by eapply Hother.
Qed.

(** The [stop] channel, and the goroutines in [Close]. *)
Lemma exec_stop es s ps i p ch s' q :
  lock_inv es s ps -> ps !! i = Some p -> exec p ch s = Some (Ok (s', q)) ->
  stop_closed s' = true -> total installing (<[i := q]> ps) = 0 -> close_begun es = true.
Proof.
  intros Hinv Hi He Hst Hz. pose proof (li_stop _ _ _ Hinv) as Hs.
  pose proof (li_closing _ _ _ Hinv i) as Hc.
  pose proof (total_insert installing ps i p q Hi) as Hf.
  exec_cases p ch He; try done; try (apply Hs; [done|lia]); try (by apply Hc); try lia.
  all: repeat (case_match; cbn in *; simplify_eq); apply Hs; [done|lia].
Qed.

Lemma exec_not_closing p ch s s' q : exec p ch s = Some (Ok (s', q)) -> q <> Closing.
Proof.
  intros He. exec_cases p ch He; try done; repeat (case_match; cbn in *; simplify_eq); done.
Qed.

Lemma forced_begins_go es i ch : forced_begins (es ++ [Go i ch]) = forced_begins es.
Proof. unfold forced_begins. by rewrite List.filter_app, app_nil_r. Qed.

Lemma close_begun_app es e :
  close_begun (es ++ [e]) = close_begun es || match e with Begin _ OClose => true | _ => false end.
Proof. unfold close_begun. rewrite existsb_app. cbn. by rewrite orb_false_r. Qed.

Lemma lock_go es s ps i p ch s' q :
  lock_inv es s ps -> ps !! i = Some p -> exec p ch s = Some (Ok (s', q)) ->
  lock_inv (es ++ [Go i ch]) s' (<[i := q]> ps).
Proof.
  intros Hinv Hi He. destruct (exec_locks _ _ _ _ _ _ _ _ Hinv Hi He) as [E1 E2 E3 E4 E5].
  pose proof (total_insert inside ps i p q Hi). pose proof (total_insert recon ps i p q Hi).
  pose proof (total_insert reads ps i p q Hi). pose proof (total_insert waits ps i p q Hi).
  pose proof (total_insert held ps i p q Hi).
  pose proof (li_inside _ _ _ Hinv). pose proof (li_recon _ _ _ Hinv). pose proof (li_reads _ _ _ Hinv).
  pose proof (li_waits _ _ _ Hinv). pose proof (li_held _ _ _ Hinv).
  assert (Hcb : close_begun (es ++ [Go i ch]) = close_begun es) by (rewrite close_begun_app; apply orb_false_r).
  split; try lia; rewrite ?Hcb, ?forced_begins_go.
  - by eapply exec_losses.
  - by eapply exec_made.
  - intros j o Hj Ho. by eapply exec_committed.
  - by eapply exec_stop.
  - intros j Hj. destruct (decide (j = i)) as [->|Hne].
    + rewrite list_lookup_insert_eq in Hj by (by eapply lookup_lt_Some). injection Hj as ->.
      by apply exec_not_closing in He.
    + rewrite list_lookup_insert_ne in Hj by done. by apply (li_closing _ _ _ Hinv j).
Qed.

(** A goroutine that calls an operation. *)
Lemma lock_begin es s ps i p o :
  lock_inv es s ps -> ps !! i = Some p -> resting p = true ->
  lock_inv (es ++ [Begin i o]) s (<[i := entry o]> ps).
Proof.
  intros Hinv Hi Hp.
  assert (Hw : forall f, f (entry o) = f p -> total f (<[i := entry o]> ps) = total f ps).
  { intros f Hf. pose proof (total_insert f ps i p (entry o) Hi). lia. }
  assert (Hz : forall f, f Idle = 0 -> (forall r, f (Returned r) = 0) -> f p = 0) by (by intros; destruct p).
  destruct Hinv as [I1 I2 I3 I4 I5 I6 I7 I8 I9 I10]. split.
  1-5: rewrite Hw; [done|]; rewrite Hz by done; by destruct o.
  - rewrite Hw; [done|]. rewrite Hz by done. by destruct o.
  - pose proof (total_insert forced_pending ps i p (entry o) Hi) as Hf.
    rewrite (Hz forced_pending) in Hf by done. unfold forced_begins in *. rewrite List.filter_app, length_app.
    destruct o as [[]| | |]; cbn in *; lia.
  - intros j q Hj Hq. destruct (decide (j = i)) as [->|Hne].
    + rewrite list_lookup_insert_eq in Hj by (by eapply lookup_lt_Some). injection Hj as <-. by destruct o.
    + rewrite list_lookup_insert_ne in Hj by done. by apply (I8 j q).
  - rewrite Hw by (rewrite Hz by done; by destruct o). intros Hs Ht. rewrite close_begun_app.
    by rewrite (I9 Hs Ht).
  - intros j Hj. rewrite close_begun_app. destruct (decide (j = i)) as [->|Hne].
    + rewrite list_lookup_insert_eq in Hj by (by eapply lookup_lt_Some). injection Hj as Hj.
      destruct o; try done. apply orb_true_r.
    + rewrite list_lookup_insert_ne in Hj by done. by rewrite (I10 j).
Qed.

(** The socket closes itself. *)
Lemma lock_lost es s ps : lock_inv es s ps -> lock_inv (es ++ [Lost]) (lose (stop_closed s) s) ps.
Proof.
  intros [I1 I2 I3 I4 I5 I6 I7 I8 I9 I10].
  assert (Hcb : close_begun (es ++ [Lost]) = close_begun es) by (rewrite close_begun_app; apply orb_false_r).
  assert (Hfb : forced_begins (es ++ [Lost]) = forced_begins es)
    by (unfold forced_begins; by rewrite List.filter_app, app_nil_r).
  split; rewrite ?Hcb, ?Hfb; cbn; try done.
  destruct (closed s), (bool_decide _); cbn in *; lia.
Qed.

Lemma step_ok es s e s' :
  lock_inv es (sh s) (threads s) -> step (Ok s) e = Some (Ok s') ->
  lock_inv (es ++ [e]) (sh s') (threads s').
Proof.
  intros Hinv Hs. destruct e as [i o|i ch|]; cbn in Hs.
  - destruct (threads s !! i) as [p|] eqn:Hi; [|done]. destruct (resting p) eqn:Hp; [|done].
    injection Hs as <-. by apply lock_begin with p.
  - destruct (threads s !! i) as [p|] eqn:Hi; [|done].
    destruct (exec p ch (sh s)) as [[[s1 q]|]|] eqn:He; [|done..]. injection Hs as <-. by eapply lock_go.
  - injection Hs as <-. by apply lock_lost.
Qed.

Lemma lock_run n es s :
  run step (Ok (init n)) es = Some (Ok s) -> lock_inv es (sh s) (threads s).
Proof.
  revert s. induction es as [|e es IH] using rev_ind; intros s Hrun.
  - injection Hrun as <-. apply lock_init.
  - apply run_snoc in Hrun as ([s1|] & Hrun & Hs); [|done]. by eapply step_ok; [apply IH|].
Qed.

(** What panics is a second [Close], or the one of a reconnection behind a user's. *)
Lemma step_panics es s e :
  lock_inv es (sh s) (threads s) -> step (Ok s) e = Some Panic ->
  close_begun es = true /\ exists i ch p, e = Go i ch /\ threads s !! i = Some p /\
    match p with Closing | Disposing _ => True | _ => False end.
Proof.
  intros Hinv Hs. destruct e as [i o|i ch|]; cbn in Hs; [|destruct (threads s !! i) as [p|] eqn:Hi; [|done]|done].
  { destruct (threads s !! i) as [p|]; [|done]. by destruct (resting p). }
  destruct (exec p ch (sh s)) as [[[]|]|] eqn:He; try done. clear Hs.
  assert (Hp : stop_closed (sh s) = true /\ match p with Closing | Disposing _ => True | _ => False end)
    by by exec_cases p ch He.
  destruct Hp as [Hst Hp]. split; [|by exists i, ch, p].
  destruct p; try done; [|by apply (li_closing _ _ _ Hinv i)].
  apply (li_stop _ _ _ Hinv Hst). destruct (decide (total installing (threads s) = 0)) as [|Hn]; [done|].
  destruct (total_pos installing (threads s)) as (j & q & Hj & Hq); [lia|]. pose proof (installing_inside q).
  assert (i = j).
  { eapply (inside_alone _ _ _ i j (Disposing c) q Hinv); try done. destruct q; cbn in *; lia. }
  subst j. rewrite Hi in Hj. injection Hj as <-. cbn in Hq. lia.
Qed.

(** *** A reconnection that waits for itself *)

(** It holds a read lock of the table and asks for another one behind a writer. *)
Definition waits_for_itself (i : nat) (k : Z) (ks : list Z) (c : ctx) (s : state) : Prop :=
  threads s !! i = Some (GetLock k ks c) /\ writer (sh s) = WAnnounced.

Lemma dead_facts es i k ks c s :
  lock_inv es (sh s) (threads s) -> waits_for_itself i k ks c s ->
  is_reconnecting (sh s) = true /\ mutex (sh s) = true /\ 0 < readers (sh s) /\
  forall j p, threads s !! j = Some p -> held p = 0 /\ (j <> i -> inside p = 0).
Proof.
  intros Hinv [Hi Hw].
  pose proof (total_lookup recon _ _ _ Hi) as H1. rewrite (li_recon _ _ _ Hinv) in H1.
  pose proof (total_lookup inside _ _ _ Hi) as H2. rewrite (li_inside _ _ _ Hinv) in H2.
  pose proof (total_lookup reads _ _ _ Hi) as H3. rewrite (li_reads _ _ _ Hinv) in H3.
  cbn in H1, H2, H3. split; [destruct (is_reconnecting _); [done|lia]|].
  split; [destruct (mutex _); [done|lia]|]. split; [lia|]. intros j p Hj. split.
  - pose proof (total_lookup held _ _ _ Hj) as H4. rewrite (li_held _ _ _ Hinv), Hw in H4. lia.
  - intros Hne. pose proof (total_two inside _ i j _ _ eq_refl (not_eq_sym Hne) Hi Hj) as H5.
    rewrite (li_inside _ _ _ Hinv) in H5. cbn in H5. destruct (mutex _); lia.
Qed.

(** Another goroutine neither frees the table nor reconnects. *)
Lemma dead_exec p ch s s' q :
  exec p ch s = Some (Ok (s', q)) -> writer s = WAnnounced -> 0 < readers s -> held p = 0 -> inside p = 0 ->
  mutex s = true ->
  writer s' = WAnnounced /\ made s' = made s.
Proof.
  intros He Hw Hr Hh Hi Hm. exec_cases p ch He; try done; try lia;
    repeat (case_match; cbn in *; simplify_eq); done.
Qed.

Lemma dead_step es i k ks c s e s' :
  lock_inv es (sh s) (threads s) -> waits_for_itself i k ks c s -> step (Ok s) e = Some (Ok s') ->
  waits_for_itself i k ks c s' /\ made (sh s') = made (sh s).
Proof.
  intros Hinv Hd Hs. pose proof Hd as [Hi Hw].
  destruct (dead_facts _ _ _ _ _ _ Hinv Hd) as (Hrec & Hm & Hr & Hall).
  destruct e as [j o|j ch|]; cbn in Hs; [| |by injection Hs as <-].
  - destruct (threads s !! j) as [p|] eqn:Hj; [|done]. destruct (resting p) eqn:Hp; [|done]. injection Hs as <-.
    split; [|done]. split; [|done]. cbn. rewrite list_lookup_insert_ne; [done|]. intros ->. by simplify_eq.
  - destruct (threads s !! j) as [p|] eqn:Hj; [|done]. destruct (Hall j p Hj) as [Hh Hins].
    destruct (exec p ch (sh s)) as [[[s1 q]|]|] eqn:He; [|done..]. injection Hs as <-.
    destruct (decide (j = i)) as [->|Hne].
    { rewrite Hi in Hj. injection Hj as <-. destruct ch; cbn in He; try done.
      unfold RLock in He. by rewrite Hw in He. }
    destruct (dead_exec _ _ _ _ _ He Hw Hr Hh (Hins Hne) Hm) as [Hw' Hmade]. split; [|done].
    split; [|done]. cbn. by rewrite list_lookup_insert_ne.
Qed.

Lemma dead_run n es i k ks c s es' s' :
  run step (Ok (init n)) es = Some (Ok s) -> waits_for_itself i k ks c s ->
  run step (Ok s) es' = Some (Ok s') ->
  waits_for_itself i k ks c s' /\ made (sh s') = made (sh s) /\ is_reconnecting (sh s') = true.
Proof.
  intros Hrun Hd. revert s'. induction es' as [|e es' IH] using rev_ind; intros s' Hrun'.
  - injection Hrun' as <-. split_and!; [done..|]. by eapply dead_facts; [eapply lock_run|].
  - apply run_snoc in Hrun' as ([s1|] & Hrun1 & Hs); [|done]. destruct (IH s1 Hrun1) as (Hd1 & Hm1 & _).
    assert (Hinv : lock_inv (es ++ es') (sh s1) (threads s1)) by (apply (lock_run n); by rewrite run_app, Hrun).
    destruct (dead_step _ _ _ _ _ _ _ _ Hinv Hd1 Hs) as [Hd' Hm']. split_and!; [done|congruence|].
    eapply dead_facts; [|exact Hd']. by eapply step_ok.
Qed.

(** ** Properties *)


(** A call opens a session; the connection is lost and a reconnection is asked for;
    while it visits the session another call wants to open one. *)
Definition deadlock_events : list event :=
  [Begin 0 OCall; Go 0 Next; Go 0 Next; Go 0 Next; Go 0 Next; Go 0 Next;
   Begin 1 OCall; Go 1 Next; Lost; Begin 0 (OReconnect false)] ++ replicate 5 (Go 0 Next) ++
  [Go 0 (KeysAre [1%Z]); Go 0 Next; Go 1 Next].

