(* ===== verification/V11Locator.v ===== *)
(** * cocaine/locator.go and the start of a service of cocaine/service.go

    [Resolve] writes one message and reads the answers of the locator until a choke;
    [NewServiceWithLocalLogger] resolves its name, then connects to the endpoint it
    was given. The dialer and the codec are parameters; a connection to the locator
    is the list of the byte slices that its [Read] delivers, after which [Read]
    blocks, or, when the connection is closed, gives nil slices forever. *)
From S2P Require Import Prelude GoTypes V11Message V11Service.
From Stdlib Require Import Strings.Byte ZArith Lia.
From stdpp Require Import gmap pretty.

(** ** Definitions *)

Record Endpoint : Type := mkEndpoint {
  Host : string;
  Port : Z
}.

(** [fmt.Sprintf("%s:%d", endpoint.Host, endpoint.Port)] *)
Definition AsString (e : Endpoint) : string := Host e +:+ ":" +:+ pretty (Port e).

Record ResolveResult : Type := mkResolve {
  success : bool;
  endpoint : Endpoint;
  Version : Z;
  API : gmap Z string
}.

Definition zero_result : ResolveResult := mkResolve false (mkEndpoint "" 0) 0 ∅.

(** The endpoint of the locator: [flagLocator], unless there is one argument and it
    is a string. *)
Definition NewLocator_endpoint (flagLocator : string) (args : list value) : string :=
  match args with
  | [VString endpoint] => endpoint
  | _ => flagLocator
  end.

Section Locator.
Context {UUID : Type}.
Context (uuid_zero : UUID) (uuid_String : UUID -> string) (uuid_FromString : string -> UUID + error).
Context (encode : list value -> list byte) (decode : list byte -> dec_result).
(** [codec.NewDecoderBytes(chunk, h).Decode(&res)]: what it leaves in the exported
    fields of a zero [res], and its error. *)
Context (Decode : gobytes -> (Endpoint * Z * gmap Z string) * option error).
#[local] Abbreviation message := (messageInterface UUID).
#[local] Abbreviation getPayload := (getPayload uuid_String).
#[local] Abbreviation Feed := (Feed uuid_zero uuid_FromString decode).

(** The error of the codec is logged, and what it left is returned. *)
Definition unpackchunk (chunk : gobytes) : ResolveResult :=
  let '(e, version, api) := (Decode chunk).1 in mkResolve false e version api.

Definition set_success (r : ResolveResult) : ResolveResult :=
  mkResolve true (endpoint r) (Version r) (API r).

(** What [Resolve] writes. *)
Definition resolve_request (name : string) : list byte :=
  packMsg uuid_String encode (ServiceMethod (mkMessageInfo 0 0) [VString name]).

(** The [switch] over the messages of one answer, all of them, with the variables
    [resolveresult] and [closed]. *)
Fixpoint on_answer (msgs : list message) (r : ResolveResult) (closed : bool)
    : outcome (ResolveResult * bool) :=
  match msgs with
  | [] => Ok (r, closed)
  | item :: msgs =>
    if (getTypeID item =? CHUNK)%Z then
      match getPayload item with
      | VBytes data :: _ => on_answer msgs (set_success (unpackchunk data)) closed
      | _ => Panic
      end
    else if (getTypeID item =? CHOKE)%Z then on_answer msgs r true
    else on_answer msgs r closed
  end.

Inductive resolution : Type :=
| Reading (buf : list byte) (r : ResolveResult)  (* in [<-locator.Read()] *)
| Resolved (r : ResolveResult).

(** The loop of [Resolve] over the answers it reads; [None] does not occur, see
    [feed_terminates]. *)
Fixpoint Resolve_loop (buf : list byte) (r : ResolveResult) (answers : list (list byte))
    : option (outcome resolution) :=
  match answers with
  | [] => Some (Ok (Reading buf r))
  | answer :: answers =>
    match Feed buf answer with
    | None => None
    | Some Panic => Some Panic
    | Some (Ok (buf, msgs, _)) =>
      match on_answer msgs r false with
      | Panic => Some Panic
      | Ok (r, true) => Some (Ok (Resolved r))
      | Ok (r, false) => Resolve_loop buf r answers
      end
    end
  end.

Definition Resolve (answers : list (list byte)) : option (outcome resolution) :=
  Resolve_loop [] zero_result answers.

(** The dialers: of the locator, with what the connection reads, and of the
    service. *)
Context (dial_locator : string -> list (list byte) + error).
Context {sock : Type} (dial : string -> sock + error).

(** The outcomes of a function that may wait forever. *)
Inductive start (A : Type) : Type :=
| Waits
| Returns (o : outcome A).
Arguments Waits {A}.
Arguments Returns {A} o.

Definition serviceResolve (flagLocator : string) (args : list value)
    : start (ResolveResult + error) :=
  match dial_locator (NewLocator_endpoint flagLocator args) with
  | inr err => Returns (Ok (inr err))
  | inl answers =>
    match Resolve answers with
    | Some (Ok (Resolved info)) => Returns (Ok (inl info))
    | Some Panic => Returns Panic
    | _ => Waits
    end
  end.

(** The service with its connection and the result it was resolved to. *)
Definition NewServiceWithLocalLogger (name flagLocator : string) (args : list value)
    : start (Service * sock * ResolveResult + error) :=
  match serviceResolve flagLocator args with
  | Waits => Waits
  | Returns Panic => Returns Panic
  | Returns (Ok (inr err)) => Returns (Ok (inr err))
  | Returns (Ok (inl info)) =>
    if success info then
      match dial (AsString (endpoint info)) with
      | inr err => Returns (Ok (inr err))
      | inl s => Returns (Ok (inl (NewService (map_to_list (API info)), s, info)))
      end
    else Returns (Ok (inr (Errorf "Unable to resolve service %s" [VString name])))
  end.
End Locator.
Arguments Waits {A}.
Arguments Returns {A} o.

(** ** Specification: the data of the chunks of a reply; the last one counts *)
Section Spec.
Context {UUID : Type}.

Definition chunk_data (m : messageInterface UUID) : option gobytes :=
  match m with chunk _ data => Some data | _ => None end.

Definition is_choke (m : messageInterface UUID) : bool :=
  match m with choke _ => true | _ => false end.

Definition resolved_to (Decode : gobytes -> (Endpoint * Z * gmap Z string) * option error)
    (r : ResolveResult) (reply : list (messageInterface UUID)) : ResolveResult :=
  match last (omap chunk_data reply) with
  | Some data => let '(e, version, api) := (Decode data).1 in mkResolve true e version api
  | None => r
  end.
End Spec.

(** ** Lemmas *)
Section Lemmas.
Context {UUID : Type}.
Context (uuid_zero : UUID) (uuid_String : UUID -> string) (uuid_FromString : string -> UUID + error).
Context (encode : list value -> list byte) (decode : list byte -> dec_result).
Context (Decode : gobytes -> (Endpoint * Z * gmap Z string) * option error).
#[local] Abbreviation message := (messageInterface UUID).
#[local] Abbreviation framed := (framed uuid_String encode decode).
#[local] Abbreviation frames := (frames uuid_String encode).
#[local] Abbreviation partial := (partial uuid_String encode).
#[local] Abbreviation on_answer := (on_answer uuid_String Decode).
#[local] Abbreviation Resolve_loop := (Resolve_loop uuid_zero uuid_String uuid_FromString decode Decode).
Implicit Types (m : message) (ms : list message).

Lemma resolved_to_cons r m ms :
  resolved_to Decode r (m :: ms) =
    resolved_to Decode
      (match chunk_data m with Some data => set_success (unpackchunk Decode data) | None => r end) ms.
Proof.
  unfold resolved_to, unpackchunk.
  destruct m; cbn [omap list_omap chunk_data]; try done.
  rewrite last_cons. destruct (last _) as [d|]; [done|]. by destruct (Decode _).1 as [[e v] api].
Qed.

Lemma resolved_to_app r ms1 ms2 :
  resolved_to Decode r (ms1 ++ ms2) = resolved_to Decode (resolved_to Decode r ms1) ms2.
Proof. revert r. induction ms1 as [|m ms1 IH]; intros r; [done|]. cbn. by rewrite !resolved_to_cons. Qed.

(** The [switch] finds what the specification says. *)
Lemma on_answer_spec ms : forall r closed,
  Forall framed ms ->
  on_answer ms r closed = Ok (resolved_to Decode r ms, closed || existsb is_choke ms).
Proof.
  induction ms as [|m ms IH]; intros r closed Hf; [by rewrite orb_false_r|].
  apply Forall_cons in Hf as [[[_ Hm] _] Hf]. rewrite resolved_to_cons.
  cbn [V11Locator.on_answer existsb]. unfold getTypeID.
  destruct m as [[n c] u|[n c]|[n c] re t|[n c] e|[n c] d|[n c] k t|[n c]|]; [..|done];
    cbn in Hm |- *; try lazymatch type of Hm with _ /\ _ => destruct Hm as [Hm _] end; subst n; cbn; rewrite IH by done; try done.
  by rewrite orb_true_r.
Qed.

Context (Huuid : forall u, uuid_FromString (uuid_String u) = inl u).
Context (Hnil : decode [] = DErr true).

(** The loop ends with the answer that completes the choke, and reads on until then. *)
Lemma Resolve_loop_frames chunks : forall p reply info r future,
  Forall framed (reply ++ [choke info]) -> existsb is_choke reply = false ->
  partial p (reply ++ [choke info]) ->
  p ++ concat chunks ++ future = frames (reply ++ [choke info]) ->
  if decide (future = []) then
    Resolve_loop p r chunks = Some (Ok (Resolved (resolved_to Decode r reply)))
  else exists buf r', Resolve_loop p r chunks = Some (Ok (Reading buf r')).
Proof using Huuid Hnil.
  induction chunks as [|data chunks IH]; intros p reply info r future Hf Hc Hp Heq.
  { case_decide as Hfut; [|cbn; eauto]. subst future. cbn in Heq. rewrite app_nil_r in Heq.
    apply (partial_end _ _ _ _ Hp) in Heq. by destruct reply. }
  cbn [concat] in Heq. rewrite <- (assoc_L (++)), (assoc_L (++)) in Heq.
  destruct (frames_cut _ _ _ (p ++ data) _ Heq) as (ms1 & ms2 & p1 & Hms & Hcut & Hp1).
  assert (Hf12 : Forall framed ms1 /\ Forall framed ms2) by (rewrite Hms in Hf; by apply Forall_app in Hf).
  destruct Hf12 as [Hf1 Hf2].
  destruct (Feed_frames uuid_zero _ _ _ _ Huuid Hnil ms1 p1 ms2 p data Hf1 Hf2 Hp1 Hcut) as [log Hfeed].
  cbn [V11Locator.Resolve_loop]. rewrite Hfeed, (on_answer_spec ms1 r false Hf1). cbn [orb].
  assert (Hrest : p1 ++ concat chunks ++ future = frames ms2).
  { rewrite Hms, Hcut in Heq. unfold V11Message.frames in *.
    rewrite map_app, concat_app, <- (assoc_L (++)) in Heq. by apply app_inv_head in Heq. }
  destruct ms2 as [|m ms2] using rev_ind.
  - rewrite app_nil_r in Hms. subst ms1. cbn in Hp1. subst p1.
    cbn in Hrest. apply app_eq_nil in Hrest as [_ ->]. rewrite decide_True by done.
    rewrite existsb_app, orb_true_r, resolved_to_app. done.
  - clear IHms2. rewrite (assoc_L (++)) in Hms. apply app_inj_tail in Hms as [-> <-].
    rewrite existsb_app in Hc. apply orb_false_iff in Hc as [-> Hc].
    rewrite resolved_to_app. by eapply IH.
Qed.
End Lemmas.

(** ** Properties *)

(** C38 (functional): a service of v0.11 is resolved alike whatever pieces the answer of
    the locator arrives in: with the whole answer, the last of its chunks gives the
    endpoint that is dialed and the methods - even a chunk that does not decode - and
    no chunk an error; without the choke that ends it nothing is returned, also when
    the connection is closed and gives nil slices for as long as one likes. *)
Theorem service11_resolves {UUID : Type} (uuid_zero : UUID) (uuid_String : UUID -> string)
    (uuid_FromString : string -> UUID + error)
    (encode : list value -> list byte) (decode : list byte -> dec_result)
    (Decode : gobytes -> (Endpoint * Z * gmap Z string) * option error)
    (dial_locator : string -> list (list byte) + error) {sock : Type} (dial : string -> sock + error)
    (name flagLocator : string) (args : list value) (chunks : list (list byte))
    (reply : list (messageInterface UUID)) (info : messageInfo) (future : list byte)
    (Huuid : forall u, uuid_FromString (uuid_String u) = inl u)
    (Hnil : decode [] = DErr true)
    (Hlocator : dial_locator (NewLocator_endpoint flagLocator args) = inl chunks)
    (Hreply : Forall (framed uuid_String encode decode) (reply ++ [choke info]))
    (Hchoke : existsb is_choke reply = false)
    (Hstream : concat chunks ++ future =
       concat (map (packMsg uuid_String encode) (reply ++ [choke info]))) :
  NewServiceWithLocalLogger uuid_zero uuid_String uuid_FromString decode Decode dial_locator dial
    name flagLocator args =
  (if decide (future = []) then
     match last (omap chunk_data reply) with
     | None => Returns (Ok (inr (Errorf "Unable to resolve service %s" [VString name])))
     | Some data =>
       let '(e, version, api) := (Decode data).1 in
       match dial (AsString e) with
       | inr err => Returns (Ok (inr err))
       | inl s => Returns (Ok (inl (NewService (map_to_list api), s, mkResolve true e version api)))
       end
     end
   else Waits) /\
  (future <> [] -> forall n, exists buf r,
     Resolve uuid_zero uuid_String uuid_FromString decode Decode (chunks ++ replicate n []) =
       Some (Ok (Reading buf r))).
Proof.
  assert (Hp : partial uuid_String encode [] (reply ++ [choke info])).
  { destruct (reply ++ [choke info]) as [|m ms]; [done|]. exists (packMsg uuid_String encode m).
    split; [done|]. apply Forall_cons in Hreply as [Hm _]. by eapply frame_nonempty. }
  pose proof (fun cs Hs => Resolve_loop_frames uuid_zero _ _ _ _ Decode Huuid Hnil cs [] reply info
    zero_result future Hreply Hchoke Hp Hs) as Hloop.
  split.
  - specialize (Hloop chunks Hstream).
    unfold NewServiceWithLocalLogger, serviceResolve, Resolve. rewrite Hlocator.
    case_decide; [|destruct Hloop as (buf & r & ->); done]. rewrite Hloop. unfold resolved_to.
    destruct (last _) as [data|]; [|done]. destruct (Decode data).1 as [[e v] api]. cbn.
    by destruct (dial _).
  - intros Hfut n. assert (Hnils : concat (replicate n []) = ([] : list byte)) by (by induction n).
    specialize (Hloop (chunks ++ replicate n [])). rewrite decide_False in Hloop by done.
    apply Hloop. by rewrite concat_app, Hnils, app_nil_r.
Qed.

(** ** Witness *)

(** A chunk, then a choke. *)
Definition sample_encode (l : list value) : list byte :=
  match l with
  | VInt _ number :: _ => if decide (number = CHUNK) then [x04; x02] else [x06]
  | _ => []
  end.
Definition sample_decode (bs : list byte) : dec_result :=
  match bs with
  | [] => DErr true
  | x04 :: x02 :: rest => DItem [VInt Kint64 4; VInt Kint64 1; VList [VBytes (Some [x61])]] rest
  | x06 :: rest => DItem [VInt Kint64 6; VInt Kint64 1; VList []] rest
  | _ => DErr false
  end.
Definition sample_Decode (data : gobytes) : (Endpoint * Z * gmap Z string) * option error :=
  (mkEndpoint "node" 10053, 1%Z, {[0%Z := "write"]}, None).
Definition sample_reply : list (messageInterface string) :=
  [chunk (mkMessageInfo CHUNK 1) (Some [x61])].

Lemma sample_reply_framed :
  Forall (framed (fun u => u) sample_encode sample_decode)
    (sample_reply ++ [choke (mkMessageInfo CHOKE 1)]).
Proof.
  unfold sample_reply. cbn [app]. rewrite !Forall_cons, Forall_nil.
  split_and!; [| |done]; (split; [split; unfold is_int64; cbn; [lia|done]|split; [done|]]);
    intros p q Hq Hne; destruct p as [|b1 [|b2 [|b3 p]]]; cbn in Hq; simplify_eq/=; eauto.
Qed.

Lemma service11_resolves_witness :
  let new chunks :=
    NewServiceWithLocalLogger (UUID := string) "" (fun u => u) inl sample_decode sample_Decode
      (fun _ => inl chunks) (fun address => inl address) "storage" ":10053" [] in
  new [[x04]; [x02; x06]] = Returns (Ok (inl (NewService [(0%Z, "write")], "node:10053",
    mkResolve true (mkEndpoint "node" 10053) 1 {[0%Z := "write"]}))) /\
  new [[x04]; [x02]] = Waits.
Proof.
  pose proof (fun chunks future => service11_resolves "" (fun u => u) inl sample_encode sample_decode
    sample_Decode (fun _ => inl chunks) (fun address => inl address) "storage" ":10053" [] chunks
    sample_reply (mkMessageInfo CHOKE 1) future ltac:(done) eq_refl eq_refl sample_reply_framed eq_refl) as H.
  intros new. split.
  - exact (proj1 (H [[x04]; [x02; x06]] [] eq_refl)).
  - exact (proj1 (H [[x04]; [x02]] [x06] eq_refl)).
Defined.
