(* ===== verification/V11Logger.v ===== *)
(** * cocaine/logger.go: the logger of v0.11

    A [Logger] has an [asyncWSocket] to the service of logs, a verbosity and the lock
    and the flag of [Reconnect]. The goroutines that log are a list of program
    counters; the socket is the one of Socket.v, with its own goroutines as the
    environment. The temporary service that is asked for the verbosity, the dialer,
    [fmt] and the codec are parameters. *)
From S2P Require Import Prelude GoTypes Buffers Socket V11Message.
From S2P Require V11Service Loggers.
From Stdlib Require Import Strings.Byte ZArith Lia.
From stdpp Require Import sorting.

(** ** Definitions *)

(** The [const] block. *)
Definition LOGIGNORE : Z := 0.
Definition LOGERROR : Z := 1.
Definition LOGWARN : Z := 2.
Definition LOGINFO : Z := 3.
Definition LOGDEBUG : Z := 4.

Section Logger11.
Context {UUID : Type}.
Context (uuid_String : UUID -> string) (encode : list value -> list byte).
(** [fmt.Sprint], [fmt.Sprintf] and the flag with the name of the application *)
Context (Sprint : list value -> string) (Sprintf : string -> list value -> string).
Context (flagApp : string).
#[local] Instance K : SocketKind (list byte) := asyncWSocket (list byte).

(** What [createIO] meets: the temporary service or the error of its creation, with
    its endpoint; the first result that the call of [verbosity] delivers, [None] when
    its channel is closed without one; and the dial of the endpoint. *)
Record environment : Type := mkEnv {
  temp : string + error;
  answer : option V11Service.serviceRes;
  dial : string -> option error
}.

(** [Extract(&verbosity)] *)
Context (extract : gobytes -> Z + error).

Definition createTempService (env : environment) : outcome (string * Z + error) :=
  match temp env with
  | inr err => Ok (inr err)
  | inl endpoint =>
    match answer env with
    | None => Panic
    | Some res =>
      match V11Service.Err res with
      | Some _ => Ok (inr (Errorf "%s" [VString "cocaine: unable to receive verbosity"]))
      | None =>
        match extract (V11Service.res res) with
        | inr err => Ok (inr err)
        | inl verbosity => Ok (inl (endpoint, verbosity))
        end
      end
    end
  end.

Definition createIO (env : environment)
    : outcome (asyncRWSocket (list byte) * Z + error) :=
  match createTempService env with
  | Panic => Panic
  | Ok (inr err) => Ok (inr err)
  | Ok (inl (endpoint, verbosity)) =>
    match dial env endpoint with
    | Some err => Ok (inr err)
    | None => Ok (inl (newAsyncRW, verbosity))
    end
  end.

(** [mutex] is locked from the tests of [Reconnect] to its end. *)
Record Logger : Type := mkLogger {
  socketWriter : asyncRWSocket (list byte);
  verbosity : Z;
  mutex : bool;
  is_reconnecting : bool
}.

Definition NewLoggerWithName (env : environment) : outcome (Logger + error) :=
  match createIO env with
  | Panic => Panic
  | Ok (inr err) => Ok (inr err)
  | Ok (inl (sock, verbosity)) => Ok (inl (mkLogger sock verbosity false false))
  end.

(** [Errf] and its like; the level and what [log] gets. *)
Definition call_level (c : Loggers.call) : Z :=
  match c with
  | Loggers.Errf _ _ | Loggers.Err _ => LOGERROR
  | Loggers.Warnf _ _ | Loggers.Warn _ => LOGWARN
  | Loggers.Infof _ _ | Loggers.Info _ => LOGINFO
  | Loggers.Debugf _ _ | Loggers.Debug _ => LOGDEBUG
  end.

Definition call_message (c : Loggers.call) : list value :=
  match c with
  | Loggers.Errf format args | Loggers.Warnf format args
  | Loggers.Infof format args | Loggers.Debugf format args => [VString (Sprintf format args)]
  | Loggers.Err message | Loggers.Warn message
  | Loggers.Info message | Loggers.Debug message => message
  end.

(** The message of [log]. *)
Definition log_message (level : Z) (message : list value) : list byte :=
  packMsg uuid_String encode (ServiceMethod (mkMessageInfo 0 0)
    [VInt Kint64 level; VString ("app/" +:+ flagApp); VString (Sprint message)]).

(** Who called [Reconnect]: [log] with its message, or a client. *)
Inductive caller : Type :=
| FromLog (msg : list byte)
| FromClient.

(** A goroutine: outside of the logger, at the top of the loop of [log], past the
    first test of [Reconnect] and before its lock, or in [createIO]. *)
Inductive pc : Type :=
| Idle
| Looping (msg : list byte)
| Locking (force : bool) (k : caller)
| Creating (k : caller).

Record state : Type := mkState {
  logger : Logger;
  goroutines : list pc
}.

Inductive progress : Type :=
| Going (s : state)
| Panicking.

Inductive event : Type :=
| Use (i : nat) (c : Loggers.call)          (* a goroutine calls Errf, Err, ... *)
| Select (i : nat)                          (* the select of log *)
| UserReconnect (i : nat) (force : bool)
| Lock (i : nat)                            (* mutex.Lock() and the tests behind it *)
| Create (i : nat) (env : environment)      (* createIO returns *)
| UserClose (i : nat)
| Socket (e : Socket.event (list byte)).    (* the goroutines of the socket *)

(** The first test of [Reconnect], made without the lock. *)
Definition Reconnect_enter (force : bool) (k : caller) (l : Logger) : pc :=
  if is_reconnecting l then Idle else Locking force k.

(** Where [Reconnect] returns to: with an error [log] gives up its message, without
    one it tries again. *)
Definition Reconnect_return (k : caller) : pc :=
  match k with
  | FromLog msg => Looping msg
  | FromClient => Idle
  end.

(** The events of a socket that are not operations of its clients. *)
Definition is_internal (e : Socket.event (list byte)) : bool :=
  match e with
  | Send _ | SendDropped _ | CloseCall => false
  | _ => true
  end.

Definition goto (i : nat) (p : pc) (l : Logger) (s : state) : progress :=
  Going (mkState l (<[i := p]> (goroutines s))).

Definition set_socket (sock : asyncRWSocket (list byte)) (l : Logger) : Logger :=
  mkLogger sock (verbosity l) (mutex l) (is_reconnecting l).
Definition set_lock (m r : bool) (l : Logger) : Logger :=
  mkLogger (socketWriter l) (verbosity l) m r.

(** [Close] of the old socket, then the new one and its verbosity. *)
Definition Reconnect_replace (sock : asyncRWSocket (list byte)) (v : Z) (l : Logger)
    : outcome Logger :=
  outcome_bind (Close (socketWriter l)) (fun _ => Ok (mkLogger sock v (mutex l) (is_reconnecting l))).

Definition logger_step (s : state) (e : event) : option progress :=
  let l := logger s in
  match e with
  | Use i c =>
    match goroutines s !! i with
    | Some Idle =>
      Some (goto i (if (call_level c <=? verbosity l)%Z
                    then Looping (log_message (call_level c) (call_message c)) else Idle) l s)
    | _ => None
    end
  | Select i =>
    match goroutines s !! i with
    | Some (Looping msg) =>
      if closed (socketWriter l) then Some (goto i (Reconnect_enter false (FromLog msg) l) l s)
      else match sock_step (socketWriter l) (Send msg) with
           | Some (Ok sock) => Some (goto i Idle (set_socket sock l) s)
           | Some Panic => Some Panicking
           | None => None
           end
    | _ => None
    end
  | UserReconnect i force =>
    match goroutines s !! i with
    | Some Idle => Some (goto i (Reconnect_enter force FromClient l) l s)
    | _ => None
    end
  | Lock i =>
    match goroutines s !! i with
    | Some (Locking force k) =>
      if mutex l then None
      else if is_reconnecting l then Some (goto i Idle l s)
      else if force || closed (socketWriter l) then Some (goto i (Creating k) (set_lock true true l) s)
      else Some (goto i Idle l s)
    | _ => None
    end
  | Create i env =>
    match goroutines s !! i with
    | Some (Creating k) =>
      match createIO env with
      | Panic => Some Panicking
      | Ok (inr _) => Some (goto i Idle (set_lock false false l) s)
      | Ok (inl (sock, v)) =>
        match Reconnect_replace sock v l with
        | Panic => Some Panicking
        | Ok l => Some (goto i (Reconnect_return k) (set_lock false false l) s)
        end
      end
    | _ => None
    end
  | UserClose i =>
    match goroutines s !! i with
    | Some Idle =>
      match Close (socketWriter l) with
      | Panic => Some Panicking
      | Ok sock => Some (goto i Idle (set_socket sock l) s)
      end
    | _ => None
    end
  | Socket e =>
    if is_internal e then
      match sock_step (socketWriter l) e with
      | Some (Ok sock) => Some (Going (mkState (set_socket sock l) (goroutines s)))
      | Some Panic => Some Panicking
      | None => None
      end
    else None
  end.

Definition step (p : progress) (e : event) : option progress :=
  match p with
  | Going s => logger_step s e
  | Panicking => None
  end.
End Logger11.

(** ** Specification: what becomes of the messages

    The messages the goroutines were let in with, those sent, those sent to the
    socket in use, those given up, and whether a client closed that socket. *)
Record history : Type := mkHistory {
  admitted : list (list byte);
  sent : list (list byte);
  current : list (list byte);
  dropped : list (list byte);
  user_closed : bool
}.

Definition no_history : history := mkHistory [] [] [] [] false.

Definition admit_msg (msg : list byte) (h : history) : history :=
  mkHistory (admitted h ++ [msg]) (sent h) (current h) (dropped h) (user_closed h).
Definition send_msg (msg : list byte) (h : history) : history :=
  mkHistory (admitted h) (sent h ++ [msg]) (current h ++ [msg]) (dropped h) (user_closed h).
Definition caller_msg (k : caller) : list (list byte) :=
  match k with FromLog msg => [msg] | FromClient => [] end.
Definition drop_msg (k : caller) (h : history) : history :=
  mkHistory (admitted h) (sent h) (current h) (dropped h ++ caller_msg k) (user_closed h).

(** The messages a goroutine is still trying to send. *)
Definition pc_msg (p : pc) : list (list byte) :=
  match p with
  | Idle => []
  | Looping msg => [msg]
  | Locking _ k | Creating k => caller_msg k
  end.
Definition in_progress (s : state) : list (list byte) := concat (map pc_msg (goroutines s)).

Section Observe.
Context {UUID : Type}.
Context (uuid_String : UUID -> string) (encode : list value -> list byte).
Context (Sprint : list value -> string) (Sprintf : string -> list value -> string).
Context (flagApp : string) (extract : gobytes -> Z + error).

Definition record (s : state) (e : event) (h : history) : history :=
  let l := logger s in
  match e, match e with
           | Use i _ | Select i | UserReconnect i _ | Lock i | Create i _ | UserClose i =>
             goroutines s !! i
           | Socket _ => None
           end with
  | Use _ c, Some Idle =>
    if (call_level c <=? verbosity l)%Z then
      admit_msg (log_message uuid_String encode Sprint flagApp (call_level c)
                   (call_message Sprintf c)) h
    else h
  | Select _, Some (Looping msg) =>
    if closed (socketWriter l) then
      if is_reconnecting l then drop_msg (FromLog msg) h else h
    else send_msg msg h
  | Lock _, Some (Locking force k) =>
    if is_reconnecting l || negb (force || closed (socketWriter l)) then drop_msg k h else h
  | Create _ env, Some (Creating k) =>
    match createIO extract env with
    | Ok (inl _) => mkHistory (admitted h) (sent h) [] (dropped h) false
    | Ok (inr _) => drop_msg k h
    | Panic => h
    end
  | UserClose _, Some Idle => mkHistory (admitted h) (sent h) (current h) (dropped h) true
  | _, _ => h
  end.

(** A step with its record. *)
Definition observe (p : progress * history) (e : event) : option (progress * history) :=
  match p with
  | (Going s, h) =>
    (fun p' => (p', record s e h)) <$>
      step uuid_String encode Sprint Sprintf flagApp extract (Going s) e
  | (Panicking, _) => None
  end.
End Observe.

(** ** Lemmas *)

Lemma msgs_insert (pcs : list pc) i p :
  pcs !! i = Some p ->
  exists rest, concat (map pc_msg pcs) ≡ₚ pc_msg p ++ rest /\
    forall q, concat (map pc_msg (<[i := q]> pcs)) ≡ₚ pc_msg q ++ rest.
Proof.
  intros Hi. exists (concat (map pc_msg (take i pcs)) ++ concat (map pc_msg (drop (S i) pcs))).
  assert (Hmid : forall q, concat (map pc_msg (take i pcs ++ q :: drop (S i) pcs)) ≡ₚ
    pc_msg q ++ concat (map pc_msg (take i pcs)) ++ concat (map pc_msg (drop (S i) pcs))).
  { intros q. rewrite map_app, concat_app. cbn. apply Permutation_app_swap_app. }
  split; [by rewrite <- Hmid, (take_drop_middle _ _ _ Hi)|].
  intros q. rewrite insert_take_drop; [apply Hmid|by eapply lookup_lt_Some].
Qed.

(** Permutations of concatenations, by counting. *)
Ltac count_perm :=
  apply (Permutation_count_occ (decide_rel (@eq (list byte)))); intros x;
  repeat match goal with
    | H : Permutation _ _ |- _ =>
      apply (Permutation_count_occ (decide_rel (@eq (list byte)))) with (x := x) in H
    end;
  repeat rewrite count_occ_app in *; cbn [count_occ] in *;
  repeat match goal with
    | |- context [if ?d then _ else _] => destruct d
    | H : context [if ?d then _ else _] |- _ => destruct d
    end; lia.

Section Lemmas.
#[local] Instance K' : SocketKind (list byte) := asyncWSocket (list byte).
Implicit Types (s : state) (h : history) (pcs : list pc) (l : Logger).

(** The socket in use has carried the messages sent to it since it was made. *)
Definition socket_inv (h : history) (sock : asyncRWSocket (list byte)) : Prop :=
  exists es, run Socket.step (Ok newAsyncRW) es = Some (Ok sock) /\
    accepted es = current h /\ existsb is_CloseCall es = user_closed h.

(** At most one goroutine is in [createIO]. *)
Definition lock_inv (l : Logger) (pcs : list pc) : Prop :=
  exists holder : option nat, mutex l = bool_decide (is_Some holder) /\
    is_reconnecting l = mutex l /\
    forall i, (exists k, pcs !! i = Some (Creating k)) <-> holder = Some i.

Record logger_inv (s : state) (h : history) : Prop := {
  inv_socket : socket_inv h (socketWriter (logger s));
  inv_lock : lock_inv (logger s) (goroutines s);
  inv_msgs : admitted h ≡ₚ sent h ++ dropped h ++ in_progress s
}.

Lemma socket_new h : current h = [] -> user_closed h = false -> socket_inv h newAsyncRW.
Proof. intros Hc Hu. exists []. by rewrite Hc, Hu. Qed.

Lemma socket_event h h' sock e sock' :
  socket_inv h sock -> sock_step sock e = Some (Ok sock') ->
  current h' = current h ++ accepted [e] -> user_closed h' = user_closed h || is_CloseCall e ->
  socket_inv h' sock'.
Proof.
  intros (es & Hrun & Ha & Hc) He Hcur Hu. exists (es ++ [e]). split_and!.
  - apply run_snoc. eauto.
  - rewrite Hcur, <- Ha. apply omap_app.
  - rewrite Hu, existsb_app, Hc. cbn. by rewrite orb_false_r.
Qed.

(** [Close] panics exactly on a socket that a client has closed. *)
Lemma socket_Close h sock :
  socket_inv h sock -> Close sock = Panic <-> user_closed h = true.
Proof.
  intros (es & Hrun & _ & <-). assert (Hi : shutdown_inv false newAsyncRW) by done.
  pose proof (shutdown_run es false _ sock Hi Hrun) as (_ & Hu & Hd & _). cbn in Hu, Hd.
  unfold Close, stop_upstream. cbn. destruct (close_fields sock) as (_&_&_&_&_&->&_).
  rewrite Hu. by destruct (existsb _ es).
Qed.

Definition creating (p : pc) : bool := match p with Creating _ => true | _ => false end.

Lemma creating_insert pcs i j p q :
  pcs !! i = Some p ->
  (exists k, <[i := q]> pcs !! j = Some (Creating k)) <->
  if decide (i = j) then creating q = true else exists k, pcs !! j = Some (Creating k).
Proof.
  intros Hi. case_decide as Hj.
  - subst j. rewrite list_lookup_insert_eq by (by eapply lookup_lt_Some).
    destruct q; naive_solver.
  - by rewrite list_lookup_insert_ne.
Qed.

Lemma lock_keep l l' pcs i p q :
  lock_inv l pcs -> pcs !! i = Some p -> creating p = false -> creating q = false ->
  mutex l' = mutex l -> is_reconnecting l' = is_reconnecting l ->
  lock_inv l' (<[i := q]> pcs).
Proof.
  intros (holder & Hm & Hr & Hh) Hi Hp Hq Hm' Hr'. exists holder.
  split_and!; [congruence..|]. intros j. rewrite (creating_insert _ _ _ p) by done.
  case_decide as Hj; [|apply Hh]. subst j. rewrite <- Hh, Hi, Hq. split; [done|].
  intros [k [= ->]]. done.
Qed.

Lemma lock_acquire l pcs i p k :
  lock_inv l pcs -> pcs !! i = Some p -> mutex l = false ->
  lock_inv (set_lock true true l) (<[i := Creating k]> pcs).
Proof.
  intros (holder & Hm & Hr & Hh) Hi Hfree. exists (Some i). split_and!; [done..|].
  intros j. rewrite (creating_insert _ _ _ p) by done. case_decide as Hj; [by subst j|].
  rewrite Hh. rewrite Hfree in Hm. symmetry in Hm. apply bool_decide_eq_false in Hm.
  destruct holder; [by destruct Hm|]. split; congruence.
Qed.

Lemma lock_release l l' pcs i k q :
  lock_inv l pcs -> pcs !! i = Some (Creating k) -> creating q = false ->
  lock_inv (set_lock false false l') (<[i := q]> pcs).
Proof.
  intros (holder & Hm & Hr & Hh) Hi Hq. exists None. split_and!; [done..|].
  intros j. rewrite (creating_insert _ _ _ (Creating k)) by done.
  pose proof (proj1 (Hh i) (ex_intro _ k Hi)) as Hhold. case_decide as Hj; [split; congruence|].
  rewrite Hh, Hhold. split; congruence.
Qed.

(** A goroutine that moves from [p] to [q] while the history goes from [h] to [h']. *)
Lemma msgs_goto h h' l l' pcs i p q :
  admitted h ≡ₚ sent h ++ dropped h ++ in_progress (mkState l pcs) -> pcs !! i = Some p ->
  (forall rest, admitted h ≡ₚ sent h ++ dropped h ++ pc_msg p ++ rest ->
     admitted h' ≡ₚ sent h' ++ dropped h' ++ pc_msg q ++ rest) ->
  admitted h' ≡ₚ sent h' ++ dropped h' ++ in_progress (mkState l' (<[i := q]> pcs)).
Proof.
  unfold in_progress. cbn. intros Hm Hi Hstep.
  destruct (msgs_insert pcs i p Hi) as (rest & Hp & Hq). rewrite Hq. apply Hstep. by rewrite <- Hp.
Qed.

Lemma goto_inv h h' l l' pcs i p q :
  logger_inv (mkState l pcs) h -> pcs !! i = Some p ->
  socket_inv h' (socketWriter l') -> lock_inv l' (<[i := q]> pcs) ->
  (forall rest, admitted h ≡ₚ sent h ++ dropped h ++ pc_msg p ++ rest ->
     admitted h' ≡ₚ sent h' ++ dropped h' ++ pc_msg q ++ rest) ->
  logger_inv (mkState l' (<[i := q]> pcs)) h'.
Proof. intros [Hs Hl Hm] Hi Hs' Hl' Hstep. split; [done..|]. by eapply msgs_goto. Qed.

(** The moves that leave the lock alone. *)
Lemma goto_keep h h' l l' pcs i p q :
  logger_inv (mkState l pcs) h -> pcs !! i = Some p -> creating p = false -> creating q = false ->
  mutex l' = mutex l -> is_reconnecting l' = is_reconnecting l ->
  socket_inv h' (socketWriter l') ->
  (forall rest, admitted h ≡ₚ sent h ++ dropped h ++ pc_msg p ++ rest ->
     admitted h' ≡ₚ sent h' ++ dropped h' ++ pc_msg q ++ rest) ->
  logger_inv (mkState l' (<[i := q]> pcs)) h'.
Proof.
  intros Hinv Hi Hp Hq Hmu Hre Hs' Hstep. eapply goto_inv; [done..| |done].
  eapply lock_keep; [apply Hinv|done..].
Qed.
End Lemmas.

Section Steps.
Context {UUID : Type}.
Context (uuid_String : UUID -> string) (encode : list value -> list byte).
Context (Sprint : list value -> string) (Sprintf : string -> list value -> string).
Context (flagApp : string) (extract : gobytes -> Z + error).
#[local] Instance K'' : SocketKind (list byte) := asyncWSocket (list byte).
#[local] Abbreviation record := (record uuid_String encode Sprint Sprintf flagApp extract).
#[local] Abbreviation observe := (observe uuid_String encode Sprint Sprintf flagApp extract).
#[local] Abbreviation logger_step :=
  (logger_step uuid_String encode Sprint Sprintf flagApp extract).
Implicit Types (s : state) (h : history).

Ltac perm := intros rest Hrest; cbn in *; count_perm.

Lemma use_inv s h i c s' :
  logger_inv s h -> logger_step s (Use i c) = Some (Going s') -> logger_inv s' (record s (Use i c) h).
Proof.
  destruct s as [l pcs]. cbn. intros Hinv He.
  destruct (pcs !! i) as [[]|] eqn:Hi; try done. injection He as <-.
  destruct (_ <=? _)%Z; (eapply goto_keep; [done..|apply Hinv|perm]).
Qed.

Lemma select_inv s h i s' :
  logger_inv s h -> logger_step s (Select i) = Some (Going s') -> logger_inv s' (record s (Select i) h).
Proof.
  destruct s as [l pcs]. cbn -[sock_step Close createIO]. intros Hinv He.
  destruct (pcs !! i) as [[|msg| |]|] eqn:Hi; try done. destruct (closed _).
  - injection He as <-. unfold Reconnect_enter.
    destruct (is_reconnecting l); (eapply goto_keep; [done..|apply Hinv|perm]).
  - destruct (sock_step _ _) as [[sock|]|] eqn:Hsend; [|done..]. injection He as <-.
    eapply goto_keep; [done..| |perm].
    eapply socket_event with (e := Send msg); [apply Hinv|exact Hsend|done|].
    cbn. by rewrite orb_false_r.
Qed.

Lemma lock_step_inv s h i s' :
  logger_inv s h -> logger_step s (Lock i) = Some (Going s') -> logger_inv s' (record s (Lock i) h).
Proof.
  destruct s as [l pcs]. cbn -[sock_step Close createIO]. intros Hinv He.
  destruct (pcs !! i) as [[| |force k|]|] eqn:Hi; try done.
  destruct (mutex l) eqn:Hmu; [done|].
  assert (Hre : is_reconnecting l = false).
  { destruct (inv_lock _ _ Hinv) as (? & _ & Hre & _). cbn in Hre. congruence. }
  rewrite Hre in *. cbn. destruct (force || _); injection He as <-; cbn.
  - eapply goto_inv; [done..|apply Hinv| |perm]. eapply lock_acquire; [apply Hinv|done..].
  - destruct k; (eapply goto_keep; [done..|apply Hinv|perm]).
Qed.

Lemma create_inv s h i env s' :
  logger_inv s h -> logger_step s (Create i env) = Some (Going s') ->
  logger_inv s' (record s (Create i env) h).
Proof.
  destruct s as [l pcs]. cbn -[sock_step Close createIO]. intros Hinv He.
  destruct (pcs !! i) as [[| | |k]|] eqn:Hi; try done.
  destruct (createIO extract env) as [[[sock v]|err]|] eqn:Hio; [| |done].
  - unfold Reconnect_replace in He.
    destruct (Close (socketWriter l)) as [old|]; cbn in He; [|done]. injection He as <-.
    assert (sock = newAsyncRW) as ->.
    { unfold createIO in Hio. destruct (createTempService _ _) as [[[? ?]|]|]; try done.
      destruct (dial _ _); naive_solver. }
    eapply goto_inv; [done..| | |].
    + by apply socket_new.
    + eapply lock_release; [apply Hinv|done|by destruct k].
    + destruct k; perm.
  - injection He as <-. eapply goto_inv; [done..|apply Hinv| |destruct k; perm].
    eapply lock_release; [apply Hinv|done..].
Qed.

Lemma other_inv s h e s' :
  logger_inv s h -> logger_step s e = Some (Going s') ->
  match e with UserReconnect _ _ | UserClose _ | Socket _ => True | _ => False end ->
  logger_inv s' (record s e h).
Proof.
  destruct s as [l pcs]. intros Hinv He. destruct e as [| |i force| | |i|e]; try done; intros _; cbn -[sock_step Close] in He |- *.
  - destruct (pcs !! i) as [[]|] eqn:Hi; try done. injection He as <-. unfold Reconnect_enter.
    destruct (is_reconnecting l); (eapply goto_keep; [done..|apply Hinv|perm]).
  - destruct (pcs !! i) as [[]|] eqn:Hi; try done.
    destruct (Close (socketWriter l)) as [sock|] eqn:Hclose; [|done]. injection He as <-.
    eapply goto_keep; [done..| |perm].
    eapply socket_event with (e := CloseCall); [apply Hinv| | |].
    + exact (f_equal Some Hclose).
    + cbn. by rewrite app_nil_r.
    + cbn. by rewrite orb_true_r.
  - destruct (is_internal e) eqn:Hin; [|done].
    destruct (sock_step _ e) as [[sock|]|] eqn:Hsock; [|done..]. injection He as <-.
    split; [|apply Hinv..]. eapply socket_event; [apply Hinv|exact Hsock| |];
      destruct e; try done; cbn; by rewrite ?app_nil_r, ?orb_false_r.
Qed.

Lemma step_keeps s h e s' :
  logger_inv s h -> logger_step s e = Some (Going s') -> logger_inv s' (record s e h).
Proof.
  intros Hinv He. destruct e.
  - by apply use_inv.
  - by apply select_inv.
  - by apply other_inv.
  - by apply lock_step_inv.
  - by apply create_inv.
  - by apply other_inv.
  - by apply other_inv.
Qed.

Lemma observe_run es s h s' h' :
  logger_inv s h -> run observe (Going s, h) es = Some (Going s', h') -> logger_inv s' h'.
Proof.
  revert s h. induction es as [|e es IH]; intros s h Hinv Hrun; cbn in Hrun; [by simplify_eq|].
  destruct (logger_step s e) as [[s1|]|] eqn:He; cbn in Hrun; [|by destruct es|done].
  eapply IH; [|done]. by eapply step_keeps.
Qed.

Lemma new_logger env l : NewLoggerWithName extract env = Ok (inl l) ->
  socketWriter l = newAsyncRW /\ mutex l = false /\ is_reconnecting l = false.
Proof.
  unfold NewLoggerWithName, createIO. destruct (createTempService _ _) as [[[? ?]|]|]; try done.
  destruct (dial _ _); [done|]. by intros [= <-].
Qed.

Lemma start_inv env l n : NewLoggerWithName extract env = Ok (inl l) ->
  logger_inv (mkState l (replicate n Idle)) no_history.
Proof.
  intros (Hs & Hm & Hr)%new_logger. split; cbn.
  - rewrite Hs. by apply socket_new.
  - exists None. rewrite Hm, Hr. split_and!; [done..|]. intros i. split; [|done].
    intros [k [Hk _]%lookup_replicate]. done.
  - unfold in_progress. cbn. by induction n.
Qed.

(** The panics of a step. *)
Definition panics (s : state) (h : history) (e : event) : Prop :=
  match e with
  | UserClose i => goroutines s !! i = Some Idle /\ user_closed h = true
  | Create i env =>
    (exists k, goroutines s !! i = Some (Creating k)) /\
    (createIO extract env = Panic \/
     (exists new, createIO extract env = Ok (inl new)) /\ user_closed h = true)
  | _ => False
  end.

Lemma sock_step_fine sock (e : Socket.event (list byte)) :
  e <> CloseCall -> sock_step sock e <> Some Panic.
Proof.
  assert (Hok : forall c (o : option (asyncRWSocket (list byte))), ok_if c o <> Some Panic)
    by (by intros [] []).
  destruct e; intros Hne; cbn -[ok_if]; try apply Hok; try done;
    repeat case_match; try apply Hok; try done.
Qed.

Lemma logger_step_panics s h e :
  logger_inv s h -> logger_step s e = Some Panicking <-> panics s h e.
Proof.
  destruct s as [l pcs]. intros Hinv. pose proof (socket_Close _ _ (inv_socket _ _ Hinv)) as Hclose.
  destruct e as [i c|i|i force|i|i env|i|e]; cbn -[sock_step Close createIO] in *.
  - split; [|done]. by destruct (pcs !! i) as [[]|].
  - split; [|done]. destruct (pcs !! i) as [[]|]; try done. destruct (closed _); [done|].
    destruct (sock_step _ _) as [[]|] eqn:Hs; try done. by apply sock_step_fine in Hs.
  - split; [|done]. by destruct (pcs !! i) as [[]|].
  - split; [|done]. destruct (pcs !! i) as [[]|]; try done. by repeat case_match.
  - unfold Reconnect_replace. destruct (pcs !! i) as [[| | |k]|]; try (split; [done|]; by intros [[? ?] _]).
    rewrite <- Hclose. destruct (createIO extract env) as [[[sock v]|err]|].
    + destruct (Close _) as [old|]; cbn; split; try done; [|eauto 10].
      intros [_ [?|[_ ?]]]; done.
    + split; [done|]. intros [_ [?|[[? ?] _]]]; done.
    + split; [eauto|done].
  - rewrite <- Hclose. destruct (pcs !! i) as [[]|]; try (split; [done|]; by intros [? _]).
    destruct (Close _); split; try done. by intros [_ ?].
  - split; [|done]. destruct (is_internal e) eqn:Hin; [|done].
    destruct (sock_step _ _) as [[]|] eqn:Hs; try done. apply sock_step_fine in Hs; [done|]. by intros ->.
Qed.
End Steps.

(** ** Properties *)


(** ** Witness

    Two goroutines find the connection lost; the second is past the first test when
    the first has reconnected, and gives its message up although the new connection
    is there. Then a client closes the logger. *)
Definition sample_env : environment :=
  mkEnv (inl "node:1") (Some (V11Service.mkRes (Some [x04]) None)) (fun _ => None).
Definition sample_encode (l : list value) : list byte :=
  match l with
  | [_; _; VList [_; _; VString text]] => String.list_byte_of_string text
  | _ => []
  end.
Definition sample_Sprint (args : list value) : string :=
  match args with [VString text] => text | _ => "" end.
Definition sample_run : list event :=
  [Use 0 (Loggers.Err [VString "a"]); Select 0; Socket WriteOk; Socket ReadErr;
   Use 0 (Loggers.Err [VString "b"]); Use 1 (Loggers.Warnf "c" []);
   Select 0; Select 1; Lock 0; Create 0 sample_env; Lock 1; Select 0; UserClose 1].

