(* ===== verification/V11HTTP.v ===== *)
(** * cocaine/httpreq.go and cocaine/response_writer.go: HTTP in v0.11

    The adapter of [net/http] handlers of the old framework, as a handler of
    V11Worker.v, and its comparison with the one of cocaine12 (HTTP.v): both are
    related to one reference run of the HTTP handler. The messages the adapter
    logs are left out. *)
From S2P Require Import Prelude GoTypes V11Message V11Worker HTTP.
From S2P Require ProtoV1 Handler.
From Stdlib Require Import ZArith Lia Strings.Byte.

Open Scope stdpp_scope.

Section HTTP11.
(** The codec: the fields of a packed request, [None] when one of the conversions
    of [UnpackProxyRequest] panics. *)
Context (decode_request : gobytes -> option (string * string * Headers * gobytes)).
Context (request_error : string -> string -> option error).
(** [gzip.NewReader] reads the gzip header of the body at once. *)
Context (gzip_error : list byte -> option error).
Context (range : header -> list (string * list string)).

(** [decompressBody]: the request, or the error. *)
Definition decompressBody (req : Request) : Request + error :=
  if bool_decide (0 < ContentLength req)%Z && bool_decide (header_Get "Content-Encoding" (Header req) = "gzip")
  then
    match gzip_error (Body req) with
    | Some err => inr (Errorf "Could not decompress gzip body due to error %v" [])
    | None =>
      inl (mkRequest (Method req) (URI req)
             (header_Del "Content-Length" (header_Del "Content-Encoding" (Header req)))
             (Host req) (RemoteAddr req) (-1) (Body req) true)
    end
  else inl req.

Definition UnpackProxyRequest (raw : gobytes) : outcome (Request + error) :=
  match decode_request raw with
  | None => Panic
  | Some (method, uri, headers, body) =>
    match request_error method uri with
    | Some err => Ok (inr err)
    | None =>
      let method := if decide (method = "") then "GET" else method in
      let h := HeadersCocaineToHTTP headers in
      Ok (decompressBody (mkRequest method uri h (header_Get "Host" h) (header_Get "X-Real-IP" h)
                            (Z.of_nat (length (bytes_of body))) (bytes_of body) false))
    end
  end.

(** [HttpHeaderToCocaineHeader] and [CocaineHeaderToHttpHeader] are the functions
    of HTTP.v; the head is a list for the codec. *)
Definition WriteHead (code : Z) (headers : Headers) : value :=
  VList [VInt Kint code; VList ((fun '(k, v) => VList [VString k; VString v]) <$> headers)].

Definition WriteHeader (code : Z) (w : ResponseWriter) (k : ResponseWriter -> handler) : handler :=
  if wroteHeader w then k w
  else
    let (h, v) := declare_length (handlerHeader w) in
    let length := if decide (v = -1)%Z then contentLength w else v in
    HWrite (WriteHead code (HeadersHTTPtoCocaine (range h))) (k (mkWriter h (written w) length code true)).

Definition finishRequest (w : ResponseWriter) (k : ResponseWriter -> handler) : handler :=
  if wroteHeader w then k w else WriteHeader StatusOK w k.

(** The part of [write] after the header; the body is a byte slice or a string. *)
Definition write_body (data : gobytes) (is_string : bool) (w : ResponseWriter)
    (k : ResponseWriter -> nat * option error -> handler) : handler :=
  match bytes_of data with
  | [] => k w (0, None)
  | _ =>
    match bodyAllowed w with
    | Panic => HPanic ""
    | Ok false => k w (0, Some ErrBodyNotAllowed)
    | Ok true =>
      let n := length (bytes_of data) in
      let w := mkWriter (handlerHeader w) (written w + Z.of_nat n)%Z (contentLength w) (status w)
                 (wroteHeader w) in
      if bool_decide (contentLength w <> -1)%Z && bool_decide (contentLength w < written w)%Z then
        k w (0, Some ErrContentLength)
      else HWrite (if is_string then VString (string_of_bytes data) else VBytes data) (k w (n, None))
    end
  end.

Definition write (data : gobytes) (is_string : bool) (w : ResponseWriter)
    (k : ResponseWriter -> nat * option error -> handler) : handler :=
  if wroteHeader w then write_body data is_string w k
  else WriteHeader StatusOK w (fun w => write_body data is_string w k).

(** [handler.ServeHTTP], then [k]. *)
Fixpoint serve (p : http_prog) (w : ResponseWriter) (k : ResponseWriter -> handler) : handler :=
  match p with
  | PReturn => k w
  | PPanic info => HPanic info
  | PHeader edit p =>
    serve p (mkWriter (edit (handlerHeader w)) (written w) (contentLength w) (status w)
               (wroteHeader w)) k
  | PWriteHeader code p => WriteHeader code w (fun w => serve p w k)
  | PWrite data p => write data false w (fun w res => serve (p res) w k)
  | PWriteString data p => write (bytes_of_string data) true w (fun w res => serve (p res) w k)
  end.

Definition WrapHandler (h : Request -> http_prog) : handler :=
  HRead (fun msg =>
    match UnpackProxyRequest msg with
    | Panic => HPanic ""
    | Ok (inr _) => HWrite (WriteHead StatusBadRequest []) (HClose HReturn)
    | Ok (inl httpRequest) =>
      serve (h httpRequest) newResponseWriter (fun w => finishRequest w (fun _ => HClose HReturn))
    end).

(** [WrapHandleFuncs] *)
Definition WrapHandleFuncs (hfs : gmap string (Request -> http_prog)) : gmap string handler :=
  WrapHandler <$> hfs.
End HTTP11.

(** ** A reference run of an HTTP handler

    What a handler makes its [ResponseWriter] put out, without the worker. *)
Inductive output : Type :=
| OHead (code : Z) (h : header)
| OBody (data : gobytes) (is_string : bool).

Definition put_head (code : Z) (w : ResponseWriter) : list output * ResponseWriter :=
  if wroteHeader w then ([], w)
  else
    let (h, v) := declare_length (handlerHeader w) in
    ([OHead code h],
     mkWriter h (written w) (if decide (v = -1)%Z then contentLength w else v) code true).

Definition put_body (data : gobytes) (is_string : bool) (w : ResponseWriter)
    : list output * ResponseWriter * (nat * option error) :=
  match bytes_of data with
  | [] => ([], w, (0, None))
  | _ =>
    if bool_decide (status w = StatusNotModified) then ([], w, (0, Some ErrBodyNotAllowed))
    else
      let n := length (bytes_of data) in
      let w := mkWriter (handlerHeader w) (written w + Z.of_nat n)%Z (contentLength w) (status w)
                 (wroteHeader w) in
      if bool_decide (contentLength w <> -1 /\ contentLength w < written w)%Z
      then ([], w, (0, Some ErrContentLength))
      else ([OBody data is_string], w, (n, None))
  end.

Fixpoint http_run (p : http_prog) (w : ResponseWriter)
    : list output * ResponseWriter * option string :=
  match p with
  | PReturn => ([], w, None)
  | PPanic info => ([], w, Some info)
  | PHeader edit p =>
    http_run p (mkWriter (edit (handlerHeader w)) (written w) (contentLength w) (status w)
                  (wroteHeader w))
  | PWriteHeader code p =>
    let (o, w) := put_head code w in
    let '(o', w, i) := http_run p w in (o ++ o', w, i)
  | PWrite data p =>
    let (o, w) := put_head StatusOK w in
    let '(o', w, res) := put_body data false w in
    let '(o'', w, i) := http_run (p res) w in (o ++ o' ++ o'', w, i)
  | PWriteString data p =>
    let (o, w) := put_head StatusOK w in
    let '(o', w, res) := put_body (bytes_of_string data) true w in
    let '(o'', w, i) := http_run (p res) w in (o ++ o' ++ o'', w, i)
  end.

(** The output of a whole request, and the panic of its handler. *)
Definition http_reply (p : http_prog) : list output * option string :=
  match http_run p newResponseWriter with
  | (o, w, None) => (o ++ (put_head StatusOK w).1, None)
  | (o, _, Some info) => (o, Some info)
  end.

(** ** The frames of an invocation of v0.11

    What its goroutine sends, [reads] being what it receives. *)
Fixpoint go_frames (p : go_prog) (reads : nat -> gobytes) : list (list byte) :=
  match p with
  | Done => []
  | Receive k => go_frames (k (reads 0)) (fun n => reads (S n))
  | SendFrame frame p => frame :: go_frames p reads
  | SendQuit p => go_frames p reads
  end.

(** ** Lemmas *)

Section Lemmas11.
Context {UUID : Type} (uuid_String : UUID -> string) (encode : list value -> list byte).
Context (encode_value : value -> gobytes).
Context (range : header -> list (string * list string)).
Context (session : Z) (trap : string -> go_prog).
#[local] Abbreviation go_handler := (go_handler uuid_String encode encode_value session).

(** What v0.11 writes for an output. *)
Definition value_of (o : output) : value :=
  match o with
  | OHead code h => WriteHead code (HeadersHTTPtoCocaine (range h))
  | OBody data is_string => if is_string then VString (string_of_bytes data) else VBytes data
  end.

Definition frame_of (o : output) : list byte :=
  packMsg uuid_String encode (chunk (mkMessageInfo CHUNK session) (encode_value (value_of o))).

Lemma frames_WriteHeader code w k reads :
  go_frames (go_handler (WriteHeader range code w k) trap) reads =
    map frame_of (put_head code w).1 ++ go_frames (go_handler (k (put_head code w).2) trap) reads.
Proof.
  unfold WriteHeader, put_head. destruct (wroteHeader w); [done|].
  by destruct (declare_length (handlerHeader w)) as [h v].
Qed.

Lemma put_head_wrote code w : wroteHeader (put_head code w).2 = true.
Proof.
  unfold put_head. destruct (wroteHeader w) eqn:Hw; [done|]. by destruct (declare_length _).
Qed.

Lemma frames_write_body data is_string w k reads :
  wroteHeader w = true ->
  go_frames (go_handler (write_body data is_string w k) trap) reads =
    map frame_of (put_body data is_string w).1.1 ++
    go_frames (go_handler (k (put_body data is_string w).1.2 (put_body data is_string w).2) trap) reads.
Proof.
  intros Hw. unfold write_body, put_body, bodyAllowed. rewrite Hw.
  destruct (bytes_of data) as [|b l] eqn:Hd; [done|]. rewrite <- Hd.
  repeat case_bool_decide; cbn [andb]; try done; exfalso; tauto.
Qed.

Lemma frames_write data is_string w k reads :
  go_frames (go_handler (write range data is_string w k) trap) reads =
    let (o, w) := put_head StatusOK w in
    let '(o', w, res) := put_body data is_string w in
    map frame_of (o ++ o') ++ go_frames (go_handler (k w res) trap) reads.
Proof.
  unfold write. destruct (wroteHeader w) eqn:Hw.
  - unfold put_head. rewrite Hw, frames_write_body by done.
    by destruct (put_body data is_string w) as [[o' w'] res].
  - rewrite frames_WriteHeader. pose proof (put_head_wrote StatusOK w) as Hw'.
    destruct (put_head StatusOK w) as [o w']. cbn [fst snd] in *. rewrite frames_write_body by done.
    destruct (put_body data is_string w') as [[o' w''] res]. by rewrite map_app, <- (assoc_L (++)).
Qed.

Lemma frames_serve p w k reads :
  go_frames (go_handler (serve range p w k) trap) reads =
    let '(o, w', i) := http_run p w in
    map frame_of o ++
      match i with
      | None => go_frames (go_handler (k w') trap) reads
      | Some info => go_frames (trap info) reads
      end.
Proof.
  revert w. induction p as [|info|edit p IH|code p IH|data p IH|data p IH]; intros w;
    cbn [serve http_run]; try done.
  - rewrite frames_WriteHeader. destruct (put_head code w) as [o w']. cbn [fst snd]. rewrite IH.
    destruct (http_run p w') as [[o' w''] i]. by rewrite map_app, <- (assoc_L (++)).
  - rewrite frames_write. destruct (put_head StatusOK w) as [o w1].
    destruct (put_body data false w1) as [[o' w2] res]. rewrite IH.
    destruct (http_run (p res) w2) as [[o'' w3] i]. by rewrite !map_app, <- !(assoc_L (++)).
  - rewrite frames_write. destruct (put_head StatusOK w) as [o w1].
    destruct (put_body (bytes_of_string data) true w1) as [[o' w2] res]. rewrite IH.
    destruct (http_run (p res) w2) as [[o'' w3] i]. by rewrite !map_app, <- !(assoc_L (++)).
Qed.

(** A request that was unpacked: the output, then the choke of the adapter, or
    what the trap makes of the panic. *)
Lemma frames_adapter p reads :
  go_frames (go_handler (serve range p newResponseWriter
      (fun w => finishRequest range w (fun _ => HClose HReturn))) trap) reads =
    map frame_of (http_reply p).1 ++
      match (http_reply p).2 with
      | None => [packMsg uuid_String encode (choke (mkMessageInfo CHOKE session))]
      | Some info => go_frames (trap info) reads
      end.
Proof.
  rewrite frames_serve. unfold http_reply. destruct (http_run p newResponseWriter) as [[o w] [info|]]; [done|].
  unfold finishRequest. destruct (wroteHeader w) eqn:Hw.
  - unfold put_head. rewrite Hw. cbn. by rewrite app_nil_r.
  - rewrite frames_WriteHeader. cbn [fst snd]. by rewrite map_app, <- (assoc_L (++)).
Qed.
End Lemmas11.

(** ** Lemmas: the adapter of cocaine12 *)

Section Lemmas12.
Import ProtoV1 Handler.
Context (encode_head : Z -> Headers -> gobytes).
Context (range : header -> list (string * list string)).
#[local] Abbreviation serve12 := (HTTP.serve encode_head range).

(** What cocaine12 writes for an output. *)
Definition chunk_of (o : output) : gobytes :=
  match o with
  | OHead code h => encode_head code (HeadersHTTPtoCocaine (range h))
  | OBody data _ => data
  end.

Definition send_all (os : list output) (r : response) : response :=
  mkResponse (session r) (closed r) (sent r ++ map (newChunkV1 (session r)) (map chunk_of os)).

Lemma send_all_nil r : send_all [] r = r.
Proof. unfold send_all. cbn. rewrite app_nil_r. by destruct r. Qed.

Lemma send_all_app os os' r : send_all (os ++ os') r = send_all os' (send_all os r).
Proof. unfold send_all. cbn. by rewrite !map_app, <- (assoc_L (++)). Qed.

Lemma exec_zero_copy data k reads r :
  closed r = false ->
  exec_handler (HZeroCopyWrite data k) reads r =
    exec_handler (k None) reads (toWorker_Send (newChunkV1 (session r) data) r).
Proof. intros Hc. cbn. unfold ZeroCopyWrite, isClosed. by rewrite Hc. Qed.

Lemma exec_WriteHeader code w k reads r :
  closed r = false ->
  exec_handler (HTTP.WriteHeader encode_head range code w k) reads r =
    exec_handler (k (put_head code w).2) reads (send_all (put_head code w).1 r).
Proof.
  intros Hc. unfold HTTP.WriteHeader, put_head. destruct (wroteHeader w); [by rewrite send_all_nil|].
  destruct (declare_length (handlerHeader w)) as [h v]. by rewrite exec_zero_copy.
Qed.

Lemma exec_write_body data (copy is_string : bool) w k reads r :
  closed r = false -> wroteHeader w = true ->
  exec_handler (HTTP.write_body data copy w k) reads r =
    exec_handler (k (put_body data is_string w).1.2 (put_body data is_string w).2) reads
      (send_all (put_body data is_string w).1.1 r).
Proof.
  intros Hc Hw. unfold HTTP.write_body, put_body, bodyAllowed. rewrite Hw.
  destruct (bytes_of data) as [|b l] eqn:Hd; [by rewrite send_all_nil|]. rewrite <- Hd.
  assert (Hone : send_all [OBody data is_string] r = toWorker_Send (newChunkV1 (session r) data) r) by done.
  assert (Hcopy : copy_bytes data = data).
  { unfold copy_bytes. rewrite Hd. destruct data as [[|c m]|]; [done| |done]. cbn in Hd. by rewrite Hd. }
  set (w' := mkWriter _ _ _ _ _).
  repeat case_bool_decide; cbn [andb]; rewrite ?send_all_nil; try done; try (exfalso; tauto).
  all: cbn [fst snd]; rewrite Hone; destruct copy; [|by rewrite exec_zero_copy].
  all: cbn [exec_handler]; unfold Write, ZeroCopyWrite, isClosed; by rewrite Hc, Hcopy.
Qed.

Lemma exec_http_write data (copy is_string : bool) w k reads r :
  closed r = false ->
  exec_handler (HTTP.write encode_head range data copy w k) reads r =
    let (o, w) := put_head StatusOK w in
    let '(o', w, res) := put_body data is_string w in
    exec_handler (k w res) reads (send_all (o ++ o') r).
Proof.
  intros Hc. unfold HTTP.write. destruct (wroteHeader w) eqn:Hw.
  - unfold put_head. rewrite Hw, (exec_write_body data copy is_string) by done.
    by destruct (put_body data is_string w) as [[o' w'] res].
  - rewrite exec_WriteHeader by done. pose proof (put_head_wrote StatusOK w) as Hw'.
    destruct (put_head StatusOK w) as [o w']. cbn [fst snd] in *.
    rewrite (exec_write_body data copy is_string) by done.
    destruct (put_body data is_string w') as [[o' w''] res]. by rewrite send_all_app.
Qed.

Lemma exec_serve p w k reads r :
  closed r = false ->
  exec_handler (serve12 p w k) reads r =
    let '(o, w', i) := http_run p w in
    match i with
    | None => exec_handler (k w') reads (send_all o r)
    | Some info => exec_handler (unwind info) reads (send_all o r)
    end.
Proof.
  revert w r. induction p as [|info|edit p IH|code p IH|data p IH|data p IH]; intros w r Hc;
    cbn [HTTP.serve http_run]; rewrite ?send_all_nil; try done.
  - by rewrite IH.
  - rewrite exec_WriteHeader by done. destruct (put_head code w) as [o w']. cbn [fst snd]. rewrite IH by done.
    destruct (http_run p w') as [[o' w''] i]. by rewrite send_all_app.
  - rewrite (exec_http_write data true false) by done. destruct (put_head StatusOK w) as [o w1].
    destruct (put_body data false w1) as [[o' w2] res]. rewrite IH by done.
    destruct (http_run (p res) w2) as [[o'' w3] i]. by rewrite !send_all_app.
  - rewrite (exec_http_write _ false true) by done. destruct (put_head StatusOK w) as [o w1].
    destruct (put_body (bytes_of_string data) true w1) as [[o' w2] res]. rewrite IH by done.
    destruct (http_run (p res) w2) as [[o'' w3] i]. by rewrite !send_all_app.
Qed.

Lemma exec_close_return reads r :
  closed r = false ->
  exec_handler (HClose (fun _ => HReturn)) reads r =
    (toWorker_Send (newChokeV1 (session r)) (close r), None).
Proof. intros Hc. cbn. unfold Close, isClosed. by rewrite Hc. Qed.

Lemma exec_unwind info reads r :
  closed r = false ->
  exec_handler (unwind info) reads r = (toWorker_Send (newChokeV1 (session r)) (close r), Some info).
Proof. intros Hc. cbn. unfold Close, isClosed. by rewrite Hc. Qed.

(** The adapter of cocaine12 on a request that was unpacked: the output and a
    choke, and the panic of the handler. *)
Lemma exec_adapter p reads s :
  exec_handler (serve12 p newResponseWriter
      (fun w => HTTP.finishRequest encode_head range w (fun _ => HClose (fun _ => HReturn)))) reads
      (newResponse s) =
    (mkResponse s true (map (newChunkV1 s) (map chunk_of (http_reply p).1) ++ [newChokeV1 s]),
     (http_reply p).2).
Proof.
  rewrite exec_serve by done. unfold http_reply.
  destruct (http_run p newResponseWriter) as [[o w] [info|]]; [by rewrite exec_unwind|].
  unfold HTTP.finishRequest. destruct (wroteHeader w) eqn:Hw.
  - unfold put_head. rewrite Hw, exec_close_return by done. cbn. by rewrite app_nil_r.
  - rewrite exec_WriteHeader by done. cbn [fst snd]. rewrite exec_close_return by done.
    cbn. by rewrite !map_app.
Qed.
End Lemmas12.

(** ** Properties *)

(** C35 (equivalence): the two versions of the framework answer an HTTP request
    alike: whatever the handler does, both send the output of its reference run,
    head and body, each in its own packing, and then end the stream; they differ
    when the handler panics, which the old version reports as an error while the
    new one sends a choke as if it had returned. *)
Theorem http_versions_agree {UUID : Type} (uuid_String : UUID -> string)
    (encode : list value -> list byte) (encode_value : value -> gobytes)
    (decode11 : gobytes -> option (string * string * Headers * gobytes))
    (gzip_error : list byte -> option error)
    (decode12 : gobytes -> (string * string * string * Headers * gobytes) + error)
    (encode_head : Z -> Headers -> gobytes)
    (request_error : string -> string -> option error)
    (range : header -> list (string * list string)) (error_text : error -> string)
    (ctx_done : bool) (h : Request -> http_prog) (event stack : string)
    (reads11 : nat -> gobytes) (reads12 : nat -> gobytes * option error)
    (session : Z) (raw : gobytes) (req : Request)
    (H11 : UnpackProxyRequest decode11 request_error gzip_error (reads11 0) = Ok (inl req))
    (Hraw : reads12 0 = (raw, None))
    (H12 : HTTP.UnpackProxyRequest decode12 request_error raw = inl req) :
  let h11 := WrapHandler decode11 request_error gzip_error range h in
  let h12 := HTTP.WrapHandler decode12 encode_head request_error range error_text ctx_done h in
  exists (out : list output) (panic : option string),
    (out, panic) = http_reply (h req) /\
    Handler.sent (Handler.invocation event h12 stack reads12 session) =
      map (ProtoV1.newChunkV1 session) (map (chunk_of encode_head range) out) ++
      [ProtoV1.newChokeV1 session] /\
    go_frames (go_callback uuid_String encode encode_value session event h11) reads11 =
      map (frame_of uuid_String encode encode_value range session) out ++
      map (packMsg uuid_String encode)
        (match panic with
         | None => [choke (mkMessageInfo CHOKE session)]
         | Some info =>
           [errorMsg (mkMessageInfo ERROR session) 1
              ("Error in event: '" +:+ event +:+ "', exception: " +:+ info);
            choke (mkMessageInfo CHOKE session)]
         end).
Proof.
  intros h11 h12. exists (http_reply (h req)).1, (http_reply (h req)).2. split; [by destruct (http_reply _)|].
  pose proof (exec_adapter encode_head range (h req) (fun n => reads12 (S n)) session) as H.
  assert (Hexec : Handler.exec_handler h12 reads12 (Handler.newResponse session) =
    (Handler.mkResponse session true (map (ProtoV1.newChunkV1 session)
       (map (chunk_of encode_head range) (http_reply (h req)).1) ++ [ProtoV1.newChokeV1 session]),
     (http_reply (h req)).2)).
  { rewrite <- H. unfold h12, HTTP.WrapHandler. cbn [Handler.exec_handler]. by rewrite Hraw, H12. }
  split.
  - rewrite invocation_after_close; by rewrite Hexec.
  - unfold go_callback, h11, WrapHandler. cbn [go_handler go_frames]. rewrite H11, frames_adapter.
    by destruct (http_reply (h req)).2.
Qed.

(** ** Witnesses *)

Definition sample_decode11 (b : gobytes) : option (string * string * Headers * gobytes) :=
  match bytes_of b with
  | [] => None
  | bs => Some ("", "/hw", [("host", "h")], Some bs)
  end.
Definition sample_decode12 (b : gobytes) : (string * string * string * Headers * gobytes) + error :=
  match bytes_of b with
  | [] => inr EOF
  | bs => inl ("", "/hw", "1.1", [("host", "h")], Some bs)
  end.
Lemma http_versions_agree_witness :
  exists out panic,
    length out = 2 /\ panic = Some "boom" /\
    length (go_frames (go_callback (fun _ : nat => "") (fun _ => []) (fun _ => None) 5 "http"
      (WrapHandler sample_decode11 sample_check (fun _ => None) map_to_list sample_panics))
      (fun _ => bytes_of_string "x")) = length out + 2 /\
    Handler.sent (Handler.invocation "http" (HTTP.WrapHandler sample_decode12 sample_head sample_check
      map_to_list (fun _ => "") false sample_panics) "" (fun _ => (bytes_of_string "x", None)) 5) =
      map (ProtoV1.newChunkV1 5) (map (chunk_of sample_head map_to_list) out) ++ [ProtoV1.newChokeV1 5].
Proof.
  destruct (HTTP.UnpackProxyRequest sample_decode12 sample_check (bytes_of_string "x")) as [req|] eqn:E;
    [|vm_compute in E; discriminate].
  assert (H11 : UnpackProxyRequest sample_decode11 sample_check (fun _ => None) (bytes_of_string "x") =
    Ok (inl req)) by (rewrite <- E; by vm_compute).
  destruct (http_versions_agree (fun _ : nat => "") (fun _ => []) (fun _ => None) sample_decode11
    (fun _ => None) sample_decode12 sample_head sample_check map_to_list (fun _ => "") false
    sample_panics "http" "" (fun _ => bytes_of_string "x") (fun _ => (bytes_of_string "x", None)) 5
    (bytes_of_string "x") req H11 eq_refl E) as (out & panic & Hout & H12 & Hf).
  exists out, panic. unfold sample_panics in Hout. vm_compute in Hout. injection Hout as -> ->.
  split_and!; [done|done| |exact H12]. rewrite Hf. by vm_compute.
Defined.
