(* ===== verification/System11.v ===== *)
(** * A process of v0.11: the worker of V11Worker.v over the socket of Socket.v

    [Loop] of cocaine/worker.go reads from and writes to the [asyncRWSocket] that it
    embeds (cocaine/asocket.go). What V11Worker.v takes as the environment - the bytes
    that [Read()] yields, and that [Write()] accepts - is here what the socket and its
    goroutines do; behind the end of the connection [Read()] yields nil for ever. *)
From S2P Require Import Prelude GoTypes Buffers V11Message V11Worker.
From S2P Require Socket V11HTTP.
From Stdlib Require Import ZArith Lia Strings.Byte.
Import V11HTTP (go_frames).

Open Scope stdpp_scope.

#[local] Instance K11 : Socket.SocketKind (list byte) := Socket.v11_asyncRWSocket (list byte).

Abbreviation sock11 := (Socket.asyncRWSocket (list byte)).
Abbreviation sock_event11 := (Socket.event (list byte)).

(** ** Definitions *)

(** What the socket does by itself: the worker never closes it, and the read loop
    passes on no empty piece. *)
Definition is_internal11 (e : sock_event11) : bool :=
  match e with
  | Socket.Send _ | Socket.SendDropped _ | Socket.Receive | Socket.CloseCall => false
  | Socket.ReadOk data => match data with [] => false | _ => true end
  | _ => true
  end.

(** [answer := <-worker.Read()]: the first piece of the socket; nil, without end, from
    the channel that its buffer has closed. *)
Definition read_answer (s : sock11) : option (list byte * list sock_event11) :=
  match Socket.first_pending (Socket.downstream s) with
  | Some data => Some (data, [Socket.Receive])
  | None => if Socket.buffer_returned (Socket.downstream s) then Some ([], []) else None
  end.

Record system11 : Type := mkSystem11 {
  proc : process;
  conn : sock11
}.

Inductive system11_event : Type :=
| Internal (e : sock_event11)          (* the goroutines of the socket, and the network *)
| Receives                             (* Loop receives from Read() *)
| Proceeds (e : V11Worker.event).      (* another event of the worker and its handlers *)

Section System11.
Context {UUID : Type}.
Context (uuid_zero : UUID) (uuid_String : UUID -> string) (uuid_FromString : string -> UUID + error).
Context (encode : list value -> list byte) (decode : list byte -> dec_result).
Context (encode_value : value -> gobytes).
Context (bind : gmap string handler) (fallback : string -> handler).
#[local] Abbreviation worker_step :=
  (worker_step uuid_zero uuid_String uuid_FromString encode decode encode_value bind fallback).
#[local] Abbreviation NewWorker := (NewWorker uuid_zero uuid_String uuid_FromString encode).

(** [worker.Write() <- frame] for what an event of the worker writes. *)
Definition sends (w : Worker) (p : process) : list sock_event11 :=
  match p with
  | Running w' => map Socket.Send (drop (length (written w)) (written w'))
  | _ => []
  end.

(** A panic of a goroutine of the socket ends the process as well. *)
Definition on_socket (p : process) (s : sock11) (o : option (outcome sock11)) : option system11 :=
  match o with
  | Some (Ok s) => Some (mkSystem11 p s)
  | Some Panic => Some (mkSystem11 Crashed s)
  | None => None
  end.

Definition proceed (w : Worker) (s : sock11) (e : V11Worker.event) (before : list sock_event11)
    : option system11 :=
  match worker_step w e with
  | Some p => on_socket p s (run Socket.step (Ok s) (before ++ sends w p))
  | None => None
  end.

Definition system11_step (p : system11) (e : system11_event) : option system11 :=
  match proc p with
  | Running w =>
    match e with
    | Internal e => if is_internal11 e then on_socket (proc p) (conn p) (Socket.sock_step (conn p) e) else None
    | Receives =>
      match read_answer (conn p) with
      | Some (data, before) => proceed w (conn p) (Received data) before
      | None => None
      end
    | Proceeds (Received _) => None
    | Proceeds e => proceed w (conn p) e []
    end
  | _ => None
  end.

(** [NewWorker] over a socket that has run for a while: it sends a handshake and a
    heartbeat. *)
Definition launch11 (before : list sock_event11) (flagUUID : string) : option system11 :=
  if forallb is_internal11 before then
    match run Socket.step (Ok Socket.newAsyncRW) before with
    | Some (Ok s) =>
      let w := NewWorker flagUUID in
      on_socket (Running w) s (run Socket.step (Ok s) (map Socket.Send (written w)))
    | _ => None
    end
  else None.
End System11.

(** ** Specification *)

(** The pieces that the network delivers. *)
Definition network11 (es : list system11_event) : list (list byte) :=
  Socket.decoded (omap (fun e => match e with Internal e => Some e | _ => None end) es).

(** The reads so far, then any others. *)
Definition after11 (given : list gobytes) (later : nat -> gobytes) (n : nat) : gobytes :=
  match given !! n with Some data => data | None => later (n - length given) end.

(** The frames of a source among frames that are labelled with their sources. *)
Definition of_source {A} (i : option nat) (sources : list (option nat)) (frames : list A) : list A :=
  (filter (fun p => p.1 = i) (zip sources frames)).*2.

(** ** Lemmas: the socket under a worker *)

Lemma sock11_panics (s : sock11) e : Socket.sock_step s e = Some Panic -> Socket.is_CloseCall e = true.
Proof.
  intros H. destruct e; cbn [Socket.is_CloseCall]; try done; exfalso; cbn [Socket.sock_step] in H;
    unfold Socket.ok_if in H; repeat case_match; simplify_eq;
    try (by apply fmap_Some in H as (? & ? & ?)).
Qed.

(** The buffer of what is written is never stopped. *)
Definition takes (b : StopLoop.state (list byte)) : Prop :=
  exists v, b = StopLoop.Selecting v /\ StopLoop.input v = true /\ StopLoop.finished v = false.
Definition up_open (s : sock11) : Prop := takes (Socket.upstream s) /\ Socket.up_stop s = false.

Lemma takes_top (v : StopLoop.vars (M := list byte)) :
  StopLoop.input v = true -> StopLoop.finished v = false -> takes (StopLoop.top v).
Proof. intros Hi Hf. unfold StopLoop.top. rewrite Hf. exists v. by destruct (StopLoop.pending v). Qed.

Lemma takes_in m b : takes b -> exists b', StopLoop.step b (StopLoop.Incoming m) = Some b' /\ takes b'.
Proof.
  intros (v & -> & Hi & Hf). cbn. rewrite Hi. eexists. split; [done|]. by apply takes_top.
Qed.

Lemma takes_out b b' : takes b -> StopLoop.step b StopLoop.Out = Some b' -> takes b'.
Proof.
  intros (v & -> & Hi & Hf). cbn. destruct (StopLoop.pending v); [done|]. intros [= <-]. by apply takes_top.
Qed.

Lemma up_open_close (s : sock11) : up_open s -> up_open (Socket.close s).
Proof. unfold up_open, Socket.close. by destruct (Socket.closed s). Qed.

Lemma up_open_step (s : sock11) e s' :
  up_open s -> Socket.is_CloseCall e = false -> Socket.sock_step s e = Some (Ok s') -> up_open s'.
Proof.
  intros [Ht Hu] He Hs.
  destruct e; try done; cbn [Socket.sock_step] in Hs; unfold Socket.ok_if in Hs; repeat case_match; try done;
    repeat match goal with
    | H : Ok <$> _ = Some _ |- _ => apply fmap_Some in H as (? & H & [= ->])
    | H : _ <$> _ = Some _ |- _ => apply fmap_Some in H as (? & H & ->)
    | H : Socket.up _ _ = Some _ |- _ => apply Socket.up_inv in H as (? & ? & ->)
    | H : Socket.down _ _ = Some _ |- _ => apply Socket.down_inv in H as (? & ? & ->)
    end; simplify_eq; try congruence;
    try (by (try apply up_open_close); split).
  all: try (by split; [cbn in *; eapply takes_out; eassumption|]).
  - destruct (takes_in m _ Ht) as (b & Hb & Hb'). split; [|done]. cbn in *. congruence.
  - assert (Hup : up_open (Socket.close (Socket.set_upstream (K := K11) x s))).
    { apply up_open_close. split; [|done]. cbn in *. by eapply takes_out. }
    unfold up_open in *. cbn. by destruct (Socket.blackholes).
Qed.

(** The end of [Read()] is final, and only events of the socket bring it. *)
Lemma down_returned_step (s : sock11) e s' :
  Socket.sock_step s e = Some (Ok s') ->
  Socket.buffer_returned (Socket.downstream s) = true ->
  Socket.downstream s' = Socket.downstream s.
Proof.
  intros Hs Hr.
  assert (Hstep : forall b ev, Socket.buffer_returned (SocketKind := K11) b = true -> StopLoop.step b ev = None)
    by by intros [].
  assert (Hclose : forall t : sock11, Socket.downstream (Socket.close t) = Socket.downstream t)
    by (intros t; unfold Socket.close; by destruct (Socket.closed t)).
  destruct e; cbn [Socket.sock_step] in Hs; unfold Socket.ok_if in Hs; repeat case_match; try done;
    repeat match goal with
    | H : Ok <$> _ = Some _ |- _ => apply fmap_Some in H as (? & H & [= ->])
    | H : _ <$> _ = Some _ |- _ => apply fmap_Some in H as (? & H & ->)
    | H : Socket.up _ _ = Some _ |- _ => apply Socket.up_inv in H as (? & ? & ->)
    | H : Socket.down _ _ = Some _ |- _ => apply Socket.down_inv in H as (? & ? & ->)
    end; simplify_eq; try done; cbn -[Socket.close Socket.Close] in *; rewrite ?Hclose; try done;
    try (match goal with H : StopLoop.step _ _ = Some _ |- _ => by rewrite Hstep in H end).
  match goal with H : Socket.Close _ = Ok _ |- _ => by apply Socket.Close_inv in H as (_&_&->&_) end.
Qed.

Lemma sends11 (s : sock11) frames :
  up_open s ->
  exists s', run Socket.step (Ok s) (map Socket.Send frames) = Some (Ok s') /\ up_open s' /\
    Socket.downstream s' = Socket.downstream s /\
    Socket.received (Ok s) (map Socket.Send frames) = [].
Proof.
  revert s. induction frames as [|m frames IH]; intros s Ho; [by exists s|].
  destruct (takes_in m _ (proj1 Ho)) as (u & Hu & Ht).
  assert (Hs : Socket.sock_step s (Socket.Send m) = Some (Ok (Socket.set_upstream (K := K11) u s))).
  { cbn. unfold Socket.up. cbn. by rewrite Hu. }
  destruct (IH (Socket.set_upstream (K := K11) u s)) as (s' & Hrun & Ho' & Hd & Hr).
  { split; [exact Ht|apply Ho]. }
  exists s'. cbn [map run Socket.step]. rewrite Hs. split; [done|]. split; [done|]. split; [done|].
  assert (Hs' : Socket.step (Ok s) (Socket.Send m) = Some (Ok (Socket.set_upstream (K := K11) u s))) by exact Hs.
  rewrite (Socket.received_cons _ _ _ _ Hs'), Hr. cbn [Socket.received]. by rewrite Hs'.
Qed.

Lemma sends11_accepted frames : Socket.accepted (M := list byte) (map Socket.Send frames) = frames.
Proof. induction frames as [|m frames IH]; [done|]. unfold Socket.accepted in *. cbn. by rewrite IH. Qed.

Lemma accepted11_app es1 es2 :
  Socket.accepted (es1 ++ es2) = Socket.accepted (M := list byte) es1 ++ Socket.accepted es2.
Proof. unfold Socket.accepted. by rewrite omap_app. Qed.

Lemma decoded11_app es1 es2 :
  Socket.decoded (es1 ++ es2) = Socket.decoded (M := list byte) es1 ++ Socket.decoded es2.
Proof. unfold Socket.decoded. by rewrite omap_app. Qed.

Lemma sends11_decoded frames : Socket.decoded (M := list byte) (map Socket.Send frames) = [].
Proof. by induction frames. Qed.

Lemma received11_app (o o' : outcome sock11) es1 es2 :
  run Socket.step o es1 = Some o' ->
  Socket.received o (es1 ++ es2) = Socket.received o es1 ++ Socket.received o' es2.
Proof.
  revert o. induction es1 as [|e es1 IH]; intros o Hrun; [by injection Hrun as <-|].
  cbn [run] in Hrun. destruct (Socket.step o e) as [o1|] eqn:He; [|done].
  change ((e :: es1) ++ es2) with (e :: (es1 ++ es2)).
  rewrite (Socket.received_cons _ _ e (es1 ++ es2) He), (Socket.received_cons _ _ e es1 He).
  by rewrite IH, (assoc_L (++)).
Qed.

(** A receive from [Read()], and what the worker then writes. *)
Lemma read_answer_run (s : sock11) data before :
  up_open s -> read_answer s = Some (data, before) ->
  exists s', run Socket.step (Ok s) before = Some (Ok s') /\ up_open s' /\
    Socket.accepted before = [] /\ Socket.decoded before = [] /\
    ((before = [Socket.Receive] /\ Socket.received (Ok s) before = [data]) \/
     (before = [] /\ data = [] /\ s' = s /\ Socket.buffer_returned (Socket.downstream s) = true)).
Proof.
  intros Ho. unfold read_answer. destruct (Socket.first_pending _) as [d|] eqn:Hf.
  - intros [= -> <-].
    assert (Hs : exists b, StopLoop.step (Socket.downstream s) StopLoop.Out = Some b).
    { unfold Socket.first_pending in Hf. cbn in Hf. destruct (Socket.downstream s) as [v|]; [|done].
      cbn in *. destruct (StopLoop.pending v); [done|by eexists]. }
    destruct Hs as [b Hb].
    assert (Hstep : Socket.sock_step s Socket.Receive = Some (Ok (Socket.set_downstream (K := K11) b s))).
    { cbn. unfold Socket.down. cbn. by rewrite Hb. }
    eexists. cbn [run Socket.step]. rewrite Hstep. split; [done|].
    split; [by apply (up_open_step s Socket.Receive)|]. do 2 (split; [done|]). left. split; [done|].
    cbn [Socket.received Socket.step]. by rewrite Hstep, Hf.
  - destruct (Socket.buffer_returned _) eqn:Hr; [|done]. intros [= <- <-]. exists s. repeat split; auto.
    all: apply Ho.
Qed.

(** ** Lemmas: runs of a worker *)
Section Runs.
Context {UUID : Type}.
Context (uuid_zero : UUID) (uuid_String : UUID -> string) (uuid_FromString : string -> UUID + error).
Context (encode : list value -> list byte) (decode : list byte -> dec_result).
Context (encode_value : value -> gobytes).
Context (bind : gmap string handler) (fallback : string -> handler).
#[local] Abbreviation worker_step :=
  (worker_step uuid_zero uuid_String uuid_FromString encode decode encode_value bind fallback).
#[local] Abbreviation step :=
  (V11Worker.step uuid_zero uuid_String uuid_FromString encode decode encode_value bind fallback).
#[local] Abbreviation NewWorker := (NewWorker uuid_zero uuid_String uuid_FromString encode).
#[local] Abbreviation on_message := (on_message uuid_String encode encode_value bind fallback).
#[local] Abbreviation on_messages := (on_messages uuid_String encode encode_value bind fallback).
#[local] Abbreviation packMsg := (packMsg uuid_String encode).

(** The goroutine that an invocation starts with. *)
Definition started (s : Z) (event : string) : go_prog :=
  match bind !! event with
  | Some callback => go_callback uuid_String encode encode_value s event callback
  | None => go_fallback uuid_String encode encode_value s (fallback event)
  end.

(** An invocation has run as its handler does alone, and what the loop took of its
    frames are the first ones. *)
Record go11_inv (g : invocation) : Prop := {
  g11_run : forall later, go_frames (started (g_session g) (g_event g)) (after11 (g_given g) later) =
    g_frames g ++ go_frames (g_prog g) later;
  g11_frames : g_frames g = g_forwarded g ++ QuitLoop.state_pending (g_response g)
}.

Lemma go_frames_ext p r r' : (forall n, r n = r' n) -> go_frames p r = go_frames p r'.
Proof.
  revert r r'. induction p as [|k IH|f k IH|k IH]; intros r r' H; cbn; [done| | |by apply IH].
  - rewrite H. apply IH. intros n. apply H.
  - f_equal. by apply IH.
Qed.

Lemma after11_snoc given data later n :
  after11 (given ++ [data]) later n = after11 given (fun n => match n with 0 => data | S n => later n end) n.
Proof.
  unfold after11. destruct (decide (n < length given)) as [Hn|Hn].
  - rewrite lookup_app_l by done. by destruct (lookup_lt_is_Some_2 given n Hn) as [x ->].
  - rewrite lookup_app_r by lia. rewrite (lookup_ge_None_2 given n) by lia. rewrite length_app. cbn.
    destruct (n - length given) as [|k] eqn:Hk; [done|]. cbn. f_equal. lia.
Qed.

Lemma go11_new s event :
  go11_inv (mkInvocation s event QuitLoop.loop_init QuitLoop.loop_init (started s event) [] [] []).
Proof.
  split; [|done]. intros later. cbn. apply go_frames_ext. intros n. unfold after11. cbn. f_equal. lia.
Qed.

Lemma go11_request g q : go11_inv g -> go11_inv (with_request g q (g_given g)).
Proof. by intros [H1 H2]. Qed.

Lemma quit_incoming frame (q q' : QuitLoop.state (list byte)) :
  QuitLoop.step q (QuitLoop.Incoming frame) = Some q' ->
  QuitLoop.state_pending q' = QuitLoop.state_pending q ++ [frame].
Proof. destruct q as [v|]; [|done]. intros [= <-]. by rewrite QuitLoop.quit_top_pending. Qed.

Lemma quit_quit (q q' : QuitLoop.state (list byte)) :
  QuitLoop.step q QuitLoop.Quit = Some q' -> QuitLoop.state_pending q' = QuitLoop.state_pending q.
Proof. destruct q as [v|]; [|done]. intros [= <-]. by rewrite QuitLoop.quit_top_pending. Qed.

Lemma go11_step e g g' : go11_inv g -> go_step e g = Some g' -> go11_inv g' /\ g_forwarded g' = g_forwarded g.
Proof.
  intros [Hr Hf] Hs. unfold go_step, newRequest_loop, newResponse_loop in Hs.
  destruct e; try done; destruct (g_prog g) as [|k|frame k|k] eqn:Hp; try done; cbn [go_frames] in Hr.
  - destruct (QuitLoop.step (g_request g) QuitLoop.Out) as [q|]; [|done].
    destruct (QuitLoop.state_pending (g_request g)) as [|data rest]; [done|]. injection Hs as <-.
    split; [|done]. split; [|done]. intros later. cbn.
    rewrite (go_frames_ext _ _ _ (after11_snoc (g_given g) data later)). by rewrite Hr.
  - destruct (QuitLoop.step (g_response g) _) as [q|] eqn:Hq; [|done]. injection Hs as <-.
    apply quit_incoming in Hq. split; [|done]. split; cbn.
    + intros later. by rewrite Hr, <- (assoc_L (++)).
    + by rewrite Hq, Hf, (assoc_L (++)).
  - destruct (QuitLoop.step (g_response g) _) as [q|] eqn:Hq; [|done]. injection Hs as <-.
    apply quit_quit in Hq. split; [|done]. split; cbn; [done|by rewrite Hq].
Qed.

(** What was forwarded of an invocation. *)
Definition forwarded_at (w : Worker) (i : nat) : list (list byte) := default [] (g_forwarded <$> gos w !! i).

(** A part of a step that writes nothing and forwards nothing. *)
Record quiet_step (w w' : Worker) : Prop := {
  qs_gos : Forall go11_inv (gos w) -> Forall go11_inv (gos w');
  qs_written : written w' = written w;
  qs_forwarded : forall i, forwarded_at w' i = forwarded_at w i
}.

Lemma quiet_refl w w' : gos w' = gos w -> written w' = written w -> quiet_step w w'.
Proof. intros Hg Hw. split; [by rewrite Hg|done|]. intros i. unfold forwarded_at. by rewrite Hg. Qed.

Lemma quiet_trans w w1 w' : quiet_step w w1 -> quiet_step w1 w' -> quiet_step w w'.
Proof. intros [H1 H2 H3] [H4 H5 H6]. split; [auto|congruence|]. intros i. by rewrite H6. Qed.

Lemma quiet_insert w i g g' ss :
  gos w !! i = Some g -> (go11_inv g -> go11_inv g') -> g_forwarded g' = g_forwarded g ->
  quiet_step w (set_sessions w ss (<[i := g']> (gos w))).
Proof.
  intros Hi Hg Hf. split; [|done|].
  - intros H. cbn. apply Forall_insert; [done|]. apply Hg. exact (Forall_lookup_1 _ _ _ _ H Hi).
  - intros j. unfold forwarded_at. cbn. destruct (decide (j = i)) as [->|Hj].
    + rewrite list_lookup_insert_eq by (by eapply lookup_lt_Some). rewrite Hi. cbn. by rewrite Hf.
    + by rewrite list_lookup_insert_ne.
Qed.

Lemma request_send_quiet request e w w' : request_send request e w = Running w' -> quiet_step w w'.
Proof.
  unfold request_send. destruct request as [i|]; [|done]. destruct (gos w !! i) as [g|] eqn:Hg; [|done].
  destruct (newRequest_loop _ _) as [q|]; [|done]. intros [= <-].
  apply quiet_insert with g; [done|apply go11_request|done].
Qed.

Lemma on_message_quiet m w w' : on_message m w = Running w' -> quiet_step w w'.
Proof.
  destruct m as [|info|info r t|info ev|info d|info k t|info|info d]; cbn;
    try (by intros [= <-]; apply quiet_refl).
  - intros [= <-]. split; [|done|].
    + intros H. cbn. apply Forall_app. split; [done|]. apply Forall_singleton, go11_new.
    + intros i. unfold forwarded_at. cbn. destruct (decide (i < length (gos w))) as [Hi|Hi].
      * by rewrite lookup_app_l.
      * rewrite lookup_app_r, (lookup_ge_None_2 (gos w)) by lia. by destruct (i - length (gos w)).
  - apply request_send_quiet.
  - destruct (request_close _ w) as [w1| | |] eqn:H1; try done. intros [= <-].
    eapply quiet_trans; [by eapply request_send_quiet|]. by apply quiet_refl.
Qed.

Lemma on_messages_quiet msgs w w' : on_messages msgs w = Running w' -> quiet_step w w'.
Proof.
  revert w'. induction msgs as [|m msgs IH] using rev_ind; intros w'; [intros [= <-]; by apply quiet_refl|].
  unfold V11Worker.on_messages in *. rewrite foldl_app. cbn [foldl].
  destruct (foldl _ _ msgs) as [w1| | |]; [|done..]. intros Hm.
  eapply quiet_trans; [by apply IH|by eapply on_message_quiet].
Qed.

(** The frames that the worker writes itself, and those of each invocation. *)
Record sources_inv (uuid : UUID) (w : Worker) (sources : list (option nat)) : Prop := {
  so_length : length sources = length (written w);
  so_own : exists k, of_source None sources (written w) =
    packMsg (handshakeStruct (mkMessageInfo HANDSHAKE 0) uuid) ::
    replicate (S k) (packMsg (heartbeat (mkMessageInfo HEARTBEAT 0)));
  so_go : forall i, of_source (Some i) sources (written w) = forwarded_at w i
}.

Lemma of_source_snoc {A} i j sources (frames : list A) f :
  length sources = length frames ->
  of_source i (sources ++ [j]) (frames ++ [f]) =
    of_source i sources frames ++ (if decide (j = i) then [f] else []).
Proof.
  intros Hl. unfold of_source. rewrite zip_with_app by done. cbn. rewrite filter_app, fmap_app. f_equal.
  rewrite filter_cons. cbn. by case_decide.
Qed.

Lemma sources_quiet uuid w w' sources : quiet_step w w' -> sources_inv uuid w sources -> sources_inv uuid w' sources.
Proof. intros [_ Hw Hf] [Hl Ho Hg]. split; rewrite ?Hw; [done..|]. intros i. by rewrite Hf. Qed.

(** One step of a worker. *)
Lemma worker_step_sources uuid w e w' sources :
  Forall go11_inv (gos w) -> sources_inv uuid w sources -> worker_step w e = Some (Running w') ->
  Forall go11_inv (gos w') /\ (exists sources', sources_inv uuid w' sources') /\
  exists frames, written w' = written w ++ frames.
Proof.
  intros Hgos Hso Hs.
  assert (Hq : quiet_step w w' -> Forall go11_inv (gos w') /\ (exists sources', sources_inv uuid w' sources') /\
    exists frames, written w' = written w ++ frames).
  { intros H. split; [by apply (qs_gos _ _ H)|]. split; [exists sources; by eapply sources_quiet|].
    exists []. rewrite app_nil_r. apply H. }
  assert (Hgo : forall i, match gos w !! i with
    | None => None
    | Some g => (fun g => Running (set_go w i g)) <$> go_step e g end = Some (Running w') -> quiet_step w w').
  { intros i H. destruct (gos w !! i) as [g|] eqn:Hg; [|done]. apply fmap_Some in H as (g' & Hgs & [= ->]).
    apply quiet_insert with g; [done| |].
    - intros Hi. by apply (go11_step e g).
    - destruct (go11_step e g g' (Forall_lookup_1 _ _ _ _ Hgos Hg) Hgs) as [_ H]. exact H. }
  destruct Hso as [Hl (k & Ho) Hf].
  destruct e as [answer| | |i|i|i|i| |]; cbn [V11Worker.worker_step] in Hs; try (by apply Hq, (Hgo i)).
  - apply Hq. destruct (Feed _ _ _ _ _) as [[[[buf msgs] log]|]|]; [|done..]. injection Hs as Hs.
    eapply quiet_trans; [|by eapply on_messages_quiet]. by apply quiet_refl.
  - destruct (fired _); [|done]. injection Hs as <-. split; [done|]. split; [|by eexists].
    exists (sources ++ [None]). split; cbn.
    + rewrite !length_app. cbn. lia.
    + exists (S k). rewrite of_source_snoc, Ho by done. rewrite decide_True by done.
      by rewrite <- app_comm_cons, <- replicate_S_end.
    + intros i. rewrite of_source_snoc, Hf by done. rewrite decide_False by done. by rewrite app_nil_r.
  - by destruct (fired _).
  - destruct (gos w !! i) as [g|] eqn:Hg; [|done]. unfold newResponse_loop in Hs.
    destruct (QuitLoop.step _ _) as [q|] eqn:Hqs; [|done].
    destruct (QuitLoop.state_pending _) as [|frame rest] eqn:Hp; [done|]. injection Hs as <-. cbn.
    destruct (Forall_lookup_1 _ _ _ _ Hgos Hg) as [Hr Hfr]. split.
    { apply Forall_insert; [done|]. split; [exact Hr|]. cbn. rewrite Hfr, Hp.
      destruct (g_response g) as [v|]; [|done]. cbn in Hp, Hqs. rewrite Hp in Hqs. injection Hqs as <-.
      rewrite QuitLoop.quit_top_pending. cbn. by rewrite <- (assoc_L (++)). }
    split; [|by eexists]. exists (sources ++ [Some i]). split; cbn.
    + rewrite !length_app. cbn. lia.
    + exists k. rewrite of_source_snoc, Ho by done. rewrite decide_False by done. by rewrite app_nil_r.
    + intros j. rewrite of_source_snoc, Hf by done. unfold forwarded_at. cbn.
      destruct (decide (Some i = Some j)) as [[= <-]|Hne].
      * rewrite list_lookup_insert_eq by (by eapply lookup_lt_Some). by rewrite Hg.
      * rewrite list_lookup_insert_ne by congruence. by rewrite app_nil_r.
  - apply Hq. destruct (armed _); [|done]. injection Hs as <-. by apply quiet_refl.
  - apply Hq. destruct (armed _); [|done]. injection Hs as <-. by apply quiet_refl.
Qed.
End Runs.

(** ** Lemmas: the two views of a run *)
Section Views11.
Context {UUID : Type}.
Context (uuid_zero : UUID) (uuid_String : UUID -> string) (uuid_FromString : string -> UUID + error).
Context (encode : list value -> list byte) (decode : list byte -> dec_result).
Context (encode_value : value -> gobytes).
Context (bind : gmap string handler) (fallback : string -> handler) (flagUUID : string).
#[local] Abbreviation step :=
  (V11Worker.step uuid_zero uuid_String uuid_FromString encode decode encode_value bind fallback).
#[local] Abbreviation NewWorker := (NewWorker uuid_zero uuid_String uuid_FromString encode).
#[local] Abbreviation system11_step :=
  (system11_step uuid_zero uuid_String uuid_FromString encode decode encode_value bind fallback).
#[local] Abbreviation launch11 := (launch11 uuid_zero uuid_String uuid_FromString encode).
#[local] Abbreviation go11_inv := (go11_inv uuid_String encode encode_value bind fallback).

Definition uuid_of : UUID := match uuid_FromString flagUUID with inl u => u | inr _ => uuid_zero end.

(** A run of the process is one of the worker, [wes], and one of the socket, [ses],
    that agree on the bytes they exchange; the worker reads on behind the end. *)
Record views11 (wes : list V11Worker.event) (ses : list sock_event11) (p : system11) : Prop := {
  v11_proc : run step (Running (NewWorker flagUUID)) wes = Some (proc p);
  v11_conn : run Socket.step (Ok Socket.newAsyncRW) ses = Some (Ok (conn p));
  v11_open : up_open (conn p);
  v11_answers : exists n, answers wes = Socket.received (Ok Socket.newAsyncRW) ses ++ replicate n [] /\
    (0 < n -> Socket.buffer_returned (Socket.downstream (conn p)) = true);
  v11_worker : forall w, proc p = Running w ->
    Socket.accepted ses = written w /\ Forall go11_inv (gos w) /\
    exists sources, sources_inv uuid_String encode uuid_of w sources
}.

Lemma answers_app es es' : answers (es ++ es') = answers es ++ answers es'.
Proof. unfold answers. by rewrite omap_app. Qed.

Lemma internal11 (s : sock11) e o :
  is_internal11 e = true -> Socket.sock_step s e = Some o ->
  exists s', o = Ok s' /\ Socket.accepted [e] = [] /\ Socket.received (Ok s) [e] = [] /\
    Socket.is_CloseCall e = false.
Proof.
  intros Hi Hs. destruct o as [s'|]; [|apply sock11_panics in Hs; by destruct e].
  exists s'. split; [done|]. split; [by destruct e|]. split; [|by destruct e].
  cbn [Socket.received Socket.step]. rewrite Hs. by destruct e.
Qed.

Lemma internal11_run es (s s' : sock11) :
  forallb is_internal11 es = true -> up_open s -> run Socket.step (Ok s) es = Some (Ok s') ->
  Socket.accepted es = [] /\ Socket.received (Ok s) es = [] /\ up_open s'.
Proof.
  revert s. induction es as [|e es IH]; intros s; [by intros _ Ho [= <-]|]. cbn [forallb run].
  intros [He Hes]%andb_true_iff Ho Hrun. destruct (Socket.step (Ok s) e) as [o|] eqn:Hs; [|done].
  destruct (internal11 s e o He Hs) as (s1 & -> & Ha & Hr & Hc).
  destruct (IH s1 Hes (up_open_step _ _ _ Ho Hc Hs) Hrun) as (Ha' & Hr' & Ho').
  change (e :: es) with ([e] ++ es). rewrite accepted11_app, Ha, Ha'. split; [done|]. split; [|done].
  change ([e] ++ es) with (e :: es). by rewrite (Socket.received_cons _ _ _ _ Hs), Hr, Hr'.
Qed.

(** An event of the worker, with the socket's part in it. *)
Lemma views_proceed wes ses p w e before s1 p' :
  views11 wes ses p -> proc p = Running w ->
  run Socket.step (Ok (conn p)) before = Some (Ok s1) -> up_open s1 ->
  Socket.accepted before = [] -> Socket.decoded before = [] ->
  ((before = [Socket.Receive] /\ Socket.received (Ok (conn p)) before = answers [e]) \/
   (before = [] /\ s1 = conn p /\
      (answers [e] = [] \/
       answers [e] = [[]] /\ Socket.buffer_returned (Socket.downstream (conn p)) = true))) ->
  proceed uuid_zero uuid_String uuid_FromString encode decode encode_value bind fallback w (conn p) e before
    = Some p' ->
  exists ses', views11 (wes ++ [e]) (ses ++ ses') p' /\ Socket.decoded ses' = [].
Proof.
  intros [Hp Hc Ho (n & Han & Hn) Hw] Hpw Hbefore Ho1 Hacc Hdec Hread.
  unfold proceed. destruct (worker_step _ _ _ _ _ _ _ _ w e) as [q|] eqn:Hs; [|done].
  destruct (Hw w Hpw) as (Hacs & Hgos & sources & Hsrc).
  assert (Hsends : exists frames, sends w q = map Socket.Send frames /\
    forall w', q = Running w' -> written w' = written w ++ frames).
  { destruct q as [w'| | |]; [|by exists []..]. cbn [sends].
    destruct (worker_step_sources _ _ _ _ _ _ _ _ _ w e w' sources Hgos Hsrc Hs) as (_ & _ & frames & Hfr).
    exists frames. rewrite Hfr, drop_app_length. split; [done|]. by intros w1 [= <-]. }
  destruct Hsends as (frames & Hfr & Hwr). rewrite Hfr, run_app, Hbefore.
  destruct (sends11 s1 frames Ho1) as (s' & Hrun & Ho' & Hd' & Hr'). rewrite Hrun. intros [= <-].
  assert (Hrun' : run Socket.step (Ok Socket.newAsyncRW) (ses ++ before ++ map Socket.Send frames) = Some (Ok s')).
  { by rewrite run_app, Hc, run_app, Hbefore. }
  exists (before ++ map Socket.Send frames). split; [|by rewrite decoded11_app, Hdec, sends11_decoded].
  split; cbn [proc conn]; [|done|done| |].
  - rewrite run_app, Hp, Hpw. cbn [run V11Worker.step]. by rewrite Hs.
  - rewrite (received11_app _ _ _ _ Hc), (received11_app _ _ _ _ Hbefore), Hr', app_nil_r, answers_app, Han, Hd'.
    destruct Hread as [[-> Hrec]|(-> & -> & [Hnone|[Hnil Hret]])].
    + exists 0. destruct n as [|n]; [|exfalso].
      { rewrite !app_nil_r, Hrec. split; [done|lia]. }
      specialize (Hn ltac:(lia)). cbn [run Socket.step] in Hbefore.
      destruct (Socket.sock_step (conn p) Socket.Receive) as [o|] eqn:Hrc; [|done]. cbn in Hrc.
      unfold Socket.down in Hrc. cbn in Hn, Hrc. by destruct (Socket.downstream (conn p)).
    + exists n. cbn [Socket.received]. by rewrite Hnone, !app_nil_r.
    + exists (S n). cbn [Socket.received]. rewrite Hnil, app_nil_r, replicate_S_end, (assoc_L (++)). done.
  - intros w' Hq. rewrite accepted11_app, accepted11_app, Hacc, sends11_accepted, Hacs, (Hwr w' Hq).
    split; [done|]. subst q.
    destruct (worker_step_sources _ _ _ _ _ _ _ _ _ w e w' sources Hgos Hsrc Hs) as (Hg' & Hs' & _). done.
Qed.

Lemma views11_step wes ses p e p' :
  views11 wes ses p -> system11_step p e = Some p' ->
  exists wes' ses', views11 (wes ++ wes') (ses ++ ses') p' /\ Socket.decoded ses' = network11 [e].
Proof.
  intros Hv Hs. pose proof Hv as [Hp Hc Ho Han Hw]. unfold System11.system11_step in Hs.
  destruct (proc p) as [w| | |] eqn:Hpw; [|done..]. destruct e as [e| |e].
  - destruct (is_internal11 e) eqn:Hi; [|done].
    destruct (Socket.sock_step (conn p) e) as [o|] eqn:Hse; [|done].
    destruct (internal11 _ _ _ Hi Hse) as (s' & -> & Hacc & Hrec & Hcc). cbn in Hs. injection Hs as <-.
    exists [], [e]. split; [|unfold network11; cbn; by destruct e]. split; cbn [proc conn].
    + by rewrite app_nil_r.
    + rewrite run_app, Hc. cbn [run Socket.step]. by rewrite Hse.
    + by eapply up_open_step.
    + destruct Han as (n & Han & Hn). exists n. rewrite app_nil_r, (received11_app _ _ _ _ Hc), Hrec, app_nil_r.
      split; [done|]. intros Hpos. by rewrite (down_returned_step _ _ _ Hse (Hn Hpos)), Hn.
    + intros w' Hw'. rewrite accepted11_app, Hacc, app_nil_r. apply Hw. congruence.
  - destruct (read_answer (conn p)) as [[data before]|] eqn:Hra; [|done].
    destruct (read_answer_run _ _ _ Ho Hra) as (s1 & Hb & Ho1 & Hacc & Hdec & Hcase).
    destruct (views_proceed wes ses p w (Received data) before s1 p' Hv Hpw Hb Ho1 Hacc Hdec) as (ses' & Hv' & Hd').
    + destruct Hcase as [[-> Hr]|(-> & -> & -> & Hr)]; [left|right]; [done|]. auto.
    + done.
    + by exists [Received data], ses'.
  - assert (Hcall : answers [e] = [] /\ proceed uuid_zero uuid_String uuid_FromString encode decode encode_value
      bind fallback w (conn p) e [] = Some p') by (by destruct e).
    destruct Hcall as [Hnone Hpr].
    destruct (views_proceed wes ses p w e [] (conn p) p' Hv Hpw eq_refl Ho eq_refl eq_refl) as (ses' & Hv' & Hd').
    + right. auto.
    + done.
    + by exists [e], ses'.
Qed.

(** The step that ends the process is one of the worker. *)
Lemma ended_step wes ses p w e p' :
  views11 wes ses p -> proc p = Running w -> system11_step p e = Some p' ->
  (forall w', proc p' <> Running w') ->
  exists we, step (Running w) we = Some (proc p') /\
    ((e = Receives /\ exists data rest, read_answer (conn p) = Some (data, rest) /\ we = Received data) \/
     (e = Proceeds we /\ answers [we] = [])).
Proof.
  intros Hv Hpw Hs Hend. pose proof Hv as [Hp Hc Ho _ _]. rewrite Hpw in Hp.
  assert (Hlast : forall we ses', views11 (wes ++ [we]) ses' p' -> step (Running w) we = Some (proc p')).
  { intros we ses' [Hp' _ _ _ _]. rewrite run_app, Hp in Hp'. cbn [run] in Hp'.
    destruct (step (Running w) we); [exact Hp'|done]. }
  unfold System11.system11_step in Hs. rewrite Hpw in Hs. destruct e as [e| |e].
  - destruct (is_internal11 e) eqn:Hi; [|done].
    destruct (Socket.sock_step (conn p) e) as [o|] eqn:Hse; [|done].
    destruct (internal11 _ _ _ Hi Hse) as (s' & -> & _). injection Hs as <-. by edestruct Hend.
  - destruct (read_answer (conn p)) as [[data before]|] eqn:Hra; [|done].
    destruct (read_answer_run _ _ _ Ho Hra) as (s1 & Hb & Ho1 & Hacc & Hdec & Hcase).
    destruct (views_proceed wes ses p w (Received data) before s1 p' Hv Hpw Hb Ho1 Hacc Hdec) as (ses' & Hv' & _).
    + destruct Hcase as [[-> Hr]|(-> & -> & -> & Hr)]; [left|right]; [done|]. auto.
    + done.
    + exists (Received data). split; [by eapply Hlast|]. left. split; [done|]. by exists data, before.
  - assert (Hcall : answers [e] = [] /\ proceed uuid_zero uuid_String uuid_FromString encode decode encode_value
      bind fallback w (conn p) e [] = Some p') by (by destruct e).
    destruct Hcall as [Hnone Hpr].
    destruct (views_proceed wes ses p w e [] (conn p) p' Hv Hpw eq_refl Ho eq_refl eq_refl) as (ses' & Hv' & _).
    + right. auto.
    + done.
    + exists e. split; [by eapply Hlast|]. by right.
Qed.

Lemma launch11_views before p :
  launch11 before flagUUID = Some p ->
  exists ses, views11 [] ses p /\ proc p = Running (NewWorker flagUUID) /\
    Socket.decoded ses = Socket.decoded before.
Proof.
  unfold System11.launch11. destruct (forallb is_internal11 before) eqn:Hb; [|done].
  destruct (run Socket.step _ before) as [[s|]|] eqn:Hrun; [|done..].
  assert (Hnew : up_open Socket.newAsyncRW) by (split; [by eexists|done]).
  destruct (internal11_run before _ s Hb Hnew Hrun) as (Ha & Hr & Ho).
  destruct (sends11 s (written (NewWorker flagUUID)) Ho) as (s' & Hs' & Ho' & Hd' & Hr'). rewrite Hs'.
  intros [= <-]. exists (before ++ map Socket.Send (written (NewWorker flagUUID))).
  split; [|split; [done|by rewrite decoded11_app, sends11_decoded, app_nil_r]]. split; cbn [proc conn].
  - done.
  - by rewrite run_app, Hrun.
  - done.
  - exists 0. rewrite (received11_app _ _ _ _ Hrun), Hr, Hr'. split; [done|lia].
  - intros w [= <-]. rewrite accepted11_app, Ha, sends11_accepted. split; [done|]. split; [constructor|].
    exists [None; None]. split; [done| |].
    + exists 0. done.
    + intros i. done.
Qed.

Lemma network11_app es1 es2 : network11 (es1 ++ es2) = network11 es1 ++ network11 es2.
Proof. unfold network11. by rewrite omap_app, decoded11_app. Qed.

Lemma system11_run before p0 es p :
  launch11 before flagUUID = Some p0 -> run system11_step p0 es = Some p ->
  exists wes ses, views11 wes ses p /\ Socket.decoded ses = Socket.decoded before ++ network11 es.
Proof.
  intros Hl. destruct (launch11_views before p0 Hl) as (ses0 & Hv0 & _ & Hd0).
  revert p. induction es as [|e es IH] using rev_ind; intros p Hrun.
  { injection Hrun as <-. exists [], ses0. split; [done|]. unfold network11. cbn. by rewrite app_nil_r. }
  apply run_snoc in Hrun as (p1 & Hrun & Hs). destruct (IH p1 Hrun) as (wes & ses & Hv & Hd).
  destruct (views11_step wes ses p1 e p Hv Hs) as (wes' & ses' & Hv' & Hd').
  exists (wes ++ wes'), (ses ++ ses'). split; [done|].
  by rewrite decoded11_app, Hd, Hd', network11_app, (assoc_L (++)).
Qed.
(** How a run ended: its last step. *)
Lemma system11_last before p0 es p :
  launch11 before flagUUID = Some p0 -> run system11_step p0 es = Some p ->
  (forall w, proc p <> Running w) ->
  exists es' e p1 w we wes ses, es = es' ++ [e] /\ run system11_step p0 es' = Some p1 /\
    proc p1 = Running w /\ views11 wes ses p1 /\ step (Running w) we = Some (proc p) /\
    ((e = Receives /\ exists data rest, read_answer (conn p1) = Some (data, rest) /\ we = Received data) \/
     (e = Proceeds we /\ answers [we] = [])).
Proof.
  intros Hl Hrun Hn. destruct es as [|e es _] using rev_ind.
  - injection Hrun as <-. destruct (launch11_views before p0 Hl) as (_ & _ & Hp0 & _). by edestruct Hn.
  - apply run_snoc in Hrun as (p1 & Hrun & Hs).
    destruct (proc p1) as [w| | |] eqn:Hp1; [|unfold System11.system11_step in Hs; by rewrite Hp1 in Hs..].
    destruct (system11_run before p0 es p1 Hl Hrun) as (wes & ses & Hv & _).
    destruct (ended_step wes ses p1 w e p Hv Hp1 Hs Hn) as (we & Hwe & Hcase).
    by exists es, e, p1, w, we, wes, ses.
Qed.

(** A worker that ended: by which event. *)
Lemma system11_ended before p0 es p :
  launch11 before flagUUID = Some p0 -> run system11_step p0 es = Some p ->
  match proc p with
  | Running _ => True
  | Exited => exists es', es = es' ++ [Proceeds DisownTick] \/ es = es' ++ [Receives]
  | Crashed => exists es' p1 w data rest pieces msgs, es = es' ++ [Receives] /\
      run system11_step p0 es' = Some p1 /\ proc p1 = Running w /\ read_answer (conn p1) = Some (data, rest) /\
      feed_all uuid_zero uuid_FromString decode [] pieces = Some (Ok (unpacker w, msgs)) /\
      (Feed uuid_zero uuid_FromString decode (unpacker w) data = Some Panic \/
       exists buf l m r log,
         Feed uuid_zero uuid_FromString decode (unpacker w) data = Some (Ok (buf, l ++ m :: r, log)) /\
         orphan m (msgs ++ l))
  | Blocked => False
  end.
Proof.
  intros Hl Hrun. destruct (proc p) as [w| | |] eqn:Hpw; [done|..].
  all: destruct (system11_last before p0 es p Hl Hrun)
    as (es' & e & p1 & w & we & wes & ses & -> & Hr1 & Hp1 & [Hpr1 _ _ _ _] & Hwe & Hcase);
    [by rewrite Hpw|]; rewrite Hp1 in Hpr1; rewrite Hpw in Hwe;
    pose proof (run_worker_inv _ _ _ _ _ _ _ _ _ _ _ Hpr1) as Hw1; cbn beta iota in Hw1;
    pose proof (step_run_inv _ _ _ _ _ _ _ _ _ _ _ _ Hw1 Hwe) as Hx; cbn beta iota in Hx.
  - exists es'. destruct Hcase as [(-> & _)|[-> Hnone]]; [by right|left].
    by destruct Hx as [->|(buf & ms & log & i & r & x & a & -> & _)].
  - destruct Hx as (data & -> & Hx).
    destruct Hcase as [(-> & data' & rest & Hra & [= <-])|[_ Hnone]]; [|done].
    destruct Hw1 as (msgs & Hf & _). exists es', p1, w, data, rest, (answers wes), msgs. split_and!; try done.
    destruct Hx as [Hx|(msgs' & buf & l & m & r & log & Hf' & Hx & Ho)]; [by left|right].
    rewrite Hf in Hf'. injection Hf' as <-. by exists buf, l, m, r, log.
  - done.
Qed.
End Views11.

(** ** Properties *)


(** ** Lemmas: a connection that ended *)
Section Ended.
Context {UUID : Type}.
Context (uuid_zero : UUID) (uuid_String : UUID -> string) (uuid_FromString : string -> UUID + error).
Context (encode : list value -> list byte) (decode : list byte -> dec_result).
Context (encode_value : value -> gobytes).
Context (bind : gmap string handler) (fallback : string -> handler).
#[local] Abbreviation worker_step :=
  (worker_step uuid_zero uuid_String uuid_FromString encode decode encode_value bind fallback).
#[local] Abbreviation system11_step :=
  (system11_step uuid_zero uuid_String uuid_FromString encode decode encode_value bind fallback).
#[local] Abbreviation Feed_loop := (Feed_loop uuid_zero uuid_FromString decode).
#[local] Abbreviation Feed := (Feed uuid_zero uuid_FromString decode).
(** The decoder reads from the front of its buffer. *)
Context (Hfront : forall tmp res rest, decode tmp = DItem res rest -> exists used, used <> [] /\ tmp = used ++ rest).

(** The items at the front of a buffer are errors, which [Feed] does not remove. *)
Inductive rejected : list byte -> list byte -> Prop :=
| rejected_refl b : rejected b b
| rejected_item b res rest err t :
    decode b = DItem res rest -> unpackMessage uuid_zero uuid_FromString res = Ok (inr err) ->
    rejected rest t -> rejected b t.

(** Nothing in the buffer makes a message. *)
Definition stuck (b : list byte) : Prop := exists t eof, rejected b t /\ decode t = DErr eof.

Lemma rejected_snoc b t res rest err :
  rejected b t -> decode t = DItem res rest -> unpackMessage uuid_zero uuid_FromString res = Ok (inr err) ->
  rejected b rest.
Proof. induction 1; intros Hd He; eauto using rejected_refl, rejected_item. Qed.

Lemma rejected_suffix b t : rejected b t -> exists used, b = used ++ t.
Proof using Hfront.
  induction 1 as [b|b res rest err t Hd _ _ [u ->]]; [by exists []|].
  destruct (Hfront _ _ _ Hd) as (u' & _ & ->). exists (u' ++ u). by rewrite <- (assoc_L (++)).
Qed.

Lemma Feed_loop_rejected b t eof fuel buf msgs log :
  rejected b t -> decode t = DErr eof -> length b < fuel ->
  exists log', Feed_loop fuel buf b msgs log = Some (Ok (buf, msgs, log')).
Proof using Hfront.
  intros Hr Ht. revert fuel log. induction Hr as [b|b res rest err t Hd He _ IH]; intros fuel log Hf;
    (destruct fuel as [|fuel]; [lia|]); cbn [V11Message.Feed_loop].
  - rewrite Ht. eauto.
  - rewrite Hd, He. apply IH; [done|]. destruct (Hfront _ _ _ Hd) as (u & Hu & ->).
    rewrite length_app in Hf. destruct u; [done|]. cbn in Hf. lia.
Qed.

Lemma Feed_stuck b : stuck b -> exists log, Feed b [] = Some (Ok (b, [], log)).
Proof using Hfront.
  intros (t & eof & Hr & Ht). unfold V11Message.Feed. rewrite app_nil_r.
  by apply (Feed_loop_rejected b t eof (S (length b)) b [] []); [| |lia].
Qed.

Lemma Feed_loop_leaves fuel buf tmp msgs log buf' msgs' log' :
  rejected buf tmp -> Feed_loop fuel buf tmp msgs log = Some (Ok (buf', msgs', log')) -> stuck buf'.
Proof using Hfront.
  revert buf tmp msgs log. induction fuel as [|fuel IH]; intros buf tmp msgs log Hr; [done|].
  cbn [V11Message.Feed_loop]. destruct (decode tmp) as [res rest|eof] eqn:Hd.
  - destruct (unpackMessage _ _ res) as [[m|err]|] eqn:Hu; [| |done].
    + apply IH. destruct (rejected_suffix _ _ Hr) as [u ->]. destruct (Hfront _ _ _ Hd) as (u' & _ & ->).
      replace (length (u ++ u' ++ rest) - length rest) with (length (u ++ u')) by (rewrite !length_app; lia).
      rewrite (assoc_L (++)), drop_app_length. constructor.
    + apply IH. by eapply rejected_snoc.
  - intros [= <- _ _]. by exists tmp, eof.
Qed.

Lemma Feed_leaves buf data buf' msgs log : Feed buf data = Some (Ok (buf', msgs, log)) -> stuck buf'.
Proof using Hfront. apply Feed_loop_leaves. constructor. Qed.

Lemma stuck_nil : stuck [].
Proof using Hfront.
  exists []. destruct (decode []) as [res rest|eof] eqn:Hd; [|by exists eof; split; [constructor|]].
  destruct (Hfront _ _ _ Hd) as (u & Hu & H). symmetry in H. by apply app_eq_nil in H as [? _].
Qed.

(** The heartbeat comes again. *)
Definition ticking (w : Worker) : Prop := armed (heartbeat_timer w) || fired (heartbeat_timer w) = true.
Definition idle (w : Worker) : Prop := stuck (unpacker w) /\ ticking w.

Lemma on_messages_ticking msgs w w' :
  on_messages uuid_String encode encode_value bind fallback msgs w = Running w' ->
  heartbeat_timer w' = heartbeat_timer w.
Proof.
  revert w'. induction msgs as [|m msgs IH] using rev_ind; intros w' H; [by injection H as <-|].
  unfold V11Worker.on_messages in *. rewrite foldl_app in H. cbn in H.
  destruct (foldl _ _ msgs) as [w1| | |] eqn:H1; try done.
  rewrite <- (IH _ eq_refl). unfold V11Worker.on_message, request_push, request_close, request_send in H.
  destruct m; repeat (case_match; try done); by simplify_eq/=.
Qed.

(** Every worker that runs is idle until more arrives. *)
Lemma worker_step_idle w e w' : idle w -> worker_step w e = Some (Running w') -> idle w'.
Proof using Hfront.
  intros [Hst Ht] Hs. unfold idle, ticking in *.
  destruct e as [answer| | |i|i|i|i| |]; cbn [V11Worker.worker_step] in Hs.
  - destruct (Feed (unpacker w) answer) as [[[[buf msgs] log]|]|] eqn:Hf; [|done..]. injection Hs as Hs.
    rewrite (on_messages_unpacker _ _ _ _ _ _ _ _ Hs), (on_messages_ticking _ _ _ Hs). cbn.
    split; [by eapply Feed_leaves|done].
  - destruct (fired (heartbeat_timer w)); [|done]. by injection Hs as <-.
  - by destruct (fired (disown_timer w)).
  - repeat (case_match; try done). by injection Hs as <-.
  - destruct (gos w !! i); [|done]. by apply fmap_Some in Hs as (g & _ & [= ->]).
  - destruct (gos w !! i); [|done]. by apply fmap_Some in Hs as (g & _ & [= ->]).
  - destruct (gos w !! i); [|done]. by apply fmap_Some in Hs as (g & _ & [= ->]).
  - destruct (armed (heartbeat_timer w)); [|done]. injection Hs as <-. cbn. done.
  - destruct (armed (disown_timer w)); [|done]. by injection Hs as <-.
Qed.

Lemma worker_run_idle flagUUID es w :
  run (V11Worker.step uuid_zero uuid_String uuid_FromString encode decode encode_value bind fallback)
    (Running (NewWorker uuid_zero uuid_String uuid_FromString encode flagUUID)) es = Some (Running w) -> idle w.
Proof using Hfront.
  revert w. induction es as [|e es IH] using rev_ind; intros w Hrun.
  - injection Hrun as <-. split; [apply stuck_nil|done].
  - apply run_snoc in Hrun as ([w1| | |] & Hrun & Hs); [|done..]. eapply worker_step_idle; [by apply IH|done].
Qed.

(** A process whose connection ended: [Read()] yields nil. *)
Record lost (p : system11) (w : Worker) : Prop := {
  lost_proc : proc p = Running w;
  lost_open : up_open (conn p);
  lost_read : Socket.buffer_returned (Socket.downstream (conn p)) = true;
  lost_idle : idle w
}.

(** Its loop receives nil, and is where it was. *)
Lemma lost_spins p w : lost p w -> system11_step p Receives = Some p.
Proof using Hfront.
  intros [Hp _ Hr [Hst _]]. unfold System11.system11_step, read_answer, Socket.first_pending.
  rewrite Hp, Hr. unfold proceed. cbn [V11Worker.worker_step].
  destruct (Feed_stuck _ Hst) as [log ->]. unfold V11Worker.on_messages. cbn [foldl sends set_unpacker written].
  rewrite drop_all. destruct p as [q s]. cbn in *. subst q. by destruct w.
Qed.

Lemma worker_step_same w e q :
  answers [e] = [] -> worker_step w e = Some q ->
  (exists w', q = Running w' /\ unpacker w' = unpacker w /\ sessions w' = sessions w /\
     length (gos w') = length (gos w)) \/
  (q = Exited /\ e = DisownTick).
Proof.
  intros He Hs. destruct e as [answer| | |i|i|i|i| |]; cbn [V11Worker.worker_step] in Hs; try done.
  - destruct (fired _); [|done]. injection Hs as <-. left. by eexists.
  - destruct (fired _); [|done]. injection Hs as <-. by right.
  - left. repeat (case_match; try done). injection Hs as <-. eexists. split; [done|]. cbn. by rewrite length_insert.
  - left. destruct (gos w !! i); [|done]. apply fmap_Some in Hs as (g & _ & ->).
    eexists. split; [done|]. cbn. by rewrite length_insert.
  - left. destruct (gos w !! i); [|done]. apply fmap_Some in Hs as (g & _ & ->).
    eexists. split; [done|]. cbn. by rewrite length_insert.
  - left. destruct (gos w !! i); [|done]. apply fmap_Some in Hs as (g & _ & ->).
    eexists. split; [done|]. cbn. by rewrite length_insert.
  - left. destruct (armed _); [|done]. injection Hs as <-. by eexists.
  - left. destruct (armed _); [|done]. injection Hs as <-. by eexists.
Qed.

Lemma proceeds_step p w e : proc p = Running w -> answers [e] = [] ->
  system11_step p (Proceeds e) = proceed uuid_zero uuid_String uuid_FromString encode decode encode_value
    bind fallback w (conn p) e [].
Proof. intros Hp He. unfold System11.system11_step. rewrite Hp. by destruct e. Qed.

(** The other events of the worker go on as before. *)
Lemma lost_proceeds p w e q :
  lost p w -> answers [e] = [] -> worker_step w e = Some q ->
  exists p', system11_step p (Proceeds e) = Some p' /\ proc p' = q /\
    forall w', q = Running w' -> lost p' w'.
Proof using Hfront.
  intros [Hp Ho Hr Hi] He Hs. rewrite (proceeds_step p w e Hp He). unfold proceed. rewrite Hs.
  assert (Hsends : exists frames, sends w q = map Socket.Send frames).
  { destruct q; [by eexists|by exists []..]. }
  destruct Hsends as [frames ->]. destruct (sends11 (conn p) frames Ho) as (s' & Hrun & Ho' & Hd' & _).
  cbn [app]. rewrite Hrun. eexists. split; [reflexivity|]. split; [done|].
  intros w' ->. split; cbn; [done|done|by rewrite Hd'|by eapply worker_step_idle].
Qed.

Lemma lost_step p w e p' :
  lost p w -> system11_step p e = Some p' ->
  (exists w', lost p' w' /\ unpacker w' = unpacker w /\ sessions w' = sessions w /\
     length (gos w') = length (gos w)) \/
  (proc p' = Exited /\ e = Proceeds DisownTick).
Proof using Hfront.
  intros Hl Hs. pose proof Hl as [Hp Ho Hr Hi]. destruct e as [e| |e].
  - left. exists w. split; [|done]. unfold System11.system11_step in Hs. rewrite Hp in Hs.
    destruct (is_internal11 e) eqn:Hint; [|done].
    destruct (Socket.sock_step (conn p) e) as [o|] eqn:Hse; [|done].
    destruct (internal11 _ _ _ Hint Hse) as (s' & -> & _ & _ & Hcc). injection Hs as <-.
    split; cbn; [done|by eapply up_open_step|by rewrite (down_returned_step _ _ _ Hse Hr)|done].
  - left. exists w. rewrite (lost_spins p w Hl) in Hs. by injection Hs as <-.
  - assert (He : answers [e] = []).
    { unfold System11.system11_step in Hs. rewrite Hp in Hs. by destruct e. }
    pose proof Hs as Hs'. rewrite (proceeds_step p w e Hp He) in Hs'. unfold proceed in Hs'.
    destruct (worker_step w e) as [q|] eqn:Hw; [|done].
    destruct (lost_proceeds p w e q Hl He Hw) as (p1 & Hp1 & Hq & Hn).
    rewrite Hp1 in Hs. injection Hs as <-.
    destruct (worker_step_same w e q He Hw) as [(w' & -> & Hu & Hss & Hg)|[-> ->]]; [left|by right].
    exists w'. auto.
Qed.

Lemma lost_run p w es p' :
  lost p w -> run system11_step p es = Some p' ->
  (exists w', lost p' w' /\ unpacker w' = unpacker w /\ sessions w' = sessions w /\
     length (gos w') = length (gos w)) \/
  (proc p' = Exited /\ exists es', es = es' ++ [Proceeds DisownTick]).
Proof using Hfront.
  intros Hl. revert p'. induction es as [|e es IH] using rev_ind; intros p' Hrun.
  - injection Hrun as <-. left. by exists w.
  - apply run_snoc in Hrun as (p1 & Hrun & Hs). destruct (IH p1 Hrun) as [(w1 & Hl1 & Hu & Hss & Hg)|[Hx _]].
    + destruct (lost_step p1 w1 e p' Hl1 Hs) as [(w' & Hl' & Hu' & Hss' & Hg')|[Hx ->]].
      * left. exists w'. split; [done|]. by rewrite Hu', Hss', Hg'.
      * right. split; [done|]. by exists es.
    + unfold System11.system11_step in Hs. by rewrite Hx in Hs.
Qed.

(** The events of the timers. *)
Definition timer_event (e : system11_event) : Prop :=
  e = Proceeds HeartbeatFires \/ e = Proceeds HeartbeatTick \/ e = Proceeds DisownFires \/ e = Proceeds DisownTick.

Lemma lost_timer p w e w' k :
  lost p w -> answers [e] = [] -> timer_event (Proceeds e) -> worker_step w e = Some (Running w') ->
  (forall p', lost p' w' -> exists es p2, Forall timer_event es /\ run system11_step p' es = Some p2 /\ proc p2 = k) ->
  exists es p2, Forall timer_event es /\ run system11_step p es = Some p2 /\ proc p2 = k.
Proof using Hfront.
  intros Hl He Ht Hw Hk. destruct (lost_proceeds p w e _ Hl He Hw) as (p1 & Hp1 & _ & Hn).
  destruct (Hk p1 (Hn w' eq_refl)) as (es & p2 & Hes & Hrun & Hp2).
  exists (Proceeds e :: es), p2. split; [by constructor|]. split; [|done]. cbn [run]. by rewrite Hp1.
Qed.

(** The timers alone end it. *)
Lemma lost_exits p w :
  lost p w -> exists es p2, Forall timer_event es /\ run system11_step p es = Some p2 /\ proc p2 = Exited.
Proof using Hfront.
  assert (Hfired : forall p w, lost p w -> fired (disown_timer w) = true ->
    exists es p2, Forall timer_event es /\ run system11_step p es = Some p2 /\ proc p2 = Exited).
  { intros p0 w0 Hl Hf. destruct (lost_proceeds p0 w0 DisownTick Exited Hl eq_refl) as (p1 & Hp1 & Hx & _).
    { cbn. by rewrite Hf. }
    exists [Proceeds DisownTick], p1. split; [apply Forall_singleton; unfold timer_event; auto|].
    cbn [run]. by rewrite Hp1. }
  assert (Harmed : forall p w, lost p w -> armed (disown_timer w) = true ->
    exists es p2, Forall timer_event es /\ run system11_step p es = Some p2 /\ proc p2 = Exited).
  { intros p0 w0 Hl Ha. eapply (lost_timer p0 w0 DisownFires); [done|done|unfold timer_event; auto| |].
    - cbn. by rewrite Ha.
    - intros p1 Hl1. by eapply Hfired. }
  assert (Htick : forall p w, lost p w -> fired (heartbeat_timer w) = true ->
    exists es p2, Forall timer_event es /\ run system11_step p es = Some p2 /\ proc p2 = Exited).
  { intros p0 w0 Hl Hf. eapply (lost_timer p0 w0 HeartbeatTick); [done|done|unfold timer_event; auto| |].
    - cbn. by rewrite Hf.
    - intros p1 Hl1. by eapply Harmed. }
  intros Hl. pose proof Hl as [_ _ _ [_ Ht]]. unfold ticking in Ht.
  apply orb_true_iff in Ht as [Ha|Hf]; [|by eapply Htick].
  eapply (lost_timer p w HeartbeatFires); [done|done|unfold timer_event; auto| |].
  - cbn. by rewrite Ha.
  - intros p1 Hl1. by eapply Htick.
Qed.
End Ended.


(** ** Witnesses: an echo over a connection that ends *)
Definition sample_events11 : list system11_event :=
  [Internal (Socket.ReadOk [x03; x01; x04]); Internal Socket.WriteOk; Internal Socket.ReadPush; Receives;
   Internal (Socket.ReadOk [x02; x02]); Internal Socket.ReadPush; Receives;
   Proceeds (HandlerReceives 0); Proceeds (HandlerSends 0); Proceeds (HandlerSends 0);
   Proceeds (Outcoming 0); Internal Socket.WriteOk; Internal Socket.WriteOk;
   Internal Socket.ReadErr; Internal Socket.DownInClosed].
Definition sample_step11 :=
  system11_step (UUID := string) "" (fun u => u) inl sample_encode sample_decode (fun _ => None) sample_bind
    defaultFallbackHandler.
Definition sample_launch11 : option system11 := launch11 (UUID := string) "" (fun u => u) inl sample_encode [] "id".


Lemma sample_decode_front tmp res rest :
  sample_decode tmp = DItem res rest -> exists used, used <> [] /\ tmp = used ++ rest.
Proof.
  unfold sample_decode. destruct tmp as [|b1 [|b2 tmp]]; [done|by destruct b1|].
  destruct b1; try done; destruct b2; try done; [intros [= _ <-]; by exists [x03; x01]|].
  destruct tmp as [|b3 tmp]; [done|]. destruct b3; try done. intros [= _ <-]. by exists [x04; x02; x02].
Qed.

