(* ===== verification/HTTPBody.v ===== *)
(** * The bodies of requests: [gzipReader] of cocaine12/httphandler.go and the
    decorators of [decompressBody] of cocaine/httpreq.go

    A handler reads the body of its request through an [io.ReadCloser]. A body
    marked as gzip is read through [compress/gzip], which cocaine12 opens at the
    first [Read] and v0.11 while the request is unpacked. *)
From S2P Require Import Prelude GoTypes Handler HTTP.
From S2P Require V11HTTP.
From Stdlib Require Import ZArith Lia Strings.Byte.

Open Scope stdpp_scope.

(** ** Definitions *)

(** The result of [Read(p)]: the bytes put into [p], and the error. *)
Abbreviation read_result := (list byte * option error)%type.

(** [io.ReadCloser]; [n] is the length of the slice. *)
Class ReadCloser (B : Type) : Type := {
  body_Read : nat -> B -> outcome (B * read_result);
  body_Close : B -> B * option error
}.

(** [bytes.Buffer] in the [NopCloser] of [http.NewRequest] *)
Definition buffer_Read (n : nat) (b : list byte) : list byte * read_result :=
  match b, n with
  | [], S _ => ([], ([], Some EOF))
  | _, _ => (drop n b, (take n b, None))
  end.
#[export] Instance buffer_body : ReadCloser (list byte) := {
  body_Read n b := Ok (buffer_Read n b);
  body_Close b := (b, None)
}.

(** What is used of [compress/gzip], over a buffer that it consumes: a [*Reader]
    that is not nil, or an error; its [Read] and its [Close]. *)
Class Gzip (gz : Type) : Type := {
  gzip_NewReader : list byte -> (gz + error) * list byte;
  gz_Read : nat -> gz -> list byte -> gz * list byte * read_result;
  gz_Close : gz -> option error
}.

Section Gzip.
Context {gz : Type} `{Gzip gz}.

(** [zr] is an interface: nil at first ([None]), then a [*gzip.Reader] that may be
    nil ([Some None]) while the interface is not. *)
Record gzipReader : Type := mkGzipReader {
  body : list byte;
  zr : option (option gz)
}.

(** [gz.zr.Read(p)]; a nil [*gzip.Reader] is dereferenced. *)
Definition zr_Read (n : nat) (g : gzipReader) : outcome (gzipReader * read_result) :=
  match zr g with
  | Some (Some z) =>
    let '(z, b, res) := gz_Read n z (body g) in Ok (mkGzipReader b (Some (Some z)), res)
  | _ => Panic
  end.

Definition gzipReader_Read (n : nat) (g : gzipReader) : outcome (gzipReader * read_result) :=
  match zr g with
  | None =>
    match gzip_NewReader (body g) with
    | (inr err, b) => Ok (mkGzipReader b (Some None), ([], Some err))
    | (inl z, b) => zr_Read n (mkGzipReader b (Some (Some z)))
    end
  | Some _ => zr_Read n g
  end.

Definition gzipReader_Close (g : gzipReader) : gzipReader * option error :=
  let (b, err) := body_Close (body g) in (mkGzipReader b (zr g), err).

#[export] Instance gzipReader_body : ReadCloser gzipReader := {
  body_Read := gzipReader_Read;
  body_Close := gzipReader_Close
}.

(** [readerAndCloser] of v0.11, with its [decompressReaderCloser] *)
Record readerAndCloser : Type := mkReaderAndCloser {
  decompressReader : gz;
  closer_body : list byte
}.

Definition decompressReaderCloser_Close (this : readerAndCloser) : readerAndCloser * option error :=
  let errDec := gz_Close (decompressReader this) in
  let (b, errBody) := body_Close (closer_body this) in
  (mkReaderAndCloser (decompressReader this) b,
   match errDec with Some err => Some err | None => errBody end).

#[export] Instance readerAndCloser_body : ReadCloser readerAndCloser := {
  body_Read n r :=
    let '(z, b, res) := gz_Read n (decompressReader r) (closer_body r) in
    Ok (mkReaderAndCloser z b, res);
  body_Close := decompressReaderCloser_Close
}.
End Gzip.
Arguments gzipReader : clear implicits.
Arguments readerAndCloser : clear implicits.

(** A body that is either of two. *)
#[export] Instance sum_body {B C} `{ReadCloser B} `{ReadCloser C} : ReadCloser (B + C) := {
  body_Read n b :=
    match b with
    | inl b => outcome_bind (body_Read n b) (fun '(b, res) => Ok (inl b, res))
    | inr c => outcome_bind (body_Read n c) (fun '(c, res) => Ok (inr c, res))
    end;
  body_Close b :=
    match b with
    | inl b => let (b, err) := body_Close b in (inl b, err)
    | inr c => let (c, err) := body_Close c in (inr c, err)
    end
}.

Section Open.
Context {gz : Type} `{Gzip gz}.

(** The [Body] of a request that was unpacked, in both versions. *)
Definition Body12 (req : Request) : list byte + gzipReader gz :=
  if gzipped req then inr (mkGzipReader (Body req) None) else inl (Body req).

(** [gzip.NewReader] in [decompressBody] *)
Definition gzip_error (b : list byte) : option error :=
  match gzip_NewReader b with (inr err, _) => Some err | _ => None end.
Definition Body11 (req : Request) : list byte + readerAndCloser gz :=
  match gzip_NewReader (Body req) with
  | (inl z, b) => if gzipped req then inr (mkReaderAndCloser z b) else inl (Body req)
  | _ => inl (Body req)
  end.
End Open.

(** *** Handlers that read the body

    What a handler does with the body of its request before it answers. *)
Inductive body_code (A : Type) : Type :=
| BReturn (a : A)
| BRead (n : nat) (k : read_result -> body_code A)
| BClose (k : option error -> body_code A).
Arguments BReturn {A} a.
Arguments BRead {A} n k.
Arguments BClose {A} k.

Fixpoint exec_body {B A} `{ReadCloser B} (p : body_code A) (b : B) : outcome A :=
  match p with
  | BReturn a => Ok a
  | BRead n k => outcome_bind (body_Read n b) (fun '(b, res) => exec_body (k res) b)
  | BClose k => let (b, err) := body_Close b in exec_body (k err) b
  end.

(** The handler of a request: it answers after it read the body; the panic of a
    [Read] is its own. *)
Definition nil_dereference : string := "runtime error: invalid memory address or nil pointer dereference".
Definition body_handler {B} `{ReadCloser B} (open : Request -> B) (h : Request -> body_code http_prog)
    (req : Request) : http_prog :=
  match exec_body (h req) (open req) with
  | Ok p => p
  | Panic => PPanic nil_dereference
  end.

(** [ioutil.ReadAll] with slices of [n] bytes: the bytes up to the end, or to an error.
    [fuel] bounds its reads. *)
Fixpoint ReadAll (fuel n : nat) (acc : list byte) : body_code (option (list byte * option error)) :=
  match fuel with
  | 0 => BReturn None
  | S fuel =>
    BRead n (fun '(piece, err) =>
      match err with
      | None => ReadAll fuel n (acc ++ piece)
      | Some EOF => BReturn (Some (acc ++ piece, None))
      | Some err => BReturn (Some (acc ++ piece, Some err))
      end)
  end.

(** ** Specification *)

(** Code that leaves the body open. *)
Inductive never_closes {A} : body_code A -> Prop :=
| NCReturn a : never_closes (BReturn a)
| NCRead n k : (forall res, never_closes (k res)) -> never_closes (BRead n k).

(** Code that reads at least once, and closes only the body of the connection. *)
Inductive reads_on {A} : body_code A -> Prop :=
| RORead n k : reads_on (BRead n k)
| ROClose k : (forall err, reads_on (k err)) -> reads_on (BClose k).

(** What [compress/gzip] documents: a reader delivers what was compressed, in pieces
    that are not empty, and then [EOF]. *)
Class GzipLaws {gz : Type} `{Gzip gz} (gunzip : list byte -> option (list byte)) : Type := {
  delivers : gz -> list byte -> list byte -> Prop;
  NewReader_delivers b data : gunzip b = Some data ->
    exists z rest, gzip_NewReader b = (inl z, rest) /\ delivers z rest data;
  gz_Read_delivers n z b data : 0 < n -> delivers z b data ->
    exists z' b' piece err, gz_Read n z b = (z', b', (piece, err)) /\
      piece = take (length piece) data /\
      (err = Some EOF /\ piece = data \/
       err = None /\ piece <> [] /\ delivers z' b' (drop (length piece) data))
}.
Arguments GzipLaws gz {_} gunzip.

(** ** Lemmas *)

Section Lemmas.
Context {gz : Type} `{Gzip gz} {A : Type}.
Implicit Types p : body_code A.

(** The body of one side of a sum. *)
Lemma exec_body_inl {B C} `{ReadCloser B} `{ReadCloser C} p (b : B) :
  exec_body p (inl b : B + C) = exec_body p b.
Proof.
  revert b. induction p as [a|n k IH|k IH]; intros b; cbn; [done| |].
  - destruct (body_Read n b) as [[b' res]|]; [apply IH|done].
  - destruct (body_Close b) as [b' err]. apply IH.
Qed.

Lemma exec_body_inr {B C} `{ReadCloser B} `{ReadCloser C} p (c : C) :
  exec_body p (inr c : B + C) = exec_body p c.
Proof.
  revert c. induction p as [a|n k IH|k IH]; intros c; cbn; [done| |].
  - destruct (body_Read n c) as [[c' res]|]; [apply IH|done].
  - destruct (body_Close c) as [c' err]. apply IH.
Qed.

Lemma exec_buffer p (b : list byte) : exec_body p b <> Panic.
Proof. revert b. induction p as [a|n k IH|k IH]; intros b; cbn; [done| |apply IH]. by destruct (buffer_Read n b). Qed.

(** Once opened, the reader of cocaine12 is that of v0.11. *)
Lemma exec_opened p z b :
  never_closes p ->
  exec_body p (mkGzipReader b (Some (Some z))) = exec_body p (mkReaderAndCloser z b) /\
  exec_body p (mkReaderAndCloser z b) <> Panic.
Proof.
  intros Hp. revert z b. induction Hp as [a|n k _ IH]; intros z b; cbn; [done|].
  unfold gzipReader_Read, zr_Read. cbn. destruct (gz_Read n z b) as [[z' b'] res]. apply IH.
Qed.

Lemma exec_lazy p b z rest :
  gzip_NewReader b = (inl z, rest) -> never_closes p ->
  exec_body p (mkGzipReader b None) = exec_body p (mkReaderAndCloser z rest) /\
  exec_body p (mkReaderAndCloser z rest) <> Panic.
Proof.
  intros Hz Hp. destruct Hp as [a|n k Hk]; [done|].
  destruct (exec_opened (BRead n k) z rest (NCRead n k Hk)) as [<- Hn]. split; [|done].
  cbn. unfold gzipReader_Read. cbn. by rewrite Hz.
Qed.

(** A reader whose header was bad is nil. *)
Lemma exec_nil p b : reads_on p -> exec_body p (mkGzipReader (gz := gz) b (Some None)) = Panic.
Proof. intros Hp. revert b. induction Hp as [n k|k _ IH]; intros b; cbn; [done|apply IH]. Qed.

Lemma exec_bad n k b err rest :
  gzip_NewReader b = (inr err, rest) ->
  exec_body (BRead n k) (mkGzipReader b None) =
    exec_body (A := A) (k ([], Some err)) (mkGzipReader (gz := gz) rest (Some None)).
Proof. intros Hz. cbn. unfold gzipReader_Read. cbn. by rewrite Hz. Qed.
End Lemmas.

(** A handler that reads all gets what was compressed. *)
Lemma ReadAll_never_closes fuel n acc : never_closes (ReadAll fuel n acc).
Proof.
  revert acc. induction fuel as [|fuel IH]; intros acc; cbn; constructor.
  intros [piece [[]|]]; try apply IH; constructor.
Qed.

Lemma ReadAll_buffer n b : 0 < n -> forall fuel acc, length b < fuel ->
  exec_body (ReadAll fuel n acc) b = Ok (Some (acc ++ b, None)).
Proof.
  intros Hn. induction b as [b IH] using (induction_ltof1 _ length). intros [|fuel] acc Hf; [lia|].
  destruct n as [|n]; [lia|]. destruct b as [|x b]; [by cbn|].
  cbn [ReadAll exec_body body_Read buffer_body buffer_Read outcome_bind].
  rewrite IH.
  - by rewrite <- (assoc_L (++)), take_drop.
  - unfold ltof. cbn. rewrite length_drop. lia.
  - cbn in *. rewrite length_drop. lia.
Qed.

Lemma ReadAll_delivers {gz} `{Gzip gz} {gunzip} `{!GzipLaws gz gunzip} n data : 0 < n ->
  forall fuel acc z b, length data < fuel -> delivers z b data ->
  exec_body (ReadAll fuel n acc) (mkReaderAndCloser z b) = Ok (Some (acc ++ data, None)).
Proof.
  intros Hn. induction data as [data IH] using (induction_ltof1 _ length).
  intros [|fuel] acc z b Hf Hd; [lia|].
  destruct (gz_Read_delivers n z b data Hn Hd) as (z' & b' & piece & err & Hr & Hp & Herr).
  cbn [ReadAll exec_body body_Read readerAndCloser_body outcome_bind decompressReader closer_body].
  rewrite Hr. cbn [outcome_bind]. destruct Herr as [[-> ->]|(-> & Hne & Hd')]; [done|].
  assert (0 < length piece) by (destruct piece; cbn; [done|lia]).
  assert (length piece <= length data) by (rewrite Hp, length_take; lia).
  rewrite (IH (drop (length piece) data)); [| | |exact Hd'].
  - rewrite <- (assoc_L (++)). rewrite Hp at 1. by rewrite take_drop.
  - unfold ltof. rewrite length_drop. lia.
  - rewrite length_drop. lia.
Qed.

(** Both versions unpack the same fields, up to the header of a compressed body. *)
Lemma unpack_both {gz : Type} `{Gzip gz}
    (decode12 : gobytes -> (string * string * string * Headers * gobytes) + error)
    (decode11 : gobytes -> option (string * string * Headers * gobytes))
    (request_error : string -> string -> option error)
    raw12 raw11 body method uri version headers :
  decode12 raw12 = inl (method, uri, version, headers, body) ->
  decode11 raw11 = Some (method, uri, headers, body) ->
  request_error method uri = None -> method <> "HEAD" ->
  exists req, UnpackProxyRequest decode12 request_error raw12 = inl req /\
    V11HTTP.UnpackProxyRequest decode11 request_error gzip_error raw11 =
      Ok (if gzipped req then
            match gzip_error (Body req) with
            | Some err => inr (Errorf "Could not decompress gzip body due to error %v" [])
            | None => inl req
            end
          else inl req).
Proof.
  intros H12 H11 He Hm. unfold V11HTTP.UnpackProxyRequest, UnpackProxyRequest.
  rewrite H12, H11, He. unfold V11HTTP.decompressBody.
  cbn [ContentLength Header HTTP.Body Method URI Host RemoteAddr].
  set (m := if decide (method = "") then "GET" else method).
  assert (m <> "HEAD") by (unfold m; by case_decide).
  rewrite (bool_decide_ext (0 < Z.of_nat (length (bytes_of body)))%Z
             (m <> "HEAD" /\ Z.of_nat (length (bytes_of body)) <> 0%Z)) by (split; [split; [done|]|]; lia).
  destruct (_ && _); eexists; by split.
Qed.

(** ** Property *)


(** ** Witness: a format that stores its contents behind one byte *)
#[local] Instance stored : Gzip unit := {
  gzip_NewReader b := match b with
    | x1f :: b => (inl tt, b)
    | _ => (inr (ExtErr "gzip: invalid header"), b)
    end;
  gz_Read n _ b := let (b, res) := buffer_Read n b in (tt, b, res);
  gz_Close _ := None
}.
Definition stored_contents (b : list byte) : option (list byte) :=
  match b with x1f :: b => Some b | _ => None end.
#[local] Program Instance stored_laws : GzipLaws unit stored_contents := {
  delivers _ b data := b = data
}.
Next Obligation. intros [|x b] data; cbn; [done|]. destruct x; try done. intros [= ->]. by exists tt, data. Qed.
Next Obligation.
  intros [|n] [] b data Hn <-; [lia|]. cbn [gz_Read stored]. destruct b as [|x b].
  - exists tt, [], [], (Some EOF). split_and!; [done..|by left].
  - exists tt, (drop n b), (x :: take n b), None. split_and!; [done| |].
    + cbn. f_equal. rewrite length_take. destruct (decide (n <= length b)).
      * by rewrite Nat.min_l.
      * rewrite Nat.min_r by lia. by rewrite !take_ge by lia.
    + right. split_and!; [done..|]. cbn. rewrite length_take. destruct (decide (n <= length b)).
      * by rewrite Nat.min_l.
      * rewrite Nat.min_r by lia. by rewrite !drop_ge by lia.
Qed.

Definition stored_headers : Headers := [("host", "h"); ("content-encoding", "gzip")].
Definition decode_stored12 (b : gobytes) : (string * string * string * Headers * gobytes) + error :=
  inl ("POST", "/", "1.1", stored_headers, b).
Definition decode_stored11 (b : gobytes) : option (string * string * Headers * gobytes) :=
  Some ("POST", "/", stored_headers, b).

