(* ===== verification/HTTPApp.v ===== *)
(** * Applications of HTTP handlers: cocaine12/httphandler.go from the arguments of
    the process to the answers of the sessions

    Handlers that also read multipart forms, whose temporary files [finishRequest]
    removes in both versions; the wrappers that make a map of them event handlers;
    and the application that [Run] makes of such a map (Programs.v, App.v). *)
From S2P Require Import Prelude GoTypes ProtoV1 Worker App.
From S2P Require Handler Startup Defaults HTTP V11Message V11Worker V11HTTP Programs.
From Stdlib Require Import ZArith Lia Strings.Byte.
Import Handler (handler_prog, HReturn, HRead, HWrite, HClose).
Import HTTP (header, Headers, Request, ResponseWriter, mkWriter, handlerHeader, written, contentLength,
  status, wroteHeader, newResponseWriter, StatusOK, http_prog, PReturn, PPanic, PHeader, PWriteHeader,
  PWrite, PWriteString).
Import V11HTTP (output, put_head, put_body, http_run, http_reply, chunk_of).

Open Scope stdpp_scope.

(** ** Multipart forms

    [MultipartForm] of the request, as the temporary files it keeps; how often the
    body was parsed; and the temporary files on the disk. *)
Record form_state : Type := mkForm {
  MultipartForm : option (list string);
  attempts : nat;
  disk : gset string
}.

(** A [net/http] handler that also calls [ParseMultipartForm] of its request. *)
Inductive form_prog : Type :=
| FReturn
| FPanic (info : string)
| FHeader (edit : header -> header) (k : form_prog)
| FWriteHeader (code : Z) (k : form_prog)
| FWrite (data : gobytes) (k : nat * option error -> form_prog)
| FWriteString (data : string) (k : nat * option error -> form_prog)
| FParse (k : option error -> form_prog).

Section Forms.
(** What [multipart.Reader.ReadForm] makes of the body at its n-th call: the number
    of files it needs, or an error, for which it keeps none. *)
Context (ReadForm : nat -> nat + error).
(** The name that [os.CreateTemp] gives a file. *)
Context (CreateTemp : gset string -> string).

Fixpoint create_files (n : nat) (d : gset string) : list string * gset string :=
  match n with
  | 0 => ([], d)
  | S n =>
    let f := CreateTemp d in
    let '(fs, d) := create_files n ({[f]} ∪ d) in (f :: fs, d)
  end.

(** [http.Request.ParseMultipartForm]: a form that was parsed is kept. *)
Definition ParseMultipartForm (st : form_state) : form_state * option error :=
  match MultipartForm st with
  | Some _ => (st, None)
  | None =>
    match ReadForm (attempts st) with
    | inr err => (mkForm None (S (attempts st)) (disk st), Some err)
    | inl n =>
      let '(fs, d) := create_files n (disk st) in (mkForm (Some fs) (S (attempts st)) d, None)
    end
  end.

(** [multipart.Form.RemoveAll] in [finishRequest] of both versions. *)
Definition RemoveAll (files : list string) (d : gset string) : gset string := d ∖ list_to_set files.
Definition finish_form (st : form_state) : form_state :=
  match MultipartForm st with
  | Some files => mkForm (MultipartForm st) (attempts st) (RemoveAll files (disk st))
  | None => st
  end.

(** The handler as a program of HTTP.v: what a parse returns does not depend on the
    disk. [parsed] is the number of failed parses, until one succeeded. *)
Fixpoint http_of (parsed : option nat) (p : form_prog) : http_prog :=
  match p with
  | FReturn => PReturn
  | FPanic info => PPanic info
  | FHeader edit p => PHeader edit (http_of parsed p)
  | FWriteHeader code p => PWriteHeader code (http_of parsed p)
  | FWrite data p => PWrite data (fun res => http_of parsed (p res))
  | FWriteString data p => PWriteString data (fun res => http_of parsed (p res))
  | FParse p =>
    match parsed with
    | None => http_of None (p None)
    | Some n =>
      match ReadForm n with
      | inl _ => http_of None (p None)
      | inr err => http_of (Some (S n)) (p (Some err))
      end
    end
  end.

(** The run of the handler with the disk: what it puts out, how it ends. *)
Fixpoint form_run (p : form_prog) (w : ResponseWriter) (st : form_state)
    : list output * ResponseWriter * option string * form_state :=
  match p with
  | FReturn => ([], w, None, st)
  | FPanic info => ([], w, Some info, st)
  | FHeader edit p =>
    form_run p (mkWriter (edit (handlerHeader w)) (written w) (contentLength w) (status w)
                  (wroteHeader w)) st
  | FWriteHeader code p =>
    let (o, w) := put_head code w in
    let '(o', w, i, st) := form_run p w st in (o ++ o', w, i, st)
  | FWrite data p =>
    let (o, w) := put_head StatusOK w in
    let '(o', w, res) := put_body data false w in
    let '(o'', w, i, st) := form_run (p res) w st in (o ++ o' ++ o'', w, i, st)
  | FWriteString data p =>
    let (o, w) := put_head StatusOK w in
    let '(o', w, res) := put_body (bytes_of_string data) true w in
    let '(o'', w, i, st) := form_run (p res) w st in (o ++ o' ++ o'', w, i, st)
  | FParse p => let (st, res) := ParseMultipartForm st in form_run (p res) w st
  end.

(** A whole request: the handler, then [finishRequest], which a panic skips. *)
Definition form_reply (p : form_prog) (d : gset string) : list output * option string * gset string :=
  match form_run p newResponseWriter (mkForm None 0 d) with
  | (o, w, None, st) => (o ++ (put_head StatusOK w).1, None, disk (finish_form st))
  | (o, _, Some info, st) => (o, Some info, disk st)
  end.

(** *** Lemmas *)

Definition pending (st : form_state) : option nat :=
  match MultipartForm st with Some _ => None | None => Some (attempts st) end.

Lemma form_run_http p w st : (form_run p w st).1 = http_run (http_of (pending st) p) w.
Proof.
  revert w st. induction p as [|info|edit p IH|code p IH|data p IH|data p IH|p IH]; intros w st;
    cbn [form_run http_of http_run]; try done.
  - destruct (put_head code w) as [o w']. rewrite <- IH. by destruct (form_run p w' st) as [[[] ?] ?].
  - destruct (put_head StatusOK w) as [o w1]. destruct (put_body data false w1) as [[o' w2] res].
    rewrite <- IH. by destruct (form_run (p res) w2 st) as [[[] ?] ?].
  - destruct (put_head StatusOK w) as [o w1].
    destruct (put_body (bytes_of_string data) true w1) as [[o' w2] res].
    rewrite <- IH. by destruct (form_run (p res) w2 st) as [[[] ?] ?].
  - unfold ParseMultipartForm, pending. destruct (MultipartForm st) as [fs|] eqn:Hf.
    + rewrite IH. unfold pending. by rewrite Hf.
    + destruct (ReadForm (attempts st)) as [n|err]; [|by rewrite IH].
      destruct (create_files n (disk st)) as [fs d]. by rewrite IH.
Qed.

(** The answer of a request is that of the program without the disk. *)
Lemma form_reply_http p d : (form_reply p d).1 = http_reply (http_of (Some 0) p).
Proof.
  unfold form_reply, http_reply. pose proof (form_run_http p newResponseWriter (mkForm None 0 d)) as H.
  cbn [pending MultipartForm attempts] in H. rewrite <- H.
  by destruct (form_run p newResponseWriter _) as [[[o w] [info|]] st].
Qed.

Hypothesis CreateTemp_fresh : forall d, CreateTemp d ∉ d.

Lemma create_files_disk n d :
  (create_files n d).2 = list_to_set (create_files n d).1 ∪ d /\
  (list_to_set (create_files n d).1 : gset string) ## d.
Proof using CreateTemp_fresh.
  clear ReadForm. revert d. induction n as [|n IH]; intros d; cbn; [set_solver|].
  pose proof (CreateTemp_fresh d) as Hf. specialize (IH ({[CreateTemp d]} ∪ d)).
  destruct (create_files n _) as [fs d']. cbn in *. destruct IH as [-> Hdis]. set_solver.
Qed.

(** The disk: that of the start and the files of the form. *)
Definition form_inv (d : gset string) (st : form_state) : Prop :=
  let files := list_to_set (default [] (MultipartForm st)) in disk st = files ∪ d /\ files ## d.

Lemma parse_inv d st : form_inv d st -> form_inv d (ParseMultipartForm st).1.
Proof using CreateTemp_fresh.
  unfold form_inv, ParseMultipartForm. intros [Hd Hf]. destruct (MultipartForm st) as [fs|] eqn:Hm.
  { cbn. rewrite Hm. done. }
  assert (disk st = d) as Hd' by set_solver.
  destruct (ReadForm (attempts st)) as [n|err]; [|cbn; set_solver].
  pose proof (create_files_disk n (disk st)) as [Hc Hdis]. destruct (create_files n (disk st)) as [fs d'].
  cbn in *. by rewrite <- Hd'.
Qed.

Lemma form_run_inv d p w st : form_inv d st -> form_inv d (form_run p w st).2.
Proof using CreateTemp_fresh.
  revert w st. induction p as [|info|edit p IH|code p IH|data p IH|data p IH|p IH]; intros w st Hi;
    cbn [form_run]; try done.
  - by apply IH.
  - destruct (put_head code w) as [o w']. specialize (IH w' st Hi).
    by destruct (form_run p w' st) as [[[] ?] ?].
  - destruct (put_head StatusOK w) as [o w1]. destruct (put_body data false w1) as [[o' w2] res].
    specialize (IH res w2 st Hi). by destruct (form_run (p res) w2 st) as [[[] ?] ?].
  - destruct (put_head StatusOK w) as [o w1].
    destruct (put_body (bytes_of_string data) true w1) as [[o' w2] res].
    specialize (IH res w2 st Hi). by destruct (form_run (p res) w2 st) as [[[] ?] ?].
  - pose proof (parse_inv d st Hi) as Hp. destruct (ParseMultipartForm st) as [st' res]. by apply IH.
Qed.

Lemma finish_form_disk d st : form_inv d st -> disk (finish_form st) = d.
Proof.
  clear CreateTemp_fresh CreateTemp ReadForm. unfold form_inv, finish_form, RemoveAll. intros [Hd Hf].
  destruct (MultipartForm st) as [fs|]; cbn in *; rewrite Hd; set_solver.
Qed.

(** A handler that returns leaves no file of its form, one that panics all. *)
Lemma form_reply_disk p d :
  let '(_, panic, d') := form_reply p d in
  d ⊆ d' /\ (panic = None -> d' = d).
Proof using CreateTemp_fresh.
  unfold form_reply. pose proof (form_run_inv d p newResponseWriter (mkForm None 0 d)) as H.
  destruct (form_run p newResponseWriter _) as [[[o w] [info|]] st]; cbn in *.
  - destruct H as [H _]; [split; cbn; set_solver|]. split; [set_solver|done].
  - rewrite (finish_form_disk d) by (apply H; split; cbn; set_solver). set_solver.
Qed.
End Forms.

(** ** Wrappers and applications *)
Section Application.
Context (decode_request : gobytes -> (string * string * string * Headers * gobytes) + error).
Context (encode_head : Z -> Headers -> gobytes).
Context (request_error : string -> string -> option error).
Context (range : header -> list (string * list string)).
Context (error_text : error -> string).
(** The parts of a form in the body of a request, and the names of new files. *)
Context (ReadForm : Request -> nat -> nat + error).
Context (CreateTemp : gset string -> string).
#[local] Abbreviation UnpackProxyRequest := (HTTP.UnpackProxyRequest decode_request request_error).

(** [WrapHandlerFunc], whose handler is one of [WrapHandler]; the context of an
    invocation is never done. *)
Definition WrapHandlerFunc (hf : Request -> form_prog) : handler_prog :=
  HTTP.WrapHandler decode_request encode_head request_error range error_text false
    (fun req => http_of (ReadForm req) (Some 0) (hf req)).

(** [WrapHandleFuncs] *)
Definition WrapHandleFuncs (hfs : gmap string (Request -> form_prog)) : gmap string handler_prog :=
  WrapHandlerFunc <$> hfs.

(** [WrapHTTPFunc] and [WrapHTTPFuncs]; the handlers also get the context. *)
Definition WrapHTTPFunc {Ctx : Type} (ctx : Ctx) (hf : Ctx -> Request -> form_prog) : handler_prog :=
  WrapHandlerFunc (hf ctx).
Definition WrapHTTPFuncs {Ctx : Type} (ctx : Ctx) (hfs : gmap string (Ctx -> Request -> form_prog))
    : gmap string handler_prog := WrapHTTPFunc ctx <$> hfs.

(** *** Specification: the answer of a session of an HTTP handler *)

Definition chunks (s : Z) (out : list gobytes) : list Message := map (newChunkV1 s) out ++ [newChokeV1 s].

(** What its client gets, of the result of the first read; the panic of the handler
    and the temporary files of a process that had [d]. *)
Definition http_answer (hf : Request -> form_prog) (s : Z) (res : gobytes * option error) (d : gset string)
    : list Message * option string * gset string :=
  let refused text := (chunks s [Handler.copy_bytes (encode_head 400 []); bytes_of_string text], None, d) in
  match res with
  | (_, Some err) => refused ("cannot process request " +:+ error_text err)
  | (raw, None) =>
    match UnpackProxyRequest raw with
    | inr _ => refused "malformed request"
    | inl req =>
      let '(out, panic, d) := form_reply (ReadForm req) CreateTemp (hf req) d in
      (chunks s (map (chunk_of encode_head range) out), panic, d)
    end
  end.

(** *** Lemmas *)

Lemma wrapped_invocation hf event stack reads s d :
  Handler.sent (Handler.invocation event (WrapHandlerFunc hf) stack reads s) =
    (http_answer hf s (reads 0) d).1.1.
Proof.
  unfold WrapHandlerFunc, http_answer. destruct (reads 0) as [raw [err|]] eqn:Hr.
  - unfold Handler.invocation, HTTP.WrapHandler. cbn [Handler.exec_handler]. by rewrite Hr.
  - destruct (UnpackProxyRequest raw) as [req|err] eqn:Hu.
    + pose proof (V11HTTP.exec_adapter encode_head range (http_of (ReadForm req) (Some 0) (hf req))
        (fun n => reads (S n)) s) as Hx.
      rewrite <- (form_reply_http (ReadForm req) CreateTemp (hf req) d) in Hx.
      destruct (form_reply _ _ (hf req) d) as [[out panic] d'].
      set (p := HTTP.WrapHandler _ _ _ _ _ _ _).
      assert (Hp : Handler.exec_handler p reads (Handler.newResponse s) =
        (Handler.mkResponse s true (chunks s (map (chunk_of encode_head range) out)), panic)).
      { unfold p, HTTP.WrapHandler. cbn [Handler.exec_handler]. rewrite Hr, Hu. exact Hx. }
      rewrite HTTP.invocation_after_close; by rewrite Hp.
    + unfold Handler.invocation, HTTP.WrapHandler. cbn [Handler.exec_handler]. by rewrite Hr, Hu.
Qed.

Lemma http_answer_disk hf s res d :
  (forall d, CreateTemp d ∉ d) ->
  let '(_, panic, d') := http_answer hf s res d in d ⊆ d' /\ (panic = None -> d' = d).
Proof.
  intros Hf. unfold http_answer. destruct res as [raw [err|]]; [done|].
  destruct (UnpackProxyRequest raw) as [req|]; [|done].
  pose proof (form_reply_disk (ReadForm req) CreateTemp Hf (hf req) d) as H.
  by destruct (form_reply _ _ (hf req) d) as [[out panic] d'].
Qed.
End Application.

(** The adapter of v0.11 with a handler that reads forms: its frames are those of the
    same run, the disk that of [form_reply]. *)
Lemma v11_form_frames {UUID : Type} (uuid_String : UUID -> string) (encode : list value -> list byte)
    (encode_value : value -> gobytes)
    (decode11 : gobytes -> option (string * string * Headers * gobytes))
    (request_error : string -> string -> option error) (gzip_error : list byte -> option error)
    (range : header -> list (string * list string)) (ReadForm : Request -> nat -> nat + error)
    (CreateTemp : gset string -> string) (hf : Request -> form_prog) (event : string)
    (reads : nat -> gobytes) (session : Z) (req : Request) (d : gset string) :
  V11HTTP.UnpackProxyRequest decode11 request_error gzip_error (reads 0) = Ok (inl req) ->
  let '(out, panic, _) := form_reply (ReadForm req) CreateTemp (hf req) d in
  V11HTTP.go_frames (V11Worker.go_callback uuid_String encode encode_value session event
    (V11HTTP.WrapHandler decode11 request_error gzip_error range
       (fun req => http_of (ReadForm req) (Some 0) (hf req)))) reads =
  map (V11HTTP.frame_of uuid_String encode encode_value range session) out ++
  map (V11Message.packMsg uuid_String encode)
    (match panic with
     | None => [V11Message.choke (V11Message.mkMessageInfo V11Message.CHOKE session)]
     | Some info =>
       [V11Message.errorMsg (V11Message.mkMessageInfo V11Message.ERROR session) 1
          ("Error in event: '" +:+ event +:+ "', exception: " +:+ info);
        V11Message.choke (V11Message.mkMessageInfo V11Message.CHOKE session)]
     end).
Proof.
  intros H11. pose proof (form_reply_http (ReadForm req) CreateTemp (hf req) d) as Hf.
  destruct (form_reply _ _ (hf req) d) as [[out panic] d']. cbn [fst] in Hf.
  unfold V11Worker.go_callback, V11HTTP.WrapHandler. cbn [V11Worker.go_handler V11HTTP.go_frames].
  rewrite H11, V11HTTP.frames_adapter, <- Hf. by destruct panic.
Qed.

(** [Run] binds the handlers of its argument and leaves the worker alone. *)
Lemma Run_facade order w :
  Startup.handlers (Programs.Run order w) = Handler.bind_all order (Startup.handlers w) /\
  Startup.impl (Programs.Run order w) = Startup.impl w /\
  Startup.terminationHandler (Programs.Run order w) = Startup.terminationHandler w.
Proof.
  revert w. induction order as [|[event h] order IH]; intros w; [done|].
  destruct (IH (Programs.On event h w)) as (Hh & Hi & Ht). done.
Qed.

(** The handler that a map of handlers has for an event. *)
Lemma Call_bound (order : list (string * option handler_prog)) (hs : gmap string handler_prog) event :
  order ≡ₚ map_to_list (Some <$> hs : gmap string (option handler_prog)) ->
  Handler.Call (Handler.bind_all order Handler.NewEventHandlers) event =
    default (Handler.DefaultFallbackHandler event) (hs !! event).
Proof.
  intros Ho.
  assert (Hf : forall o e, Handler.fallback (Handler.bind_all o e) = Handler.fallback e).
  { intros o. induction o as [|[ev h] o IH]; intros e; [done|]. apply (IH (Handler.On ev h e)). }
  unfold Handler.Call. rewrite Handler.bind_all_lookup, Hf by (rewrite Ho; apply NoDup_fst_map_to_list).
  assert (Hm : (list_to_map order : gmap string (option handler_prog)) = Some <$> hs).
  { rewrite <- (list_to_map_to_list (Some <$> hs)). apply list_to_map_proper; [|done].
    rewrite Ho. apply NoDup_fst_map_to_list. }
  rewrite Hm, lookup_fmap. by destruct (hs !! event).
Qed.

(** ** Property *)

(** C6 (functional): an application of HTTP handlers, from the arguments of its
    process to the answers of its sessions: in every run, whatever arrives and however
    its sessions interleave, a session that ended without a panic of [Read] was
    answered with what the reference run of the handler of its event puts out, head and
    body, and a choke; with a 400 when its first read failed or gave no request; with
    error 200 when no handler has its event. This is what the connection carries for
    it, unless it was closed. Whatever form a handler parsed, the files of it are
    removed when it returns; they stay when it panics. *)
Theorem http_application {Factory Manager : Type}
    (Create : Factory -> string -> Tokens.Token -> Manager + error)
    (dial : string -> option error) (text error_text : error -> string)
    (getenv : string -> string) (os_args : list string) (stored : option Defaults.defaultValues)
    (factories : gmap string Factory) (lost : bool) (hsel sel : write_select)
    (convertPayload : list value -> (Z * Z * string) + error) (stack : string)
    (unwinding : handler_prog -> handler_prog)
    (decode_request : gobytes -> (string * string * string * Headers * gobytes) + error)
    (encode_head : Z -> Headers -> gobytes) (request_error : string -> string -> option error)
    (range : header -> list (string * list string))
    (ReadForm : Request -> nat -> nat + error) (CreateTemp : gset string -> string)
    (hfs : gmap string (Request -> form_prog)) (order : list (string * option handler_prog))
    (values : Defaults.defaultValues) (s : Startup.startup) (w : Startup.Worker)
    (es : list app_event) (a : app)
    (Hfresh : forall d, CreateTemp d ∉ d)
    (Hstart : Startup.NewWorkerNG Create dial text getenv os_args stored factories lost hsel = Some (values, s))
    (Hw : Startup.NewWorker s = inl w)
    (Horder : order ≡ₚ map_to_list (Some <$>
       WrapHandleFuncs decode_request encode_head request_error range error_text ReadForm hfs))
    (Hrun : Programs.run_application convertPayload stack unwinding order w sel es = Some (Ok a)) :
  let sp := foldl spec_msg spec_init (dispatched (worker_events es)) in
  let http_answer := http_answer decode_request encode_head request_error range error_text ReadForm CreateTemp in
  forall i g d, gos (a_worker a) !! i = Some g -> a_gos a !! i = Some d ->
    prog d = None -> corrupt d = false ->
    exists answer,
      on_wire (g_session g) (a_worker a) `sublist_of` answer /\
      (conn_closed (a_worker a) = false -> on_wire (g_session g) (a_worker a) = answer) /\
      match hfs !! g_event g with
      | None =>
        answer = [newErrorV1 (g_session g) 42 200 ("There is no handler for an event " +:+ g_event g)]
      | Some hf => exists res st,
        streams sp !! g_session g = Some st /\
        ((exists m ms, msgs st = m :: ms /\ Handler.Read convertPayload (Handler.ReadMsg m) = Ok res) \/
         st = mkStream false [] /\ res = stream_closed) /\
        forall files, let '(sent, panic, kept) := http_answer hf (g_session g) res files in
          answer = sent /\ files ⊆ kept /\ (panic = None -> kept = files)
      end.
Proof.
  intros sp ans i g d Hi Hd Hp Hco.
  unfold Startup.NewWorker in Hw. destruct (Startup.result s) as [w0|] eqn:Hw0; [|done]. injection Hw as <-.
  pose proof (Programs.started_worker _ _ _ _ _ _ _ _ _ _ _ _ Hstart Hw0) as Hnew.
  destruct (new_worker _ _ _ _ _ _ Hnew) as (Hr0 & Hg0 & Hwr0).
  unfold Programs.run_application in Hrun. destruct (Run_facade order (Startup.mkFacade w0
    Handler.NewEventHandlers false)) as (Hh & Him & Hth).
  rewrite Hh, Him, Hth in Hrun. cbn [Startup.handlers Startup.impl Startup.terminationHandler] in Hrun.
  assert (Hinv := app_run_inv _ _ _ _ _ _ _ Hr0 Hg0 Hwr0 Hrun).
  pose proof (ai_gos _ _ _ _ _ Hinv i g d Hi Hd) as Hg. exists (Handler.sent (resp d)).
  split; [apply Hg|]. split; [apply Hg|].
  pose proof (Call_bound order _ (g_event g) Horder) as Hcall. unfold WrapHandleFuncs in Hcall.
  rewrite lookup_fmap in Hcall. destruct (hfs !! g_event g) as [hf|]; cbn in Hcall.
  - destruct (Programs.answered _ Hg (ai_rel _ _ _ _ _ Hinv) Hi Hco Hp Hcall) as (res & st & rs & Hst & Hres & Hrs & Hd').
    { by eexists. }
    exists res, st. split; [done|]. split; [done|]. intros files.
    pose proof (wrapped_invocation decode_request encode_head request_error range error_text ReadForm
      CreateTemp hf (g_event g) stack rs (g_session g) files) as Hsent.
    rewrite <- Hd', Hrs in Hsent. fold ans in Hsent.
    pose proof (http_answer_disk decode_request encode_head request_error range error_text ReadForm
      CreateTemp hf (g_session g) res files Hfresh) as Hdisk. fold ans in Hdisk.
    by destruct (ans hf (g_session g) res files) as [[out panic] kept].
  - pose proof (gi_exec _ _ _ _ _ _ Hg Hco (fun _ => stream_closed)) as Hex.
    unfold handler_of in Hex. rewrite Hp, Hcall in Hex. rewrite Hex. apply Programs.fallback_invocation.
Qed.

(** ** Witness: a handler that parses a form of two files, and an unknown event *)
Definition sample_form (req : Request) : form_prog :=
  FParse (fun err =>
    FWriteString (match err with Some _ => "no" | None => "ok" end) (fun _ => FReturn)).
Definition sample_forms : gmap string (Request -> form_prog) := {["http" := sample_form]}.
Definition sample_order : list (string * option handler_prog) :=
  map_to_list (Some <$> WrapHandleFuncs HTTP.sample_decode HTTP.sample_head HTTP.sample_check map_to_list
    (fun _ => "") (fun _ _ => inl 2) sample_forms).
Definition sample_requests : list app_event :=
  [WorkerEvent (MsgReceived (newInvokeV1 2 "http") Sent);
   WorkerEvent (MsgReceived (newInvokeV1 3 "pong") Sent);
   WorkerEvent (MsgReceived (newChunkV1 2 (bytes_of_string "x")) Sent);
   Act 1 true; Act 0 true; Act 0 true; Act 1 true; Act 0 true; Act 0 true; Act 0 true].

Lemma sample_order_perm : sample_order ≡ₚ map_to_list (Some <$>
  WrapHandleFuncs HTTP.sample_decode HTTP.sample_head HTTP.sample_check map_to_list
    (fun _ => "") (fun _ _ => inl 2) sample_forms).
Proof. unfold sample_order. reflexivity. Qed.

Lemma http_application_witness :
  match Programs.sample_process with
  | Some (values, s) =>
    match Startup.NewWorker s with
    | inl w =>
      match Programs.run_application (fun _ => inr EOF) "" (fun p => p) sample_order w Sent sample_requests with
      | Some (Ok a) => on_wire 2 (a_worker a) =
          [newChunkV1 2 (HTTP.sample_head 200 []); newChunkV1 2 (bytes_of_string "ok"); newChokeV1 2]
      | _ => False
      end
    | _ => False
    end
  | None => False
  end.
Proof.
  destruct Programs.sample_process as [[values s]|] eqn:Hs; [|vm_compute in Hs; discriminate].
  destruct (Startup.NewWorker s) as [w|] eqn:Hw;
    [|vm_compute in Hs; injection Hs as <- <-; vm_compute in Hw; discriminate].
  destruct (Programs.run_application _ _ _ _ _ _ _) as [[a|]|] eqn:Hrun;
    [|vm_compute in Hs; injection Hs as <- <-; vm_compute in Hw; injection Hw as <-;
      vm_compute in Hrun; discriminate..].
  pose proof (http_application _ _ _ _ _ _ _ _ _ _ _ _ _ _ HTTP.sample_decode HTTP.sample_head
    HTTP.sample_check map_to_list (fun _ _ => inl 2) (fun d => fresh d) sample_forms sample_order _ _ _ _ _
    (fun d => is_fresh d) Hs Hw sample_order_perm Hrun 0) as H. cbv zeta in H.
  vm_compute in Hs. injection Hs as <- <-. vm_compute in Hw. injection Hw as <-.
  vm_compute in Hrun. injection Hrun as <-.
  destruct (H _ _ eq_refl eq_refl eq_refl eq_refl) as (answer & _ & Hwire & Hans).
  specialize (Hwire eq_refl). cbn [a_worker g_session g_event] in Hwire, Hans |- *.
  rewrite Hwire. change (sample_forms !! "http") with (Some sample_form) in Hans.
  destruct Hans as (res & st & Hst & Hres & Hfiles). vm_compute in Hst. injection Hst as <-.
  destruct Hres as [(m & ms & Hm & Hread)|[[=] _]]. vm_compute in Hm. injection Hm as <- <-.
  vm_compute in Hread. injection Hread as <-. specialize (Hfiles ∅).
  vm_compute in Hfiles. destruct Hfiles as [-> _]. by vm_compute.
Defined.
